(* ===== verification/_CoqProject ===== *)
-Q . S2P
Prelude.v
Steps.v
Returns.v
Api.v
Memory.v
Version.v
Webhook.v
PoolOps.v
VolumeApi.v
VolumeMemory.v
VolumeWebhook.v
Registration.v
Debug.v
DebugClient.v
Algorithm.v
PoolDeploy.v
Zcmd.v
Zpool.v
Zfs.v
Zaccess.v
Zspec.v
PoolApi.v
StringFacts.v
TargetDeploy.v
VolumeOps.v
VolumeSync.v
CspcStatus.v
CspcCleanup.v
CspcOps.v
CspcSync.v
VolumeReplica.v
PoolManager.v
CspiSync.v
ReplicaSync.v
BackupApi.v
Backup.v
Restore.v
TargetApi.v
VolumeTarget.v
VolumeMgmt.v
TargetServer.v
Snapshot.v
HttpServer.v
BackupRest.v
RestoreRest.v
Controllers.v
Workers.v
Startup.v
TargetFacts.v
PoolLock.v
PoolFacts.v
PoolMemory.v
TargetMemory.v
BackupFacts.v
RestoreFacts.v
ServerFacts.v
RegistrationFacts.v
Keyed.v
BackupMemory.v
WorkerFacts.v
WorkerMemory.v
ReturnFacts.v
DistributionFacts.v
Fixtures.v
AdmissionProps.v
OperatorProps.v
VolumeProps.v
PoolProps.v
TargetProps.v
BackupProps.v
ServerProps.v
RegistrationProps.v
WorkerProps.v
