(* ===== verification/Prelude.v ===== *)
(** * Verification of the cStor operators

    cstor-operators is a set of Kubernetes operators that manage cStor storage: pools
    made of raid groups of block devices, one per node, and replicated volumes on them.
    A user writes a CStorPoolCluster; the admission webhook decides whether it may be
    stored, and the CStorPoolCluster operator creates, grows and removes one
    CStorPoolInstance (with its deployment and its BlockDeviceClaims) per pool.  On each
    node a pool manager turns its pool instance into a zpool, with zpool and zfs
    commands, and the CStorVolumeReplicas of the pool into zfs volumes.  A
    CStorVolumeConfig asks for a volume: its controller creates the target, the
    CStorVolume and the replicas on several pools, scales and resizes them.

    Beside the iSCSI target of a volume a volume manager writes the configuration of the
    target and resizes and scales the volume with commands to the target; it also registers
    the replicas that connect and takes snapshots.  A REST server of the operator accepts
    backups and restores of volumes: it stores CStorBackups and CStorRestores, and two more
    controllers of the pool manager transfer the snapshots.

    This library models these programs (the webhook with its registration, the
    CStorPoolCluster operator, the volume configuration controller with its REST server,
    the four controllers of the pool manager with their commands, and the volume manager)
    from their Go sources, and proves what they guarantee.

    ** The parts and where they are

    - [Prelude]: Go errors, panics, state and loops; strings, maps and int32.
    - [Api]: the objects of github.com/openebs/api and of Kubernetes, for the fields
      the program reads or writes; the typed clients ([ResourceClient]), the process
      environment ([Env], [PodEnv]) and the helpers of the api package ([OpenebsApi])
      as classes, with what is used of them as laws ([OpenebsApiLaws]).
    - [Memory]: an in-memory cluster with resource versions and finalizers that is an
      instance of these classes; [Fixtures]: small clusters for it.
    - [Version]: pkg/version/version.go and util.go, and the order they decide.
    - [Webhook]: pkg/webhook/cspc.go and admission_response.go: validation of a
      CStorPoolCluster, the create, update and delete requests.
    - [PoolOps]: pkg/webhook/cspc_operations.go and ByteCount of util.go: which
      changes of a stored cluster are admitted.
    - [VolumeWebhook]: pkg/webhook/cvc.go, pvc.go, namespace.go and the dispatch of
      webhook.go.
    - [Registration]: pkg/webhook/configuration.go, triple.go and the server of
      webhook.go: the certificates, the objects of the webhook and their upgrade.
    - [Algorithm]: pkg/cspc/algorithm/select_node.go, build_csp.go and config.go:
      choosing a node, claiming its devices, building the pool instance.
    - [PoolDeploy]: pkg/cspc/algorithm/build_deploy.go: the deployment of a pool.
    - [CspcStatus]: pkg/controllers/cspc-controller/status.go and util/cspc_util.go.
    - [CspcCleanup]: cleanup.go and the deletion part of sync.go.
    - [CspcOps]: scale.go and operations.go.
    - [CspcSync]: the rest of sync.go and handler.go: one reconciliation.
    - [VolumeApi], [VolumeMemory]: the objects, helpers and clients of volumes and an
      in-memory instance of them.
    - [TargetDeploy], [VolumeOps], [VolumeSync]: pkg/controllers/cstorvolumeconfig:
      deployment.go and policy.go; volume_operations.go and pdb.go; controller.go.
    - [Zcmd], [Zpool], [Zfs]: pkg/zcmd: a Module for each builder of a command (padd for
      zpool/add, vget for zfs/get, ...), over the methods that all builders repeat
      ([Zcmd.builder], [Zcmd.build_with], [Zcmd.execute_by]).  [Zaccess]: the
      accessors of utils.go and the constructors of cmd.go.  [Zspec]: which words a shell
      makes of the texts.
    - [PoolApi], [PoolMemory]: the shell, the runner of the tools, the variables of the
      process of the pool manager (the name of the pool, the mutex and the flag of
      SyncResources, the imported volumes, the remembered properties) as classes with
      their laws, and an instance whose tools are a function.
    - [VolumeReplica]: pkg/volumereplica/volumereplica.go.
    - [PoolManager]: pkg/pool and cspi-controller/util/cspi_utils.go.
    - [CspiSync]: cspi-controller handler.go, status.go and utils.go.
    - [ReplicaSync]: replica-controller handler.go, the event handlers of controller.go
      and the helpers of controllers/common.
    - [TargetApi], [TargetMemory]: the target behind its socket, its configuration file and
      the helpers of volumes as classes, and an instance.  [VolumeTarget]:
      volume-mgmt/volume/volume.go; [VolumeMgmt]: volume-mgmt/handler.go and the event
      handlers of controller.go; [TargetFacts]: a reader of the configuration file and
      lemmas on the order of the steps.
    - [BackupApi]: the objects of backups and restores, sleeping and identifiers;
      [Backup], [Restore]: the transfers of volumereplica.go, backup-controller and
      restore-controller.
    - [TargetServer]: volume-rpc/targetserver, the registration of replicas; [Snapshot]:
      volume-rpc/client and pkg/snapshot, the snapshots of a volume.
    - [HttpServer]: pkg/server/config.go, https.go and server.go; [BackupRest],
      [RestoreRest]: backup_endpoint.go, restore_endpoint.go and the wrappers of both
      versions of the objects.
    - [Controllers]: the builders and constructors of all controllers and pkg/signals;
      [Workers]: their event handlers, queues and workers; [Startup]: the start and the end
      of the controllers and of the programs of cmd; [Debug], [DebugClient]: the error
      injection of debug builds (pkg/debug), its server and its client.
    - [Steps]: preservation of a relation on worlds through the monad; [Returns]: where a
      computation panics, and computations that return, with rules in the same style;
      [ReturnFacts]: which handlers of the operators and of the volume manager return, and
      the faults of a cluster or of an object on which the others panic;
      [DistributionFacts]: why replicas cannot be distributed; [WorkerFacts]: the
      queue of client-go as a specification ([WorkerFacts.QueueLaws]) and the runs of a
      worker, [WorkerMemory]: an instance of it; [PoolLock]: the
      mutex through both controllers; [PoolFacts], [StringFacts]: lemmas on the pool
      operations and on strings; [BackupFacts], [RestoreFacts], [ServerFacts],
      [RegistrationFacts]: the abstract specifications of backups, restores, replicas and
      registrations with their lemmas, over an API server that obeys the laws
      [BackupFacts.ObjectStore]; [Keyed]: a client that obeys them; [BackupMemory]: the
      in-memory cluster with backups.
    - [AdmissionProps], [OperatorProps], [VolumeProps], [PoolProps], [TargetProps],
      [BackupProps], [ServerProps], [RegistrationProps], [WorkerProps]: the properties, each
      with a run on a concrete cluster where its hypotheses hold.

    A definition has the name of the Go function it models; a loop body that is a
    definition of its own has a name that says so, and the comment before it names
    the function.

    ** How Go is modelled

    - A function that may fail returns [result]; one that may panic (index out of
      range, nil dereference) returns [outcome]; one that writes to the API server is a
      computation of the monad [M W], a function of the world [W] that returns the new
      world, also after a panic.  A function that only reads takes the world.
    - A structure that a Go function changes through a pointer is passed and returned.
      [Algorithm.Config] is returned by the functions that mark a node as visited.  The
      raid group that getReplacedCSPIRaidGroup points into is its index.
    - A client call that fails is a value of [result]; nothing is assumed of when calls
      fail, so every theorem holds for every pattern of API errors and conflicts.  A
      write may also change other objects of the world, as other writers do; no other
      writer acts between two reads.
    - Messages of errors keep the format and the string arguments apart and are not
      rendered.  Logging is left out, and so is sleeping where only the waiting matters;
      the pauses of transfers and of the waiting loops are steps of the world
      ([BackupApi.Clock]).  Events are written to the world.
    - Iteration over a Go map visits the keys in an order given by the class
      [GoRuntime], for each place where the code iterates; the theorems hold for every
      order.
    - Nil and empty slices and maps are identified, except for tolerations, where the
      code tells them apart ([option]).  reflect.DeepEqual is decidable equality.
    - Integers: capacities are bytes in Z with the 64-bit bound as a hypothesis where it
      matters, counters of the status are reduced to int32 where the code converts.
      The float logarithm of the raid group sizes is the exact logarithm.
    - Loops are structural over the list they range over.  ByteCount divides a 64-bit
      number by 1024 until it is small; eight rounds of fuel are more than the six it
      can need ([AdmissionProps.byte_count_units]).  The status update has at most
      four writes, which C15 shows.  PoolNameHandler gives up after the number of
      attempts that it is called with plus two, the retries of a condition are three and a
      transfer is tried ten times (C20): all are structural on that number.  The endless
      waits at start-up have a number of attempts; with more of them the result is the same
      ([Startup.poll_more]).
    - int64 arithmetic of the pool manager wraps around ([CspiSync.int64]) and its
      division panics for zero ([CspiSync.div64]).
    - The command of a builder is its exact text, spaces included; what the tools answer
      is not assumed.  JSON decoding of their outputs is a class ([Zcmd.ZJson]).  The
      error injection of debug builds is off, as in a release build.
    - A work queue is client-go's: a list of waiting items, the set of those that need
      processing and the set of those that are processed; while a reconciliation runs, events
      add keys and delays end in any order.
    - The mutex of the pool manager is a flag; locking it while it is held is a
      computation that does not return (a panic outcome), since no other thread acts
      within a handler.

    ** What the properties show

    - Admission of clusters (C1, C2): a create request is allowed exactly for a
      well-formed cluster ([Webhook.cspc_ok]), an allowed update is safe
      ([PoolOps.update_safe]).
    - Registration of the webhook (C10): what a start leaves in the cluster, and which
      older registrations are replaced.
    - Provisioning (C3, C16): pools go to distinct, unused nodes, with devices that are
      claimed for the cluster at that moment, and a round of a scale up creates a pool
      instance while there is a node for one.
    - Operations, cleanup and deletion (C4, C6, C5): refinement of the handlers by
      small steps ([CspcOps.ops_step], [CspcCleanup.cleanup_step], ...) that say which
      objects are written and why, and in which order.
    - Status and versions (C15, C17).
    - Events (C21): the work queues of the operator of clusters and of the controller of
      volume configurations lose no key, under all events that come while a reconciliation
      runs.
    - The properties of the operators and of the volume manager say also when a handler
      returns (C3 to C6, C8, C15, C17, C19, C27 to C31): always, or unless the cluster has
      one of the named faults.
    - Updates of volume configurations (C24): allowed exactly when they are a safe change
      of the pools ([VolumeWebhook.cvc_change_ok]).
    - The volume configuration controller (C26 to C31, C33): replicas are placed on
      distinct eligible pools, a volume is bound only when all its parts exist, scaling
      and resizing write in a safe order, policies are propagated once; C33 proves that a
      scale down may get stuck.
    - Commands (C34): a shell reads the commands of the pool manager as the arguments that
      were meant.
    - The pool manager (C13, C37, C38, C40): updates keep the raid groups, the mutex is
      released on every path, the read-only mode follows the threshold, and the snapshots
      of a replica are those of zfs.
    - The volume manager (C8, C12, C19): a replica is dropped from a healthy volume only,
      with a majority as consistency factor; the configuration file says what the volume
      says; a resize is reported when it happened.
    - The servers of the volume manager (C35, C36, C39): requests are framed as they were
      sent, a snapshot reaches the target and is confirmed, replicas are registered up to
      the desired number.
    - Backups and restores (C7, C9, C11, C14, C18, C20, C25, C32): an event of a backup
      refines the specification of a backup, a finished backup is final, backups of a
      schedule are incremental, restores are created for every replica, their statuses are
      of their type, transfers are bounded, and what the REST server reports.
    - C22 and C23 prove that two checks of pool changes do not run: the data devices
      of an expansion when there is a write cache, and every check of a pool whose
      node's name differs from its host name label.

    ** What is not modelled

    The informers, listers and work queues are client-go, the listeners, the mux, TLS and
    gRPC are libraries: they are parameters where the code uses their results.  Logging,
    flags and cobra commands, and the test doubles and the helpers of the end-to-end tests
    are not modelled: they have no state of their own or are used by tests only. *)

(** * Prelude: Go computations, errors, maps and strings *)

From stdpp Require Import base gmap strings list sets relations.
From Stdlib Require Import ZArith Lia.

(** ** Notations of the development *)

Declare Scope go_scope.
Delimit Scope go_scope with go.

(** ** Errors

    A Go [error] value.  [APIError] is a status error of the Kubernetes API
    machinery, [Errorf] is [errors.Errorf]/[errors.New]/[fmt.Errorf] with its
    format string and its arguments kept apart, [Wrapf] is [errors.Wrap]/
    [errors.Wrapf] of a non-nil cause.  Formatting itself is not interpreted. *)

Inductive api_reason := NotFound | AlreadyExists | Conflict | OtherReason.

Inductive error :=
| APIError (r : api_reason) (detail : string)
| Errorf (fmt : string) (args : list string)
| Wrapf (cause : error) (fmt : string) (args : list string).

#[export] Instance api_reason_eq_dec : EqDecision api_reason.
Proof. solve_decision. Defined.

(** The pair [(value, err)] returned by a fallible Go function. *)
Inductive result (A : Type) :=
| OK (a : A)
| Err (e : error).
Arguments OK {A} a.
Arguments Err {A} e.

(** [k8serror.IsNotFound] and [k8serror.IsAlreadyExists] look at the reason of
    the status error, through wrapping. *)
Fixpoint error_reason (e : error) : option api_reason :=
  match e with
  | APIError r _ => Some r
  | Errorf _ _ => None
  | Wrapf c _ _ => error_reason c
  end.

Definition IsNotFound (e : error) : bool := bool_decide (error_reason e = Some NotFound).
Definition IsAlreadyExists (e : error) : bool :=
  bool_decide (error_reason e = Some AlreadyExists).

(** The pair [(ok, message)] returned by the validators of the webhook. *)
Inductive verdict := Valid | Invalid (msg : error).

(** [errors.Wrap(err, ...)] where [err] is the error of a result: wrapping nil
    is nil. *)
Definition wrap_result {A} (r : result A) (fmt : string) (args : list string) : result A :=
  match r with OK a => OK a | Err e => Err (Wrapf e fmt args) end.

(** ** Computations that may panic, and computations on a world *)

Inductive outcome (A : Type) :=
| Ret (a : A)
| Panic (why : string).
Arguments Ret {A} a.
Arguments Panic {A} why.

#[export] Instance outcome_ret : MRet outcome := λ A a, Ret a.
#[export] Instance outcome_bind : MBind outcome := λ A B f m,
  match m with Ret a => f a | Panic s => Panic s end.

(** A handler runs on a world [W] (the objects kept by the API server, the
    events and the clock), returns a value or panics, and leaves a world. *)
Definition M (W A : Type) : Type := W → outcome A * W.

#[export] Instance M_ret W : MRet (M W) := λ A a w, (Ret a, w).
#[export] Instance M_bind W : MBind (M W) := λ A B f m w,
  match m w with
  | (Ret a, w') => f a w'
  | (Panic s, w') => (Panic s, w')
  end.

Definition call {W A} (f : W → A * W) : M W A := λ w, let '(a, w') := f w in (Ret a, w').
Definition reads {W A} (f : W → A) : M W A := λ w, (Ret (f w), w).
Definition lift {W A} (f : W → outcome A) : M W A := λ w, (f w, w).
Definition panic {W A} (why : string) : M W A := λ w, (Panic why, w).

(** Running a computation for its value and for its final world. *)
Definition value {W A} (m : M W A) (w : W) : outcome A := (m w).1.
Definition final {W A} (m : M W A) (w : W) : W := (m w).2.

Notation "'let*' x ':=' c 'in' k" := (mbind (λ x, k) c)
  (at level 10, x pattern, c at level 100, k at level 200) : go_scope.

#[global] Open Scope go_scope.

Section monad_lemmas.
Context {W A B C : Type}.
Implicit Types (m : M W A) (f : A → M W B) (g : B → M W C).

Lemma outcome_bind_Ret (m : outcome A) (f : A → outcome B) b :
  (m ≫= f) = Ret b ↔ ∃ a, m = Ret a ∧ f a = Ret b.
Proof. destruct m; cbn; naive_solver. Qed.

Lemma M_bind_Ret m f w b w' :
  (m ≫= f) w = (Ret b, w') ↔ ∃ a w1, m w = (Ret a, w1) ∧ f a w1 = (Ret b, w').
Proof.
  unfold mbind, M_bind. destruct (m w) as [[a|s] w1]; naive_solver.
Qed.

Lemma M_bind_assoc m f g w : ((m ≫= f) ≫= g) w = (m ≫= λ a, f a ≫= g) w.
Proof. unfold mbind, M_bind. by destruct (m w) as [[a|s] w1]. Qed.

Lemma mret_run a w (r : outcome A) w' : (mret a : M W A) w = (r, w') ↔ r = Ret a ∧ w' = w.
Proof. unfold mret, M_ret. naive_solver. Qed.

Lemma M_ret_bind a f w : (mret a ≫= f) w = f a w.
Proof. done. Qed.
End monad_lemmas.

(** ** Loops over slices with an early return *)

(** [for _, x := range l { if ok, msg := f(x); !ok { return false, msg } }] *)
Fixpoint all_valid {A} (f : A → verdict) (l : list A) : verdict :=
  match l with
  | [] => Valid
  | x :: l' => match f x with Valid => all_valid f l' | bad => bad end
  end.

Lemma all_valid_Valid {A} (f : A → verdict) l :
  all_valid f l = Valid ↔ Forall (λ x, f x = Valid) l.
Proof.
  induction l as [|x l IH]; cbn; [naive_solver|].
  rewrite Forall_cons. destruct (f x); naive_solver.
Qed.

(** The same loop when the body may panic. *)
Fixpoint all_validO {A} (f : A → outcome verdict) (l : list A) : outcome verdict :=
  match l with
  | [] => Ret Valid
  | x :: l' =>
      let* v := f x in
      match v with Valid => all_validO f l' | bad => Ret bad end
  end.

Lemma all_validO_Valid {A} (f : A → outcome verdict) l :
  all_validO f l = Ret Valid ↔ Forall (λ x, f x = Ret Valid) l.
Proof.
  induction l as [|x l IH]; cbn; [naive_solver|].
  rewrite Forall_cons. destruct (f x) as [[|]|]; cbn; naive_solver.
Qed.

Lemma all_validO_ret {A} (f : A → outcome verdict) l :
  Forall (λ x, ∃ v, f x = Ret v) l → ∃ v, all_validO f l = Ret v.
Proof.
  induction 1 as [|x l [v Hv] _ [v' IH]]; cbn; [by eexists|].
  rewrite Hv. destruct v; cbn; [by eexists|by eexists].
Qed.

(** [for _, x := range l { acc = f(acc, x) }] where the body may panic. *)
Fixpoint foldO {A B} (f : B → A → outcome B) (acc : B) (l : list A) : outcome B :=
  match l with
  | [] => Ret acc
  | x :: l' => let* acc' := f acc x in foldO f acc' l'
  end.

(** The same on a world. *)
Fixpoint foldM {W A B} (f : B → A → M W B) (acc : B) (l : list A) : M W B :=
  match l with
  | [] => mret acc
  | x :: l' => let* acc' := f acc x in foldM f acc' l'
  end.

Fixpoint forM {W A} (f : A → M W unit) (l : list A) : M W unit :=
  match l with
  | [] => mret tt
  | x :: l' => let* _ := f x in forM f l'
  end.

(** [for _, x := range l { if err := f(x); err != nil { return err } }] *)
Fixpoint forE {W A} (f : A → M W (result unit)) (l : list A) : M W (result unit) :=
  match l with
  | [] => mret (OK tt)
  | x :: l' =>
      let* r := f x in
      match r with OK _ => forE f l' | Err e => mret (Err e) end
  end.

(** Invariant rule for the loops on a world. *)
Lemma foldM_inv {W A B} (P : W → Prop) (f : B → A → M W B) acc l w :
  (∀ b a w0, P w0 → P (final (f b a) w0)) → P w → P (final (foldM f acc l) w).
Proof.
  intros Hf. revert acc w. induction l as [|x l IH]; intros acc w Hw; [done|].
  unfold final. cbn. unfold mbind, M_bind.
  pose proof (Hf acc x w Hw) as H1. unfold final in H1.
  destruct (f acc x w) as [[b|s] w1]; [|done]. by apply IH.
Qed.

Lemma forM_inv {W A} (P : W → Prop) (f : A → M W unit) l w :
  (∀ a w0, P w0 → P (final (f a) w0)) → P w → P (final (forM f l) w).
Proof.
  intros Hf. revert w. induction l as [|x l IH]; intros w Hw; [done|].
  unfold final. cbn. unfold mbind, M_bind.
  pose proof (Hf x w Hw) as H1. unfold final in H1.
  destruct (f x w) as [[b|s] w1]; [|done]. by apply IH.
Qed.

Lemma forE_inv {W A} (P : W → Prop) (f : A → M W (result unit)) l w :
  (∀ a w0, P w0 → P (final (f a) w0)) → P w → P (final (forE f l) w).
Proof.
  intros Hf. revert w. induction l as [|x l IH]; intros w Hw; [done|].
  unfold final. cbn. unfold mbind, M_bind.
  pose proof (Hf x w Hw) as H1. unfold final in H1.
  destruct (f x w) as [[[b|e]|s] w1]; [|done..]. by apply IH.
Qed.

(** A loop whose body only makes steps of [R] only makes steps of [R]. *)
Section loop_steps.
Context {W A : Type} (R : W → W → Prop).

Lemma forE_steps (f : A → M W (result unit)) l w r w' :
  (∀ a w r w', a ∈ l → f a w = (r, w') → rtc R w w') → forE f l w = (r, w') → rtc R w w'.
Proof.
  revert w. induction l as [|a l IH]; intros w Hf; cbn [forE]; [by intros [-> ->]%mret_run|].
  unfold mbind, M_bind. destruct (f a w) as [o w1] eqn:Ha.
  assert (rtc R w w1) by (eapply (Hf a); [set_solver|done]).
  destruct o as [[u|e]|s]; [|intros [-> ->]%mret_run; done|intros; by simplify_eq].
  intros Hr. etrans; [done|]. eapply IH; [|done].
  intros a' ???? Ha'. eapply (Hf a'); [set_solver|done].
Qed.

Lemma forM_steps (f : A → M W unit) l w r w' :
  (∀ a w r w', a ∈ l → f a w = (r, w') → rtc R w w') → forM f l w = (r, w') → rtc R w w'.
Proof.
  revert w. induction l as [|a l IH]; intros w Hf; cbn [forM]; [by intros [-> ->]%mret_run|].
  unfold mbind, M_bind. destruct (f a w) as [o w1] eqn:Ha.
  assert (rtc R w w1) by (eapply (Hf a); [set_solver|done]).
  destruct o as [u|s]; [|intros; by simplify_eq].
  intros Hr. etrans; [done|]. eapply IH; [|done].
  intros a' ???? Ha'. eapply (Hf a'); [set_solver|done].
Qed.
End loop_steps.

(** The same for the runs that return. *)
Lemma forE_returns {W A} (R : W → W → Prop) (f : A → M W (result unit)) l w r w' :
  (∀ a w r w', a ∈ l → f a w = (Ret r, w') → rtc R w w') → forE f l w = (Ret r, w') → rtc R w w'.
Proof.
  revert w. induction l as [|a l IH]; intros w Hf; cbn [forE]; [by intros [_ ->]%mret_run|].
  unfold mbind, M_bind. destruct (f a w) as [[o|s] w1] eqn:Ha; [|done].
  assert (rtc R w w1) by (eapply (Hf a); [set_solver|done]).
  destruct o as [u|e]; [|by intros [_ ->]%mret_run].
  intros Hr. etrans; [done|]. eapply IH; [|done].
  intros a' ???? Ha'. eapply (Hf a'); [set_solver|done].
Qed.

(** The same for a loop that carries a value: steps of the pair of both. *)
Lemma foldM_steps {W A B} (Q : W * B → W * B → Prop) (f : B → A → M W B) acc l w b w' :
  (∀ a b w b' w', a ∈ l → f b a w = (Ret b', w') → rtc Q (w, b) (w', b')) →
  foldM f acc l w = (Ret b, w') → rtc Q (w, acc) (w', b).
Proof.
  revert acc w. induction l as [|a l IH]; intros acc w Hf; cbn [foldM].
  { intros [[= ->] ->]%mret_run. done. }
  unfold mbind, M_bind. destruct (f acc a w) as [[b1|s] w1] eqn:Ha; [|done].
  intros Hr. etrans; [eapply (Hf a); [set_solver|done]|]. eapply IH; [|done].
  intros a' ????? Ha'. eapply (Hf a'); [set_solver|done].
Qed.

(** ** Go maps used as sets

    A [map[string]bool] that is only ever assigned [true] is the set of its
    keys; reading an absent key gives [false]. *)
Definition has (s : gset string) (k : string) : bool := bool_decide (k ∈ s).

Lemma has_true s k : has s k = true ↔ k ∈ s.
Proof. unfold has. by rewrite bool_decide_eq_true. Qed.

Lemma has_false s k : has s k = false ↔ k ∉ s.
Proof. unfold has. by rewrite bool_decide_eq_false. Qed.

(** [m[k]] on a [map[string]string]: the zero value for an absent key. *)
Definition label (m : gmap string string) (k : string) : string := default "" (m !! k).

(** The order in which [for k, v := range m] visits a map is chosen by the
    runtime at each range statement, here named by its [site]. *)
Class GoRuntime := {
  go_range : ∀ {A}, string → gmap string A → list (string * A);
  go_range_perm : ∀ A site (m : gmap string A), go_range site m ≡ₚ map_to_list m;
}.

Lemma go_range_lookup `{GoRuntime} {A} site (m : gmap string A) k v :
  (k, v) ∈ go_range site m ↔ m !! k = Some v.
Proof. by rewrite go_range_perm, elem_of_map_to_list. Qed.

(** The runtime that visits maps in the order of their representation. *)
#[export] Instance default_runtime : GoRuntime :=
  {| go_range A _ m := map_to_list m; go_range_perm _ _ _ := reflexivity _ |}.

(** ** Go strings, as byte strings *)

#[global] Arguments String.append !s1 s2 : simpl nomatch.

Definition is_space (a : Ascii.ascii) : bool :=
  let n := Ascii.nat_of_ascii a in ((9 <=? n) && (n <=? 13)) || (n =? 32).

Fixpoint trim_left (s : string) : string :=
  match s with
  | EmptyString => EmptyString
  | String a s' => if is_space a then trim_left s' else s
  end.

Fixpoint rev_onto (s acc : string) : string :=
  match s with
  | EmptyString => acc
  | String a s' => rev_onto s' (String a acc)
  end.

Definition rev_string (s : string) : string := rev_onto s EmptyString.

(** [strings.TrimSpace] on ASCII text. *)
Definition TrimSpace (s : string) : string :=
  rev_string (trim_left (rev_string (trim_left s))).

(** [strings.Split(s, sep)] for a separator of one byte. *)
Fixpoint split_on (c : Ascii.ascii) (s : string) : list string :=
  match s with
  | EmptyString => [EmptyString]
  | String a s' =>
      if Ascii.eqb a c then EmptyString :: split_on c s'
      else match split_on c s' with
           | h :: t => String a h :: t
           | [] => [String a EmptyString]
           end
  end.

(** [strings.Join] *)
Fixpoint join (sep : string) (l : list string) : string :=
  match l with
  | [] => EmptyString
  | [s] => s
  | s :: l' => s +:+ sep +:+ join sep l'
  end.

Lemma split_on_cons c s : ∃ h t, split_on c s = h :: t.
Proof.
  induction s as [|a s [h [t IH]]]; cbn; [by eexists _, _|].
  rewrite IH. destruct (Ascii.eqb a c); by eexists _, _.
Qed.

Lemma app_string_assoc (s1 s2 s3 : string) : (s1 +:+ s2) +:+ s3 = s1 +:+ (s2 +:+ s3).
Proof. induction s1; cbn; congruence. Qed.

Lemma app_string_nil_r (s : string) : s +:+ "" = s.
Proof. induction s; cbn; congruence. Qed.

Lemma length_app_string (s1 s2 : string) :
  String.length (s1 +:+ s2) = String.length s1 + String.length s2.
Proof. induction s1; cbn; [done|]. by f_equal. Qed.

(** The bytes of a string. *)
Fixpoint bytes (s : string) : list Ascii.ascii :=
  match s with EmptyString => [] | String a s' => a :: bytes s' end.

Lemma split_on_no_sep c s : c ∉ bytes s → split_on c s = [s].
Proof.
  induction s as [|a s IH]; cbn; [done|]. rewrite not_elem_of_cons. intros [Hne Hs].
  destruct (Ascii.eqb_spec a c) as [->|_]; [done|]. by rewrite IH.
Qed.

Lemma split_on_app c s rest :
  c ∉ bytes s → split_on c (s +:+ String c rest) = s :: split_on c rest.
Proof.
  induction s as [|a s IH]; cbn; [by rewrite Ascii.eqb_refl|].
  rewrite not_elem_of_cons. intros [Hne Hs].
  destruct (Ascii.eqb_spec a c) as [->|_]; [done|]. by rewrite IH.
Qed.

(** Splitting and joining with the same separator gives the string back. *)
Lemma join_split_on c s : join (String c "") (split_on c s) = s.
Proof.
  induction s as [|a s IH]; [done|]. cbn.
  destruct (split_on_cons c s) as (h & t & Heq). rewrite Heq in *.
  destruct (Ascii.eqb_spec a c) as [->|_].
  - cbn. cbn in IH. by rewrite <- IH.
  - destruct t; cbn in *; by rewrite <- IH.
Qed.

Lemma bytes_app (s t : string) : bytes (s +:+ t) = bytes s ++ bytes t.
Proof. induction s; cbn; congruence. Qed.

(** Joining pieces without the separator and splitting gives the pieces back. *)
Lemma split_on_join c l :
  l ≠ [] → Forall (λ s, c ∉ bytes s) l → split_on c (join (String c "") l) = l.
Proof.
  induction l as [|s l IH]; [done|]. intros _ [Hs Hl]%Forall_cons.
  destruct l as [|s' l]; [by apply split_on_no_sep|].
  change (join (String c "") (s :: s' :: l))
    with (s +:+ String c (join (String c "") (s' :: l))).
  rewrite split_on_app by done. f_equal. by apply IH.
Qed.

(** ** Lists and sets shared by the components *)

Definition names (l : list string) : gset string := list_to_set l.

Lemma elem_of_names x l : x ∈ names l ↔ x ∈ l.
Proof. unfold names. by rewrite elem_of_list_to_set. Qed.

(** The first element of a list that satisfies a test. *)
Fixpoint first_such {A} (p : A → bool) (l : list A) : option A :=
  match l with
  | [] => None
  | x :: l' => if p x then Some x else first_such p l'
  end.

Lemma first_such_Some {A} (p : A → bool) l x :
  first_such p l = Some x → x ∈ l ∧ p x = true.
Proof.
  induction l as [|y l IH]; cbn; [done|].
  destruct (p y) eqn:Hy; intros Hf; simplify_eq; [set_solver|].
  destruct (IH Hf). set_solver.
Qed.

Lemma first_such_None {A} (p : A → bool) l :
  first_such p l = None ↔ ∀ x, x ∈ l → p x = false.
Proof.
  induction l as [|y l IH]; cbn; [set_solver|].
  destruct (p y) eqn:Hy.
  - split; [done|]. intros H. rewrite H in Hy; [done|set_solver].
  - rewrite IH. set_solver.
Qed.

Lemma first_such_app {A} (p : A → bool) l l' :
  first_such p (l ++ l') =
  match first_such p l with Some x => Some x | None => first_such p l' end.
Proof. induction l as [|x l IH]; cbn; [done|]. by destruct (p x). Qed.

Lemma first_such_filter {A} (p : A → bool) (P : A → Prop) `{!∀ x, Decision (P x)} l :
  (∀ x, p x = true → P x) → first_such p (filter P l) = first_such p l.
Proof.
  intros Hp. induction l as [|x l IH]; [done|]. rewrite filter_cons. cbn [first_such].
  case_decide as HP; cbn [first_such]; [by rewrite IH|].
  destruct (p x) eqn:Hx; [|done]. by apply Hp in Hx.
Qed.

Lemma filter_none {A} (P : A → Prop) `{∀ x, Decision (P x)} (l : list A) :
  (∀ x, x ∈ l → ¬ P x) → filter P l = [].
Proof.
  induction l as [|x l IH]; intros Hl; [done|].
  rewrite filter_cons_False by (apply Hl; left). apply IH. intros y Hy. apply Hl. by right.
Qed.

Lemma existsb_true {A} (p : A → bool) l : existsb p l = true ↔ ∃ x, x ∈ l ∧ p x = true.
Proof. rewrite existsb_exists. by setoid_rewrite <- list_elem_of_In. Qed.

Lemma existsb_false {A} (p : A → bool) l : existsb p l = false ↔ ∀ x, x ∈ l → p x = false.
Proof.
  rewrite <- not_true_iff_false, existsb_true. split.
  - intros H x Hx. destruct (p x) eqn:E; naive_solver.
  - intros H [x [Hx Hp]]. rewrite H in Hp; done.
Qed.

Lemma foldl_bind {A B C} (f : C → B → C) (g : A → list B) l acc :
  foldl (λ acc x, foldl f acc (g x)) acc l = foldl f acc (l ≫= g).
Proof. revert acc. induction l as [|x l IH]; intros acc; cbn; [done|]. by rewrite IH, foldl_app. Qed.

Lemma foldl_fmap {A B C} (f : C → B → C) (g : A → B) l acc :
  foldl (λ acc x, f acc (g x)) acc l = foldl f acc (g <$> l).
Proof. revert acc. induction l as [|x l IH]; intros acc; cbn; [done|]. by rewrite IH. Qed.

Lemma foldl_ext_in {A C} (f g : C → A → C) l acc :
  (∀ c x, x ∈ l → f c x = g c x) → foldl f acc l = foldl g acc l.
Proof.
  revert acc. induction l as [|x l IH]; intros acc Hfg; cbn; [done|].
  rewrite Hfg by set_solver. apply IH. set_solver.
Qed.

Lemma list_alter_at {A} (f : A → A) (l : list A) (i : nat) x : l !! i = Some x → alter f i l = <[i := f x]> l.
Proof.
  intros Hi. apply list_eq. intros j. destruct (decide (i = j)) as [->|Hne].
  - rewrite list_lookup_alter_eq, list_lookup_insert_eq, Hi; [done|]. by eapply lookup_lt_Some.
  - by rewrite list_lookup_alter_ne, list_lookup_insert_ne.
Qed.

(** An element that occurs at two positions of a list. *)
Definition repeated {A} (x : A) (l : list A) : Prop :=
  ∃ i j, i < j ∧ l !! i = Some x ∧ l !! j = Some x.

Lemma repeated_snoc {A} (x y : A) l :
  repeated x (l ++ [y]) ↔ repeated x l ∨ (x = y ∧ x ∈ l).
Proof.
  split.
  - intros (i & j & Hij & Hi & Hj).
    apply lookup_app_Some in Hj as [Hj|[Hlen Hj]].
    + left. exists i, j. rewrite lookup_app_l in Hi; [done|].
      apply lookup_lt_Some in Hj. lia.
    + apply list_lookup_singleton_Some in Hj as [Hj ->]. right. split; [done|].
      rewrite lookup_app_l in Hi by lia. by eapply list_elem_of_lookup_2.
  - intros [(i & j & Hij & Hi & Hj)|[-> [i Hi]%list_elem_of_lookup_1]].
    + exists i, j. split_and!; [done|by apply lookup_app_l_Some..].
    + exists i, (length l). split_and!; [by eapply lookup_lt_Some|by apply lookup_app_l_Some|].
      apply list_lookup_middle. done.
Qed.

Lemma NoDup_not_repeated {A} (l : list A) : NoDup l ↔ ∀ x, ¬ repeated x l.
Proof.
  rewrite NoDup_alt. split.
  - intros Hn x (i & j & Hij & Hi & Hj). pose proof (Hn i j x Hi Hj). lia.
  - intros Hr i j x Hi Hj. destruct (lt_eq_lt_dec i j) as [[Hlt| ->]|Hlt]; [|done|];
      exfalso; eapply Hr; [exists i, j|exists j, i]; done.
Qed.

(** ** Machine integers *)

(** [int32(x)]: two's complement wrap-around. *)
Definition int32 (x : Z) : Z := ((x + 2 ^ 31) mod 2 ^ 32 - 2 ^ 31)%Z.

Lemma int32_id x : (- 2 ^ 31 ≤ x < 2 ^ 31)%Z → int32 x = x.
Proof. intros Hx. unfold int32. rewrite Z.mod_small; lia. Qed.

Lemma int32_add_l x y : int32 (int32 x + y) = int32 (x + y).
Proof.
  unfold int32. f_equal.
  replace ((x + 2 ^ 31) mod 2 ^ 32 - 2 ^ 31 + y + 2 ^ 31)%Z
    with ((x + 2 ^ 31) mod 2 ^ 32 + y)%Z by lia.
  rewrite Zplus_mod_idemp_l. f_equal. lia.
Qed.

Lemma int32_idem x : int32 (int32 x) = int32 x.
Proof. rewrite <- (Z.add_0_r (int32 x)) at 1. by rewrite int32_add_l, Z.add_0_r. Qed.

(** ** Automation *)

Create HintDb cstor.
Create Rewrite HintDb cstor.
#[export] Hint Rewrite @all_valid_Valid @all_validO_Valid has_true has_false @existsb_true @existsb_false
  elem_of_names @bool_decide_eq_true @bool_decide_eq_false andb_true_iff orb_false_iff
  negb_true_iff negb_false_iff : cstor.
#[export] Hint Resolve elem_of_names has_true : cstor.

(** Opens the binds of a run that is known to return. *)
Ltac inv_run :=
  repeat match goal with
  | H : (_ ≫= _) _ = (Ret _, _) |- _ =>
      apply M_bind_Ret in H as (? & ? & ? & ?)
  | H : (_ ≫= _) = Ret _ |- _ => apply outcome_bind_Ret in H as (? & ? & ?)
  | H : mret _ _ = (Ret _, _) |- _ => unfold mret, M_ret in H
  | H : reads _ _ = (_, _) |- _ => unfold reads in H
  | H : lift _ _ = (_, _) |- _ => unfold lift in H
  end; simplify_eq/=.

(** Splits the matches and conditionals of a hypothesis or of the goal. *)
Ltac split_run := repeat (case_match; simplify_eq/=).

(** Right-associates string concatenations and pushes literals inwards. *)
Ltac norm_app := repeat first [rewrite app_string_assoc | progress cbn].

(** An equivalence between two sides that are both absurd. *)
Ltac both_false := split; [done|]; intros; destruct_and?; (done || congruence).
