(* ===== verification/Steps.v ===== *)
(** * Steps: relations between the worlds before and after a computation

    [keeps R m]: every run of [m], also one that panics, leads from a world to one that is
    related to it by [R].  For a preorder the rules follow the structure of the computation,
    and [keeps_auto] applies them, with the hints of [keeps] for the operations it meets. *)

From stdpp Require Import base gmap strings list sets.
From S2P Require Import Prelude.

Definition keeps {W A} (R : relation W) (m : M W A) : Prop := ∀ w, R w (final m w).

Create HintDb keeps.

Section rules.
Context {W : Type} (R : relation W) `{!PreOrder R}.

Lemma keeps_mret {A} (a : A) : keeps R (mret a : M W A).
Proof. intros w. reflexivity. Qed.
Lemma keeps_panic {A} s : keeps R (panic s : M W A).
Proof. intros w. reflexivity. Qed.
Lemma keeps_reads {A} (f : W → A) : keeps R (reads f).
Proof. intros w. reflexivity. Qed.
Lemma keeps_lift {A} (f : W → outcome A) : keeps R (lift f).
Proof. intros w. reflexivity. Qed.
Lemma keeps_call {A} (f : W → A * W) : (∀ w, R w (f w).2) → keeps R (call f).
Proof. intros Hf w. unfold final, call. specialize (Hf w). by destruct (f w). Qed.
Lemma keeps_bind {A B} (m : M W A) (f : A → M W B) :
  keeps R m → (∀ a, keeps R (f a)) → keeps R (m ≫= f).
Proof.
  intros Hm Hf w. unfold final, mbind, M_bind. specialize (Hm w). unfold final in Hm.
  destruct (m w) as [[a|s] w1]; [|done]. etrans; [apply Hm|apply Hf].
Qed.
Lemma keeps_foldM {A B} (f : B → A → M W B) acc l :
  (∀ b a, a ∈ l → keeps R (f b a)) → keeps R (foldM f acc l).
Proof.
  revert acc. induction l as [|x l IH]; intros acc Hf; cbn; [apply keeps_mret|].
  apply keeps_bind; [apply Hf; set_solver|]. intros b. apply IH. intros. apply Hf. set_solver.
Qed.
Lemma keeps_forM {A} (f : A → M W unit) l : (∀ a, a ∈ l → keeps R (f a)) → keeps R (forM f l).
Proof.
  induction l as [|x l IH]; intros Hf; cbn; [apply keeps_mret|].
  apply keeps_bind; [apply Hf; set_solver|]. intros _. apply IH. intros. apply Hf. set_solver.
Qed.
End rules.

Lemma keeps_run {W A} (R : relation W) (m : M W A) w r w' : keeps R m → m w = (r, w') → R w w'.
Proof. intros Hm Hr. specialize (Hm w). unfold final in Hm. by rewrite Hr in Hm. Qed.

(** The first part of a computation ran. *)
Lemma bind_run {W A B} (m : M W A) (f : A → M W B) w a w1 :
  m w = (Ret a, w1) → (m ≫= f) w = f a w1.
Proof. intros Hm. unfold mbind, M_bind. by rewrite Hm. Qed.

(** The parts of a computation, down to operations with a hint. *)
Ltac keeps_auto :=
  cbv beta zeta;
  lazymatch goal with
  | |- ∀ _, _ => intros; keeps_auto
  | |- keeps _ (match ?x with _ => _ end) => destruct x; keeps_auto
  | |- keeps _ ((match ?x with _ => _ end) _) => destruct x; keeps_auto
  | |- keeps _ (mbind _ _) => refine (keeps_bind _ _ _ _ _); [keeps_auto|keeps_auto]
  | |- keeps _ (mret _) => refine (keeps_mret _ _)
  | |- keeps _ (reads _) => refine (keeps_reads _ _)
  | |- keeps _ (lift _) => refine (keeps_lift _ _)
  | |- keeps _ (panic _) => refine (keeps_panic _ _)
  | |- keeps _ (foldM _ _ _) => refine (keeps_foldM _ _ _ _ _); keeps_auto
  | |- keeps _ (forM _ _) => refine (keeps_forM _ _ _ _); keeps_auto
  | |- keeps _ _ => first [solve [eauto with keeps] | idtac]
  end.
