(* ===== verification/Returns.v ===== *)
(** * Returns: computations that return, and where the others panic

    [panics_at P m]: a run of [m] that panics leaves a world in which [P] holds, and with
    [P] false every run returns.  The rules follow the structure of a computation, and
    [panics_auto] applies them, with the hints of [panics] for the operations it meets. *)

From stdpp Require Import base gmap strings list sets.
From S2P Require Import Prelude.

Definition panics_at {W A} (P : W → Prop) (m : M W A) : Prop :=
  ∀ w why w', m w = (Panic why, w') → P w'.
Definition returns {W A} (m : M W A) : Prop := ∀ w, ∃ a w', m w = (Ret a, w').

Create HintDb panics.

Section rules.
Context {W : Type} (P : W → Prop).

Lemma panics_at_mret {A} (a : A) : panics_at P (mret a : M W A).
Proof. done. Qed.
Lemma panics_at_panic {A} s : (∀ w, P w) → panics_at P (panic s : M W A).
Proof. intros Hp w why w' [= _ <-]. apply Hp. Qed.
Lemma panics_at_reads {A} (f : W → A) : panics_at P (reads f).
Proof. done. Qed.
Lemma panics_at_call {A} (f : W → A * W) : panics_at P (call f).
Proof. intros w why w'. unfold call. by destruct (f w). Qed.
Lemma panics_at_lift {A} (f : W → outcome A) : (∀ w why, f w = Panic why → P w) → panics_at P (lift f).
Proof. intros Hf w why w' [= Hw <-]. by eapply Hf. Qed.
Lemma panics_at_bind {A B} (m : M W A) (f : A → M W B) :
  panics_at P m → (∀ a, panics_at P (f a)) → panics_at P (m ≫= f).
Proof.
  intros Hm Hf w why w'. unfold mbind, M_bind. destruct (m w) as [[a|s] w1] eqn:Hw; [apply Hf|].
  intros [= <- <-]. by eapply Hm.
Qed.
(** A value that is read in the world where it is used. *)
Lemma panics_at_reads_bind {A B} (g : W → A) (f : A → M W B) :
  (∀ w why w', f (g w) w = (Panic why, w') → P w') → panics_at P (reads g ≫= f).
Proof. intros Hf w why w'. apply Hf. Qed.
Lemma panics_at_foldM {A B} (f : B → A → M W B) acc l :
  (∀ b a, a ∈ l → panics_at P (f b a)) → panics_at P (foldM f acc l).
Proof.
  revert acc. induction l as [|x l IH]; intros acc Hf; cbn; [apply panics_at_mret|].
  apply panics_at_bind; [apply Hf; set_solver|]. intros b. apply IH. intros. apply Hf. set_solver.
Qed.
Lemma panics_at_forM {A} (f : A → M W unit) l : (∀ a, a ∈ l → panics_at P (f a)) → panics_at P (forM f l).
Proof.
  induction l as [|x l IH]; intros Hf; cbn; [apply panics_at_mret|].
  apply panics_at_bind; [apply Hf; set_solver|]. intros _. apply IH. intros. apply Hf. set_solver.
Qed.
Lemma panics_at_forE {A} (f : A → M W (result unit)) l :
  (∀ a, a ∈ l → panics_at P (f a)) → panics_at P (forE f l).
Proof.
  induction l as [|x l IH]; intros Hf; cbn; [apply panics_at_mret|].
  apply panics_at_bind; [apply Hf; set_solver|]. intros [|]; [|apply panics_at_mret].
  apply IH. intros. apply Hf. set_solver.
Qed.
End rules.

Lemma M_bind_Panic {W A B} (m : M W A) (f : A → M W B) w why w' :
  (m ≫= f) w = (Panic why, w') ↔
  m w = (Panic why, w') ∨ ∃ a w1, m w = (Ret a, w1) ∧ f a w1 = (Panic why, w').
Proof. unfold mbind, M_bind. destruct (m w) as [[a|s] w1]; naive_solver. Qed.

Lemma panics_at_weaken {W A} (P Q : W → Prop) (m : M W A) :
  (∀ w, P w → Q w) → panics_at P m → panics_at Q m.
Proof. intros Hpq Hm w why w' Hw. eapply Hpq, Hm, Hw. Qed.

Lemma returns_never {W A} (m : M W A) : panics_at (λ _, False) m ↔ returns m.
Proof.
  split.
  - intros Hm w. destruct (m w) as [[a|why] w'] eqn:Hw; [by eexists _, _|]. by destruct (Hm w why w').
  - intros Hm w why w' Hw. destruct (Hm w) as (a & w1 & Hr). by rewrite Hw in Hr.
Qed.
Lemma returns_at {W A} (P : W → Prop) (m : M W A) : returns m → panics_at P m.
Proof. rewrite <-returns_never. apply panics_at_weaken. by intros w. Qed.

(** The parts of a computation, down to operations with a hint. *)
Ltac panics_auto :=
  cbv beta zeta;
  lazymatch goal with
  | |- ∀ _, _ => intros; panics_auto
  | |- panics_at _ (match ?x with _ => _ end) => destruct x eqn:?; panics_auto
  | |- panics_at _ ((match ?x with _ => _ end) _) => destruct x eqn:?; panics_auto
  | |- panics_at _ (mbind _ _) => refine (panics_at_bind _ _ _ _ _); [panics_auto|panics_auto]
  | |- panics_at _ (mret _) => refine (panics_at_mret _ _)
  | |- panics_at _ (reads _) => refine (panics_at_reads _ _)
  | |- panics_at _ (call _) => refine (panics_at_call _ _)
  | |- panics_at _ (foldM _ _ _) => refine (panics_at_foldM _ _ _ _ _); panics_auto
  | |- panics_at _ (forM _ _) => refine (panics_at_forM _ _ _ _); panics_auto
  | |- panics_at _ (forE _ _) => refine (panics_at_forE _ _ _ _); panics_auto
  | |- panics_at _ _ => first [solve [eauto with panics] | idtac]
  | |- _ => idtac
  end.
Ltac returns_auto := apply returns_never; panics_auto.
