(* ===== verification/Api.v ===== *)
(** * Api: the Kubernetes objects and the clients the operators use

    The types of [github.com/openebs/api] and the API server are not part of
    this repository.  Their data is given here field by field, for the fields
    the operators read or write (docs/api-references/apis.md lists them); the
    client operations and the helper functions of that package are parameters:
    [ResourceClient] is the typed client of one kind of object and [OpenebsApi]
    collects the helpers and constants.  What the theorems rely on is stated as
    laws of these classes; [Memory] has a concrete cluster that satisfies them. *)

From stdpp Require Import base gmap strings list sets.
From Stdlib Require Import Ascii ZArith Lia.
From S2P Require Import Prelude.

(** ** Object metadata *)

Record OwnerReference := {
  or_apiVersion : string;
  or_kind : string;
  or_name : string;
  or_uid : string;
  or_controller : option bool;
  or_blockOwnerDeletion : option bool;
}.

Record ObjectMeta := {
  om_name : string;
  om_namespace : string;
  om_uid : string;
  (** [ResourceVersion]: empty in an object that was never stored. *)
  om_resourceVersion : string;
  om_labels : gmap string string;
  om_annotations : gmap string string;
  om_finalizers : list string;
  om_owners : list OwnerReference;
  (** [DeletionTimestamp]: nil (or the zero time) is [None]. *)
  om_deletion : option Z;
}.

#[export] Instance OwnerReference_eq_dec : EqDecision OwnerReference.
Proof. solve_decision. Defined.
#[export] Instance ObjectMeta_eq_dec : EqDecision ObjectMeta.
Proof. solve_decision. Defined.

Definition meta_empty : ObjectMeta :=
  {| om_name := ""; om_namespace := ""; om_uid := ""; om_resourceVersion := ""; om_labels := ∅; om_annotations := ∅;
     om_finalizers := []; om_owners := []; om_deletion := None |}.

(** ** Pools *)

(** cstor.CStorPoolInstanceBlockDevice *)
Record CStorPoolInstanceBlockDevice := {
  BlockDeviceName : string;
  bd_Capacity : Z;
  DevLink : string;
}.

(** cstor.RaidGroup *)
Record RaidGroup := { CStorPoolInstanceBlockDevices : list CStorPoolInstanceBlockDevice }.

(** corev1.ResourceRequirements and corev1.Toleration are only passed on. *)
Record ResourceRequirements := { rr_limits : gmap string string; rr_requests : gmap string string }.
Record Toleration := {
  tol_key : string;
  tol_operator : string;
  tol_value : string;
  tol_effect : string;
  tol_seconds : option Z;
}.

(** cstor.PoolConfig.  A nil pointer or a nil slice that the code tells apart
    from an empty one is [None]. *)
Record PoolConfig := {
  DataRaidGroupType : string;
  WriteCacheGroupType : string;
  ThickProvision : bool;
  Compression : string;
  Resources : option ResourceRequirements;
  AuxResources : option ResourceRequirements;
  Tolerations : option (list Toleration);
  PriorityClassName : option string;
  ROThresholdLimit : option Z;
}.

(** cstor.PoolSpec *)
Record PoolSpec := {
  NodeSelector : gmap string string;
  DataRaidGroups : list RaidGroup;
  WriteCacheRaidGroups : list RaidGroup;
  ps_PoolConfig : PoolConfig;
}.

(** cstor.CStorPoolClusterSpec *)
Record CStorPoolClusterSpec := {
  Pools : list PoolSpec;
  DefaultResources : option ResourceRequirements;
  DefaultAuxResources : option ResourceRequirements;
  spec_Tolerations : option (list Toleration);
  DefaultPriorityClassName : string;
}.

#[export] Instance CStorPoolInstanceBlockDevice_eq_dec : EqDecision CStorPoolInstanceBlockDevice.
Proof. solve_decision. Defined.
#[export] Instance RaidGroup_eq_dec : EqDecision RaidGroup.
Proof. solve_decision. Defined.
#[export] Instance ResourceRequirements_eq_dec : EqDecision ResourceRequirements.
Proof. solve_decision. Defined.
#[export] Instance Toleration_eq_dec : EqDecision Toleration.
Proof. solve_decision. Defined.
#[export] Instance PoolConfig_eq_dec : EqDecision PoolConfig.
Proof. solve_decision. Defined.
#[export] Instance PoolSpec_eq_dec : EqDecision PoolSpec.
Proof. solve_decision. Defined.
#[export] Instance CStorPoolClusterSpec_eq_dec : EqDecision CStorPoolClusterSpec.
Proof. solve_decision. Defined.

(** The block device names of a raid group, of a list of raid groups and of a
    pool (data groups first, as [append(Data, WriteCache...)] lists them). *)
Definition rg_bds (rg : RaidGroup) : list string :=
  BlockDeviceName <$> CStorPoolInstanceBlockDevices rg.
Definition rgs_bds (rgs : list RaidGroup) : list string := rgs ≫= rg_bds.
Definition all_groups (p : PoolSpec) : list RaidGroup :=
  DataRaidGroups p ++ WriteCacheRaidGroups p.
Definition pool_bds (p : PoolSpec) : list string := rgs_bds (all_groups p).
Definition cluster_bds (pools : list PoolSpec) : list string := pools ≫= pool_bds.

Lemma elem_of_rgs_bds x rgs : x ∈ rgs_bds rgs ↔ ∃ rg, rg ∈ rgs ∧ x ∈ rg_bds rg.
Proof. unfold rgs_bds. rewrite list_elem_of_bind. naive_solver. Qed.

Lemma elem_of_cluster_bds x pools :
  x ∈ cluster_bds pools ↔ ∃ p rg, p ∈ pools ∧ rg ∈ all_groups p ∧ x ∈ rg_bds rg.
Proof.
  unfold cluster_bds, pool_bds. rewrite list_elem_of_bind.
  setoid_rewrite elem_of_rgs_bds. naive_solver.
Qed.

Lemma rgs_bds_cons rg rgs : rgs_bds (rg :: rgs) = rg_bds rg ++ rgs_bds rgs.
Proof. done. Qed.

(** ** Versions, conditions and the cluster object *)

Inductive version_state := VersionStateNone | ReconcilePending | ReconcileInProgress | ReconcileComplete.

Record VersionStatus := {
  DependentsUpgraded : bool;
  Current : string;
  State : version_state;
  Message : string;
  Reason : string;
}.

Record VersionDetails := { AutoUpgrade : bool; Desired : string; vd_Status : VersionStatus }.

Inductive condition_status := ConditionTrue | ConditionFalse | ConditionUnknown.

(** cstor.CStorPoolClusterCondition *)
Record CStorPoolClusterCondition := {
  cond_Type : string;
  cond_Status : condition_status;
  cond_LastUpdateTime : Z;
  cond_LastTransitionTime : Z;
  cond_Reason : string;
  cond_Message : string;
}.

(** cstor.CStorPoolClusterStatus: the counters are int32. *)
Record CStorPoolClusterStatus := {
  ProvisionedInstances : Z;
  DesiredInstances : Z;
  HealthyInstances : Z;
  Conditions : list CStorPoolClusterCondition;
}.

Record CStorPoolCluster := {
  cspc_meta : ObjectMeta;
  cspc_Spec : CStorPoolClusterSpec;
  cspc_Status : CStorPoolClusterStatus;
  cspc_VersionDetails : VersionDetails;
}.

#[export] Instance version_state_eq_dec : EqDecision version_state.
Proof. solve_decision. Defined.
#[export] Instance condition_status_eq_dec : EqDecision condition_status.
Proof. solve_decision. Defined.

(** ** Pool instances, devices, claims, nodes, replicas, deployments *)

Record CStorPoolInstanceSpec := {
  cspi_HostName : string;
  cspi_NodeSelector : gmap string string;
  cspi_PoolConfig : PoolConfig;
  cspi_DataRaidGroups : list RaidGroup;
  cspi_WriteCacheRaidGroups : list RaidGroup;
}.

(** k8s.io/apimachinery/pkg/api/resource.Quantity: the scaled integer (a value and its scale),
    the arbitrary-precision decimal when the integer does not fit, the cached text and the
    format.  [reflect.DeepEqual] compares these fields. *)
Record Quantity := { q_i : Z * Z; q_d : option (Z * Z); q_s : string; q_Format : string }.
Definition quantity_zero : Quantity := {| q_i := (0%Z, 0%Z); q_d := None; q_s := ""; q_Format := "" |}.

(** cstor.CStorPoolInstanceCapacity *)
Record CStorPoolInstanceCapacity := {
  cap_Used : Quantity;
  cap_Free : Quantity;
  cap_Total : Quantity;
  cap_LogicalUsed : Quantity;
}.

(** cstor.CStorPoolInstanceCondition has the fields of a condition of a cluster. *)
Definition CStorPoolInstanceCondition : Type := CStorPoolClusterCondition.

(** cstor.CStorPoolInstanceStatus: the counters are int32. *)
Record CStorPoolInstanceStatus := {
  csps_Phase : string;
  csps_ReadOnly : bool;
  csps_Capacity : CStorPoolInstanceCapacity;
  csps_ProvisionedReplicas : Z;
  csps_HealthyReplicas : Z;
  csps_Conditions : list CStorPoolInstanceCondition;
}.

#[export] Instance Quantity_eq_dec : EqDecision Quantity.
Proof. solve_decision. Defined.
#[export] Instance CStorPoolInstanceCapacity_eq_dec : EqDecision CStorPoolInstanceCapacity.
Proof. solve_decision. Defined.
#[export] Instance CStorPoolClusterCondition_eq_dec : EqDecision CStorPoolClusterCondition.
Proof. solve_decision. Defined.
#[export] Instance CStorPoolInstanceStatus_eq_dec : EqDecision CStorPoolInstanceStatus.
Proof. unfold EqDecision, CStorPoolInstanceCondition. solve_decision. Defined.

(** The zero value of a status, with a phase and a read-only flag. *)
Definition capacity_zero : CStorPoolInstanceCapacity :=
  {| cap_Used := quantity_zero; cap_Free := quantity_zero; cap_Total := quantity_zero;
     cap_LogicalUsed := quantity_zero |}.
Definition cspi_status_of (phase : string) (readOnly : bool) : CStorPoolInstanceStatus :=
  {| csps_Phase := phase; csps_ReadOnly := readOnly; csps_Capacity := capacity_zero;
     csps_ProvisionedReplicas := 0; csps_HealthyReplicas := 0; csps_Conditions := [] |}.

Record CStorPoolInstance := {
  cspi_meta : ObjectMeta;
  cspi_Spec : CStorPoolInstanceSpec;
  cspi_Status : CStorPoolInstanceStatus;
  cspi_VersionDetails : VersionDetails;
}.
Definition cspi_Phase (c : CStorPoolInstance) : string := csps_Phase (cspi_Status c).
Definition cspi_ReadOnly (c : CStorPoolInstance) : bool := csps_ReadOnly (cspi_Status c).

(** openebs.io/v1alpha1.BlockDevice *)
Record BlockDevice := {
  bd_meta : ObjectMeta;
  bd_State : string;
  bd_ClaimState : string;
  (** [Spec.ClaimRef.Name], when [Spec.ClaimRef] is not nil *)
  bd_ClaimRef : option string;
  bd_Storage : Z;
  bd_FSType : string;
  (** [Spec.DevLinks], the links of each kind, and [Spec.Path] *)
  bd_DevLinks : list (string * list string);
  bd_Path : string;
}.

(** openebs.io/v1alpha1.BlockDeviceClaim *)
Record BlockDeviceClaim := {
  bdc_meta : ObjectMeta;
  bdc_BlockDeviceName : string;
  bdc_HostName : string;
  bdc_Capacity : Z;
  bdc_Selector : option (gmap string string);
}.

(** corev1.Node, with the types and the statuses of its conditions. *)
Record Node := { node_meta : ObjectMeta; node_Conditions : list (string * string) }.

(** cstor.CStorSnapshotInfo: [LogicalReferenced] is of type uint64. *)
Record CStorSnapshotInfo := { LogicalReferenced : Z }.

(** cstor.CStorVolumeReplicaStatus.  The code reads a nil map as it reads an empty one and makes
    a map before it writes to it: both are the empty map. *)
Record CStorVolumeReplicaStatus := {
  rs_Phase : string;
  rs_Capacity_Total : string;
  rs_Capacity_Used : string;
  rs_LastTransitionTime : Z;
  rs_LastUpdateTime : Z;
  rs_Snapshots : gmap string CStorSnapshotInfo;
  rs_PendingSnapshots : gmap string CStorSnapshotInfo;
}.
Definition cvr_status_of (phase : string) : CStorVolumeReplicaStatus :=
  {| rs_Phase := phase; rs_Capacity_Total := ""; rs_Capacity_Used := ""; rs_LastTransitionTime := 0;
     rs_LastUpdateTime := 0; rs_Snapshots := ∅; rs_PendingSnapshots := ∅ |}.

(** cstor.CStorVolumeReplica; the capacity is the text of a quantity. *)
Record CStorVolumeReplica := {
  cvr_meta : ObjectMeta;
  cvr_TargetIP : string;
  cvr_Capacity : string;
  cvr_ZvolWorkers : string;
  cvr_ReplicaID : string;
  cvr_Status : CStorVolumeReplicaStatus;
  cvr_VersionDetails : VersionDetails;
}.
Definition cvr_Phase (r : CStorVolumeReplica) : string := rs_Phase (cvr_Status r).

(** appsv1.Deployment.  Its specification is only written, through builder chains of
    openebs/api, and is kept as the arguments of the calls of the chain: a field
    that no call sets is [None] or empty. *)
Record VolumeMount := { vm_Name : string; MountPath : string }.
(** An environment variable has a value or the path of a field of its pod. *)
Inductive EnvVar := EnvValue (n v : string) | EnvFieldRef (n path : string).
Record ContainerPort := { cp_ContainerPort : Z; cp_Protocol : string }.
Record Probe := {
  probe_Command : list string;
  FailureThreshold : Z;
  InitialDelaySeconds : Z;
  PeriodSeconds : Z;
  TimeoutSeconds : Z;
}.
Inductive VolumeSource := HostPath (path type : string) | EmptyDir.
Record Volume := { vol_Name : string; vol_Source : VolumeSource }.
Record Container := {
  ctr_Image : string;
  ctr_Name : string;
  ctr_ImagePullPolicy : string;
  ctr_Privileged : bool;
  (** [WithEnvsNew] and [WithEnvs] *)
  ctr_EnvsNew : list EnvVar;
  ctr_Envs : list EnvVar;
  ctr_Resources : option ResourceRequirements;
  ctr_VolumeMounts : list VolumeMount;
  ctr_Ports : list ContainerPort;
  ctr_LivenessProbe : option Probe;
  ctr_PostStart : option (list string);
  ctr_Command : list string;
  ctr_Args : list string;
}.
(** corev1.PodAffinity is only passed on. *)
Record PodAffinityTerm := {
  pat_MatchLabels : gmap string string;
  pat_Namespaces : list string;
  pat_TopologyKey : string;
}.
Record PodAffinity := {
  pa_Required : list PodAffinityTerm;
  pa_Preferred : list (Z * PodAffinityTerm);
}.
(** corev1.Affinity, of which the code sets the pod affinity. *)
Record Affinity := { af_PodAffinity : option PodAffinity }.
Record PodTemplateSpec := {
  pod_Labels : gmap string string;
  pod_Annotations : gmap string string;
  pod_PriorityClassName : string;
  pod_NodeSelector : gmap string string;
  pod_ServiceAccountName : string;
  pod_Affinity : option Affinity;
  pod_Tolerations : list Toleration;
  pod_ImagePullSecrets : list string;
  pod_Containers : list Container;
  pod_Volumes : list Volume;
}.
Record DeploymentSpec := {
  dep_Replicas : Z;
  dep_StrategyType : string;
  dep_MatchLabels : gmap string string;
  dep_Template : PodTemplateSpec;
}.
Record Deployment := {
  dep_meta : ObjectMeta;
  dep_Spec : DeploymentSpec;
  dep_ReadyReplicas : Z;
}.

(** The zero value of a deployment. *)
Definition dep_zero : Deployment :=
  {| dep_meta := meta_empty;
     dep_Spec := {| dep_Replicas := 0; dep_StrategyType := ""; dep_MatchLabels := ∅;
                    dep_Template := {| pod_Labels := ∅; pod_Annotations := ∅;
                      pod_PriorityClassName := ""; pod_NodeSelector := ∅;
                      pod_ServiceAccountName := ""; pod_Affinity := None; pod_Tolerations := [];
                      pod_ImagePullSecrets := []; pod_Containers := []; pod_Volumes := [] |} |};
     dep_ReadyReplicas := 0 |}.

Definition bd_empty : BlockDevice :=
  {| bd_meta := meta_empty; bd_State := ""; bd_ClaimState := ""; bd_ClaimRef := None;
     bd_Storage := 0; bd_FSType := ""; bd_DevLinks := []; bd_Path := "" |}.

(** Assignments to the version of an object. *)
Definition version_with_status (s : VersionStatus) (v : VersionDetails) : VersionDetails :=
  {| AutoUpgrade := AutoUpgrade v; Desired := Desired v; vd_Status := s |}.

(** Current and Desired are set and the dependents are marked as upgraded. *)
Definition version_populated (v : string) (d : VersionDetails) : VersionDetails :=
  {| AutoUpgrade := AutoUpgrade d; Desired := v;
     vd_Status := {| DependentsUpgraded := true; Current := v; State := State (vd_Status d);
                     Message := Message (vd_Status d); Reason := Reason (vd_Status d) |} |}.

(** Assignments to the metadata of an object. *)
Definition cspc_with_meta (m : ObjectMeta) (c : CStorPoolCluster) : CStorPoolCluster :=
  {| cspc_meta := m; cspc_Spec := cspc_Spec c; cspc_Status := cspc_Status c;
     cspc_VersionDetails := cspc_VersionDetails c |}.
Definition cspi_with_meta (m : ObjectMeta) (c : CStorPoolInstance) : CStorPoolInstance :=
  {| cspi_meta := m; cspi_Spec := cspi_Spec c; cspi_Status := cspi_Status c;
     cspi_VersionDetails := cspi_VersionDetails c |}.
Definition bd_with_meta (m : ObjectMeta) (b : BlockDevice) : BlockDevice :=
  {| bd_meta := m; bd_State := bd_State b; bd_ClaimState := bd_ClaimState b;
     bd_ClaimRef := bd_ClaimRef b; bd_Storage := bd_Storage b; bd_FSType := bd_FSType b;
     bd_DevLinks := bd_DevLinks b; bd_Path := bd_Path b |}.
Definition bdc_with_meta (m : ObjectMeta) (b : BlockDeviceClaim) : BlockDeviceClaim :=
  {| bdc_meta := m; bdc_BlockDeviceName := bdc_BlockDeviceName b; bdc_HostName := bdc_HostName b;
     bdc_Capacity := bdc_Capacity b; bdc_Selector := bdc_Selector b |}.
Definition bdc_with_selector (sel : option (gmap string string)) (b : BlockDeviceClaim)
  : BlockDeviceClaim :=
  {| bdc_meta := bdc_meta b; bdc_BlockDeviceName := bdc_BlockDeviceName b;
     bdc_HostName := bdc_HostName b; bdc_Capacity := bdc_Capacity b; bdc_Selector := sel |}.
Definition dep_with_meta (m : ObjectMeta) (d : Deployment) : Deployment :=
  {| dep_meta := m; dep_Spec := dep_Spec d; dep_ReadyReplicas := dep_ReadyReplicas d |}.

(** Assignments to the other fields of a cluster and of a pool instance. *)
Definition cspc_with_status (s : CStorPoolClusterStatus) (c : CStorPoolCluster) : CStorPoolCluster :=
  {| cspc_meta := cspc_meta c; cspc_Spec := cspc_Spec c; cspc_Status := s;
     cspc_VersionDetails := cspc_VersionDetails c |}.
Definition cspc_with_version (v : VersionDetails) (c : CStorPoolCluster) : CStorPoolCluster :=
  {| cspc_meta := cspc_meta c; cspc_Spec := cspc_Spec c; cspc_Status := cspc_Status c;
     cspc_VersionDetails := v |}.
Definition cspi_with_spec (s : CStorPoolInstanceSpec) (c : CStorPoolInstance) : CStorPoolInstance :=
  {| cspi_meta := cspi_meta c; cspi_Spec := s; cspi_Status := cspi_Status c;
     cspi_VersionDetails := cspi_VersionDetails c |}.
Definition cspi_with_status (s : CStorPoolInstanceStatus) (c : CStorPoolInstance) : CStorPoolInstance :=
  {| cspi_meta := cspi_meta c; cspi_Spec := cspi_Spec c; cspi_Status := s;
     cspi_VersionDetails := cspi_VersionDetails c |}.
Definition cspi_with_version (v : VersionDetails) (c : CStorPoolInstance) : CStorPoolInstance :=
  {| cspi_meta := cspi_meta c; cspi_Spec := cspi_Spec c; cspi_Status := cspi_Status c;
     cspi_VersionDetails := v |}.
Definition spec_with_config (pc : PoolConfig) (s : CStorPoolInstanceSpec) : CStorPoolInstanceSpec :=
  {| cspi_HostName := cspi_HostName s; cspi_NodeSelector := cspi_NodeSelector s;
     cspi_PoolConfig := pc; cspi_DataRaidGroups := cspi_DataRaidGroups s;
     cspi_WriteCacheRaidGroups := cspi_WriteCacheRaidGroups s |}.
Definition spec_with_selector (sel : gmap string string) (s : CStorPoolInstanceSpec)
  : CStorPoolInstanceSpec :=
  {| cspi_HostName := cspi_HostName s; cspi_NodeSelector := sel;
     cspi_PoolConfig := cspi_PoolConfig s; cspi_DataRaidGroups := cspi_DataRaidGroups s;
     cspi_WriteCacheRaidGroups := cspi_WriteCacheRaidGroups s |}.
Definition spec_with_hostName (h : string) (s : CStorPoolInstanceSpec) : CStorPoolInstanceSpec :=
  {| cspi_HostName := h; cspi_NodeSelector := cspi_NodeSelector s;
     cspi_PoolConfig := cspi_PoolConfig s; cspi_DataRaidGroups := cspi_DataRaidGroups s;
     cspi_WriteCacheRaidGroups := cspi_WriteCacheRaidGroups s |}.
Definition spec_with_data (rgs : list RaidGroup) (s : CStorPoolInstanceSpec)
  : CStorPoolInstanceSpec :=
  {| cspi_HostName := cspi_HostName s; cspi_NodeSelector := cspi_NodeSelector s;
     cspi_PoolConfig := cspi_PoolConfig s; cspi_DataRaidGroups := rgs;
     cspi_WriteCacheRaidGroups := cspi_WriteCacheRaidGroups s |}.
Definition with_data_groups (rgs : list RaidGroup) (c : CStorPoolInstance) : CStorPoolInstance :=
  cspi_with_spec (spec_with_data rgs (cspi_Spec c)) c.
Definition meta_with_resourceVersion (rv : string) (m : ObjectMeta) : ObjectMeta :=
  {| om_name := om_name m; om_namespace := om_namespace m; om_uid := om_uid m;
     om_resourceVersion := rv; om_labels := om_labels m; om_annotations := om_annotations m;
     om_finalizers := om_finalizers m; om_owners := om_owners m; om_deletion := om_deletion m |}.
Definition meta_with_finalizers (f : list string) (m : ObjectMeta) : ObjectMeta :=
  {| om_name := om_name m; om_namespace := om_namespace m; om_uid := om_uid m;
     om_resourceVersion := om_resourceVersion m; om_labels := om_labels m; om_annotations := om_annotations m; om_finalizers := f;
     om_owners := om_owners m; om_deletion := om_deletion m |}.
Definition meta_with_labels (l : gmap string string) (m : ObjectMeta) : ObjectMeta :=
  {| om_name := om_name m; om_namespace := om_namespace m; om_uid := om_uid m;
     om_resourceVersion := om_resourceVersion m; om_labels := l;
     om_annotations := om_annotations m; om_finalizers := om_finalizers m;
     om_owners := om_owners m; om_deletion := om_deletion m |}.
Definition meta_with_deletion (d : option Z) (m : ObjectMeta) : ObjectMeta :=
  {| om_name := om_name m; om_namespace := om_namespace m; om_uid := om_uid m;
     om_resourceVersion := om_resourceVersion m; om_labels := om_labels m; om_annotations := om_annotations m;
     om_finalizers := om_finalizers m; om_owners := om_owners m; om_deletion := d |}.
Definition meta_with_annotations (a : gmap string string) (m : ObjectMeta) : ObjectMeta :=
  {| om_name := om_name m; om_namespace := om_namespace m; om_uid := om_uid m;
     om_resourceVersion := om_resourceVersion m; om_labels := om_labels m; om_annotations := a; om_finalizers := om_finalizers m;
     om_owners := om_owners m; om_deletion := om_deletion m |}.

Class HasMeta (Obj : Type) := { meta : Obj → ObjectMeta; with_meta : ObjectMeta → Obj → Obj }.
#[export] Instance cspc_HasMeta : HasMeta CStorPoolCluster :=
  {| meta := cspc_meta; with_meta := cspc_with_meta |}.
#[export] Instance cspi_HasMeta : HasMeta CStorPoolInstance :=
  {| meta := cspi_meta; with_meta := cspi_with_meta |}.
#[export] Instance bd_HasMeta : HasMeta BlockDevice :=
  {| meta := bd_meta; with_meta := bd_with_meta |}.
#[export] Instance bdc_HasMeta : HasMeta BlockDeviceClaim :=
  {| meta := bdc_meta; with_meta := bdc_with_meta |}.
#[export] Instance node_HasMeta : HasMeta Node :=
  {| meta := node_meta; with_meta m n := {| node_meta := m; node_Conditions := node_Conditions n |} |}.
#[export] Instance cvr_HasMeta : HasMeta CStorVolumeReplica :=
  {| meta := cvr_meta;
     with_meta m r := {| cvr_meta := m; cvr_TargetIP := cvr_TargetIP r;
       cvr_Capacity := cvr_Capacity r; cvr_ZvolWorkers := cvr_ZvolWorkers r;
       cvr_ReplicaID := cvr_ReplicaID r; cvr_Status := cvr_Status r;
       cvr_VersionDetails := cvr_VersionDetails r |} |}.
#[export] Instance dep_HasMeta : HasMeta Deployment :=
  {| meta := dep_meta; with_meta := dep_with_meta |}.

Definition name {Obj} `{HasMeta Obj} (o : Obj) : string := om_name (meta o).
Definition namespace {Obj} `{HasMeta Obj} (o : Obj) : string := om_namespace (meta o).
Definition uid {Obj} `{HasMeta Obj} (o : Obj) : string := om_uid (meta o).
Definition labels {Obj} `{HasMeta Obj} (o : Obj) : gmap string string := om_labels (meta o).
Definition annotations {Obj} `{HasMeta Obj} (o : Obj) : gmap string string :=
  om_annotations (meta o).
Definition finalizers {Obj} `{HasMeta Obj} (o : Obj) : list string := om_finalizers (meta o).

(** ** The typed client of one kind of object

    Reads are functions of the world; writes return the next world. *)
Class ResourceClient (W Obj : Type) := {
  rGet : W → string → string → result Obj;
  rList : W → string → string → result (list Obj);
  rCreate : string → Obj → W → result Obj * W;
  rUpdate : string → Obj → W → result Obj * W;
  rDelete : string → string → W → result unit * W;
  rDeleteCollection : string → string → W → result unit * W;
}.

(** The rest of the world of a controller: the random names of
    k8s.io/apimachinery/pkg/util/rand, the clock, the event recorder and the
    strategic merge patch of a deployment. *)
Record event := {
  ev_object : string;
  ev_type : string;
  ev_reason : string;
  ev_message : string;
  ev_args : list string;
}.

Class Env (W : Type) := {
  rand_String : nat → W → string * W;
  Now : W → Z;
  Event : event → W → W;
  rPatch : string → string → string → W → result Deployment * W;
}.

Definition rand_string {W} `{Env W} (n : nat) : M W string := call (rand_String n).
Definition emit {W} `{Env W} (e : event) : M W unit := λ w, (Ret tt, Event e w).

(** The environment of the process and the helpers that read it. *)
Class PodEnv := {
  os_LookupEnv : string → option string;
  GetServiceAccountName : string;
  GetOpenEBSImagePullSecrets : string;
  GetImagePullSecrets : string → list string;
  GetOpenebsBaseDirPath : string;
}.

(** The selector as the API server reads it: comma separated [key=value]. *)
Definition parse_selector (s : string) : option (list (string * string)) :=
  mapM (λ kv, match split_on "="%char kv with [k; v] => Some (k, v) | _ => None end)
    (split_on ","%char s).

(** What [items, err := client.List(...)] leaves in [items.Items] when the
    error is not looked at: the generated client returns an empty list. *)
Definition items_or_empty {A} (r : result (list A)) : list A :=
  match r with OK l => l | Err _ => [] end.

(** ** Helpers and constants of the openebs/api package *)

(** The arguments of the builder chain [NewBlockDeviceClaim().WithName(..)...] *)
Record bdc_args := {
  ba_name : string;
  ba_namespace : string;
  ba_labels : gmap string string;
  ba_annotations : gmap string string;
  ba_blockDeviceName : string;
  ba_hostName : string;
  ba_capacity : Z;
  ba_owner : OwnerReference;
  ba_finalizer : string;
}.

(** The arguments of the builder chain [NewCStorPoolInstance().WithName(..)...] *)
Record cspi_args := {
  ca_name : string;
  ca_namespace : string;
  ca_nodeSelector : gmap string string;
  ca_nodeName : string;
  ca_poolConfig : PoolConfig;
  ca_data : list RaidGroup;
  ca_writeCache : list RaidGroup;
  ca_owner : OwnerReference;
  ca_labels : gmap string string;
  ca_finalizer : string;
  ca_version : string;
}.

(** The arguments of the builder chain [NewDeployment().WithName(..)...] *)
Record deploy_args := {
  da_name : string;
  da_namespace : string;
  da_annotations : gmap string string;
  da_labels : gmap string string;
  da_owners : list OwnerReference;
  da_spec : DeploymentSpec;
}.

Class OpenebsApi := {
  (** pkg/apis/types *)
  HostNameLabelKey : string;
  CStorPoolClusterLabelKey : string;
  CStorPoolInstanceNameLabelKey : string;
  CStorPoolInstanceLabelKey : string;
  BlockDeviceTagLabelKey : string;
  OpenEBSAllowedBDTagKey : string;
  PredecessorBDLabelKey : string;
  OpenEBSVersionLabelKey : string;
  CASTypeLabelKey : string;
  CasTypeCStor : string;
  OpenEBSDisableDependantsReconcileKey : string;
  OpenEBSDisableReconcileLabelKey : string;
  CSPCFinalizer : string;
  PoolProtectionFinalizer : string;
  (** pkg/apis/cstor/v1 and pkg/apis/openebs.io/v1alpha1 *)
  BlockDeviceClaimed : string;
  CStorPoolStatusOnline : string;
  build_bdc : bdc_args → BlockDeviceClaim;
  bdc_WithAnnotations : gmap string string → BlockDeviceClaim → BlockDeviceClaim;
  build_cspi : cspi_args → CStorPoolInstance;
  cspi_WithAnnotations : gmap string string → CStorPoolInstance → CStorPoolInstance;
  cspi_WithPoolConfig : PoolConfig → CStorPoolInstance → CStorPoolInstance;
  cspi_WithNodeSelector : gmap string string → CStorPoolInstance → CStorPoolInstance;
  build_deployment : deploy_args → Deployment;
  HasNodeName : string → CStorPoolInstance → bool;
  HasFinalizer : string → CStorPoolCluster → bool;
  WithFinalizer : string → CStorPoolCluster → CStorPoolCluster;
  RemoveFinalizer : string → CStorPoolCluster → CStorPoolCluster;
  SetInProgressStatus : VersionStatus → VersionStatus;
  SetSuccessStatus : VersionDetails → VersionDetails;
  SetErrorStatus : string → error → VersionStatus → VersionStatus;
  (** pkg/util *)
  ContainsString : list string → string → bool;
  RemoveString : list string → string → list string;
  (** encoding/json and k8s.io/apimachinery/pkg/util/strategicpatch, on deployments *)
  json_Marshal : Deployment → result string;
  CreateTwoWayMergePatch : string → string → result string;
  StrategicMergePatch : string → string → result string;
  (** k8s.io/apimachinery: resource.ParseQuantity (in units), metav1.NewControllerRef
      and labels.Set.String *)
  ParseQuantity : string → result Z;
  cspc_ControllerRef : CStorPoolCluster → OwnerReference;
  cspi_ControllerRef : CStorPoolInstance → OwnerReference;
  labels_Set_String : gmap string string → string;
}.

(** What the operators rely on. *)
Class OpenebsApiLaws `{OpenebsApi} : Prop := {
  ContainsString_spec : ∀ l s, ContainsString l s = true ↔ s ∈ l;
  RemoveString_spec : ∀ l s x, x ∈ RemoveString l s ↔ x ∈ l ∧ x ≠ s;
  HasFinalizer_spec : ∀ f c, HasFinalizer f c = true ↔ f ∈ finalizers c;
  RemoveFinalizer_spec : ∀ f c x, x ∈ finalizers (RemoveFinalizer f c) ↔ x ∈ finalizers c ∧ x ≠ f;
  build_bdc_name : ∀ a, name (build_bdc a) = ba_name a;
  build_bdc_blockDeviceName : ∀ a, bdc_BlockDeviceName (build_bdc a) = ba_blockDeviceName a;
  build_bdc_labels : ∀ a k v, ba_labels a !! k = Some v → labels (build_bdc a) !! k = Some v;
  build_bdc_annotations : ∀ a k v,
    ba_annotations a !! k = Some v → annotations (build_bdc a) !! k = Some v;
  build_bdc_finalizer : ∀ a, ba_finalizer a ∈ finalizers (build_bdc a);
  bdc_WithAnnotations_spec : ∀ m b k v,
    m !! k = Some v → annotations (bdc_WithAnnotations m b) !! k = Some v;
  bdc_WithAnnotations_name : ∀ m b, name (bdc_WithAnnotations m b) = name b;
  build_cspi_meta : ∀ a, name (build_cspi a) = ca_name a ∧ namespace (build_cspi a) = ca_namespace a;
  build_cspi_spec : ∀ a, cspi_Spec (build_cspi a) =
    {| cspi_HostName := ca_nodeName a; cspi_NodeSelector := ca_nodeSelector a;
       cspi_PoolConfig := ca_poolConfig a; cspi_DataRaidGroups := ca_data a;
       cspi_WriteCacheRaidGroups := ca_writeCache a |};
  build_cspi_labels : ∀ a k v, ca_labels a !! k = Some v → labels (build_cspi a) !! k = Some v;
  cspi_WithAnnotations_spec : ∀ m c, cspi_Spec (cspi_WithAnnotations m c) = cspi_Spec c;
  cspi_WithAnnotations_meta : ∀ m c, name (cspi_WithAnnotations m c) = name c ∧
    namespace (cspi_WithAnnotations m c) = namespace c ∧
    labels (cspi_WithAnnotations m c) = labels c;
  cspi_WithPoolConfig_spec : ∀ pc c,
    cspi_WithPoolConfig pc c = cspi_with_spec (spec_with_config pc (cspi_Spec c)) c;
  cspi_WithNodeSelector_spec : ∀ sel c,
    cspi_WithNodeSelector sel c = cspi_with_spec (spec_with_selector sel (cspi_Spec c)) c;
  build_deployment_meta : ∀ a, name (build_deployment a) = da_name a ∧
    namespace (build_deployment a) = da_namespace a ∧
    dep_Spec (build_deployment a) = da_spec a;
}.
