(* ===== verification/Memory.v ===== *)
(** * Memory: an in-memory cluster

    A concrete instance of the client interface of [Api], used to run the
    operators on small clusters: objects are kept in finite maps by namespace
    and name; a create and an update give the object a new resource version and an
    update with a stale one is refused; a delete of an object with finalizers sets
    its deletion time, and an update that removes the last finalizer of a deleted
    object removes it, as the API server does; a delete without a name is refused, as
    client-go does. *)

From stdpp Require Import base gmap strings list sets pretty.
From Stdlib Require Import Ascii ZArith Lia.
From S2P Require Import Prelude Api.

(** ** Stores *)

Class Stored (W Obj : Type) := {
  store_of : W → gmap (string * string) Obj;
  with_store : gmap (string * string) Obj → W → W;
}.

Definition matches {Obj} `{HasMeta Obj} (selector : string) (o : Obj) : bool :=
  if bool_decide (selector = "") then true
  else match parse_selector selector with
       | Some l => forallb (λ '(k, v), bool_decide (labels o !! k = Some v)) l
       | None => false
       end.

Definition select {Obj} `{HasMeta Obj} (ns selector : string)
  (m : gmap (string * string) Obj) : list Obj :=
  (map_to_list m) ≫= λ '((ns', _), o),
    if (bool_decide (ns = "") || bool_decide (ns = ns')) && matches selector o then [o] else [].

Definition store_delete {Obj} `{HasMeta Obj} (k : string * string) (o : Obj)
  (m : gmap (string * string) Obj) : gmap (string * string) Obj :=
  if bool_decide (finalizers o = []) then delete k m
  else <[k := with_meta (meta_with_deletion (Some 1%Z) (meta o)) o]> m.

(** Resource versions are only compared for equality: the next one is a longer string. *)
Definition stamp {Obj} `{HasMeta Obj} (rv : string) (o : Obj) : Obj :=
  with_meta (meta_with_resourceVersion rv (meta o)) o.
Definition version_of {Obj} `{HasMeta Obj} (o : Obj) : string := om_resourceVersion (meta o).

#[export] Instance memory_client W Obj `{HasMeta Obj} `{!Stored W Obj} : ResourceClient W Obj := {|
  rGet w ns n :=
    match store_of w !! (ns, n) with
    | Some o => OK o
    | None => Err (APIError NotFound n)
    end;
  rList w ns selector := OK (select ns selector (store_of w));
  rCreate ns o w :=
    match store_of w !! (ns, name o) with
    | Some _ => (Err (APIError AlreadyExists (name o)), w)
    | None => let o' := stamp "1" o in
              (OK o', with_store (<[(ns, name o) := o']> (store_of w)) w)
    end;
  rUpdate ns o w :=
    match store_of w !! (ns, name o) with
    | None => (Err (APIError NotFound (name o)), w)
    | Some old =>
        if negb (bool_decide (version_of o = "")) &&
           negb (bool_decide (version_of o = version_of old))
        then (Err (APIError Conflict (name o)), w)
        else
          let o' := stamp (version_of old +:+ "1") o in
          if bool_decide (finalizers o = []) && negb (bool_decide (om_deletion (meta o) = None))
          then (OK o', with_store (delete (ns, name o) (store_of w)) w)
          else (OK o', with_store (<[(ns, name o) := o']> (store_of w)) w)
    end;
  rDelete ns n w :=
    if bool_decide (n = "") then (Err (Errorf "resource name may not be empty" []), w)
    else
      match store_of (Obj:=Obj) w !! (ns, n) with
      | None => (Err (APIError NotFound n), w)
      | Some o => (OK tt, with_store (store_delete (ns, n) o (store_of w)) w)
      end;
  rDeleteCollection ns selector w :=
    (OK tt, with_store
       (foldr (λ o m, store_delete (ns, name o) o m) (store_of w)
          (select ns selector (store_of w : gmap (string * string) Obj))) w);
|}.

(** ** The cluster *)

Record cluster := {
  c_nodes : gmap (string * string) Node;
  c_bds : gmap (string * string) BlockDevice;
  c_bdcs : gmap (string * string) BlockDeviceClaim;
  c_cspcs : gmap (string * string) CStorPoolCluster;
  c_cspis : gmap (string * string) CStorPoolInstance;
  c_cvrs : gmap (string * string) CStorVolumeReplica;
  c_deploys : gmap (string * string) Deployment;
  c_clock : Z;
  c_seed : nat;
  c_events : list event;
}.

Definition no_objects : cluster :=
  {| c_nodes := ∅; c_bds := ∅; c_bdcs := ∅; c_cspcs := ∅; c_cspis := ∅; c_cvrs := ∅;
     c_deploys := ∅; c_clock := 0; c_seed := 0; c_events := [] |}.

#[export] Instance stored_nodes : Stored cluster Node := {| store_of := c_nodes;
  with_store m c :=
  {| c_nodes := m; c_bds := c_bds c; c_bdcs := c_bdcs c; c_cspcs := c_cspcs c;
     c_cspis := c_cspis c; c_cvrs := c_cvrs c; c_deploys := c_deploys c;
     c_clock := c_clock c; c_seed := c_seed c; c_events := c_events c |} |}.
#[export] Instance stored_bds : Stored cluster BlockDevice := {| store_of := c_bds;
  with_store m c :=
  {| c_nodes := c_nodes c; c_bds := m; c_bdcs := c_bdcs c; c_cspcs := c_cspcs c;
     c_cspis := c_cspis c; c_cvrs := c_cvrs c; c_deploys := c_deploys c;
     c_clock := c_clock c; c_seed := c_seed c; c_events := c_events c |} |}.
#[export] Instance stored_bdcs : Stored cluster BlockDeviceClaim := {| store_of := c_bdcs;
  with_store m c :=
  {| c_nodes := c_nodes c; c_bds := c_bds c; c_bdcs := m; c_cspcs := c_cspcs c;
     c_cspis := c_cspis c; c_cvrs := c_cvrs c; c_deploys := c_deploys c;
     c_clock := c_clock c; c_seed := c_seed c; c_events := c_events c |} |}.
#[export] Instance stored_cspcs : Stored cluster CStorPoolCluster := {| store_of := c_cspcs;
  with_store m c :=
  {| c_nodes := c_nodes c; c_bds := c_bds c; c_bdcs := c_bdcs c; c_cspcs := m;
     c_cspis := c_cspis c; c_cvrs := c_cvrs c; c_deploys := c_deploys c;
     c_clock := c_clock c; c_seed := c_seed c; c_events := c_events c |} |}.
#[export] Instance stored_cspis : Stored cluster CStorPoolInstance := {| store_of := c_cspis;
  with_store m c :=
  {| c_nodes := c_nodes c; c_bds := c_bds c; c_bdcs := c_bdcs c;
     c_cspcs := c_cspcs c; c_cspis := m; c_cvrs := c_cvrs c;
     c_deploys := c_deploys c; c_clock := c_clock c; c_seed := c_seed c;
     c_events := c_events c |} |}.
#[export] Instance stored_cvrs : Stored cluster CStorVolumeReplica := {| store_of := c_cvrs;
  with_store m c :=
  {| c_nodes := c_nodes c; c_bds := c_bds c; c_bdcs := c_bdcs c;
     c_cspcs := c_cspcs c; c_cspis := c_cspis c; c_cvrs := m;
     c_deploys := c_deploys c; c_clock := c_clock c; c_seed := c_seed c;
     c_events := c_events c |} |}.
#[export] Instance stored_deploys : Stored cluster Deployment := {| store_of := c_deploys;
  with_store m c :=
  {| c_nodes := c_nodes c; c_bds := c_bds c; c_bdcs := c_bdcs c;
     c_cspcs := c_cspcs c; c_cspis := c_cspis c; c_cvrs := c_cvrs c;
     c_deploys := m; c_clock := c_clock c; c_seed := c_seed c;
     c_events := c_events c |} |}.

#[export] Instance memory_env : Env cluster := {|
  rand_String _ c := (pretty (N.of_nat (c_seed c)),
  {| c_nodes := c_nodes c; c_bds := c_bds c; c_bdcs := c_bdcs c;
     c_cspcs := c_cspcs c; c_cspis := c_cspis c; c_cvrs := c_cvrs c;
     c_deploys := c_deploys c; c_clock := c_clock c; c_seed := S (c_seed c);
     c_events := c_events c |});
  Now c := c_clock c;
  Event e c :=
  {| c_nodes := c_nodes c; c_bds := c_bds c; c_bdcs := c_bdcs c;
     c_cspcs := c_cspcs c; c_cspis := c_cspis c; c_cvrs := c_cvrs c;
     c_deploys := c_deploys c; c_clock := c_clock c; c_seed := c_seed c;
     c_events := c_events c ++ [e] |};
  rPatch ns n _ c :=
    (match c_deploys c !! (ns, n) with
     | Some d => OK d
     | None => Err (APIError NotFound n)
     end, c);
|}.

(** A pod with an empty environment. *)
#[export] Instance memory_pod : PodEnv := {|
  os_LookupEnv _ := None;
  GetServiceAccountName := "openebs-maya-operator";
  GetOpenEBSImagePullSecrets := "";
  GetImagePullSecrets s := if bool_decide (s = "") then [] else split_on ","%char s;
  GetOpenebsBaseDirPath := "/var/openebs";
|}.

(** ** A reference implementation of the openebs/api helpers *)

Definition bdc_of_args (a : bdc_args) : BlockDeviceClaim :=
  {| bdc_meta := {| om_name := ba_name a; om_namespace := ba_namespace a; om_uid := ""; om_resourceVersion := "";
                    om_labels := ba_labels a; om_annotations := ba_annotations a;
                    om_finalizers := [ba_finalizer a]; om_owners := [ba_owner a];
                    om_deletion := None |};
     bdc_BlockDeviceName := ba_blockDeviceName a; bdc_HostName := ba_hostName a;
     bdc_Capacity := ba_capacity a; bdc_Selector := None |}.

Definition version_at (v : string) : VersionDetails :=
  {| AutoUpgrade := false; Desired := v;
     vd_Status := {| DependentsUpgraded := true; Current := v; State := VersionStateNone;
                     Message := ""; Reason := "" |} |}.

Definition cspi_of_args (a : cspi_args) : CStorPoolInstance :=
  {| cspi_meta := {| om_name := ca_name a; om_namespace := ca_namespace a; om_uid := ""; om_resourceVersion := "";
                     om_labels := ca_labels a; om_annotations := ∅;
                     om_finalizers := [ca_finalizer a]; om_owners := [ca_owner a];
                     om_deletion := None |};
     cspi_Spec := {| cspi_HostName := ca_nodeName a; cspi_NodeSelector := ca_nodeSelector a;
                     cspi_PoolConfig := ca_poolConfig a; cspi_DataRaidGroups := ca_data a;
                     cspi_WriteCacheRaidGroups := ca_writeCache a |};
     cspi_Status := cspi_status_of "" false; cspi_VersionDetails := version_at (ca_version a) |}.

(** Quantities with a decimal suffix: digits, then nothing or one of k, M, G, T, P, E. *)
Definition suffix_value (a : ascii) : option Z :=
  if Ascii.eqb a "k" then Some (10 ^ 3)%Z
  else if Ascii.eqb a "M" then Some (10 ^ 6)%Z
  else if Ascii.eqb a "G" then Some (10 ^ 9)%Z
  else if Ascii.eqb a "T" then Some (10 ^ 12)%Z
  else if Ascii.eqb a "P" then Some (10 ^ 15)%Z
  else if Ascii.eqb a "E" then Some (10 ^ 18)%Z
  else None.

Fixpoint parse_digits (l : list ascii) (acc : Z) : option Z :=
  match l with
  | [] => Some acc
  | a :: l' =>
      let d := Z.of_nat (Ascii.nat_of_ascii a) in
      if (48 <=? d)%Z && (d <=? 57)%Z then parse_digits l' (10 * acc + (d - 48))%Z
      else match l' with [] => (λ u, u * acc)%Z <$> suffix_value a | _ => None end
  end.

Definition parse_quantity (s : string) : result Z :=
  match (match s with EmptyString => None | _ => parse_digits (bytes s) 0 end) with
  | Some v => OK v
  | None => Err (Errorf "quantities must match the regular expression" [])
  end.

Definition ref_owner (kind : string) (m : ObjectMeta) : OwnerReference :=
  {| or_apiVersion := "cstor.openebs.io/v1"; or_kind := kind; or_name := om_name m;
     or_uid := om_uid m; or_controller := Some true; or_blockOwnerDeletion := Some true |}.

#[export] Instance ref_api : OpenebsApi := {|
  HostNameLabelKey := "kubernetes.io/hostname";
  CStorPoolClusterLabelKey := "openebs.io/cstor-pool-cluster";
  CStorPoolInstanceNameLabelKey := "cstorpoolinstance.openebs.io/name";
  CStorPoolInstanceLabelKey := "openebs.io/cstor-pool-instance";
  BlockDeviceTagLabelKey := "openebs.io/block-device-tag";
  OpenEBSAllowedBDTagKey := "openebs.io/allowed-bd-tags";
  PredecessorBDLabelKey := "openebs.io/bd-predecessor";
  OpenEBSVersionLabelKey := "openebs.io/version";
  CASTypeLabelKey := "openebs.io/cas-type";
  CasTypeCStor := "cstor";
  OpenEBSDisableDependantsReconcileKey := "reconcile.openebs.io/disable-dependants";
  OpenEBSDisableReconcileLabelKey := "reconcile.openebs.io/disable";
  CSPCFinalizer := "cstorpoolcluster.openebs.io/finalizer";
  PoolProtectionFinalizer := "openebs.io/pool-protection";
  BlockDeviceClaimed := "Claimed";
  CStorPoolStatusOnline := "ONLINE";
  build_bdc := bdc_of_args;
  bdc_WithAnnotations m b := bdc_with_meta (meta_with_annotations (m ∪ annotations b) (meta b)) b;
  build_cspi := cspi_of_args;
  cspi_WithAnnotations m c := cspi_with_meta (meta_with_annotations (m ∪ annotations c) (meta c)) c;
  cspi_WithPoolConfig pc c := cspi_with_spec (spec_with_config pc (cspi_Spec c)) c;
  cspi_WithNodeSelector sel c := cspi_with_spec (spec_with_selector sel (cspi_Spec c)) c;
  build_deployment a :=
    {| dep_meta := {| om_name := da_name a; om_namespace := da_namespace a; om_uid := "";
                      om_resourceVersion := ""; om_labels := da_labels a;
                      om_annotations := da_annotations a; om_finalizers := [];
                      om_owners := da_owners a; om_deletion := None |};
       dep_Spec := da_spec a; dep_ReadyReplicas := 0 |};
  json_Marshal d := OK ("{" +:+ om_name (dep_meta d) +:+ "}");
  CreateTwoWayMergePatch _ modified := OK modified;
  StrategicMergePatch _ patch := OK patch;
  HasNodeName n c := bool_decide (cspi_HostName (cspi_Spec c) = n);
  HasFinalizer f c := bool_decide (f ∈ finalizers c);
  WithFinalizer f c := cspc_with_meta (meta_with_finalizers (finalizers c ++ [f]) (meta c)) c;
  RemoveFinalizer f c :=
    cspc_with_meta (meta_with_finalizers (filter (λ x, x ≠ f) (finalizers c)) (meta c)) c;
  SetInProgressStatus s := {| DependentsUpgraded := DependentsUpgraded s; Current := Current s;
    State := ReconcileInProgress; Message := Message s; Reason := Reason s |};
  SetSuccessStatus v := {| AutoUpgrade := AutoUpgrade v; Desired := Desired v;
    vd_Status := {| DependentsUpgraded := DependentsUpgraded (vd_Status v); Current := Desired v;
                    State := ReconcileComplete; Message := ""; Reason := "" |} |};
  SetErrorStatus msg _ s := {| DependentsUpgraded := DependentsUpgraded s; Current := Current s;
    State := State s; Message := msg; Reason := Reason s |};
  ContainsString l s := bool_decide (s ∈ l);
  RemoveString l s := filter (λ x, x ≠ s) l;
  ParseQuantity := parse_quantity;
  cspc_ControllerRef c := ref_owner "CStorPoolCluster" (meta c);
  cspi_ControllerRef c := ref_owner "CStorPoolInstance" (meta c);
  labels_Set_String m := join "," ((λ kv, kv.1 +:+ "=" +:+ kv.2) <$> map_to_list m);
|}.

#[export] Instance ref_api_laws : OpenebsApiLaws.
Proof.
  split; intros; cbn in *; unfold finalizers, annotations, name, namespace, labels in *; cbn in *;
    rewrite ?bool_decide_eq_true, ?list_elem_of_filter; try done;
    try set_solver; try by split_and!; try by apply lookup_union_Some_l.
  by rewrite lookup_union, H; destruct (om_annotations (bdc_meta b) !! k).
Qed.
