(* ===== verification/Version.v ===== *)
(** * Version: comparison of release versions (pkg/version)

    The operators only upgrade an object whose current version lies between the
    minimum supported version and their own version.  Versions are compared
    component by component; indexing past the components of the newer version
    panics. *)

From stdpp Require Import base gmap strings list sets.
From Stdlib Require Import Ascii ZArith Lia.
From S2P Require Import Prelude.

(** What the build and its environment provide to the package: the variable
    [Version] set by the linker, the content of the VERSION file, the variable
    [GitCommit] and the output of [git rev-parse]. *)
Class BuildInfo := {
  bi_Version : string;
  bi_VersionFile : result string;
  bi_GitCommit : string;
  bi_GitOutput : result string;
}.

(** ** strconv.Atoi, its error ignored: 0 on a syntax error, the nearest int64 when
    the number is out of range.  The scan stops at the first digit that leaves the
    range of uint64, so what follows it is not looked at. *)

Definition maxUint64 : Z := 2 ^ 64 - 1.
Definition maxInt64 : Z := 2 ^ 63 - 1.
Definition minInt64 : Z := - 2 ^ 63.

Fixpoint digits_value (l : list ascii) (acc : Z) : option Z :=
  match l with
  | [] => Some acc
  | a :: l' =>
      let d := Z.of_nat (nat_of_ascii a) in
      if ((48 <=? d) && (d <=? 57))%Z then
        let acc' := (10 * acc + (d - 48))%Z in
        if (maxUint64 <? acc')%Z then Some acc' else digits_value l' acc'
      else None
  end.

Definition Atoi (s : string) : Z :=
  let '(sign, ds) :=
    match bytes s with
    | a :: l => if Ascii.eqb a "-" then ((-1)%Z, l)
                else if Ascii.eqb a "+" then (1%Z, l) else (1%Z, a :: l)
    | [] => (1%Z, [])
    end in
  match ds with
  | [] => 0%Z
  | _ => match digits_value ds 0 with
         | Some v => Z.max minInt64 (Z.min maxInt64 (sign * v)%Z)
         | None => 0%Z
         end
  end.

(** ** pkg/version/version.go *)

Definition versionDelimiter : string := "-".
Definition versionChars : string := ".0123456789".

Definition containsOnly (s set : string) : bool :=
  forallb (λ r, bool_decide (r ∈ bytes set)) (bytes s).

(** [strings.SplitAfter(s, "-")]: the pieces keep their separator. *)
Fixpoint split_after (c : ascii) (s : string) : list string :=
  match s with
  | EmptyString => [EmptyString]
  | String a s' =>
      if Ascii.eqb a c then String a EmptyString :: split_after c s'
      else match split_after c s' with
           | h :: t => String a h :: t
           | [] => [String a EmptyString]
           end
  end.

Definition IsVersioned (given : string) : bool :=
  match last (split_after "-"%char given) with
  | None => false
  | Some ver =>
      bool_decide (length (split_on "."%char ver) = 3) && containsOnly ver versionChars
  end.

Definition IsNotVersioned (given : string) : bool := negb (IsVersioned given).

(** ** pkg/version/util.go *)

(** [strings.Split(s, "-")[0]] *)
Definition before_dash (s : string) : string := default "" (head (split_on "-"%char s)).

Definition minCurrentVersion : string := "1.10.0".
Definition exceptions : list string := ["master"; "develop"].

(** The loop over the components of the older version. *)
Fixpoint compare_components (oldVersions newVersions : list string) : outcome bool :=
  match oldVersions, newVersions with
  | [], _ => Ret true
  | _ :: _, [] => Panic "index out of range"
  | o :: os, n :: ns =>
      if (Atoi o =? Atoi n)%Z then compare_components os ns else Ret (Atoi o <? Atoi n)%Z
  end.

Definition IsOldLessThanOrEqualNewVersion (old new : string) : outcome bool :=
  let oldVersions := split_on "."%char (before_dash old) in
  let newVersions := split_on "."%char (before_dash new) in
  if existsb (λ exception : string, bool_decide (head newVersions = Some exception)) exceptions
  then Ret true
  else compare_components oldVersions newVersions.

Section build.
Context `{BuildInfo}.

Definition GetVersion : string :=
  if negb (bool_decide (bi_Version = "")) then bi_Version
  else match bi_VersionFile with Err _ => "" | OK vBytes => TrimSpace vBytes end.

Definition current_version : string := GetVersion.

Definition WithSuffix (given : string) : string :=
  given +:+ versionDelimiter +:+ current_version.

Definition WithSuffixIf (given : string) (p : string → bool) : string :=
  if p given then WithSuffix given else given.

Definition WithSuffixesIf (given : list string) (p : string → bool) : list string :=
  (λ s, if p s then WithSuffix s else s) <$> given.

Definition GetGitCommit : string :=
  if negb (bool_decide (bi_GitCommit = "")) then bi_GitCommit
  else match bi_GitOutput with Err _ => "" | OK output => TrimSpace output end.

(** [GetGitCommit()[0:7]] panics on a shorter commit. *)
Definition GetVersionDetails : outcome string :=
  if String.length GetGitCommit <? 7 then Panic "slice bounds out of range"
  else Ret (join "-" [GetVersion; String.substring 0 7 GetGitCommit]).

(** The version of this build, without its suffix. *)
Definition validDesiredVersion : string := before_dash GetVersion.

Definition CanCurrentVersionBeUpgraded (version : string) : outcome bool :=
  let* a := IsOldLessThanOrEqualNewVersion minCurrentVersion version in
  match a with
  | true => IsOldLessThanOrEqualNewVersion version validDesiredVersion
  | false => Ret false
  end.

Definition IsCurrentVersionValid (v : string) : outcome bool :=
  CanCurrentVersionBeUpgraded (before_dash v).

Definition IsDesiredVersionValid (v : string) : bool :=
  bool_decide (validDesiredVersion = before_dash v).
End build.

(** ** The order decided by the comparison *)

(** The numeric components of a version. *)
Definition components (v : string) : list Z :=
  Atoi <$> split_on "."%char (before_dash v).

(** A moving version such as "master" that is newer than everything. *)
Definition moving (v : string) : bool :=
  existsb (λ e : string, bool_decide (head (split_on "."%char (before_dash v)) = Some e)) exceptions.

(** Lexicographic order on component lists of the same length. *)
Inductive lex_le : list Z → list Z → Prop :=
| lex_nil : lex_le [] []
| lex_lt a b l l' : (a < b)%Z → length l = length l' → lex_le (a :: l) (b :: l')
| lex_eq a l l' : lex_le l l' → lex_le (a :: l) (a :: l').

Lemma lex_le_length l l' : lex_le l l' → length l = length l'.
Proof. induction 1; cbn; congruence. Qed.

Lemma lex_le_refl l : lex_le l l.
Proof. induction l; by constructor. Qed.

Lemma lex_le_trans l1 l2 l3 : lex_le l1 l2 → lex_le l2 l3 → lex_le l1 l3.
Proof.
  intros H. revert l3. induction H as [|a b l l' Hlt Hlen|a l l' Hle IH]; intros l3 H3; [done|..];
    inversion H3; subst;
    try match goal with H : lex_le _ _ |- lex_le (?a :: _) (?a :: _) => constructor; by apply IH end;
    constructor; try lia; repeat match goal with H : lex_le _ _ |- _ => apply lex_le_length in H end;
    cbn in *; congruence.
Qed.

Lemma lex_le_total l l' : length l = length l' → lex_le l l' ∨ lex_le l' l.
Proof.
  revert l'. induction l as [|a l IH]; intros [|b l'] Hlen; try done; [left; constructor|].
  injection Hlen as Hlen. destruct (Z.lt_trichotomy a b) as [Hlt|[->|Hgt]].
  - left. by constructor.
  - destruct (IH l' Hlen); [left|right]; by constructor.
  - right. by constructor.
Qed.

Lemma lex_le_antisym l l' : lex_le l l' → lex_le l' l → l = l'.
Proof.
  induction 1 as [|a b l l' Hlt Hlen|a l l' Hle IH]; intros H2; [done|..];
    inversion H2; subst; try lia. f_equal. by apply IH.
Qed.

Lemma compare_components_lex os ns :
  length os = length ns →
  ∃ b, compare_components os ns = Ret b ∧ (b = true ↔ lex_le (Atoi <$> os) (Atoi <$> ns)).
Proof.
  revert ns. induction os as [|o os IH]; intros [|n ns] Hlen; try done; cbn.
  - exists true. split; [done|]. split; [constructor|done].
  - injection Hlen as Hlen. destruct (Z.eqb_spec (Atoi o) (Atoi n)) as [He|Hne].
    + destruct (IH ns Hlen) as (b & Hc & Hb). exists b. split; [done|]. rewrite Hb, He.
      split; [by constructor|]. intros Hl. inversion Hl; subst; [lia|done].
    + eexists. split; [done|]. rewrite Z.ltb_lt. split.
      * intros Hlt. constructor; [done|]. by rewrite !length_fmap.
      * intros Hl. inversion Hl; subst; [done|congruence].
Qed.

Lemma version_le_lex old new :
  moving new = false → length (components old) = length (components new) →
  ∃ b, IsOldLessThanOrEqualNewVersion old new = Ret b ∧
    (b = true ↔ lex_le (components old) (components new)).
Proof.
  intros Hm Hlen. unfold IsOldLessThanOrEqualNewVersion. unfold moving in Hm.
  unfold exceptions in *. rewrite Hm. apply compare_components_lex.
  unfold components in Hlen. by rewrite !length_fmap in Hlen.
Qed.


(** The gate composes the two comparisons. *)
Lemma upgrade_gate `{BuildInfo} v :
  moving v = false → moving validDesiredVersion = false →
  length (components v) = 3 → length (components validDesiredVersion) = 3 →
  ∃ b, CanCurrentVersionBeUpgraded v = Ret b ∧
    (b = true ↔ lex_le (components minCurrentVersion) (components v) ∧
                lex_le (components v) (components validDesiredVersion)).
Proof.
  intros Hm Hd Hlv Hld. unfold CanCurrentVersionBeUpgraded.
  destruct (version_le_lex minCurrentVersion v) as (b1 & E1 & H1); [done|by rewrite Hlv|].
  destruct (version_le_lex v validDesiredVersion) as (b2 & E2 & H2); [done|by rewrite Hlv|].
  rewrite E1. cbn. destruct b1; [rewrite E2|]; eexists; (split; [done|]); naive_solver.
Qed.

(** A newer version with fewer components that agrees with the older one on all of
    them makes the comparison panic. *)
Lemma compare_components_prefix os ns :
  length ns < length os → (Atoi <$> ns) = take (length ns) (Atoi <$> os) →
  compare_components os ns = Panic "index out of range".
Proof.
  revert ns. induction os as [|o os IH]; intros [|n ns] Hlen Hp; cbn in *; try done; [lia|].
  injection Hp as -> Hp. rewrite Z.eqb_refl. apply IH; [lia|done].
Qed.
