(* ===== verification/Webhook.v ===== *)
(** * Webhook: admission of CStorPoolCluster objects (pkg/webhook/cspc.go)

    The validating webhook decides whether a create, an update or a delete of a
    CStorPoolCluster is let through.  The definitions follow the functions of
    pkg/webhook/cspc.go and pkg/webhook/admission_response.go; a Go panic is a
    [Panic] outcome. *)

From stdpp Require Import base gmap strings list sets.
From Stdlib Require Import Ascii ZArith Lia.
From S2P Require Import Prelude Api.

(** ** The admission response *)

Definition StatusSuccess : string := "Success".
Definition StatusFailure : string := "Failure".
Definition StatusReasonBadRequest : string := "BadRequest".

(** metav1.Status; an error gives its text as the message. *)
Record Status := {
  st_Status : string;
  st_Code : Z;
  st_Reason : string;
  st_Message : option error;
}.
Record AdmissionResponse := { Allowed : bool; Result : option Status }.

Definition NewAdmissionResponse : AdmissionResponse := {| Allowed := false; Result := None |}.
Definition WithResultAsFailure (err : error) (code : Z) (ar : AdmissionResponse) :=
  {| Allowed := Allowed ar;
     Result := Some {| st_Status := StatusFailure; st_Code := code;
                       st_Reason := StatusReasonBadRequest; st_Message := Some err |} |}.
Definition WithResultAsSuccess (code : Z) (ar : AdmissionResponse) :=
  {| Allowed := Allowed ar;
     Result := Some {| st_Status := StatusSuccess; st_Code := code; st_Reason := "";
                       st_Message := None |} |}.
Definition SetAllowed (ar : AdmissionResponse) :=
  {| Allowed := true; Result := Result ar |}.
Definition UnSetAllowed (ar : AdmissionResponse) :=
  {| Allowed := false; Result := Result ar |}.

Definition StatusAccepted : Z := 202.
Definition StatusBadRequest : Z := 400.
Definition StatusUnprocessableEntity : Z := 422.
Definition StatusInternalServerError : Z := 500.

Definition accepted : AdmissionResponse :=
  WithResultAsSuccess StatusAccepted (SetAllowed NewAdmissionResponse).
Definition refused (err : error) (code : Z) : AdmissionResponse :=
  WithResultAsFailure err code (UnSetAllowed accepted).

(** ** Raid group sizes *)

Definition PoolStriped : string := "stripe".
Definition PoolMirrored : string := "mirror".
Definition PoolRaidz : string := "raidz".
Definition PoolRaidz2 : string := "raidz2".

Definition isStripedBDCountValid (count : Z) : verdict :=
  if (count <? 1)%Z
  then Invalid (Errorf "stripe raid group should have atleast one disk" [])
  else Valid.

Definition isMirroredBDCountValid (count : Z) : verdict :=
  if negb (Z.rem count 2 =? 0)%Z
  then Invalid (Errorf "mirror raid group should have disks in multiple of 2" [])
  else Valid.

(** [math.Ceil(math.Log2(float64(n)))] and [math.Floor(math.Log2(float64(n)))]:
    NaN below zero, minus infinity at zero. *)
Inductive go_float := NaN | NegInf | Fin (z : Z).

Definition ceil_log2 (n : Z) : go_float :=
  if (n <? 0)%Z then NaN else if (n =? 0)%Z then NegInf else Fin (Z.log2_up n).
Definition floor_log2 (n : Z) : go_float :=
  if (n <? 0)%Z then NaN else if (n =? 0)%Z then NegInf else Fin (Z.log2 n).

(** [x != y] and [x < k] on these values. *)
Definition float_neq (x y : go_float) : bool :=
  match x, y with
  | Fin a, Fin b => negb (a =? b)%Z
  | NegInf, NegInf => false
  | _, _ => true
  end.
Definition float_lt (x : go_float) (k : Z) : bool :=
  match x with NaN => false | NegInf => true | Fin a => (a <? k)%Z end.

Definition isRaidzBDCountValid (count : Z) : verdict :=
  let n := (count - 1)%Z in
  let x := ceil_log2 n in
  let y := floor_log2 n in
  if float_neq x y || float_lt x 1
  then Invalid (Errorf "raidz raid group should have disks of the order 2^n+1, where n>0" [])
  else Valid.

Definition isRaidz2BDCountValid (count : Z) : verdict :=
  let n := (count - 2)%Z in
  let x := ceil_log2 n in
  let y := floor_log2 n in
  if float_neq x y || float_lt x 2
  then Invalid (Errorf "raidz raid group should have disks of the order 2^n+2, where n>1" [])
  else Valid.

Definition SupportedPRaidType (t : string) : option (Z → verdict) :=
  if decide (t = PoolStriped) then Some isStripedBDCountValid
  else if decide (t = PoolMirrored) then Some isMirroredBDCountValid
  else if decide (t = PoolRaidz) then Some isRaidzBDCountValid
  else if decide (t = PoolRaidz2) then Some isRaidz2BDCountValid
  else None.

(** [_, ok := SupportedPRaidType[t]] *)
Definition raid_type_supported (t : string) : bool :=
  match SupportedPRaidType t with Some _ => true | None => false end.

Definition SupportedCompression : gset string :=
  names ["on"; "off"; "lzjb"; "gzip"; "zle"; ""; "lz4"].

(** ** Block devices named twice *)

(** The state of the three nested loops of getDuplicateBlockDeviceList: the
    list built so far, [blockDeviceMap] and [addedBlockDevices]. *)
Record dup_state := {
  duplicateBlockDeviceList : list string;
  blockDeviceMap : gset string;
  addedBlockDevices : gset string;
}.

Definition dup_step (st : dup_state) (bd : string) : dup_state :=
  if has (blockDeviceMap st) bd && negb (has (addedBlockDevices st) bd) then
    {| duplicateBlockDeviceList := duplicateBlockDeviceList st ++ [bd];
       blockDeviceMap := blockDeviceMap st;
       addedBlockDevices := {[bd]} ∪ addedBlockDevices st |}
  else if negb (has (blockDeviceMap st) bd) then
    {| duplicateBlockDeviceList := duplicateBlockDeviceList st;
       blockDeviceMap := {[bd]} ∪ blockDeviceMap st;
       addedBlockDevices := addedBlockDevices st |}
  else st.

Definition getDuplicateBlockDeviceList (cspc : CStorPoolCluster) : list string :=
  duplicateBlockDeviceList
    (foldl (λ st pool,
       foldl (λ st raidGroup,
         foldl (λ st bd, dup_step st (BlockDeviceName bd)) st
           (CStorPoolInstanceBlockDevices raidGroup))
         st (DataRaidGroups pool ++ WriteCacheRaidGroups pool))
       {| duplicateBlockDeviceList := []; blockDeviceMap := ∅; addedBlockDevices := ∅ |}
       (Pools (cspc_Spec cspc))).

(** ** Node selectors *)

(** [s[:n]]: out of range slicing panics. *)
Definition slice_upto (s : string) (n : Z) : outcome string :=
  if ((n <? 0) || (Z.of_nat (String.length s) <? n))%Z
  then Panic "slice bounds out of range"
  else Ret (String.substring 0 (Z.to_nat n) s).

Definition getLabelSelectorString `{GoRuntime} (selector : gmap string string) : outcome string :=
  let selectorString :=
    foldl (λ acc '(key, value), acc +:+ key +:+ "=" +:+ value +:+ ",") ""
      (go_range "getLabelSelectorString" selector) in
  slice_upto selectorString (Z.of_nat (String.length selectorString) - 1)%Z.

Section cspc_webhook.
Context {W : Type} `{GoRuntime} `{OpenebsApi}.
Context `{!ResourceClient W Node} `{!ResourceClient W BlockDevice}
  `{!ResourceClient W BlockDeviceClaim} `{!ResourceClient W CStorPoolInstance}
  `{!ResourceClient W CStorPoolCluster} `{!ResourceClient W CStorVolumeReplica}.

Definition GetHostNameFromLabelSelector (w : W) (sel : gmap string string)
  : outcome (result string) :=
  let* selector := getLabelSelectorString sel in
  Ret match rList (Obj:=Node) w "" selector with
      | Err err => Err (Wrapf err "failed to get node list from the node selector" [])
      | OK items =>
          match items with
          | [node] => OK (label (labels node) HostNameLabelKey)
          | _ => Err (Errorf "invalid no.of nodes %d from the given node selectors" [])
          end
      end.

(** *** One block device of a raid group *)

Record PoolValidator := {
  pv_poolSpec : PoolSpec;
  pv_namespace : string;
  pv_hostName : string;
  pv_cspcName : string;
}.

Definition validateBlockDevice (bd : BlockDevice) (hostName : string) : result unit :=
  if negb (bool_decide (bd_State bd = "Active")) then
    Err (Errorf "block device %q is in not in active state" [name bd])
  else if negb (bool_decide (bd_FSType bd = "")) &&
          negb (bool_decide (bd_FSType bd = "zfs_member")) then
    Err (Errorf "block device has file system {%s}" [bd_FSType bd])
  else if negb (bool_decide (label (labels bd) HostNameLabelKey = hostName)) then
    Err (Errorf "block device %s doesn't belongs to node %s"
           [name bd; label (labels bd) HostNameLabelKey])
  else
    match labels bd !! BlockDeviceTagLabelKey with
    | Some v =>
        if bool_decide (TrimSpace v = "")
        then Err (Errorf "block device %s is tagged with a value %s and cannot be used"
                    [name bd; v])
        else OK tt
    | None => OK tt
    end.

Definition blockDeviceClaimValidation (w : W) (pv : PoolValidator)
  (bdcName bdName : string) : result unit :=
  match rGet (Obj:=BlockDeviceClaim) w (pv_namespace pv) bdcName with
  | Err err => Err (Wrapf err "could not get block device claim for block device {%s}" [bdName])
  | OK bdcObject =>
      if negb (bool_decide (label (labels bdcObject) CStorPoolClusterLabelKey = pv_cspcName pv))
      then Err (Errorf "can't use claimed blockdevice %s" [bdName])
      else OK tt
  end.

Definition blockDeviceValidation (w : W) (pv : PoolValidator)
  (bd : CStorPoolInstanceBlockDevice) : verdict :=
  if bool_decide (BlockDeviceName bd = "") then
    Invalid (Errorf "block device name cannot be empty" [])
  else
    match rGet (Obj:=BlockDevice) w (pv_namespace pv) (BlockDeviceName bd) with
    | Err err => Invalid (Wrapf err "failed to get block device: {%s} details error: %v"
                            [BlockDeviceName bd])
    | OK bdObj =>
        match validateBlockDevice bdObj (pv_hostName pv) with
        | Err err => Invalid err
        | OK _ =>
            if bool_decide (bd_ClaimState bdObj = BlockDeviceClaimed) then
              match bd_ClaimRef bdObj with
              | Some bdcName =>
                  match blockDeviceClaimValidation w pv bdcName (name bdObj) with
                  | Err err => Invalid (Wrapf err "error: %v" [])
                  | OK _ => Valid
                  end
              | None => Valid
              end
            else Valid
        end
    end.

(** *** Raid groups and pools *)

Definition raidGroupValidation (w : W) (pv : PoolValidator) (raidGroup : RaidGroup)
  (rgType : string) : outcome verdict :=
  if bool_decide (length (CStorPoolInstanceBlockDevices raidGroup) = 0) then
    Ret (Invalid (Errorf "empty raid group: number of block devices honouring raid type should be specified" []))
  else
    match SupportedPRaidType rgType with
    | None => Panic "invalid memory address or nil pointer dereference"
    | Some check =>
        match check (Z.of_nat (length (CStorPoolInstanceBlockDevices raidGroup))) with
        | Invalid msg => Ret (Invalid msg)
        | Valid => Ret (all_valid (blockDeviceValidation w pv)
                          (CStorPoolInstanceBlockDevices raidGroup))
        end
    end.

Definition poolConfigValidation (pv : PoolValidator) (poolConfig : PoolConfig) : verdict :=
  if bool_decide (DataRaidGroupType poolConfig = "") then
    Invalid (Errorf "missing dataRaidGroupType" [])
  else if negb (raid_type_supported (DataRaidGroupType poolConfig)) then
    Invalid (Errorf "unsupported dataRaidGroupType '%s' specified" [DataRaidGroupType poolConfig])
  else if negb (has SupportedCompression (Compression poolConfig)) then
    Invalid (Errorf "unsupported compression '%s' specified" [Compression poolConfig])
  else if negb (bool_decide (length (WriteCacheRaidGroups (pv_poolSpec pv)) = 0)) then
    if bool_decide (WriteCacheGroupType poolConfig = "") then
      Invalid (Errorf "missing writeCacheGroupType" [])
    else if negb (raid_type_supported (WriteCacheGroupType poolConfig)) then
      Invalid (Errorf "unsupported writeCacheGroupType '%s' specified"
                 [WriteCacheGroupType poolConfig])
    else Valid
  else Valid.

Definition poolSpecValidation (w : W) (pv : PoolValidator) : outcome verdict :=
  let ps := pv_poolSpec pv in
  let pc := ps_PoolConfig ps in
  match poolConfigValidation pv pc with
  | Invalid msg => Ret (Invalid msg)
  | Valid =>
      if bool_decide (length (DataRaidGroups ps) = 0) then
        Ret (Invalid (Errorf "at least one raid group should be present on dataRaidGroups" []))
      else if bool_decide (DataRaidGroupType pc = PoolStriped) &&
              negb (bool_decide (length (DataRaidGroups ps) = 1)) then
        Ret (Invalid (Errorf "stripe dataRaidGroups should have exactly one raidGroup" []))
      else
        let* v := all_validO (λ rg, raidGroupValidation w pv rg (DataRaidGroupType pc))
                    (DataRaidGroups ps) in
        match v with
        | Invalid msg => Ret (Invalid msg)
        | Valid =>
            if negb (bool_decide (length (WriteCacheRaidGroups ps) = 0)) then
              if bool_decide (WriteCacheGroupType pc = PoolStriped) &&
                 negb (bool_decide (length (WriteCacheRaidGroups ps) = 1)) then
                Ret (Invalid (Errorf "stripe writeCacheRaidGroups should have exactly one raidGroup" []))
              else
                all_validO (λ rg, raidGroupValidation w pv rg (WriteCacheGroupType pc))
                  (WriteCacheRaidGroups ps)
            else Ret Valid
        end
  end.

(** *** The whole cluster specification *)

(** The loop over the pools; [ns] is the namespace OpenEBS runs in and
    [usedNodes] the nodes of the pools seen so far. *)
Fixpoint cspcValidation_pools (w : W) (ns cspcName : string) (usedNodes : gset string)
  (pools : list PoolSpec) : outcome verdict :=
  match pools with
  | [] => Ret Valid
  | pool :: pools' =>
      let* r := GetHostNameFromLabelSelector w (NodeSelector pool) in
      match r with
      | Err err =>
          Ret (Invalid (Wrapf err "failed to get node from pool nodeSelector: {%v} error: {%v}" []))
      | OK nodeName =>
          if has usedNodes nodeName then
            Ret (Invalid (Errorf "invalid cspc: duplicate node %s entry" [nodeName]))
          else
            let* v := poolSpecValidation w
                        {| pv_poolSpec := pool; pv_namespace := ns;
                           pv_hostName := nodeName; pv_cspcName := cspcName |} in
            match v with
            | Invalid msg => Ret (Invalid (Wrapf msg "invalid pool spec: %s" []))
            | Valid => cspcValidation_pools w ns cspcName ({[nodeName]} ∪ usedNodes) pools'
            end
      end
  end.

Definition cspcValidation (w : W) (ns : string) (cspc : CStorPoolCluster) : outcome verdict :=
  if bool_decide (length (Pools (cspc_Spec cspc)) = 0) then
    Ret (Invalid (Errorf "pools in cspc should have at least one item" []))
  else
    let repeatedBlockDevices := getDuplicateBlockDeviceList cspc in
    if bool_decide (0 < length repeatedBlockDevices) then
      Ret (Invalid (Errorf "invalid cspc: cspc {%s} has duplicate blockdevices entries %v"
                      (name cspc :: repeatedBlockDevices)))
    else cspcValidation_pools w ns (name cspc) ∅ (Pools (cspc_Spec cspc)).

(** *** Create and delete requests *)

(** The decoded admission request: [req_object] is what [json.Unmarshal] makes
    of [req.Object.Raw]. *)
Inductive operation := Create | Update | Delete | Connect.
Record AdmissionRequest := {
  req_operation : operation;
  req_name : string;
  req_namespace : string;
  req_object : result CStorPoolCluster;
}.

Definition validateCSPCCreateRequest (w : W) (ns : string) (req : AdmissionRequest)
  : outcome AdmissionResponse :=
  match req_object req with
  | Err err => Ret (refused err StatusBadRequest)
  | OK cspc =>
      let* v := cspcValidation w ns cspc in
      match v with
      | Invalid msg =>
          Ret (refused (Wrapf msg "invalid cspc specification: %s" []) StatusUnprocessableEntity)
      | Valid => Ret accepted
      end
  end.

(** The loop over the pool instances of a cluster that is being deleted. *)
Fixpoint validateCSPCDelete_pools (w : W) (cspcName : string) (cspis : list CStorPoolInstance)
  : AdmissionResponse :=
  match cspis with
  | [] => accepted
  | cspiObj :: cspis' =>
      match rList (Obj:=CStorVolumeReplica) w ""
              ("cstorpoolinstance.openebs.io/name=" +:+ name cspiObj) with
      | Err err => refused err StatusBadRequest
      | OK cvrs =>
          if negb (bool_decide (length cvrs = 0)) then
            refused (Errorf "invalid cspc %s deletion: volume still exists on pool %s"
                       [cspcName; name cspiObj]) StatusUnprocessableEntity
          else validateCSPCDelete_pools w cspcName cspis'
      end
  end.

Definition validateCSPCDeleteRequest (w : W) (req : AdmissionRequest) : AdmissionResponse :=
  match rList (Obj:=CStorPoolInstance) w (req_namespace req)
          (CStorPoolClusterLabelKey +:+ "=" +:+ req_name req) with
  | Err err => refused err StatusBadRequest
  | OK cspis => validateCSPCDelete_pools w (req_name req) cspis
  end.
End cspc_webhook.

(** ** Raid group sizes: the checks decide the sizes they name *)

(** The sizes a raid group of each type may have. *)
Definition raid_size_ok (t : string) (count : Z) : Prop :=
  (t = PoolStriped ∧ (1 ≤ count)%Z) ∨
  (t = PoolMirrored ∧ Z.Even count) ∨
  (t = PoolRaidz ∧ ∃ k, (1 ≤ k)%Z ∧ count = (2 ^ k + 1)%Z) ∨
  (t = PoolRaidz2 ∧ ∃ k, (2 ≤ k)%Z ∧ count = (2 ^ k + 2)%Z).

(** Ceiling and floor of the logarithm agree exactly on the powers of two. *)
Lemma log2_exact n k :
  (0 ≤ k)%Z →
  (float_neq (ceil_log2 n) (floor_log2 n) || float_lt (ceil_log2 n) k) = false ↔
  ∃ j, (k ≤ j)%Z ∧ n = (2 ^ j)%Z.
Proof.
  intros Hk. unfold ceil_log2, floor_log2.
  destruct (Z.ltb_spec n 0) as [Hn|Hn]; cbn.
  { split; [done|]. intros (j & Hj & ->). pose proof (Z.pow_nonneg 2 j ltac:(lia)). lia. }
  destruct (Z.eqb_spec n 0) as [->|Hn0]; cbn.
  { split; [done|]. intros (j & Hj & Hz). pose proof (Z.pow_pos_nonneg 2 j ltac:(lia) ltac:(lia)). lia. }
  rewrite orb_false_iff, negb_false_iff, Z.eqb_eq, Z.ltb_ge.
  split.
  - intros [Heq Hle]. exists (Z.log2 n). split; [lia|].
    pose proof (Z.log2_spec n ltac:(lia)). destruct (Z.eq_dec n 1) as [->|]; [done|].
    pose proof (Z.log2_up_spec n ltac:(lia)). rewrite Heq in *. lia.
  - intros (j & Hj & ->). rewrite Z.log2_up_pow2, Z.log2_pow2 by lia. lia.
Qed.

Lemma supported_type t check :
  SupportedPRaidType t = Some check →
  (t = PoolStriped ∧ check = isStripedBDCountValid) ∨
  (t = PoolMirrored ∧ check = isMirroredBDCountValid) ∨
  (t = PoolRaidz ∧ check = isRaidzBDCountValid) ∨
  (t = PoolRaidz2 ∧ check = isRaidz2BDCountValid).
Proof. unfold SupportedPRaidType. repeat case_decide; naive_solver. Qed.

Lemma striped_count_spec count : isStripedBDCountValid count = Valid ↔ (1 ≤ count)%Z.
Proof. unfold isStripedBDCountValid. destruct (Z.ltb_spec count 1); split; (done || lia). Qed.

Lemma mirrored_count_spec count : isMirroredBDCountValid count = Valid ↔ Z.Even count.
Proof.
  unfold isMirroredBDCountValid. rewrite <- Z.even_spec.
  destruct (Z.eqb_spec (Z.rem count 2) 0) as [E|E]; cbn.
  - split; [intros _|done]. apply Z.rem_divide in E; [|lia].
    destruct E as [z ->]. by rewrite Z.even_mul, orb_true_r.
  - split; [done|]. intros [z ->]%Z.even_spec. exfalso. apply E.
    apply Z.rem_divide; [lia|]. exists z. lia.
Qed.

Lemma raidz_count_spec count :
  isRaidzBDCountValid count = Valid ↔ ∃ k, (1 ≤ k)%Z ∧ count = (2 ^ k + 1)%Z.
Proof.
  unfold isRaidzBDCountValid. pose proof (log2_exact (count - 1) 1 ltac:(lia)) as H.
  destruct (float_neq _ _ || float_lt _ _).
  - split; [done|]. intros (k & Hk & ->). destruct H as [_ H].
    by discriminate H; exists k; split; [|lia].
  - split; [|done]. intros _. destruct H as [H _]. destruct H as (j & Hj & E); [done|].
    exists j. lia.
Qed.

Lemma raidz2_count_spec count :
  isRaidz2BDCountValid count = Valid ↔ ∃ k, (2 ≤ k)%Z ∧ count = (2 ^ k + 2)%Z.
Proof.
  unfold isRaidz2BDCountValid. pose proof (log2_exact (count - 2) 2 ltac:(lia)) as H.
  destruct (float_neq _ _ || float_lt _ _).
  - split; [done|]. intros (k & Hk & ->). destruct H as [_ H].
    by discriminate H; exists k; split; [|lia].
  - split; [|done]. intros _. destruct H as [H _]. destruct H as (j & Hj & E); [done|].
    exists j. lia.
Qed.

Lemma raid_size_check t count :
  (∃ check, SupportedPRaidType t = Some check ∧ check count = Valid) ↔ raid_size_ok t count.
Proof.
  unfold raid_size_ok. split.
  - intros (check & [[-> ->]|[[-> ->]|[[-> ->]|[-> ->]]]]%supported_type & Hc).
    + left. by rewrite striped_count_spec in Hc.
    + right; left. by rewrite mirrored_count_spec in Hc.
    + do 2 right; left. by rewrite raidz_count_spec in Hc.
    + do 3 right. by rewrite raidz2_count_spec in Hc.
  - intros [[-> Hc]|[[-> Hc]|[[-> Hc]|[-> Hc]]]]; eexists; (split; [reflexivity|]).
    + by apply striped_count_spec.
    + by apply mirrored_count_spec.
    + by apply raidz_count_spec.
    + by apply raidz2_count_spec.
Qed.

Lemma raid_size_supported t count : raid_size_ok t count → raid_type_supported t = true.
Proof.
  intros (check & Hs & _)%raid_size_check. unfold raid_type_supported. by rewrite Hs.
Qed.

(** ** Block devices named twice *)

Definition dup_init : dup_state :=
  {| duplicateBlockDeviceList := []; blockDeviceMap := ∅; addedBlockDevices := ∅ |}.

(** The three nested loops visit the block device names of the cluster in order. *)
Lemma duplicates_flat cspc :
  getDuplicateBlockDeviceList cspc =
  duplicateBlockDeviceList (foldl dup_step dup_init (cluster_bds (Pools (cspc_Spec cspc)))).
Proof.
  unfold getDuplicateBlockDeviceList, cluster_bds. f_equal. rewrite <- foldl_bind.
  apply foldl_ext_in. intros st pool _. unfold pool_bds, rgs_bds. rewrite <- foldl_bind.
  apply foldl_ext_in. intros st' rg _. unfold rg_bds. by rewrite <- foldl_fmap.
Qed.

(** The loop invariant after the names [l]. *)
Lemma dup_invariant l :
  let st := foldl dup_step dup_init l in
  blockDeviceMap st = names l ∧
  addedBlockDevices st = names (duplicateBlockDeviceList st) ∧
  NoDup (duplicateBlockDeviceList st) ∧
  ∀ x, x ∈ duplicateBlockDeviceList st ↔ repeated x l.
Proof.
  induction l as [|y l (IHm & IHa & IHn & IHx)] using rev_ind.
  { split_and!; [done|done|constructor|].
    intros x. split; [set_solver|]. intros (i & j & _ & Hi & _). done. }
  rewrite foldl_app. cbn. set (st := foldl dup_step dup_init l) in *.
  assert (names (l ++ [y]) = {[y]} ∪ names l) as Hn
    by (apply set_eq; intros z; rewrite elem_of_union, !elem_of_names; set_solver).
  setoid_rewrite repeated_snoc. unfold dup_step.
  rewrite IHm, IHa, Hn.
  destruct (has (names l) y) eqn:Hy; [apply has_true in Hy|apply has_false in Hy].
  - destruct (has (names _) y) eqn:Ha; [apply has_true in Ha|apply has_false in Ha]; cbn;
      rewrite elem_of_names in Ha, Hy.
    + rewrite IHm. split_and!; [set_solver|done|done|].
      intros x. rewrite IHx. split; [naive_solver|]. intros [?|[-> ?]]; [done|]. by apply IHx.
    + split_and!.
      * set_solver.
      * apply set_eq. intros z. rewrite elem_of_union, !elem_of_names. set_solver.
      * apply NoDup_app. split_and!; [done|set_solver|apply NoDup_singleton].
      * intros x. rewrite elem_of_app, IHx, list_elem_of_singleton. naive_solver.
  - cbn. rewrite elem_of_names in Hy. split_and!; [done|done|done|].
    intros x. rewrite IHx. naive_solver.
Qed.

Lemma duplicates_repeated cspc x :
  x ∈ getDuplicateBlockDeviceList cspc ↔ repeated x (cluster_bds (Pools (cspc_Spec cspc))).
Proof. rewrite duplicates_flat. apply dup_invariant. Qed.

Lemma duplicates_empty cspc :
  getDuplicateBlockDeviceList cspc = [] ↔ NoDup (cluster_bds (Pools (cspc_Spec cspc))).
Proof.
  rewrite NoDup_not_repeated. setoid_rewrite <- duplicates_repeated.
  destruct (getDuplicateBlockDeviceList cspc) as [|y l]; [set_solver|].
  split; [done|]. intros Hn. exfalso. apply (Hn y). set_solver.
Qed.

(** ** Label selectors *)

Definition selector_term (kv : string * string) : string := kv.1 +:+ "=" +:+ kv.2.

Lemma selector_concat (l : list (string * string)) acc :
  foldl (λ acc '(key, value), acc +:+ key +:+ "=" +:+ value +:+ ",") acc l =
  acc +:+ foldr (λ kv r, selector_term kv +:+ "," +:+ r) "" l.
Proof.
  revert acc. induction l as [|[k v] l IH]; intros acc; cbn; [by rewrite app_string_nil_r|].
  rewrite IH. unfold selector_term. norm_app. done.
Qed.

Lemma selector_join (l : list (string * string)) :
  l ≠ [] →
  foldr (λ kv r, selector_term kv +:+ "," +:+ r) "" l = join "," (selector_term <$> l) +:+ ",".
Proof.
  induction l as [|kv l IH]; [done|]. intros _. destruct l as [|kv' l]; [done|].
  rewrite fmap_cons. cbn [foldr]. cbn [foldr] in IH. rewrite IH by done. cbn [fmap list_fmap join].
  norm_app. done.
Qed.

Lemma substring_prefix (s t : string) : String.substring 0 (String.length s) (s +:+ t) = s.
Proof.
  induction s as [|a s IH]; cbn; [by destruct t|]. by rewrite IH.
Qed.

Section selector_facts.
Context `{GoRuntime}.
Implicit Types sel : gmap string string.

(** Exactly the empty selector makes the trailing-comma slice panic. *)
Lemma selector_value sel :
  sel ≠ ∅ →
  getLabelSelectorString sel =
  Ret (join "," (selector_term <$> go_range "getLabelSelectorString" sel)).
Proof.
  intros Hne. unfold getLabelSelectorString. rewrite selector_concat. cbn.
  assert (go_range "getLabelSelectorString" sel ≠ []) as Hl.
  { intros Hnil. apply Hne. apply map_to_list_empty_iff.
    apply Permutation_nil_r. rewrite <- Hnil. symmetry. apply go_range_perm. }
  rewrite selector_join by done. set (s := join _ _). unfold slice_upto.
  rewrite length_app_string. cbn.
  destruct (Z.ltb_spec (Z.of_nat (String.length s + 1) - 1) 0) as [|_]; [lia|].
  destruct (Z.ltb_spec (Z.of_nat (String.length s + 1))
              (Z.of_nat (String.length s + 1) - 1)) as [|_]; [lia|]. cbn. f_equal.
  replace (Z.to_nat (Z.of_nat (String.length s + 1) - 1)) with (String.length s) by lia.
  apply substring_prefix.
Qed.

Lemma selector_panics_iff sel :
  (∃ why, getLabelSelectorString sel = Panic why) ↔ sel = ∅.
Proof.
  split.
  - intros [why Hp]. destruct (decide (sel = ∅)) as [|Hne]; [done|].
    by rewrite selector_value in Hp.
  - intros ->. unfold getLabelSelectorString.
    assert (go_range "getLabelSelectorString" (∅ : gmap string string) = []) as ->.
    { apply Permutation_nil_r. rewrite go_range_perm. by rewrite map_to_list_empty. }
    by eexists.
Qed.

(** A label key or value: neither a comma nor an equals sign in it. *)
Definition clean (s : string) : Prop := (","%char ∉ bytes s) ∧ ("="%char ∉ bytes s).

Lemma parse_term kv :
  clean kv.1 → clean kv.2 →
  (","%char ∉ bytes (selector_term kv)) ∧
  match split_on "="%char (selector_term kv) with [k; v] => Some (k, v) | _ => None end = Some kv.
Proof.
  destruct kv as [k v]. intros [Hk1 Hk2] [Hv1 Hv2]. cbn in *. unfold selector_term. cbn. split.
  - rewrite bytes_app, elem_of_app. cbn. rewrite elem_of_cons. naive_solver.
  - by rewrite split_on_app, split_on_no_sep.
Qed.

(** Whatever order the map is visited in, the selector reads back as the map. *)
Lemma selector_parses sel :
  sel ≠ ∅ → (∀ k v, sel !! k = Some v → clean k ∧ clean v) →
  ∃ s l, getLabelSelectorString sel = Ret s ∧ parse_selector s = Some l ∧
    l ≡ₚ map_to_list sel.
Proof.
  intros Hne Hclean. rewrite selector_value by done.
  set (l := go_range _ sel). eexists _, l. split; [done|].
  assert (Forall (λ kv, clean kv.1 ∧ clean kv.2) l) as Hl.
  { apply Forall_forall. intros [k v] Hkv. apply go_range_lookup in Hkv. by apply Hclean. }
  assert (l ≠ []) as Hnil.
  { intros Hnil. apply Hne, map_to_list_empty_iff, Permutation_nil_r.
    rewrite <- Hnil. symmetry. apply go_range_perm. }
  split; [|apply go_range_perm]. unfold parse_selector.
  rewrite split_on_join; [|by destruct l|].
  - clear Hnil. induction Hl as [|kv l [Hk Hv] Hl IH]; [done|].
    rewrite fmap_cons. cbn [mapM]. destruct (parse_term kv Hk Hv) as [_ ->]. cbn.
    by rewrite IH.
  - apply Forall_fmap. eapply Forall_impl; [exact Hl|]. intros kv [Hk Hv]. by apply parse_term.
Qed.
End selector_facts.

(** ** What an admissible cluster is, and that the webhook decides it *)

Section cspc_webhook_spec.
Context {W : Type} `{GoRuntime} `{OpenebsApi}.
Context `{!ResourceClient W Node} `{!ResourceClient W BlockDevice}
  `{!ResourceClient W BlockDeviceClaim} `{!ResourceClient W CStorPoolInstance}
  `{!ResourceClient W CStorPoolCluster} `{!ResourceClient W CStorVolumeReplica}.
Implicit Types (w : W) (ns host cspcName : string).

(** The block device can be used by the cluster [cspcName] on [host]. *)
Definition device_usable w ns host cspcName (bd : string) : Prop :=
  bd ≠ "" ∧ ∃ o : BlockDevice,
    rGet w ns bd = OK o ∧ bd_State o = "Active" ∧
    (bd_FSType o = "" ∨ bd_FSType o = "zfs_member") ∧
    label (labels o) HostNameLabelKey = host ∧
    (∀ v, labels o !! BlockDeviceTagLabelKey = Some v → TrimSpace v ≠ "") ∧
    (bd_ClaimState o = BlockDeviceClaimed → ∀ c, bd_ClaimRef o = Some c →
      ∃ bdc : BlockDeviceClaim, rGet w ns c = OK bdc ∧
        label (labels bdc) CStorPoolClusterLabelKey = cspcName).

Definition group_ok w ns host cspcName (t : string) (rg : RaidGroup) : Prop :=
  rg_bds rg ≠ [] ∧ raid_size_ok t (Z.of_nat (length (rg_bds rg))) ∧
  Forall (device_usable w ns host cspcName) (rg_bds rg).

(** The groups of one kind: a stripe has exactly one group. *)
Definition groups_ok w ns host cspcName (t : string) (rgs : list RaidGroup) : Prop :=
  (t = PoolStriped → length rgs = 1) ∧ Forall (group_ok w ns host cspcName t) rgs.

Definition pool_ok w ns cspcName host (p : PoolSpec) : Prop :=
  let pc := ps_PoolConfig p in
  Compression pc ∈ SupportedCompression ∧
  DataRaidGroups p ≠ [] ∧
  groups_ok w ns host cspcName (DataRaidGroupType pc) (DataRaidGroups p) ∧
  (WriteCacheRaidGroups p ≠ [] →
    groups_ok w ns host cspcName (WriteCacheGroupType pc) (WriteCacheRaidGroups p)).

(** The node selector picks out one node, and [host] is its host name. *)
Definition selects w (sel : gmap string string) host : Prop :=
  ∃ s (node : Node), getLabelSelectorString sel = Ret s ∧ rList w "" s = OK [node] ∧
    label (labels node) HostNameLabelKey = host.

Definition cspc_ok w ns (cspc : CStorPoolCluster) : Prop :=
  let pools := Pools (cspc_Spec cspc) in
  pools ≠ [] ∧ NoDup (cluster_bds pools) ∧
  ∃ hosts, NoDup hosts ∧
    Forall2 (λ p host, selects w (NodeSelector p) host ∧ pool_ok w ns (name cspc) host p)
      pools hosts.

Lemma GetHostName_OK w sel host :
  GetHostNameFromLabelSelector w sel = Ret (OK host) ↔ selects w sel host.
Proof.
  unfold GetHostNameFromLabelSelector, selects.
  destruct (getLabelSelectorString sel) as [s|why]; cbn; [|naive_solver]. split.
  - intros Hr. split_run. eauto 10.
  - intros (s' & node & ? & E & ?). simplify_eq/=. by rewrite E.
Qed.

Lemma validateBlockDevice_OK bd host :
  validateBlockDevice bd host = OK tt ↔
  bd_State bd = "Active" ∧ (bd_FSType bd = "" ∨ bd_FSType bd = "zfs_member") ∧
  label (labels bd) HostNameLabelKey = host ∧
  (∀ v, labels bd !! BlockDeviceTagLabelKey = Some v → TrimSpace v ≠ "").
Proof.
  unfold validateBlockDevice. case_bool_decide as H1; cbn; [|naive_solver].
  assert (∀ (r : result unit) e, (if negb (bool_decide (bd_FSType bd = "")) &&
      negb (bool_decide (bd_FSType bd = "zfs_member")) then Err e else r) = OK tt ↔
    (bd_FSType bd = "" ∨ bd_FSType bd = "zfs_member") ∧ r = OK tt) as ->
    by (intros; repeat (case_bool_decide; cbn); naive_solver).
  case_bool_decide as H3; cbn; [|naive_solver].
  destruct (labels bd !! BlockDeviceTagLabelKey) as [v|] eqn:Hl; [|naive_solver].
  case_bool_decide; naive_solver.
Qed.

Lemma blockDeviceValidation_Valid w pv bd :
  blockDeviceValidation w pv bd = Valid ↔
  device_usable w (pv_namespace pv) (pv_hostName pv) (pv_cspcName pv) (BlockDeviceName bd).
Proof.
  unfold blockDeviceValidation, device_usable, blockDeviceClaimValidation.
  case_bool_decide as Hn; [naive_solver|].
  destruct (rGet w (pv_namespace pv) (BlockDeviceName bd)) as [o|e];
    [|split; [done|]; by intros (_ & ? & ? & _)].
  pose proof (validateBlockDevice_OK o (pv_hostName pv)) as Hv.
  destruct (validateBlockDevice o (pv_hostName pv)) as [[]|e].
  - destruct Hv as [Hv _]. destruct (Hv eq_refl) as (? & ? & ? & ?).
    split; [intros Hval; split; [done|]; exists o; split_and!; try done|].
    + intros Hcl c Hc. rewrite bool_decide_true, Hc in Hval by done. split_run.
      match goal with Hb : negb _ = false |- _ => apply negb_false_iff, bool_decide_eq_true in Hb end.
      eauto.
    + intros (_ & o' & [= <-] & _ & _ & _ & _ & Hcl).
      case_bool_decide as Hc; [|done]. destruct (bd_ClaimRef o) as [c|]; [|done].
      destruct (Hcl Hc c eq_refl) as (bdc & -> & Hb). by rewrite bool_decide_true.
  - split; [done|]. intros (_ & o' & [= <-] & ? & ? & ? & ? & _). destruct Hv as [_ Hv].
    by discriminate Hv.
Qed.

Lemma raidGroupValidation_Valid w pv rg t :
  raidGroupValidation w pv rg t = Ret Valid ↔
  group_ok w (pv_namespace pv) (pv_hostName pv) (pv_cspcName pv) t rg.
Proof.
  unfold raidGroupValidation, group_ok.
  rewrite <- raid_size_check. unfold rg_bds. rewrite length_fmap, Forall_fmap.
  assert (BlockDeviceName <$> CStorPoolInstanceBlockDevices rg ≠ [] ↔
    length (CStorPoolInstanceBlockDevices rg) ≠ 0) as Hnil
    by (destruct (CStorPoolInstanceBlockDevices rg); done).
  rewrite Hnil. case_bool_decide as Hl; [naive_solver|].
  destruct (SupportedPRaidType t) as [check|]; [|naive_solver].
  destruct (check _) eqn:Hc; [|split; [done|]; intros (_ & (c & [= <-] & ?) & _); congruence].
  assert (all_valid (blockDeviceValidation w pv) (CStorPoolInstanceBlockDevices rg) = Valid ↔
    Forall (device_usable w (pv_namespace pv) (pv_hostName pv) (pv_cspcName pv) ∘ BlockDeviceName)
      (CStorPoolInstanceBlockDevices rg)) as <-.
  { rewrite all_valid_Valid. apply Forall_iff. intros b. apply blockDeviceValidation_Valid. }
  split; [|by intros (_ & _ & ->)]. intros [= ->]. eauto.
Qed.

Lemma supported_nonempty t : raid_type_supported t = true → t ≠ "".
Proof. by intros Ht ->. Qed.

Lemma poolConfigValidation_Valid pv pc :
  poolConfigValidation pv pc = Valid ↔
  raid_type_supported (DataRaidGroupType pc) = true ∧
  Compression pc ∈ SupportedCompression ∧
  (WriteCacheRaidGroups (pv_poolSpec pv) ≠ [] →
    raid_type_supported (WriteCacheGroupType pc) = true).
Proof.
  unfold poolConfigValidation.
  pose proof (supported_nonempty (DataRaidGroupType pc)) as Hd.
  pose proof (supported_nonempty (WriteCacheGroupType pc)) as Hw.
  case_bool_decide as He; [naive_solver|].
  clear Hd. destruct (raid_type_supported (DataRaidGroupType pc)); cbn [negb];
    [|by split; [|intros []]].
  destruct (has SupportedCompression (Compression pc)) eqn:Hc; cbn [negb];
    [apply has_true in Hc|apply has_false in Hc; by split; [|intros (_ & ? & _)]].
  destruct (WriteCacheRaidGroups (pv_poolSpec pv)) as [|g l]; [done|].
  cbn [length]. rewrite bool_decide_false by done. cbn [negb].
  case_bool_decide as He'.
  { split; [done|]. intros (_ & _ & Hs). by destruct (Hw (Hs ltac:(done))). }
  clear Hw. destruct (raid_type_supported (WriteCacheGroupType pc)); cbn [negb]; [done|].
  split; [done|]. intros (_ & _ & Hs). by discriminate Hs.
Qed.

(** The stripe rule and the loop over the groups of one kind. *)
Lemma groups_Valid w pv t rgs msg :
  (if bool_decide (t = PoolStriped) && negb (bool_decide (length rgs = 1))
   then Ret (Invalid msg)
   else all_validO (λ rg, raidGroupValidation w pv rg t) rgs) = Ret Valid ↔
  groups_ok w (pv_namespace pv) (pv_hostName pv) (pv_cspcName pv) t rgs.
Proof.
  unfold groups_ok.
  assert (all_validO (λ rg, raidGroupValidation w pv rg t) rgs = Ret Valid ↔
    Forall (group_ok w (pv_namespace pv) (pv_hostName pv) (pv_cspcName pv) t) rgs) as <-.
  { rewrite all_validO_Valid. apply Forall_iff. intros rg. apply raidGroupValidation_Valid. }
  repeat case_bool_decide; cbn; naive_solver.
Qed.

Lemma groups_ok_supported w ns host cspcName t rgs :
  groups_ok w ns host cspcName t rgs → rgs ≠ [] → raid_type_supported t = true.
Proof.
  intros [_ Hf] Hne. destruct rgs as [|rg rgs]; [done|].
  apply Forall_cons in Hf as [(_ & Hs & _) _]. by eapply raid_size_supported.
Qed.

Lemma length_zero_nil {A} (l : list A) : bool_decide (length l = 0) = bool_decide (l = []).
Proof. apply bool_decide_ext. by destruct l. Qed.

Lemma poolSpecValidation_Valid w pv :
  poolSpecValidation w pv = Ret Valid ↔
  pool_ok w (pv_namespace pv) (pv_cspcName pv) (pv_hostName pv) (pv_poolSpec pv).
Proof.
  unfold poolSpecValidation, pool_ok. set (p := pv_poolSpec pv). set (pc := ps_PoolConfig p).
  rewrite !length_zero_nil.
  pose proof (poolConfigValidation_Valid pv pc) as Hpc. fold p in Hpc.
  pose proof (groups_Valid w pv (DataRaidGroupType pc) (DataRaidGroups p)) as Hdata.
  pose proof (groups_Valid w pv (WriteCacheGroupType pc) (WriteCacheRaidGroups p)) as Hwc.
  destruct (poolConfigValidation pv pc) as [|msg].
  - destruct Hpc as [Hpc _]. destruct (Hpc eq_refl) as (Ht & Hc & Hw). clear Hpc Ht Hw.
    destruct (bool_decide_reflect (DataRaidGroups p = [])) as [Hd0|Hd0]; [both_false|].
    rewrite <- (Hdata (Errorf "" [])).
    destruct (bool_decide (DataRaidGroupType pc = PoolStriped) && _); [both_false|].
    destruct (all_validO _ (DataRaidGroups p)) as [[|m]|why]; cbn [mbind outcome_bind];
      [|both_false..].
    destruct (bool_decide_reflect (WriteCacheRaidGroups p = [])) as [Hw1|Hw1]; cbn [negb];
      [by split|]. rewrite Hwc. clear Hdata Hwc.
    split; [done|]. intros (_ & _ & _ & Hw). by apply Hw.
  - split; [done|]. intros (Hc & Hne & Hd & Hw). destruct Hpc as [_ Hpc].
    discriminate Hpc. split_and!; [by eapply groups_ok_supported|done|].
    intros Hne'. by eapply groups_ok_supported; [apply Hw|].
Qed.

Lemma cspcValidation_pools_Valid w ns cspcName used pools :
  cspcValidation_pools w ns cspcName used pools = Ret Valid ↔
  ∃ hosts, NoDup hosts ∧ (∀ h, h ∈ hosts → h ∉ used) ∧
    Forall2 (λ p host, selects w (NodeSelector p) host ∧ pool_ok w ns cspcName host p)
      pools hosts.
Proof.
  revert used. induction pools as [|p pools IH]; intros used; cbn.
  { split; [|done]. intros _. exists []. split_and!; [constructor|set_solver|constructor]. }
  pose proof (GetHostName_OK w (NodeSelector p)) as Hh.
  destruct (GetHostNameFromLabelSelector w (NodeSelector p)) as [[h|e]|why];
    cbn [mbind outcome_bind]; try
    (split; [done|]; intros (? & _ & _ & (h & ? & [Hs _] & _)%Forall2_cons_inv_l);
     apply Hh in Hs; done).
  assert (∀ h', selects w (NodeSelector p) h' ↔ h' = h) as Hsel
    by (intros h'; rewrite <- Hh; naive_solver).
  destruct (has used h) eqn:Hu; [apply has_true in Hu|apply has_false in Hu].
  { split; [done|]. intros (? & _ & Hn & (h' & ? & [Hs _] & _ & ->)%Forall2_cons_inv_l).
    apply Hsel in Hs as ->. exfalso. eapply Hn; [|done]. set_solver. }
  pose proof (poolSpecValidation_Valid w {| pv_poolSpec := p; pv_namespace := ns;
    pv_hostName := h; pv_cspcName := cspcName |}) as Hp. cbn in Hp.
  destruct (poolSpecValidation w _) as [[|m]|why]; cbn [mbind outcome_bind]; try
    (split; [done|]; intros (? & _ & _ & (h' & ? & [Hs Hk] & _)%Forall2_cons_inv_l);
     apply Hsel in Hs as ->; apply Hp in Hk; done).
  rewrite IH. destruct Hp as [Hp _]. specialize (Hp eq_refl). split.
  - intros (hosts & Hnd & Hn & Hf). exists (h :: hosts). split_and!.
    + constructor; [|done]. intros Hin. apply (Hn h Hin). set_solver.
    + set_solver.
    + constructor; [|done]. split; [by apply Hsel|done].
  - intros (? & Hnd & Hn & (h' & hosts & [Hs Hk] & Hf & ->)%Forall2_cons_inv_l).
    apply Hsel in Hs as ->. apply NoDup_cons in Hnd as [Hnin Hnd].
    exists hosts. set_solver.
Qed.

Lemma cspcValidation_Valid w ns cspc :
  cspcValidation w ns cspc = Ret Valid ↔ cspc_ok w ns cspc.
Proof.
  unfold cspcValidation, cspc_ok.
  rewrite <- duplicates_empty, length_zero_nil. case_bool_decide as Hp; [both_false|].
  destruct (getDuplicateBlockDeviceList cspc) as [|d dups].
  - rewrite bool_decide_false by (cbn; lia). rewrite cspcValidation_pools_Valid. set_solver.
  - rewrite bool_decide_true by (cbn; lia). both_false.
Qed.

(** The only way admission can panic is a pool with an empty node selector. *)
Lemma poolSpecValidation_ret w pv : ∃ v, poolSpecValidation w pv = Ret v.
Proof.
  unfold poolSpecValidation. set (p := pv_poolSpec pv). set (pc := ps_PoolConfig p).
  pose proof (poolConfigValidation_Valid pv pc) as Hpc. fold p in Hpc.
  destruct (poolConfigValidation pv pc) as [|msg]; [|by eexists].
  destruct Hpc as [Hpc _]. destruct (Hpc eq_refl) as (Hd & _ & Hw). clear Hpc.
  assert (∀ rg t, raid_type_supported t = true → ∃ v, raidGroupValidation w pv rg t = Ret v) as Hrg.
  { intros rg t Ht. unfold raidGroupValidation, raid_type_supported in *.
    split_run; by eexists. }
  case_match; [by eexists|]. case_match; [by eexists|].
  destruct (all_validO_ret (λ rg, raidGroupValidation w pv rg (DataRaidGroupType pc))
    (DataRaidGroups p)) as [v ->]; [by apply Forall_forall; eauto|]. cbn.
  destruct v; [|by eexists]. rewrite length_zero_nil.
  destruct (bool_decide_reflect (WriteCacheRaidGroups p = [])) as [Hw1|Hw1]; cbn [negb];
    [by eexists|].
  case_match; [by eexists|]. apply all_validO_ret, Forall_forall. eauto.
Qed.

Lemma GetHostName_ret w sel : sel ≠ ∅ → ∃ r, GetHostNameFromLabelSelector w sel = Ret r.
Proof.
  intros Hne. unfold GetHostNameFromLabelSelector. rewrite (selector_value _ Hne). by eexists.
Qed.

Lemma cspcValidation_pools_ret w ns cspcName used pools :
  Forall (λ p, NodeSelector p ≠ ∅) pools →
  ∃ v, cspcValidation_pools w ns cspcName used pools = Ret v.
Proof.
  intros Hsel. revert used. induction Hsel as [|p pools Hp _ IH]; intros used; [by eexists|].
  cbn [cspcValidation_pools]. destruct (GetHostName_ret w _ Hp) as [[h|e] ->];
    cbn [mbind outcome_bind]; [|by eexists]. case_match; [by eexists|].
  destruct (poolSpecValidation_ret w {| pv_poolSpec := p; pv_namespace := ns;
    pv_hostName := h; pv_cspcName := cspcName |}) as [v ->]. cbn [mbind outcome_bind].
  destruct v; [apply IH|by eexists].
Qed.

Lemma cspcValidation_ret w ns cspc :
  Forall (λ p, NodeSelector p ≠ ∅) (Pools (cspc_Spec cspc)) →
  ∃ v, cspcValidation w ns cspc = Ret v.
Proof.
  intros Hsel. unfold cspcValidation.
  case_bool_decide; [by eexists|]. case_bool_decide; [by eexists|].
  by apply cspcValidation_pools_ret.
Qed.
End cspc_webhook_spec.
