(* ===== verification/PoolOps.v ===== *)
(** * PoolOps: day-2 changes of a cluster (pkg/webhook/cspc_operations.go)

    On an update request the webhook compares the stored CStorPoolCluster with
    the new one: pools may be removed only when no volume replica lives on
    them, raid groups may not disappear, devices may be replaced one per group
    and the pool may grow.  A replacement also creates (or annotates) the claim
    of the incoming device.  Functions that only read are functions of the
    world; [ClaimBD] and what calls it are computations on it. *)

From stdpp Require Import base gmap strings list sets pretty.
From Stdlib Require Import ZArith Lia.
From S2P Require Import Prelude Api Memory Webhook.

Definition dataRG : string := "data".
Definition writeCacheRG : string := "writeCache".

(** ** Capacities (pkg/webhook/util.go) *)

Definition byte_unit : Z := 1024.

(** [for val := b / unit; val >= unit; val /= unit { div *= unit; index++ }] with
    uint64 wrap-around; the fuel bounds the number of iterations. *)
Fixpoint byteCount_loop (fuel : nat) (val div index : Z) : outcome (Z * Z) :=
  match fuel with
  | O => Panic "out of fuel"
  | S fuel' =>
      if (val >=? byte_unit)%Z
      then byteCount_loop fuel' (val / byte_unit) ((div * byte_unit) mod 2 ^ 64) (index + 1)
      else Ret (div, index)
  end.

Definition ByteCount (b : Z) : outcome string :=
  if (b <? byte_unit)%Z then Ret (pretty b +:+ "B")
  else
    let* (div, index) := byteCount_loop 8 (b / byte_unit) byte_unit 0 in
    match bytes "KMGTPE" !! Z.to_nat index with
    | Some c => Ret (pretty (b / div)%Z +:+ String c "")
    | None => Panic "index out of range"
    end.

(** ** Comparing raid groups *)

Definition bd_set (rg : RaidGroup) : gset string := names (rg_bds rg).

(** hasCommonDataBlockDevicce *)
Definition hasCommonDataBlockDevicce (oldPoolSpec newPoolSpec : PoolSpec) : bool :=
  let bdMap := names (rgs_bds (DataRaidGroups oldPoolSpec)) in
  existsb (λ newRG, existsb (has bdMap) (rg_bds newRG)) (DataRaidGroups newPoolSpec).

Definition validateRaidGroupChanges (oldRg newRg : RaidGroup) (oldRgType : string) : result () :=
  let n := length (CStorPoolInstanceBlockDevices newRg) in
  let o := length (CStorPoolInstanceBlockDevices oldRg) in
  if bool_decide (n < o) then
    Err (Errorf "removing block device from %s raid group is not valid operation" [oldRgType])
  else if negb (bool_decide (oldRgType = PoolStriped)) && bool_decide (o < n) then
    Err (Errorf "adding block devices to existing %s raid group is not valid operation" [oldRgType])
  else OK tt.

Definition IsRaidGroupCommon (rgOld rgNew : RaidGroup) : bool :=
  existsb (has (bd_set rgOld)) (rg_bds rgNew).

Definition GetNumberOfDiskReplaced (newRG oldRG : RaidGroup) : nat :=
  foldl (λ count newBD, if has (bd_set oldRG) newBD then count else S count) 0 (rg_bds newRG).

Definition IsBlockDeviceReplacementCase (newRaidGroup oldRaidGroup : RaidGroup) : bool :=
  bool_decide (1 ≤ GetNumberOfDiskReplaced newRaidGroup oldRaidGroup).

Definition IsMoreThanOneDiskReplaced (newRG oldRG : RaidGroup) : bool :=
  bool_decide (1 < GetNumberOfDiskReplaced newRG oldRG).

(** The map of at most one incoming device to the device it replaces; a device
    that is not found is the empty name. *)
Definition GetNewBDFromRaidGroups (newRG oldRG : RaidGroup) : gmap string string :=
  let newBD := default "" (first_such (λ b, negb (has (bd_set oldRG) b)) (rg_bds newRG)) in
  let oldBD := default "" (first_such (λ b, negb (has (bd_set newRG) b)) (rg_bds oldRG)) in
  {[newBD := oldBD]}.

Definition getNewBDsFromStripeSpec (oldRg newRg : RaidGroup) : list string :=
  filter (λ b, has (bd_set oldRg) b = false) (rg_bds newRg).

Definition getBDsFromRaidGroups (rgs : list RaidGroup) : list string := rgs ≫= rg_bds.

Definition getExpandedRaidGroups (raidGroups oldRaidGroups : list RaidGroup) : list RaidGroup :=
  filter (λ newRg, existsb (λ oldRg, IsRaidGroupCommon oldRg newRg) oldRaidGroups = false) raidGroups.

(** raidGroups: old groups and, at the same index, the new group that shares a
    device with it. *)
Record raidGroups := {
  oldRaidGroups : list RaidGroup;
  newRaidGroups : list RaidGroup;
  rgType : string;
}.

(** The loop that pairs the old groups of one kind with the new ones. *)
Fixpoint pair_groups (olds news : list RaidGroup) (rgs : raidGroups) : result raidGroups :=
  match olds with
  | [] => OK rgs
  | oldRg :: olds' =>
      match first_such (IsRaidGroupCommon oldRg) news with
      | Some newRg =>
          pair_groups olds' news
            {| oldRaidGroups := oldRaidGroups rgs ++ [oldRg];
               newRaidGroups := newRaidGroups rgs ++ [newRg]; rgType := rgType rgs |}
      | None => Err (Errorf "removing raid group from pool spec is invalid operation" [])
      end
  end.

Definition getIndexedCommonRaidGroups (oldPoolSpec newPoolSpec : PoolSpec)
  : result (gmap string raidGroups) :=
  let oldConfig := ps_PoolConfig oldPoolSpec in
  match pair_groups (DataRaidGroups oldPoolSpec) (DataRaidGroups newPoolSpec)
          {| oldRaidGroups := []; newRaidGroups := []; rgType := DataRaidGroupType oldConfig |} with
  | Err e => Err e
  | OK data =>
      match pair_groups (WriteCacheRaidGroups oldPoolSpec) (WriteCacheRaidGroups newPoolSpec)
              {| oldRaidGroups := []; newRaidGroups := [];
                 rgType := WriteCacheGroupType oldConfig |} with
      | Err e => Err e
      | OK wc => OK {[ dataRG := data; writeCacheRG := wc ]}
      end
  end.

(** getAllowedTagMap: the allowed tags, as they are written between the commas. *)
Definition getAllowedTagMap `{OpenebsApi} (cspcAnnotation : gmap string string) : gset string :=
  let allowedTags := label cspcAnnotation OpenEBSAllowedBDTagKey in
  if bool_decide (TrimSpace allowedTags = "") then ∅
  else names (filter (λ v, TrimSpace v ≠ "") (split_on (Ascii.ascii_of_nat 44) allowedTags)).

(** ** Pool operations on a world *)

Record PoolOperations := { OldCSPC : CStorPoolCluster; NewCSPC : CStorPoolCluster }.

Record poolspecs := { oldSpec : list PoolSpec; newSpec : list PoolSpec }.

Section pool_operations.
Context {W : Type} `{GoRuntime} `{OpenebsApi}.
Context `{!ResourceClient W Node} `{!ResourceClient W BlockDevice}
  `{!ResourceClient W BlockDeviceClaim} `{!ResourceClient W CStorPoolInstance}
  `{!ResourceClient W CStorPoolCluster} `{!ResourceClient W CStorVolumeReplica}.
Implicit Types (w : W) (pOps : PoolOperations).

(** *** Matching the pools of the two specifications *)

(** The inner loop: the first new pool on the node (or with a common device). *)
Fixpoint common_pool (w : W) (oldNodeName : option string) (oldPoolSpec : PoolSpec)
  (news : list PoolSpec) : outcome (result (option PoolSpec)) :=
  match news with
  | [] => Ret (OK None)
  | newPoolSpec :: news' =>
      match oldNodeName with
      | Some oldNodeName' =>
          let* r := GetHostNameFromLabelSelector w (NodeSelector newPoolSpec) in
          match r with
          | Err err => Ret (Err err)
          | OK newNodeName =>
              if bool_decide (oldNodeName' = newNodeName) then Ret (OK (Some newPoolSpec))
              else common_pool w oldNodeName oldPoolSpec news'
          end
      | None =>
          if hasCommonDataBlockDevicce oldPoolSpec newPoolSpec then Ret (OK (Some newPoolSpec))
          else common_pool w oldNodeName oldPoolSpec news'
      end
  end.

Fixpoint common_pools (w : W) (olds news : list PoolSpec) (acc : poolspecs)
  : outcome (result poolspecs) :=
  match olds with
  | [] => Ret (OK acc)
  | oldPoolSpec :: olds' =>
      let* selector := getLabelSelectorString (NodeSelector oldPoolSpec) in
      match rList (Obj:=Node) w "" selector with
      | Err err => Ret (Err (Wrapf err "failed to get node list from the node selector" []))
      | OK (_ :: _ :: _) =>
          Ret (Err (Errorf "invalid no.of nodes %d from the given node selectors: %v" []))
      | OK nodes =>
          (* isNodeExist, oldNodeName *)
          let oldNodeName := name <$> head nodes in
          let* r := common_pool w oldNodeName oldPoolSpec news in
          match r with
          | Err err => Ret (Err err)
          | OK None => common_pools w olds' news acc
          | OK (Some newPoolSpec) =>
              common_pools w olds' news
                {| oldSpec := oldSpec acc ++ [oldPoolSpec];
                   newSpec := newSpec acc ++ [newPoolSpec] |}
          end
      end
  end.

Definition getCommonPoolSpecs (w : W) (cspcNew cspcOld : CStorPoolCluster)
  : outcome (result poolspecs) :=
  common_pools w (Pools (cspc_Spec cspcOld)) (Pools (cspc_Spec cspcNew))
    {| oldSpec := []; newSpec := [] |}.

(** *** Claims of block devices *)

Definition GetBDCOfBD (w : W) pOps (bdName : string) : result (option BlockDeviceClaim) :=
  match rList (Obj:=BlockDeviceClaim) w (namespace (OldCSPC pOps)) "" with
  | Err err => Err (Wrapf err "failed to list bdc: %s" [])
  | OK items =>
      match filter (λ bdc, bdc_BlockDeviceName bdc = bdName) items with
      | [] => OK None
      | [bdc] => OK (Some bdc)
      | _ => Err (Errorf "did not get exact one bdc for the bd %s" [bdName])
      end
  end.

Fixpoint predecessors (w : W) pOps (bds : list string) (acc : gset string)
  : result (gset string) :=
  match bds with
  | [] => OK acc
  | bd :: bds' =>
      match GetBDCOfBD w pOps bd with
      | Err err => Err err
      | OK None => predecessors w pOps bds' acc
      | OK (Some bdc) =>
          predecessors w pOps bds' ({[label (annotations bdc) PredecessorBDLabelKey]} ∪ acc)
      end
  end.

Definition GetPredecessorBDIfAny (w : W) pOps (cspcOld : CStorPoolCluster)
  : result (gset string) :=
  predecessors w pOps (cluster_bds (Pools (cspc_Spec cspcOld))) ∅.

Definition IsBDValid (w : W) pOps (bd : string) (bdc : option BlockDeviceClaim)
  (oldcspc : CStorPoolCluster) : bool :=
  if match bdc with
     | Some c => negb (bool_decide (label (labels c) CStorPoolClusterLabelKey = name oldcspc))
     | None => false
     end
  then false
  else match GetPredecessorBDIfAny w pOps oldcspc with
       | Err _ => false
       | OK predecessorMap => negb (has predecessorMap bd)
       end.

Definition AreNewBDsValid (w : W) pOps (newRG oldRG : RaidGroup) (oldcspc : CStorPoolCluster)
  : bool :=
  forallb (λ '(bd, _),
    match GetBDCOfBD w pOps bd with
    | Err _ => false
    | OK bdc => IsBDValid w pOps bd bdc oldcspc
    end) (go_range "AreNewBDsValid" (GetNewBDFromRaidGroups newRG oldRG)).

(** [Some e]: a device of the group is being replaced, or that cannot be told. *)
Fixpoint replacement_in_progress (w : W) pOps (bds : list string) : option error :=
  match bds with
  | [] => None
  | bd :: bds' =>
      match GetBDCOfBD w pOps bd with
      | Err err =>
          Some (Wrapf err "failed to query for any existing replacement in the raid group : %s" [])
      | OK None => replacement_in_progress w pOps bds'
      | OK (Some bdcObject) =>
          match annotations bdcObject !! PredecessorBDLabelKey with
          | Some _ => Some (Errorf "replacement is still in progress for bd %s" [bd])
          | None => replacement_in_progress w pOps bds'
          end
      end
  end.

Definition IsExistingReplacmentInProgress (w : W) pOps (oldRG : RaidGroup) : option error :=
  replacement_in_progress w pOps (rg_bds oldRG).

Definition IsNewBDPresentOnCurrentCSPC pOps (newRG oldRG : RaidGroup) : bool :=
  let newBDs := GetNewBDFromRaidGroups newRG oldRG in
  existsb (λ pool, existsb (λ rg, existsb (λ bd, bool_decide (is_Some (newBDs !! bd))) (rg_bds rg))
                     (DataRaidGroups pool ++ WriteCacheRaidGroups pool))
    (Pools (cspc_Spec (OldCSPC pOps))).

Fixpoint check_capacities (w : W) (ns : string) (l : list (string * string)) : result () :=
  match l with
  | [] => OK tt
  | (newBDName, oldBDName) :: l' =>
      match rGet (Obj:=BlockDevice) w ns newBDName with
      | Err err =>
          Err (Wrapf err "failed to get capacity of replaced block device: %s" [newBDName])
      | OK newBDObj =>
          match rGet (Obj:=BlockDevice) w ns oldBDName with
          | Err err =>
              Err (Wrapf err "failed to get capacity of existing block device: %s" [oldBDName])
          | OK oldBDObj =>
              if (bd_Storage newBDObj <? bd_Storage oldBDObj)%Z then
                Err (Errorf "capacity of replacing block device {%s:%d} should be greater than or equal to existing block device {%s:%d}"
                       [newBDName; oldBDName])
              else check_capacities w ns l'
          end
      end
  end.

Definition validateNewBDCapacity (w : W) pOps (newRG oldRG : RaidGroup) : result () :=
  check_capacities w (namespace (OldCSPC pOps))
    (go_range "validateNewBDCapacity" (GetNewBDFromRaidGroups newRG oldRG)).

Definition IsBDReplacementValid (w : W) pOps (newRG oldRG : RaidGroup) (oldRgType : string)
  : verdict :=
  if bool_decide (oldRgType = PoolStriped) then
    Invalid (Errorf "cannot replace  blockdevice in stripe raid group" [])
  else if IsMoreThanOneDiskReplaced newRG oldRG then
    Invalid (Errorf "cannot replace more than one blockdevice in a raid group" [])
  else if IsNewBDPresentOnCurrentCSPC pOps newRG oldRG then
    Invalid (Errorf "the new blockdevice intended to use for replacement is already a part of the current cspc" [])
  else
    match IsExistingReplacmentInProgress w pOps oldRG with
    | Some err =>
        Invalid (Wrapf err "cannot replace blockdevice as a background replacement may be in progress in the raid group: %s" [])
    | None =>
        if negb (AreNewBDsValid w pOps newRG oldRG (OldCSPC pOps)) then
          Invalid (Errorf "the new blockdevice intended to use for replacement in invalid" [])
        else
          match validateNewBDCapacity w pOps newRG oldRG with
          | Err err => Invalid (Wrapf err "error: %v" [])
          | OK _ => Valid
          end
    end.

(** *** Pool expansion *)

Fixpoint validateNewBDs (w : W) pOps (newBDs : list string) (cspc : CStorPoolCluster)
  : result () :=
  match newBDs with
  | [] => OK tt
  | bd :: newBDs' =>
      match GetBDCOfBD w pOps bd with
      | Err err => Err (Wrapf err "failed to get claim of block device %s" [bd])
      | OK bdc =>
          if negb (IsBDValid w pOps bd bdc cspc)
          then Err (Errorf "can not use blockdevice %s validation failed" [bd])
          else validateNewBDs w pOps newBDs' cspc
      end
  end.

(** One iteration of the loop over the two kinds of groups: [bds] is appended
    to for a stripe and assigned for the other raid types. *)
Definition expansion_step (newPoolSpec : PoolSpec) (bds : list string)
  (kv : string * raidGroups) : outcome (list string) :=
  let '(kind, rgs) := kv in
  if bool_decide (rgType rgs = PoolStriped) then
    match oldRaidGroups rgs, newRaidGroups rgs with
    | oldRg :: _, newRg :: _ => Ret (bds ++ getNewBDsFromStripeSpec oldRg newRg)
    | _, _ => Panic "index out of range [0] with length 0"
    end
  else
    let bds1 :=
      if bool_decide (kind = dataRG)
      then getBDsFromRaidGroups
             (getExpandedRaidGroups (DataRaidGroups newPoolSpec) (oldRaidGroups rgs))
      else bds in
    Ret (if bool_decide (kind = writeCacheRG)
         then getBDsFromRaidGroups
                (getExpandedRaidGroups (WriteCacheRaidGroups newPoolSpec) (oldRaidGroups rgs))
         else bds1).

Definition validatePoolExpansion (w : W) pOps (newPoolSpec : PoolSpec)
  (commonRaidGroups : gmap string raidGroups) : outcome (result ()) :=
  let* bds := foldO (expansion_step newPoolSpec) []
                (go_range "validatePoolExpansion" commonRaidGroups) in
  Ret (validateNewBDs w pOps bds (OldCSPC pOps)).

(** *** Claiming the incoming device *)

Definition ClaimBD pOps (newBdObj : BlockDevice) (oldBD : string) : M W (result ()) :=
  let tag := labels newBdObj !! BlockDeviceTagLabelKey in
  let refusal :=
    match tag with
    | Some value =>
        if bool_decide (TrimSpace value = "") then
          Some (Errorf "failed to create block device claim for bd {%s} as it has empty value for bd tag"
                  [name newBdObj])
        else if negb (has (getAllowedTagMap (annotations (NewCSPC pOps))) (TrimSpace value)) then
          Some (Errorf "cannot use bd {%s} as it has tag %s but cspc has allowed bd tags as %s"
                  [name newBdObj; value;
                   label (annotations (NewCSPC pOps)) OpenEBSAllowedBDTagKey])
        else None
    | None => None
    end in
  match refusal with
  | Some err => mret (Err err)
  | None =>
      let* capacity := lift (λ _, ByteCount (bd_Storage newBdObj)) in
      (* resource.MustParse *)
      match ParseQuantity capacity with
      | Err _ => panic "cannot parse quantity"
      | OK q =>
          let newBDCObj0 := build_bdc
            {| ba_name := "bdc-cstor-" +:+ uid newBdObj;
               ba_namespace := namespace newBdObj;
               ba_labels := {[CStorPoolClusterLabelKey := name (OldCSPC pOps)]};
               ba_annotations := {[PredecessorBDLabelKey := oldBD]};
               ba_blockDeviceName := name newBdObj;
               ba_hostName := label (labels newBdObj) HostNameLabelKey;
               ba_capacity := q;
               ba_owner := cspc_ControllerRef (OldCSPC pOps);
               ba_finalizer := CSPCFinalizer |} in
          let newBDCObj :=
            match tag with
            | Some value =>
                bdc_with_selector (Some {[BlockDeviceTagLabelKey := value]}) newBDCObj0
            | None => newBDCObj0
            end in
          let* got := reads (λ w, rGet (Obj:=BlockDeviceClaim) w (namespace newBdObj)
                                    (name newBDCObj)) in
          match got with
          | Err err =>
              if IsNotFound err then
                let* r := call (rCreate (namespace newBdObj) newBDCObj) in
                mret match r with
                     | Err e =>
                         Err (Wrapf e "failed to create block device claim for bd {%s}" [name newBdObj])
                     | OK _ => OK tt
                     end
              else mret (Err (Wrapf err "failed to get block device claim for bd {%s}" [name newBdObj]))
          | OK bdcObj =>
              let* r := call (rUpdate (namespace newBdObj)
                                (bdc_WithAnnotations {[PredecessorBDLabelKey := oldBD]} bdcObj)) in
              mret match r with Err e => Err e | OK _ => OK tt end
          end
      end
  end.

Definition createBDC pOps (newBD oldBD : string) : M W (result ()) :=
  let* r := reads (λ w, rGet (Obj:=BlockDevice) w (namespace (OldCSPC pOps)) newBD) in
  match r with
  | Err err => mret (Err err)
  | OK bdObj => ClaimBD pOps bdObj oldBD
  end.

(** *** The changes of one pool *)

(** The loop over the paired groups of one kind: the incoming devices found so
    far, or the message of the first group that is not acceptable. *)
Fixpoint check_groups (w : W) pOps (rgType : string) (olds news : list RaidGroup)
  (newToOldBd : gmap string string) : outcome (result (gmap string string)) :=
  match olds, news with
  | [], _ => Ret (OK newToOldBd)
  | _ :: _, [] => Panic "index out of range"
  | oldRg :: olds', newRg :: news' =>
      match validateRaidGroupChanges oldRg newRg rgType with
      | Err err => Ret (Err (Wrapf err "raid group validation failed: %v" []))
      | OK _ =>
          if IsBlockDeviceReplacementCase oldRg newRg then
            match IsBDReplacementValid w pOps newRg oldRg rgType with
            | Invalid msg => Ret (Err msg)
            | Valid => check_groups w pOps rgType olds' news'
                         (GetNewBDFromRaidGroups newRg oldRg ∪ newToOldBd)
            end
          else check_groups w pOps rgType olds' news' newToOldBd
      end
  end.

(** The loop over the two kinds of groups. *)
Fixpoint check_kinds (w : W) pOps (kinds : list (string * raidGroups))
  (newToOldBd : gmap string string) : outcome (result (gmap string string)) :=
  match kinds with
  | [] => Ret (OK newToOldBd)
  | (_, v) :: kinds' =>
      let* r := check_groups w pOps (rgType v) (oldRaidGroups v) (newRaidGroups v) newToOldBd in
      match r with
      | Err msg => Ret (Err msg)
      | OK newToOldBd' => check_kinds w pOps kinds' newToOldBd'
      end
  end.

Definition create_claims pOps (l : list (string * string)) : M W (result ()) :=
  forE (λ '(newBD, oldBD), createBDC pOps newBD oldBD) l.

Definition ArePoolSpecChangesValid pOps (oldPoolSpec newPoolSpec : PoolSpec) : M W verdict :=
  let oldConfig := ps_PoolConfig oldPoolSpec in
  let newConfig := ps_PoolConfig newPoolSpec in
  if negb (bool_decide (DataRaidGroupType oldConfig = DataRaidGroupType newConfig)) ||
     (negb (bool_decide (WriteCacheGroupType oldConfig = "")) &&
      negb (bool_decide (WriteCacheGroupType oldConfig = WriteCacheGroupType newConfig)))
  then mret (Invalid (Errorf "raidgroup can't be modified" []))
  else
    match getIndexedCommonRaidGroups oldPoolSpec newPoolSpec with
    | Err err => mret (Invalid (Wrapf err "raid group validation failed: %v" []))
    | OK commonRaidGroups =>
        let* r := lift (λ w, check_kinds w pOps
                               (go_range "ArePoolSpecChangesValid" commonRaidGroups) ∅) in
        match r with
        | Err msg => mret (Invalid msg)
        | OK newToOldBd =>
            let* e := lift (λ w, validatePoolExpansion w pOps newPoolSpec commonRaidGroups) in
            match e with
            | Err err => mret (Invalid (Wrapf err "pool expansion validation failed: %v" []))
            | OK _ =>
                let* c := create_claims pOps (go_range "newToOldBd" newToOldBd) in
                match c with
                | Err err => mret (Invalid err)
                | OK _ => mret Valid
                end
            end
        end
    end.

(** *** All pools *)

Fixpoint spec_changes pOps (olds news : list PoolSpec) : M W verdict :=
  match olds, news with
  | [], _ => mret Valid
  | _ :: _, [] => panic "index out of range"
  | oldPoolSpec :: olds', newPoolSpec :: news' =>
      (* reflect.DeepEqual *)
      if bool_decide (oldPoolSpec = newPoolSpec) then spec_changes pOps olds' news'
      else
        let* v := ArePoolSpecChangesValid pOps oldPoolSpec newPoolSpec in
        match v with
        | Invalid msg => mret (Invalid msg)
        | Valid => spec_changes pOps olds' news'
        end
  end.

Definition ValidateSpecChanges (commonPoolSpecs : poolspecs) pOps : M W verdict :=
  spec_changes pOps (oldSpec commonPoolSpecs) (newSpec commonPoolSpecs).

(** *** Removal of pools (pkg/webhook/cspc.go) *)

Definition IsScaledownCase pOps (oldPool : PoolSpec) : bool :=
  let bdMap := names (cluster_bds (Pools (cspc_Spec (NewCSPC pOps)))) in
  negb (existsb (λ oldRg, existsb (has bdMap) (rg_bds oldRg))
          (DataRaidGroups oldPool ++ WriteCacheRaidGroups oldPool)).

(** The loop that names the pool instances of the removed pools. *)
Fixpoint removed_pools (w : W) pOps (olds : list PoolSpec) (removedPools : list string)
  : outcome (result (list string)) :=
  match olds with
  | [] => Ret (OK removedPools)
  | oldPool :: olds' =>
      let found := existsb (λ newPool, bool_decide (NodeSelector oldPool = NodeSelector newPool))
                     (Pools (cspc_Spec (NewCSPC pOps))) in
      if negb found && IsScaledownCase pOps oldPool then
        let* r :=
          match NodeSelector oldPool !! HostNameLabelKey with
          | Some v => Ret (OK v)
          | None => GetHostNameFromLabelSelector w (NodeSelector oldPool)
          end in
        match r with
        | Err err => Ret (Err (Errorf "Could not list node for node selectors {%v}" []))
        | OK nodeName =>
            match rList (Obj:=CStorPoolInstance) w (namespace (OldCSPC pOps))
                    (labels_Set_String {[CStorPoolClusterLabelKey := name (OldCSPC pOps);
                                         HostNameLabelKey := nodeName]}) with
            | Err err => Ret (Err (Wrapf err "Could not list cspi for cspc %s: %s"
                                     [name (OldCSPC pOps)]))
            | OK [] => Panic "index out of range [0] with length 0"
            | OK (cspi :: _) => removed_pools w pOps olds' (removedPools ++ [name cspi])
            end
        end
      else removed_pools w pOps olds' removedPools
  end.

Fixpoint no_replicas (w : W) pOps (removedPools : list string) : verdict :=
  match removedPools with
  | [] => Valid
  | cspiName :: rest =>
      match rList (Obj:=CStorVolumeReplica) w (namespace (OldCSPC pOps))
              (CStorPoolInstanceNameLabelKey +:+ "=" +:+ cspiName) with
      | Err err => Invalid (Wrapf err "Could not list cvr for cspi %s: %s" [cspiName])
      | OK items =>
          if negb (bool_decide (length items = 0))
          then Invalid (Errorf "volume still exists on pool %s" [cspiName])
          else no_replicas w pOps rest
      end
  end.

Definition ValidateScaledown (w : W) pOps : outcome verdict :=
  let* r := removed_pools w pOps (Pools (cspc_Spec (OldCSPC pOps))) [] in
  Ret match r with
      | Err msg => Invalid msg
      | OK removedPools => no_replicas w pOps removedPools
      end.

(** *** The update request and the dispatch on the operation *)

Definition validateCSPCUpdateRequest (ns : string) (req : AdmissionRequest)
  : M W AdmissionResponse :=
  match req_object req with
  | Err err => mret (refused err StatusBadRequest)
  | OK cspcNew =>
      let* old := reads (λ w, rGet (Obj:=CStorPoolCluster) w (namespace cspcNew) (name cspcNew)) in
      match old with
      | Err err =>
          mret (refused (Wrapf err "could not fetch existing cspc for validation: %s" [])
                  StatusInternalServerError)
      | OK cspcOld =>
          if bool_decide (cspc_Spec cspcNew = cspc_Spec cspcOld) then mret accepted
          else
            let* v := lift (λ w, cspcValidation w ns cspcNew) in
            match v with
            | Invalid msg =>
                mret (refused (Wrapf msg "invalid cspc specification: %s" [])
                        StatusUnprocessableEntity)
            | Valid =>
                let pOps := {| OldCSPC := cspcOld; NewCSPC := cspcNew |} in
                let* s := lift (λ w, ValidateScaledown w pOps) in
                match s with
                | Invalid msg =>
                    mret (refused (Wrapf msg "invalid cspc specification: %s" [])
                            StatusUnprocessableEntity)
                | Valid =>
                    let* c := lift (λ w, getCommonPoolSpecs w cspcNew cspcOld) in
                    match c with
                    | Err err =>
                        mret (refused (Wrapf err "could not find common pool specs for validation: %s" [])
                                StatusInternalServerError)
                    | OK commonPoolSpec =>
                        let* d := ValidateSpecChanges commonPoolSpec pOps in
                        match d with
                        | Invalid msg =>
                            mret (refused (Wrapf msg "invalid cspc specification: %s" [])
                                    StatusUnprocessableEntity)
                        | Valid => mret accepted
                        end
                    end
                end
            end
      end
  end.

Definition validateCSPC (ns : string) (req : AdmissionRequest) : M W AdmissionResponse :=
  match req_operation req with
  | Update => validateCSPCUpdateRequest ns req
  | Create => lift (λ w, validateCSPCCreateRequest w ns req)
  | Delete => reads (λ w, validateCSPCDeleteRequest w req)
  | Connect => mret NewAdmissionResponse
  end.
End pool_operations.

(** ** Replaced devices *)

Lemma replaced_count newRG oldRG :
  GetNumberOfDiskReplaced newRG oldRG =
  length (filter (λ b, b ∉ rg_bds oldRG) (rg_bds newRG)).
Proof.
  unfold GetNumberOfDiskReplaced.
  assert (∀ l n, foldl (λ count newBD, if has (bd_set oldRG) newBD then count else S count) n l =
    n + length (filter (λ b, b ∉ rg_bds oldRG) l)) as Hf; [|apply Hf].
  induction l as [|b l IH]; intros n; [cbn; lia|]. cbn [foldl]. rewrite IH, filter_cons.
  destruct (has (bd_set oldRG) b) eqn:Hb; [apply has_true in Hb|apply has_false in Hb];
    unfold bd_set in Hb; rewrite elem_of_names in Hb; case_decide; cbn [length]; tauto || lia.
Qed.

(** Two duplicate-free lists of the same length share their members outside the
    parts that only one of them has. *)
Lemma swap_permutation (A B : list string) :
  NoDup A → NoDup B → length A = length B →
  ∃ l, A ≡ₚ filter (λ x, x ∉ B) A ++ l ∧ B ≡ₚ filter (λ x, x ∉ A) B ++ l ∧
    length (filter (λ x, x ∉ B) A) = length (filter (λ x, x ∉ A) B).
Proof.
  intros HA HB Hlen. exists (filter (λ x, x ∈ B) A).
  assert (filter (λ x, x ∈ A) B ≡ₚ filter (λ x, x ∈ B) A) as Hcommon.
  { apply NoDup_Permutation; [by apply NoDup_filter..|].
    intros x. rewrite !list_elem_of_filter. tauto. }
  pose proof (filter_app_complement (λ x, x ∈ B) A) as HpA.
  pose proof (filter_app_complement (λ x, x ∈ A) B) as HpB.
  split_and!.
  - rewrite <- HpA at 1. by rewrite Permutation_app_comm.
  - rewrite <- HpB at 1. by rewrite Permutation_app_comm, Hcommon.
  - apply Permutation_length in HpA, HpB, Hcommon. rewrite length_app in HpA, HpB. lia.
Qed.

(** How an accepted change may treat one raid group: a stripe keeps its devices,
    any other group keeps them up to one device swapped for a fresh one. *)
Definition group_evolves (inUse : list string) (t : string) (rg rg' : RaidGroup) : Prop :=
  if decide (t = PoolStriped) then rg_bds rg ⊆ rg_bds rg'
  else rg_bds rg' ≡ₚ rg_bds rg ∨
       ∃ b b' l, rg_bds rg ≡ₚ b :: l ∧ rg_bds rg' ≡ₚ b' :: l ∧ b' ∉ inUse.

Section pool_operations_facts.
Context {W : Type} `{GoRuntime} `{OpenebsApi}.
Context `{!ResourceClient W Node} `{!ResourceClient W BlockDevice}
  `{!ResourceClient W BlockDeviceClaim} `{!ResourceClient W CStorPoolInstance}
  `{!ResourceClient W CStorPoolCluster} `{!ResourceClient W CStorVolumeReplica}.
Implicit Types (w : W) (pOps : PoolOperations).

(** *** Pairing of the groups *)

Lemma pair_groups_OK olds news rgs r :
  pair_groups olds news rgs = OK r →
  ∃ partners, r = {| oldRaidGroups := oldRaidGroups rgs ++ olds;
                     newRaidGroups := newRaidGroups rgs ++ partners; rgType := rgType rgs |} ∧
    Forall2 (λ o n, n ∈ news ∧ IsRaidGroupCommon o n = true) olds partners.
Proof.
  revert rgs. induction olds as [|o olds IH]; intros rgs; cbn.
  - intros [= <-]. exists []. rewrite !app_nil_r. by destruct rgs.
  - destruct (first_such (IsRaidGroupCommon o) news) as [n|] eqn:Hf; [|done].
    intros (ps & -> & Hall)%IH. exists (n :: ps). cbn. rewrite <- !app_assoc. split; [done|].
    constructor; [|done]. by apply first_such_Some in Hf.
Qed.

(** The pairs that the change of a pool is checked on. *)
Definition group_pairs (olds news partners : list RaidGroup) : Prop :=
  Forall2 (λ o n, n ∈ news ∧ IsRaidGroupCommon o n = true) olds partners.

Lemma indexed_groups_OK oldP newP m :
  getIndexedCommonRaidGroups oldP newP = OK m →
  ∃ pd pw,
    m !! dataRG = Some {| oldRaidGroups := DataRaidGroups oldP; newRaidGroups := pd;
                          rgType := DataRaidGroupType (ps_PoolConfig oldP) |} ∧
    m !! writeCacheRG = Some {| oldRaidGroups := WriteCacheRaidGroups oldP; newRaidGroups := pw;
                                rgType := WriteCacheGroupType (ps_PoolConfig oldP) |} ∧
    group_pairs (DataRaidGroups oldP) (DataRaidGroups newP) pd ∧
    group_pairs (WriteCacheRaidGroups oldP) (WriteCacheRaidGroups newP) pw.
Proof.
  unfold getIndexedCommonRaidGroups.
  destruct (pair_groups (DataRaidGroups oldP) _ _) as [d|e] eqn:Hd; [|done].
  destruct (pair_groups (WriteCacheRaidGroups oldP) _ _) as [c|e] eqn:Hw; [|done].
  intros [= <-]. apply pair_groups_OK in Hd as (pd & -> & Hpd).
  apply pair_groups_OK in Hw as (pw & -> & Hpw). by exists pd, pw.
Qed.

(** *** The check of one pair *)

Definition pair_checked w pOps t (o n : RaidGroup) : Prop :=
  validateRaidGroupChanges o n t = OK tt ∧
  (IsBlockDeviceReplacementCase o n = true → IsBDReplacementValid w pOps n o t = Valid).

Lemma check_groups_OK w pOps t olds news acc m :
  length olds = length news →
  check_groups w pOps t olds news acc = Ret (OK m) → Forall2 (pair_checked w pOps t) olds news.
Proof.
  revert news acc. induction olds as [|o olds IH]; intros [|n news] acc Hlen; try done; cbn.
  injection Hlen as Hlen. intros Hr.
  destruct (validateRaidGroupChanges o n t) as [[]|e] eqn:Hv; [|done].
  destruct (IsBlockDeviceReplacementCase o n) eqn:Hc.
  - destruct (IsBDReplacementValid w pOps n o t) eqn:Hb; [|done].
    constructor; [by split|]. by eapply IH.
  - constructor; [by split; [|rewrite Hc]|]. by eapply IH.
Qed.

Lemma check_kinds_OK w pOps kinds acc m :
  check_kinds w pOps kinds acc = Ret (OK m) →
  ∀ k v, (k, v) ∈ kinds → ∃ acc' m',
    check_groups w pOps (rgType v) (oldRaidGroups v) (newRaidGroups v) acc' = Ret (OK m').
Proof.
  revert acc. induction kinds as [|[k0 v0] kinds IH]; intros acc Hr k v; [set_solver|].
  cbn in Hr. inv_run. split_run. rewrite elem_of_cons. intros [[= -> ->]|Hin]; eauto.
Qed.

Lemma none_missing (A B : list string) :
  length (filter (λ b, b ∉ B) A) = 0 → A ⊆ B.
Proof.
  intros Hz b Hb. destruct (decide (b ∈ B)) as [|Hnb]; [done|].
  apply nil_length_inv in Hz. exfalso. apply (not_elem_of_nil (A:=string) b).
  rewrite <- Hz. by apply list_elem_of_filter.
Qed.

(** The single incoming device is the key of [GetNewBDFromRaidGroups]. *)
Lemma incoming_device newRG oldRG b :
  filter (λ x, x ∉ rg_bds oldRG) (rg_bds newRG) = [b] →
  is_Some (GetNewBDFromRaidGroups newRG oldRG !! b).
Proof.
  intros Hf. unfold GetNewBDFromRaidGroups.
  assert (∀ x, x ∈ rg_bds newRG ∧ negb (has (bd_set oldRG) x) = true ↔ x = b) as Hx.
  { intros x. rewrite <- (list_elem_of_singleton x b), <- Hf, list_elem_of_filter.
    rewrite negb_true_iff, has_false. unfold bd_set. rewrite elem_of_names. tauto. }
  destruct (first_such (λ x, negb (has (bd_set oldRG) x)) (rg_bds newRG)) as [x|] eqn:Hs.
  - apply first_such_Some, Hx in Hs as ->. change (default "" (Some b)) with b.
    rewrite lookup_singleton_eq. by eexists.
  - rewrite first_such_None in Hs. destruct (Hx b) as [_ [Hin Ht]]; [done|].
    rewrite Hs in Ht; done.
Qed.

Lemma incoming_fresh pOps newRG oldRG b :
  IsNewBDPresentOnCurrentCSPC pOps newRG oldRG = false →
  is_Some (GetNewBDFromRaidGroups newRG oldRG !! b) →
  b ∉ cluster_bds (Pools (cspc_Spec (OldCSPC pOps))).
Proof.
  intros Hp Hb (p & rg & Hpool & Hrg & Hin)%elem_of_cluster_bds.
  unfold IsNewBDPresentOnCurrentCSPC in Hp. rewrite existsb_false in Hp.
  specialize (Hp p Hpool). rewrite existsb_false in Hp. specialize (Hp rg Hrg).
  rewrite existsb_false in Hp. specialize (Hp b Hin). by apply bool_decide_eq_false in Hp.
Qed.

(** What an accepted replacement guarantees. *)
Lemma replacement_valid w pOps newRG oldRG t :
  IsBDReplacementValid w pOps newRG oldRG t = Valid →
  t ≠ PoolStriped ∧ GetNumberOfDiskReplaced newRG oldRG ≤ 1 ∧
  IsNewBDPresentOnCurrentCSPC pOps newRG oldRG = false ∧
  IsExistingReplacmentInProgress w pOps oldRG = None ∧
  AreNewBDsValid w pOps newRG oldRG (OldCSPC pOps) = true ∧
  validateNewBDCapacity w pOps newRG oldRG = OK tt.
Proof.
  unfold IsBDReplacementValid, IsMoreThanOneDiskReplaced.
  case_bool_decide; [done|]. case_bool_decide; [done|].
  destruct (IsNewBDPresentOnCurrentCSPC _ _ _); [done|].
  destruct (IsExistingReplacmentInProgress _ _ _); [done|].
  destruct (AreNewBDsValid _ _ _ _ _); [|done].
  destruct (validateNewBDCapacity _ _ _ _) as [[]|]; [|done]. intros _. split_and!; (done || lia).
Qed.

Lemma pair_checked_evolves w pOps t o n :
  pair_checked w pOps t o n → NoDup (rg_bds o) → NoDup (rg_bds n) →
  group_evolves (cluster_bds (Pools (cspc_Spec (OldCSPC pOps)))) t o n.
Proof.
  intros [Hv Hr] Ho Hn. unfold group_evolves, IsBlockDeviceReplacementCase in *.
  rewrite replaced_count in Hr. destruct (decide (t = PoolStriped)) as [Ht|Ht].
  - apply none_missing. destruct (decide (1 ≤ length (filter (λ b, b ∉ rg_bds n) (rg_bds o))));
      [|lia]. rewrite bool_decide_true in Hr by done.
    by destruct (replacement_valid _ _ _ _ _ (Hr eq_refl)).
  - assert (length (rg_bds o) = length (rg_bds n)) as Hlen.
    { unfold rg_bds. rewrite !length_fmap. unfold validateRaidGroupChanges in Hv.
      repeat case_bool_decide; try done; cbn in Hv; lia || done. }
    destruct (swap_permutation _ _ Ho Hn Hlen) as (l & HA & HB & Hcount).
    destruct (filter (λ b, b ∉ rg_bds n) (rg_bds o)) as [|b bs] eqn:Hfo.
    + left. destruct (filter (λ b, b ∉ rg_bds o) (rg_bds n)); [|done]. by rewrite HA, HB.
    + right. destruct (replacement_valid _ _ _ _ _ (Hr eq_refl)) as (_ & Hone & Hnew & _).
      rewrite replaced_count in Hone. cbn in Hcount.
      destruct (filter (λ b, b ∉ rg_bds o) (rg_bds n)) as [|b' bs'] eqn:Hfn; [done|].
      assert (bs = [] ∧ bs' = []) as [-> ->] by (cbn in *; split; apply nil_length_inv; lia).
      exists b, b', l. split_and!; [done..|]. by eapply incoming_fresh, incoming_device.
Qed.

(** *** One pool *)

(** Every raid group of the pool goes on in the new specification. *)
Definition groups_evolve (inUse : list string) t (olds news : list RaidGroup) : Prop :=
  ∀ rg, rg ∈ olds → ∃ rg', rg' ∈ news ∧ group_evolves inUse t rg rg'.

Definition pool_evolves (inUse : list string) (oldP newP : PoolSpec) : Prop :=
  let oldC := ps_PoolConfig oldP in
  let newC := ps_PoolConfig newP in
  DataRaidGroupType newC = DataRaidGroupType oldC ∧
  (WriteCacheGroupType oldC ≠ "" → WriteCacheGroupType newC = WriteCacheGroupType oldC) ∧
  groups_evolve inUse (DataRaidGroupType oldC) (DataRaidGroups oldP) (DataRaidGroups newP) ∧
  groups_evolve inUse (WriteCacheGroupType oldC) (WriteCacheRaidGroups oldP)
    (WriteCacheRaidGroups newP).

Lemma group_NoDup rgs rg : NoDup (rgs_bds rgs) → rg ∈ rgs → NoDup (rg_bds rg).
Proof.
  intros Hn (l1 & l2 & ->)%list_elem_of_split. unfold rgs_bds in Hn.
  rewrite bind_app, bind_cons in Hn.
  by apply NoDup_app in Hn as (_ & _ & (Hn & _)%NoDup_app).
Qed.

Lemma pool_groups_NoDup p rg :
  NoDup (pool_bds p) → rg ∈ DataRaidGroups p ∨ rg ∈ WriteCacheRaidGroups p → NoDup (rg_bds rg).
Proof. intros Hn Hin. eapply group_NoDup; [exact Hn|]. unfold all_groups. set_solver. Qed.

(** Checked pairs give the evolution of the groups of one kind. *)
Lemma checked_groups_evolve w pOps t olds news partners :
  group_pairs olds news partners → Forall2 (pair_checked w pOps t) olds partners →
  (∀ rg, rg ∈ olds → NoDup (rg_bds rg)) → (∀ rg, rg ∈ news → NoDup (rg_bds rg)) →
  groups_evolve (cluster_bds (Pools (cspc_Spec (OldCSPC pOps)))) t olds news.
Proof.
  intros Hp Hc Ho Hn rg Hrg.
  apply list_elem_of_lookup in Hrg as [i Hi].
  destruct (Forall2_lookup_l _ _ _ _ _ Hp Hi) as (rg' & Hi' & Hin & _).
  destruct (Forall2_lookup_l _ _ _ _ _ Hc Hi) as (rg'' & Hi'' & Hck). simplify_eq.
  exists rg'. split; [done|].
  eapply pair_checked_evolves; [exact Hck|apply Ho; by eapply list_elem_of_lookup_2|by apply Hn].
Qed.

Lemma pool_changes_evolve pOps oldP newP w w' :
  ArePoolSpecChangesValid pOps oldP newP w = (Ret Valid, w') →
  NoDup (pool_bds oldP) → NoDup (pool_bds newP) →
  pool_evolves (cluster_bds (Pools (cspc_Spec (OldCSPC pOps)))) oldP newP.
Proof.
  intros Hr Ho Hn. unfold ArePoolSpecChangesValid in Hr.
  destruct (negb _ || _) eqn:Ht; [done|]. apply orb_false_iff in Ht as [Ht1 Ht2].
  apply negb_false_iff, bool_decide_eq_true in Ht1.
  destruct (getIndexedCommonRaidGroups oldP newP) as [m|e] eqn:Hm; [|done].
  inv_run. split_run.
  destruct (indexed_groups_OK _ _ _ Hm) as (pd & pw & Hd & Hw & Hpd & Hpw).
  match goal with H : check_kinds ?w0 _ _ _ = _ |- _ =>
    pose proof (check_kinds_OK _ _ _ _ _ H) as Hck; rename w0 into wr end.
  assert (∀ k v, m !! k = Some v → length (oldRaidGroups v) = length (newRaidGroups v) →
    Forall2 (pair_checked wr pOps (rgType v)) (oldRaidGroups v) (newRaidGroups v)) as Hall.
  { intros k v Hkv Hlen. destruct (Hck k v) as (acc & m' & Hg); [by apply go_range_lookup|].
    by eapply check_groups_OK. }
  split_and!; [done| | |].
  - intros Hne. rewrite bool_decide_false in Ht2 by done. cbn in Ht2.
    by apply negb_false_iff, bool_decide_eq_true in Ht2.
  - eapply checked_groups_evolve; [done|apply (Hall _ _ Hd); by eapply Forall2_length
      |intros; apply (pool_groups_NoDup oldP)|intros; apply (pool_groups_NoDup newP)]; auto.
  - eapply checked_groups_evolve; [done|apply (Hall _ _ Hw); by eapply Forall2_length
      |intros; apply (pool_groups_NoDup oldP)|intros; apply (pool_groups_NoDup newP)]; auto.
Qed.

Lemma spec_changes_evolve pOps olds news w w' :
  spec_changes pOps olds news w = (Ret Valid, w') →
  Forall (λ p, NoDup (pool_bds p)) olds → Forall (λ p, NoDup (pool_bds p)) news →
  length olds = length news →
  Forall2 (λ o n, o = n ∨ pool_evolves (cluster_bds (Pools (cspc_Spec (OldCSPC pOps)))) o n)
    olds news.
Proof.
  revert news w. induction olds as [|o olds IH]; intros [|n news] w Hr Ho Hn Hlen; try done.
  apply Forall_cons in Ho as [Ho Hos], Hn as [Hn Hns]. injection Hlen as Hlen. cbn in Hr.
  case_bool_decide; [constructor; [by left|by eapply IH]|].
  inv_run. split_run. constructor; [|by eapply IH].
  right. by eapply pool_changes_evolve.
Qed.

(** *** Matching of the pools *)

Lemma common_pool_in w on op news np : common_pool w on op news = Ret (OK (Some np)) → np ∈ news.
Proof.
  induction news as [|n news IH]; cbn; [done|]. intros Hr. destruct on as [on|].
  - inv_run. split_run; set_solver.
  - split_run; set_solver.
Qed.

Lemma common_pools_OK w olds news acc r :
  common_pools w olds news acc = Ret (OK r) →
  (∃ os, oldSpec r = oldSpec acc ++ os ∧ os ⊆ olds) ∧
  (∃ ns, newSpec r = newSpec acc ++ ns ∧ ns ⊆ news) ∧
  (length (oldSpec acc) = length (newSpec acc) → length (oldSpec r) = length (newSpec r)).
Proof.
  revert acc. induction olds as [|o olds IH]; intros acc Hr.
  { cbn in Hr. simplify_eq. split_and!; [exists []; rewrite app_nil_r; set_solver|
    exists []; rewrite app_nil_r; set_solver|done]. }
  cbn in Hr. inv_run.
  match goal with H : context [rList w "" ?s] |- _ => destruct (rList w "" s) as [[|n1 [|n2 l]]|e] end;
    try done; cbn in *; inv_run; split_run;
    match goal with H : common_pools _ _ _ _ = _ |- _ =>
      apply IH in H as ((os & Hos & Hsub) & (ns & Hns & Hsub') & Hlen) end;
    try (split_and!; [exists os; set_solver|exists ns; set_solver|done]);
    match goal with H : common_pool _ _ _ _ = _ |- _ => apply common_pool_in in H end;
    cbn in *; rewrite <- !app_assoc in *; cbn in *; rewrite !length_app in Hlen;
    (split_and!; [eexists; split; [done|set_solver]|eexists; split; [done|set_solver]|]);
    intros He; apply Hlen; cbn; lia.
Qed.

(** *** Removal of pools *)

Definition pool_host w (p : PoolSpec) (host : string) : Prop :=
  NodeSelector p !! HostNameLabelKey = Some host ∨
  NodeSelector p !! HostNameLabelKey = None ∧ selects w (NodeSelector p) host.

(** The pool is gone: no pool with its selector, none of its devices in use. *)
Definition pool_gone pOps (p : PoolSpec) : Prop :=
  (∀ p', p' ∈ Pools (cspc_Spec (NewCSPC pOps)) → NodeSelector p ≠ NodeSelector p') ∧
  (∀ b, b ∈ pool_bds p → b ∉ cluster_bds (Pools (cspc_Spec (NewCSPC pOps)))).

(** The pool instance found for a removed pool carries no volume replica. *)
Definition pool_empty w pOps (p : PoolSpec) : Prop :=
  ∃ host (cspi : CStorPoolInstance) rest, pool_host w p host ∧
    rList w (namespace (OldCSPC pOps))
      (labels_Set_String {[CStorPoolClusterLabelKey := name (OldCSPC pOps);
                           HostNameLabelKey := host]}) = OK (cspi :: rest) ∧
    rList (Obj:=CStorVolumeReplica) w (namespace (OldCSPC pOps))
      (CStorPoolInstanceNameLabelKey +:+ "=" +:+ name cspi) = OK [].

Lemma scaledown_case pOps p :
  IsScaledownCase pOps p = true ↔
  ∀ b, b ∈ pool_bds p → b ∉ cluster_bds (Pools (cspc_Spec (NewCSPC pOps))).
Proof.
  unfold IsScaledownCase, pool_bds. rewrite negb_true_iff, existsb_false.
  setoid_rewrite existsb_false. setoid_rewrite has_false. setoid_rewrite elem_of_names.
  setoid_rewrite elem_of_rgs_bds. unfold all_groups. naive_solver.
Qed.

Lemma removed_pools_OK w pOps olds acc l :
  removed_pools w pOps olds acc = Ret (OK l) →
  acc ⊆ l ∧ ∀ p, p ∈ olds → pool_gone pOps p →
    ∃ host (cspi : CStorPoolInstance) rest, pool_host w p host ∧
      rList w (namespace (OldCSPC pOps))
        (labels_Set_String {[CStorPoolClusterLabelKey := name (OldCSPC pOps);
                             HostNameLabelKey := host]}) = OK (cspi :: rest) ∧
      name cspi ∈ l.
Proof.
  revert acc. induction olds as [|o olds IH]; intros acc Hr; cbn in Hr.
  { simplify_eq. set_solver. }
  destruct (negb _ && _) eqn:Hc.
  - apply outcome_bind_Ret in Hr as ([host|e] & Hh & Hr); [|done].
    assert (pool_host w o host) as Hhost.
    { unfold pool_host. destruct (NodeSelector o !! HostNameLabelKey); simplify_eq; [by left|].
      right. split; [done|]. by apply GetHostName_OK. }
    destruct (rList w _ _) as [[|cspi rest]|e] eqn:Hl in Hr; try done.
    apply IH in Hr as [Hsub Hall]. split; [set_solver|].
    intros p [->|Hp]%elem_of_cons Hg; [|by apply Hall].
    exists host, cspi, rest. split_and!; [done..|set_solver].
  - apply IH in Hr as [Hsub Hall]. split; [done|].
    intros p [->|Hp]%elem_of_cons [Hg1 Hg2]; [|by apply Hall]. exfalso.
    apply scaledown_case in Hg2. rewrite Hg2, andb_true_r in Hc.
    apply negb_false_iff, existsb_true in Hc as (p' & Hp' & Heq%bool_decide_eq_true).
    by eapply Hg1.
Qed.

Lemma no_replicas_Valid w pOps l :
  no_replicas w pOps l = Valid ↔
  ∀ n, n ∈ l → rList (Obj:=CStorVolumeReplica) w (namespace (OldCSPC pOps))
                 (CStorPoolInstanceNameLabelKey +:+ "=" +:+ n) = OK [].
Proof.
  induction l as [|n l IH]; cbn [no_replicas]; [set_solver|].
  setoid_rewrite elem_of_cons.
  destruct (rList w _ _) as [[|c cs]|e] eqn:Hl.
  - rewrite bool_decide_true by done. cbn [negb]. rewrite IH. split; [|by auto].
    intros Hn m [->|Hm]; [done|by apply Hn].
  - split; [done|]. intros Hn. rewrite Hn in Hl; [done|by left].
  - split; [done|]. intros Hn. rewrite Hn in Hl; [done|by left].
Qed.

Lemma scaledown_safe w pOps :
  ValidateScaledown w pOps = Ret Valid →
  ∀ p, p ∈ Pools (cspc_Spec (OldCSPC pOps)) → pool_gone pOps p → pool_empty w pOps p.
Proof.
  intros Hv p Hp Hg. unfold ValidateScaledown in Hv. inv_run. split_run.
  match goal with H : removed_pools _ _ _ _ = _ |- _ => apply removed_pools_OK in H as [_ Hall] end.
  destruct (Hall p Hp Hg) as (host & cspi & rest & Hh & Hl & Hin).
  exists host, cspi, rest. split_and!; [done..|]. by eapply no_replicas_Valid.
Qed.

(** *** The update request *)

(** What an admitted change of the specification keeps. *)
Definition update_safe w ns (cspcOld cspcNew : CStorPoolCluster) : Prop :=
  let pOps := {| OldCSPC := cspcOld; NewCSPC := cspcNew |} in
  cspc_ok w ns cspcNew ∧
  (∀ p, p ∈ Pools (cspc_Spec cspcOld) → pool_gone pOps p → pool_empty w pOps p) ∧
  ∃ common, getCommonPoolSpecs w cspcNew cspcOld = Ret (OK common) ∧
    Forall2 (λ o n, o = n ∨ pool_evolves (cluster_bds (Pools (cspc_Spec cspcOld))) o n)
      (oldSpec common) (newSpec common).

Lemma cluster_pool_NoDup pools p : NoDup (cluster_bds pools) → p ∈ pools → NoDup (pool_bds p).
Proof.
  intros Hn (l1 & l2 & ->)%list_elem_of_split. unfold cluster_bds in Hn.
  rewrite bind_app, bind_cons in Hn.
  by apply NoDup_app in Hn as (_ & _ & (Hn & _)%NoDup_app).
Qed.

Lemma update_admitted ns req cspcNew w w' resp :
  req_object req = OK cspcNew →
  validateCSPCUpdateRequest ns req w = (Ret resp, w') → Allowed resp = true →
  ∃ cspcOld, rGet w (namespace cspcNew) (name cspcNew) = OK cspcOld ∧
    (NoDup (cluster_bds (Pools (cspc_Spec cspcOld))) →
     cspc_Spec cspcNew = cspc_Spec cspcOld ∨ update_safe w ns cspcOld cspcNew).
Proof.
  intros Hreq Hr Ha. unfold validateCSPCUpdateRequest in Hr. rewrite Hreq in Hr.
  apply M_bind_Ret in Hr as (old & w0 & Hold & Hr). unfold reads in Hold. simplify_eq.
  destruct (rGet w0 _ _) as [cspcOld|e] eqn:Hg; [|by unfold mret, M_ret in Hr; simplify_eq].
  exists cspcOld. split; [done|]. intros Hnd.
  case_bool_decide as Heq; [by left|right].
  apply M_bind_Ret in Hr as ([|m] & w1 & Hv & Hr); unfold lift in Hv; injection Hv as Hv <-; [|by unfold mret, M_ret in Hr; simplify_eq].
  apply M_bind_Ret in Hr as ([|m] & w2 & Hs & Hr); unfold lift in Hs; injection Hs as Hs <-; [|by unfold mret, M_ret in Hr; simplify_eq].
  apply M_bind_Ret in Hr as ([common|m] & w3 & Hc & Hr); unfold lift in Hc; injection Hc as Hc <-;
    [|by unfold mret, M_ret in Hr; simplify_eq].
  apply M_bind_Ret in Hr as ([|m] & w4 & Hd & Hr); [|by unfold mret, M_ret in Hr; simplify_eq].
  apply cspcValidation_Valid in Hv. split_and!; [done|exact (scaledown_safe _ _ Hs)|].
  exists common. split; [done|].
  destruct (common_pools_OK _ _ _ _ _ Hc) as ((os & Hos & Hos') & (ns' & Hns & Hns') & Hlen).
  destruct Hv as (_ & Hnew & _). cbn in Hos, Hns, Hlen. rewrite Hos, Hns in Hlen.
  eapply spec_changes_evolve in Hd; [exact Hd|..]; cbn in *; rewrite ?Hos, ?Hns.
  - apply Forall_forall. intros p Hp. eapply cluster_pool_NoDup; [exact Hnd|]. by apply Hos'.
  - apply Forall_forall. intros p Hp. eapply cluster_pool_NoDup; [exact Hnew|]. by apply Hns'.
  - by apply Hlen.
Qed.

(** *** Where the checks of a change do not reach *)

(** A stripe group type without groups makes the expansion check index an empty
    slice: no change of such a pool is ever accepted. *)
Lemma foldO_panic {A B} (f : B → A → outcome B) l acc :
  (∃ x, x ∈ l ∧ ∀ b, ∃ why, f b x = Panic why) → ∃ why, foldO f acc l = Panic why.
Proof.
  intros (x & Hx & Hp). revert acc. induction l as [|y l IH]; intros acc; [set_solver|].
  cbn. apply elem_of_cons in Hx as [<-|Hx].
  - destruct (Hp acc) as [why ->]. by eexists.
  - destruct (f acc y); cbn; [by apply IH|by eexists].
Qed.

Lemma stripe_cache_rejected pOps oldP newP w v w' :
  WriteCacheGroupType (ps_PoolConfig oldP) = PoolStriped → WriteCacheRaidGroups oldP = [] →
  ArePoolSpecChangesValid pOps oldP newP w = (Ret v, w') → v ≠ Valid.
Proof.
  intros Ht Hnil Hr ->. unfold ArePoolSpecChangesValid in Hr.
  destruct (negb _ || _); [done|].
  destruct (getIndexedCommonRaidGroups oldP newP) as [m|e] eqn:Hm; [|done].
  destruct (indexed_groups_OK _ _ _ Hm) as (pd & pw & _ & Hw & _). rewrite Ht, Hnil in Hw.
  inv_run. split_run. unfold validatePoolExpansion in *. inv_run.
  edestruct (foldO_panic (expansion_step newP) (go_range "validatePoolExpansion" m) [])
    as [why Hp]; [|by rewrite Hp in *].
  eexists. split; [by apply go_range_lookup, Hw|]. intros b. cbn. by eexists.
Qed.

(** When the runtime visits the data groups before the write-cache groups, the
    assignment to [bds] drops the data devices before they are validated. *)
Lemma expansion_data_dropped w pOps newP m d wc :
  go_range "validatePoolExpansion" m = [(dataRG, d); (writeCacheRG, wc)] →
  rgType d ≠ PoolStriped → rgType wc ≠ PoolStriped →
  validatePoolExpansion w pOps newP m =
  Ret (validateNewBDs w pOps
         (getBDsFromRaidGroups
            (getExpandedRaidGroups (WriteCacheRaidGroups newP) (oldRaidGroups wc)))
         (OldCSPC pOps)).
Proof.
  intros Ho Hd Hw. unfold validatePoolExpansion. rewrite Ho. cbn.
  rewrite (bool_decide_false (rgType d = PoolStriped)), (bool_decide_false (rgType wc = PoolStriped))
    by done. reflexivity.
Qed.

(** The name of the node is compared with the host name label of the node: when
    they differ the pools are not matched. *)
Definition node_renamed w (p : PoolSpec) (news : list PoolSpec) : Prop :=
  ∃ s (n : Node), getLabelSelectorString (NodeSelector p) = Ret s ∧ rList w "" s = OK [n] ∧
    Forall (λ p', ∃ h, selects w (NodeSelector p') h ∧ h ≠ name n) news.

Lemma common_pool_renamed w n op news :
  Forall (λ p', ∃ h, selects w (NodeSelector p') h ∧ h ≠ n) news →
  common_pool w (Some n) op news = Ret (OK None).
Proof.
  induction 1 as [|p' news (h & Hs & Hne) _ IH]; [done|]. cbn.
  apply GetHostName_OK in Hs as ->. cbn. by rewrite bool_decide_false.
Qed.

Lemma common_pools_renamed w olds news acc :
  Forall (λ p, node_renamed w p news) olds →
  common_pools w olds news acc = Ret (OK acc).
Proof.
  induction 1 as [|p olds (s & n & Hs & Hl & Hall) _ IH]; [done|]. cbn.
  rewrite Hs. cbn. rewrite Hl. cbn. by rewrite (common_pool_renamed _ _ _ _ Hall).
Qed.

Lemma update_renamed ns req cspcNew cspcOld w :
  req_object req = OK cspcNew → rGet w (namespace cspcNew) (name cspcNew) = OK cspcOld →
  cspc_ok w ns cspcNew →
  ValidateScaledown w {| OldCSPC := cspcOld; NewCSPC := cspcNew |} = Ret Valid →
  Forall (λ p, node_renamed w p (Pools (cspc_Spec cspcNew))) (Pools (cspc_Spec cspcOld)) →
  validateCSPCUpdateRequest ns req w = (Ret accepted, w).
Proof.
  intros Hreq Hg Hok Hs Hren. unfold validateCSPCUpdateRequest. rewrite Hreq.
  unfold mbind, M_bind, reads. rewrite Hg. case_bool_decide; [done|].
  unfold lift. rewrite (proj2 (cspcValidation_Valid w ns cspcNew) Hok), Hs.
  unfold getCommonPoolSpecs. rewrite common_pools_renamed by done. done.
Qed.
End pool_operations_facts.

(** ** Capacities *)

Lemma byteCount_loop_spec fuel b index :
  (0 ≤ index)%Z → (0 ≤ b < 2 ^ 64)%Z →
  (1 ≤ b / byte_unit ^ (index + 1) < byte_unit ^ Z.of_nat fuel)%Z →
  ∃ j, (index ≤ j)%Z ∧ (1 ≤ b / byte_unit ^ (j + 1) < byte_unit)%Z ∧
    byteCount_loop fuel (b / byte_unit ^ (index + 1)) (byte_unit ^ (index + 1)) index =
    Ret (byte_unit ^ (j + 1), j)%Z.
Proof.
  revert index. induction fuel as [|fuel IH]; intros index Hi Hb Hval; [cbn in Hval; lia|].
  cbn [byteCount_loop]. set (d := (byte_unit ^ (index + 1))%Z) in *.
  assert (0 < d)%Z as Hd by (apply Z.pow_pos_nonneg; unfold byte_unit; lia).
  assert (byte_unit ^ (index + 1 + 1) = d * byte_unit)%Z as Hd'
    by (rewrite Z.pow_add_r by lia; subst d; lia).
  destruct (Z.geb_spec (b / d) byte_unit) as [Hge|Hlt]; [|exists index; fold d; repeat split; lia].
  assert (d * byte_unit ≤ b)%Z as Hle.
  { pose proof (Z.mul_div_le b d Hd). unfold byte_unit in *. nia. }
  rewrite Z.mod_small by (unfold byte_unit in *; lia).
  rewrite Z.div_div by (unfold byte_unit; lia). rewrite <- Hd'.
  destruct (IH (index + 1)%Z) as (j & Hj & Hr & Heq); [lia|done| |exists j; split; [lia|done]].
  rewrite Hd', <- Z.div_div by (unfold byte_unit; lia).
  rewrite Nat2Z.inj_succ, Z.pow_succ_r in Hval by lia. split.
  - apply Z.div_le_lower_bound; unfold byte_unit in *; lia.
  - apply Z.div_lt_upper_bound; unfold byte_unit in *; lia.
Qed.

(** The suffix index stays inside "KMGTPE". *)
Lemma byte_index_bound b j :
  (b < 2 ^ 64)%Z → (0 ≤ j)%Z → (1 ≤ b / byte_unit ^ (j + 1))%Z → (j ≤ 5)%Z.
Proof.
  intros Hb Hj Hq. destruct (Z.le_gt_cases j 5) as [|Hgt]; [done|exfalso].
  assert (byte_unit ^ 7 ≤ byte_unit ^ (j + 1))%Z as Hp
    by (apply Z.pow_le_mono_r; unfold byte_unit; lia).
  assert (0 < byte_unit ^ (j + 1))%Z by (apply Z.pow_pos_nonneg; unfold byte_unit; lia).
  assert (b / byte_unit ^ (j + 1) = 0)%Z; [|lia].
  destruct (Z.le_gt_cases 0 b) as [H0|H0].
  - apply Z.div_small. split; [done|]. unfold byte_unit in *. lia.
  - exfalso. assert (b / byte_unit ^ (j + 1) < 0)%Z; [|lia]. apply Z.div_lt_upper_bound; lia.
Qed.

Lemma ByteCount_value b :
  (0 ≤ b < 2 ^ 64)%Z →
  if decide (b < byte_unit)%Z then ByteCount b = Ret (pretty b +:+ "B")
  else ∃ j c, bytes "KMGTPE" !! j = Some c ∧
    ByteCount b = Ret (pretty (b / byte_unit ^ (Z.of_nat j + 1))%Z +:+ String c "") ∧
    (1 ≤ b / byte_unit ^ (Z.of_nat j + 1) < byte_unit)%Z.
Proof.
  intros Hb. unfold ByteCount. case_decide as Hs.
  - by rewrite (proj2 (Z.ltb_lt _ _) Hs).
  - rewrite (proj2 (Z.ltb_ge _ _)) by lia.
    destruct (byteCount_loop_spec 8 b 0) as (j & Hj & Hr & Heq); [lia|done|..].
    { rewrite Z.pow_1_r. split.
      - apply Z.div_le_lower_bound; unfold byte_unit in *; lia.
      - apply Z.div_lt_upper_bound; unfold byte_unit in *; lia. }
    rewrite Z.pow_1_r in Heq. rewrite Heq. cbn [mbind outcome_bind].
    pose proof (byte_index_bound b j) as Hj5.
    destruct (lookup_lt_is_Some_2 (bytes "KMGTPE") (Z.to_nat j)) as [c Hc]; [cbn; lia|].
    exists (Z.to_nat j), c. rewrite Hc, Z2Nat.id by lia. split_and!; done || lia.
Qed.
