(* ===== verification/VolumeApi.v ===== *)
(** * VolumeApi: the objects of volumes and the helpers that act on them

    The volume objects of github.com/openebs/api and of Kubernetes, for the fields
    the program reads or writes, and, as in [Api], the helpers of other packages
    as classes: [VolumeApi] for openebs/api and for the hash and patch libraries,
    [VolumeApiLaws] for what is used of it. *)

From stdpp Require Import base gmap strings list sets.
From Stdlib Require Import Ascii ZArith Lia.
From S2P Require Import Prelude Api.

(** ** Volume policies *)

Record TargetSpec := {
  tgt_QueueDepth : string;
  tgt_IOWorkers : Z;
  tgt_Resources : option ResourceRequirements;
  tgt_AuxResources : option ResourceRequirements;
  tgt_Tolerations : list Toleration;
  tgt_PodAffinity : option PodAffinity;
  tgt_NodeSelector : gmap string string;
  tgt_PriorityClassName : string;
}.

(** cstor.CStorVolumePolicySpec; [ReplicaPoolInfo] is the list of its pool names. *)
Record CStorVolumePolicySpec := {
  pol_ReplicaAffinity : bool;
  pol_Target : TargetSpec;
  pol_Replica_IOWorkers : string;
  pol_ReplicaPoolInfo : list string;
}.

Record CStorVolumePolicy := { policy_meta : ObjectMeta; policy_Spec : CStorVolumePolicySpec }.

(** ** Volume configurations *)

Record CStorVolumeConfigCondition := { cvcc_Type : string; cvcc_LastTransitionTime : Z }.

(** cstor.CStorVolumeConfig.  A capacity is the [corev1.ResourceStorage] entry of a
    resource list, in bytes, and the zero quantity when it is absent. *)
Record CStorVolumeConfig := {
  cvc_meta : ObjectMeta;
  cvc_Capacity : Z;
  cvc_CStorVolumeRef : option string;
  cvc_CStorVolumeSource : string;
  cvc_Provision_Capacity : Z;
  cvc_Provision_ReplicaCount : Z;
  cvc_Policy : CStorVolumePolicySpec;
  cvc_Publish_NodeID : string;
  cvc_Status_Phase : string;
  cvc_Status_PoolInfo : list string;
  cvc_Status_Capacity : Z;
  cvc_Status_Conditions : list CStorVolumeConfigCondition;
  cvc_VersionDetails : VersionDetails;
}.

Definition cvc_Policy_ReplicaPoolInfo (c : CStorVolumeConfig) : list string :=
  pol_ReplicaPoolInfo (cvc_Policy c).

(** cstor.CStorVolumeCondition, cstor.ReplicaStatus and cstor.CVStatus, the report of the
    target on a volume. *)
Record CStorVolumeCondition := {
  cvcond_Type : string;
  cvcond_Status : string;
  cvcond_LastTransitionTime : Z;
  cvcond_Reason : string;
  cvcond_Message : string;
}.
Record ReplicaStatus := { rep_ID : string; rep_Mode : string }.
Record CVStatus := { cvst_Name : string; cvst_Status : string; cvst_ReplicaStatuses : list ReplicaStatus }.

(** The fields of the status of a volume besides its capacity and its known replicas. *)
Record CVState := {
  cvs_Phase : string;
  cvs_ReplicaStatuses : list ReplicaStatus;
  cvs_Conditions : list CStorVolumeCondition;
  cvs_LastUpdateTime : Z;
  cvs_LastTransitionTime : Z;
}.

(** cstor.CStorVolume; the factors are of type int. *)
Record CStorVolume := {
  cv_meta : ObjectMeta;
  cv_Capacity : Z;
  cv_TargetIP : string;
  cv_TargetPort : string;
  cv_Iqn : string;
  cv_TargetPortal : string;
  cv_ReplicationFactor : Z;
  cv_DesiredReplicationFactor : Z;
  cv_ConsistencyFactor : Z;
  cv_KnownReplicas : gmap string string;
  cv_Status_Capacity : Z;
  cv_Status_KnownReplicas : gmap string string;
  cv_State : CVState;
  cv_VersionDetails : VersionDetails;
}.

(** ** Kubernetes objects *)

Record PersistentVolumeClaim := { pvc_meta : ObjectMeta; pvc_VolumeName : string }.

(** admissionregistration/v1: the rules of a webhook, and where it is served. *)
Record RuleWithOperations := {
  rule_Operations : list string;
  rule_APIGroups : list string;
  rule_APIVersions : list string;
  rule_Resources : list string;
}.
Record ValidatingWebhook := {
  wh_Name : string;
  wh_Rules : list RuleWithOperations;
  wh_ServiceNamespace : string;
  wh_ServiceName : string;
  wh_ServicePath : string;
  wh_CABundle : string;
  wh_SideEffects : string;
  wh_AdmissionReviewVersions : list string;
  wh_TimeoutSeconds : Z;
  wh_FailurePolicy : string;
}.
Record ValidatingWebhookConfiguration := {
  vwc_meta : ObjectMeta;
  vwc_Webhooks : list ValidatingWebhook;
}.

Record ServicePort := { sp_Name : string; sp_Port : Z; sp_Protocol : string; sp_TargetPort : Z }.
Record Service := {
  svc_meta : ObjectMeta;
  svc_Selectors : gmap string string;
  svc_Ports : list ServicePort;
  svc_ClusterIP : string;
}.

Record LabelSelectorRequirement := { lsr_Key : string; lsr_Operator : string; lsr_Values : list string }.
(** policy/v1.PodDisruptionBudget: the API server makes the name from [GenerateName]. *)
Record PodDisruptionBudget := {
  pdb_meta : ObjectMeta;
  pdb_GenerateName : string;
  pdb_MaxUnavailable : Z;
  pdb_MatchLabels : gmap string string;
  pdb_MatchExpressions : list LabelSelectorRequirement;
}.

(** ** Assignments *)

Definition cvc_with_meta (m : ObjectMeta) (c : CStorVolumeConfig) : CStorVolumeConfig :=
  {| cvc_meta := m; cvc_Capacity := cvc_Capacity c; cvc_CStorVolumeRef := cvc_CStorVolumeRef c;
     cvc_CStorVolumeSource := cvc_CStorVolumeSource c;
     cvc_Provision_Capacity := cvc_Provision_Capacity c;
     cvc_Provision_ReplicaCount := cvc_Provision_ReplicaCount c; cvc_Policy := cvc_Policy c;
     cvc_Publish_NodeID := cvc_Publish_NodeID c; cvc_Status_Phase := cvc_Status_Phase c;
     cvc_Status_PoolInfo := cvc_Status_PoolInfo c; cvc_Status_Capacity := cvc_Status_Capacity c;
     cvc_Status_Conditions := cvc_Status_Conditions c;
     cvc_VersionDetails := cvc_VersionDetails c |}.
Definition cvc_with_spec (ref : option string) (pol : CStorVolumePolicySpec)
  (c : CStorVolumeConfig) : CStorVolumeConfig :=
  {| cvc_meta := cvc_meta c; cvc_Capacity := cvc_Capacity c; cvc_CStorVolumeRef := ref;
     cvc_CStorVolumeSource := cvc_CStorVolumeSource c;
     cvc_Provision_Capacity := cvc_Provision_Capacity c;
     cvc_Provision_ReplicaCount := cvc_Provision_ReplicaCount c; cvc_Policy := pol;
     cvc_Publish_NodeID := cvc_Publish_NodeID c; cvc_Status_Phase := cvc_Status_Phase c;
     cvc_Status_PoolInfo := cvc_Status_PoolInfo c; cvc_Status_Capacity := cvc_Status_Capacity c;
     cvc_Status_Conditions := cvc_Status_Conditions c;
     cvc_VersionDetails := cvc_VersionDetails c |}.
Definition cvc_with_status (phase : string) (pools : list string) (cap : Z)
  (conds : list CStorVolumeConfigCondition) (c : CStorVolumeConfig) : CStorVolumeConfig :=
  {| cvc_meta := cvc_meta c; cvc_Capacity := cvc_Capacity c;
     cvc_CStorVolumeRef := cvc_CStorVolumeRef c;
     cvc_CStorVolumeSource := cvc_CStorVolumeSource c;
     cvc_Provision_Capacity := cvc_Provision_Capacity c;
     cvc_Provision_ReplicaCount := cvc_Provision_ReplicaCount c; cvc_Policy := cvc_Policy c;
     cvc_Publish_NodeID := cvc_Publish_NodeID c; cvc_Status_Phase := phase;
     cvc_Status_PoolInfo := pools; cvc_Status_Capacity := cap; cvc_Status_Conditions := conds;
     cvc_VersionDetails := cvc_VersionDetails c |}.
Definition cvc_with_version (v : VersionDetails) (c : CStorVolumeConfig) : CStorVolumeConfig :=
  {| cvc_meta := cvc_meta c; cvc_Capacity := cvc_Capacity c;
     cvc_CStorVolumeRef := cvc_CStorVolumeRef c;
     cvc_CStorVolumeSource := cvc_CStorVolumeSource c;
     cvc_Provision_Capacity := cvc_Provision_Capacity c;
     cvc_Provision_ReplicaCount := cvc_Provision_ReplicaCount c; cvc_Policy := cvc_Policy c;
     cvc_Publish_NodeID := cvc_Publish_NodeID c; cvc_Status_Phase := cvc_Status_Phase c;
     cvc_Status_PoolInfo := cvc_Status_PoolInfo c; cvc_Status_Capacity := cvc_Status_Capacity c;
     cvc_Status_Conditions := cvc_Status_Conditions c; cvc_VersionDetails := v |}.
Definition cvc_with_labels (l : gmap string string) (c : CStorVolumeConfig) : CStorVolumeConfig :=
  cvc_with_meta (meta_with_labels l (cvc_meta c)) c.
Definition cvc_with_pools (pools : list string) (c : CStorVolumeConfig) : CStorVolumeConfig :=
  cvc_with_status (cvc_Status_Phase c) pools (cvc_Status_Capacity c) (cvc_Status_Conditions c) c.
Definition pol_with_pools (pools : list string) (p : CStorVolumePolicySpec) : CStorVolumePolicySpec :=
  {| pol_ReplicaAffinity := pol_ReplicaAffinity p; pol_Target := pol_Target p;
     pol_Replica_IOWorkers := pol_Replica_IOWorkers p; pol_ReplicaPoolInfo := pools |}.
Definition cvc_with_desired (pools : list string) (c : CStorVolumeConfig) : CStorVolumeConfig :=
  cvc_with_spec (cvc_CStorVolumeRef c) (pol_with_pools pools (cvc_Policy c)) c.

Definition cv_with_meta (m : ObjectMeta) (c : CStorVolume) : CStorVolume :=
  {| cv_meta := m; cv_Capacity := cv_Capacity c; cv_TargetIP := cv_TargetIP c;
     cv_TargetPort := cv_TargetPort c; cv_Iqn := cv_Iqn c; cv_TargetPortal := cv_TargetPortal c;
     cv_ReplicationFactor := cv_ReplicationFactor c;
     cv_DesiredReplicationFactor := cv_DesiredReplicationFactor c;
     cv_ConsistencyFactor := cv_ConsistencyFactor c; cv_KnownReplicas := cv_KnownReplicas c;
     cv_Status_Capacity := cv_Status_Capacity c;
     cv_Status_KnownReplicas := cv_Status_KnownReplicas c; cv_State := cv_State c;
     cv_VersionDetails := cv_VersionDetails c |}.
Definition cv_with_desired (drf : Z) (known : gmap string string) (c : CStorVolume) : CStorVolume :=
  {| cv_meta := cv_meta c; cv_Capacity := cv_Capacity c; cv_TargetIP := cv_TargetIP c;
     cv_TargetPort := cv_TargetPort c; cv_Iqn := cv_Iqn c; cv_TargetPortal := cv_TargetPortal c;
     cv_ReplicationFactor := cv_ReplicationFactor c; cv_DesiredReplicationFactor := drf;
     cv_ConsistencyFactor := cv_ConsistencyFactor c; cv_KnownReplicas := known;
     cv_Status_Capacity := cv_Status_Capacity c;
     cv_Status_KnownReplicas := cv_Status_KnownReplicas c; cv_State := cv_State c;
     cv_VersionDetails := cv_VersionDetails c |}.
Definition cv_with_capacity (cap : Z) (c : CStorVolume) : CStorVolume :=
  {| cv_meta := cv_meta c; cv_Capacity := cap; cv_TargetIP := cv_TargetIP c;
     cv_TargetPort := cv_TargetPort c; cv_Iqn := cv_Iqn c; cv_TargetPortal := cv_TargetPortal c;
     cv_ReplicationFactor := cv_ReplicationFactor c;
     cv_DesiredReplicationFactor := cv_DesiredReplicationFactor c;
     cv_ConsistencyFactor := cv_ConsistencyFactor c; cv_KnownReplicas := cv_KnownReplicas c;
     cv_Status_Capacity := cv_Status_Capacity c;
     cv_Status_KnownReplicas := cv_Status_KnownReplicas c; cv_State := cv_State c;
     cv_VersionDetails := cv_VersionDetails c |}.

Definition cv_new_state : CVState :=
  {| cvs_Phase := ""; cvs_ReplicaStatuses := []; cvs_Conditions := []; cvs_LastUpdateTime := 0;
     cvs_LastTransitionTime := 0 |}.

#[export] Instance cvcond_eq_dec : EqDecision CStorVolumeCondition.
Proof. solve_decision. Defined.
#[export] Instance rep_eq_dec : EqDecision ReplicaStatus.
Proof. solve_decision. Defined.
#[export] Instance cvstate_eq_dec : EqDecision CVState.
Proof. solve_decision. Defined.

#[export] Instance cvc_HasMeta : HasMeta CStorVolumeConfig :=
  {| meta := cvc_meta; with_meta := cvc_with_meta |}.
#[export] Instance cv_HasMeta : HasMeta CStorVolume := {| meta := cv_meta; with_meta := cv_with_meta |}.
#[export] Instance policy_HasMeta : HasMeta CStorVolumePolicy :=
  {| meta := policy_meta; with_meta m p := {| policy_meta := m; policy_Spec := policy_Spec p |} |}.
#[export] Instance pvc_HasMeta : HasMeta PersistentVolumeClaim :=
  {| meta := pvc_meta;
     with_meta m c := {| pvc_meta := m; pvc_VolumeName := pvc_VolumeName c |} |}.
#[export] Instance vwc_HasMeta : HasMeta ValidatingWebhookConfiguration :=
  {| meta := vwc_meta; with_meta m c := {| vwc_meta := m; vwc_Webhooks := vwc_Webhooks c |} |}.
#[export] Instance svc_HasMeta : HasMeta Service :=
  {| meta := svc_meta;
     with_meta m s := {| svc_meta := m; svc_Selectors := svc_Selectors s;
       svc_Ports := svc_Ports s; svc_ClusterIP := svc_ClusterIP s |} |}.
#[export] Instance pdb_HasMeta : HasMeta PodDisruptionBudget :=
  {| meta := pdb_meta;
     with_meta m p := {| pdb_meta := m; pdb_GenerateName := pdb_GenerateName p;
       pdb_MaxUnavailable := pdb_MaxUnavailable p; pdb_MatchLabels := pdb_MatchLabels p;
       pdb_MatchExpressions := pdb_MatchExpressions p |} |}.

(** The replica that [cvr, err := client.Get(...)] leaves in [cvr] with an error. *)
Definition cvr_zero : CStorVolumeReplica :=
  {| cvr_meta := meta_empty; cvr_TargetIP := ""; cvr_Capacity := ""; cvr_ZvolWorkers := "";
     cvr_ReplicaID := ""; cvr_Status := cvr_status_of "";
     cvr_VersionDetails := {| AutoUpgrade := false; Desired := "";
       vd_Status := {| DependentsUpgraded := false; Current := ""; State := VersionStateNone;
                       Message := ""; Reason := "" |} |} |}.

(** ** Helpers and constants of other packages *)

(** The arguments of the builder chain [NewService().WithName(..)...] *)
Record service_args := {
  sa_name : string;
  sa_labels : gmap string string;
  sa_owners : list OwnerReference;
  sa_selectors : gmap string string;
  sa_ports : list ServicePort;
}.

(** The arguments of the builder chain [NewCStorVolume().WithName(..)...] *)
Record cv_args := {
  va_name : string;
  va_labels : gmap string string;
  va_owners : list OwnerReference;
  va_targetIP : string;
  va_capacity : string;
  va_iqn : string;
  va_portal : string;
  va_port : string;
  va_replicationFactor : Z;
  va_desiredReplicationFactor : Z;
  va_consistencyFactor : Z;
  va_version : string;
}.

(** The arguments of the builder chain [NewCStorVolumeReplica().WithName(..)...] *)
Record cvr_args := {
  ra_name : string;
  ra_labels : gmap string string;
  ra_annotations : gmap string string;
  ra_owners : list OwnerReference;
  ra_finalizer : string;
  ra_targetIP : string;
  ra_replicaID : string;
  ra_capacity : string;
  ra_workers : string;
  ra_version : string;
  ra_phase : string;
}.

(** One operation of a JSON patch (the type Patch of controller.go). *)
Record Patch := { Op : string; Path : string; Value : string }.

Class VolumeApi := {
  (** pkg/apis/types, pkg/apis/cstor/v1 and pkg/util *)
  CStorVolumeConfigPhasePending : string;
  CStorVolumeConfigPhaseBound : string;
  CStorVolumeConfigResizing : string;
  CStorVolumeConfigResizePending : string;
  CStorVolumeConfigResizeFailed : string;
  CStorVolumeConfigResizeSuccess : string;
  CStorVolumeReplicaFinalizer : string;
  CVRStatusEmpty : string;
  CVRStatusRecreate : string;
  CStorPoolStatusOffline : string;
  SourceVolumeKey : string;
  SnapshotNameKey : string;
  CloneEnableKEY : string;
  TargetPort : string;
  PodDisruptionBudgetKey : string;
  PersistentVolumeLabelKey : string;
  VolumePolicyKey : string;
  OpenEBSNamespace : string;
  GetDesiredReplicaPoolNames : CStorVolumeConfig → list string;
  GetPoolNames : list CStorVolumeReplica → list string;
  IsScaleDownInProgress : CStorVolume → bool;
  ListDiff : list string → list string → list string;
  IsChangeInLists : list string → list string → bool;
  build_service : service_args → Service;
  build_cv : cv_args → CStorVolume;
  build_cvr : cvr_args → CStorVolumeReplica;
  cvc_WithLabels : gmap string string → CStorVolumeConfig → CStorVolumeConfig;
  (** metav1.NewControllerRef, client-go/tools/reference.GetReference and
      resource.Quantity.String *)
  cvc_ControllerRef : CStorVolumeConfig → OwnerReference;
  cv_ControllerRef : CStorVolume → OwnerReference;
  GetReference : CStorVolume → result string;
  Quantity_String : Z → string;
  (** encoding/json, strategicpatch.CreateTwoWayMergePatch, xxhash.Sum64, the text of
      go-spew and hash/fnv's 32-bit sum *)
  json_Marshal_string : string → result string;
  json_Marshal_patch : list Patch → result string;
  json_Marshal_cvc : CStorVolumeConfig → result string;
  json_Marshal_cv : CStorVolume → result string;
  CreateMergePatch : string → string → result string;
  xxhash_Sum64 : string → Z;
  spew_policy : CStorVolumePolicySpec → string;
  fnv_Sum32 : string → Z;
  (** math/rand.Perm of a source with the given seed *)
  rand_Perm : Z → nat → list nat;
}.

(** What the program relies on: the pools of the policy; the elements of the first
    list that are not in the second; whether one list has an element that the other
    has not; the fields that the builders set; that rand.Perm is a permutation. *)
Class VolumeApiLaws `{VolumeApi} : Prop := {
  desired_pool_names : ∀ c, GetDesiredReplicaPoolNames c = cvc_Policy_ReplicaPoolInfo c;
  ListDiff_spec : ∀ l1 l2, ListDiff l1 l2 = filter (λ x, x ∉ l2) l1;
  IsChangeInLists_spec : ∀ l1 l2, IsChangeInLists l1 l2 = false ↔ ∀ x, x ∈ l1 ↔ x ∈ l2;
  build_cv_name : ∀ a, name (build_cv a) = va_name a;
  build_cv_factors : ∀ a, cv_ReplicationFactor (build_cv a) = va_replicationFactor a ∧
    cv_DesiredReplicationFactor (build_cv a) = va_desiredReplicationFactor a ∧
    cv_ConsistencyFactor (build_cv a) = va_consistencyFactor a;
  build_cvr_name : ∀ a, name (build_cvr a) = ra_name a;
  build_cvr_labels : ∀ a, labels (build_cvr a) = ra_labels a;
  build_cvr_fields : ∀ a, cvr_ReplicaID (build_cvr a) = ra_replicaID a ∧
    cvr_Phase (build_cvr a) = ra_phase a;
  CloneEnableKEY_fresh : CloneEnableKEY ≠ "cstorpoolinstance.openebs.io/name" ∧
    CloneEnableKEY ≠ "openebs.io/persistent-volume";
  cvc_WithLabels_spec : ∀ l c, cvc_WithLabels l c = cvc_with_labels (l ∪ labels c) c;
  rand_Perm_spec : ∀ seed n, rand_Perm seed n ≡ₚ seq 0 n;
}.

(** ** Patches of one kind of object

    The third argument is the type of the patch, the fourth its bytes. *)
Class PatchClient (W Obj : Type) := {
  rPatchObject : string → string → string → string → W → result Obj * W;
}.
