(* ===== verification/VolumeMemory.v ===== *)
(** * VolumeMemory: volumes in the in-memory cluster

    The cluster of [Memory] with volume configurations, volumes, services, disruption
    budgets, policies and claims, and an instance of [VolumeApi]; used to run the volume
    controller on small clusters.  An object is marshalled to the one field that the
    merge patches of the program change. *)

From stdpp Require Import base gmap strings list sets pretty.
From Stdlib Require Import Ascii ZArith Lia.
From S2P Require Import Prelude Api Memory VolumeApi.

(** ** The store *)

Record volume_cluster := {
  vc_base : cluster;
  vc_cvcs : gmap (string * string) CStorVolumeConfig;
  vc_cvs : gmap (string * string) CStorVolume;
  vc_svcs : gmap (string * string) Service;
  vc_pdbs : gmap (string * string) PodDisruptionBudget;
  vc_policies : gmap (string * string) CStorVolumePolicy;
  vc_pvcs : gmap (string * string) PersistentVolumeClaim;
}.

Definition with_base (b : cluster) (c : volume_cluster) : volume_cluster :=
  {| vc_base := b; vc_cvcs := vc_cvcs c; vc_cvs := vc_cvs c; vc_svcs := vc_svcs c;
     vc_pdbs := vc_pdbs c; vc_policies := vc_policies c; vc_pvcs := vc_pvcs c |}.

#[export] Instance stored_base {Obj} `{!Stored cluster Obj} : Stored volume_cluster Obj :=
  {| store_of c := store_of (vc_base c);
     with_store m c := with_base (with_store m (vc_base c)) c |}.
#[export] Instance stored_cvcs : Stored volume_cluster CStorVolumeConfig :=
  {| store_of := vc_cvcs;
     with_store m c := {| vc_base := vc_base c; vc_cvcs := m; vc_cvs := vc_cvs c;
       vc_svcs := vc_svcs c; vc_pdbs := vc_pdbs c; vc_policies := vc_policies c;
       vc_pvcs := vc_pvcs c |} |}.
#[export] Instance stored_cvs : Stored volume_cluster CStorVolume :=
  {| store_of := vc_cvs;
     with_store m c := {| vc_base := vc_base c; vc_cvcs := vc_cvcs c; vc_cvs := m;
       vc_svcs := vc_svcs c; vc_pdbs := vc_pdbs c; vc_policies := vc_policies c;
       vc_pvcs := vc_pvcs c |} |}.
#[export] Instance stored_svcs : Stored volume_cluster Service :=
  {| store_of := vc_svcs;
     with_store m c := {| vc_base := vc_base c; vc_cvcs := vc_cvcs c; vc_cvs := vc_cvs c;
       vc_svcs := m; vc_pdbs := vc_pdbs c; vc_policies := vc_policies c;
       vc_pvcs := vc_pvcs c |} |}.
#[export] Instance stored_pdbs : Stored volume_cluster PodDisruptionBudget :=
  {| store_of := vc_pdbs;
     with_store m c := {| vc_base := vc_base c; vc_cvcs := vc_cvcs c; vc_cvs := vc_cvs c;
       vc_svcs := vc_svcs c; vc_pdbs := m; vc_policies := vc_policies c;
       vc_pvcs := vc_pvcs c |} |}.
#[export] Instance stored_policies : Stored volume_cluster CStorVolumePolicy :=
  {| store_of := vc_policies;
     with_store m c := {| vc_base := vc_base c; vc_cvcs := vc_cvcs c; vc_cvs := vc_cvs c;
       vc_svcs := vc_svcs c; vc_pdbs := vc_pdbs c; vc_policies := m;
       vc_pvcs := vc_pvcs c |} |}.
#[export] Instance stored_pvcs : Stored volume_cluster PersistentVolumeClaim :=
  {| store_of := vc_pvcs;
     with_store m c := {| vc_base := vc_base c; vc_cvcs := vc_cvcs c; vc_cvs := vc_cvs c;
       vc_svcs := vc_svcs c; vc_pdbs := vc_pdbs c; vc_policies := vc_policies c;
       vc_pvcs := m |} |}.

#[export] Instance volume_env : Env volume_cluster := {|
  rand_String n c := let '(s, b) := rand_String n (vc_base c) in (s, with_base b c);
  Now c := Now (vc_base c);
  Event e c := with_base (Event e (vc_base c)) c;
  rPatch ns n bytes c := let '(r, b) := rPatch ns n bytes (vc_base c) in (r, with_base b c);
|}.

(** ** Patches: the capacity of a volume, and the capacity in the status of a
    configuration; the removal of the finalizers is the one JSON patch *)

Definition apply_patch {Obj} `{HasMeta Obj} `{!Stored volume_cluster Obj} (f : Obj → result Obj)
  (ns n : string) (c : volume_cluster) : result Obj * volume_cluster :=
  match store_of (Obj:=Obj) c !! (ns, n) with
  | None => (Err (APIError NotFound n), c)
  | Some o =>
      match f o with
      | Err e => (Err e, c)
      | OK o' => (OK o', with_store (<[(ns, n) := o']> (store_of c)) c)
      end
  end.

#[export] Instance cv_patches : PatchClient volume_cluster CStorVolume :=
  {| rPatchObject ns n _ bytes :=
       apply_patch (λ cv, match parse_quantity bytes with
                          | OK cap => OK (cv_with_capacity cap cv)
                          | Err e => Err e
                          end) ns n |}.
#[export] Instance cvc_patches : PatchClient volume_cluster CStorVolumeConfig :=
  {| rPatchObject ns n ty bytes :=
       apply_patch (λ c, if bool_decide (ty = "application/json-patch+json")
                         then OK (cvc_with_meta (meta_with_finalizers [] (cvc_meta c)) c)
                         else match parse_quantity bytes with
                              | OK cap => OK (cvc_with_status (cvc_Status_Phase c)
                                  (cvc_Status_PoolInfo c) cap (cvc_Status_Conditions c) c)
                              | Err e => Err e
                              end) ns n |}.

(** ** A reference implementation of the helpers *)

Definition meta_built (n : string) (l a : gmap string string) (fin : list string)
  (owners : list OwnerReference) : ObjectMeta :=
  {| om_name := n; om_namespace := ""; om_uid := ""; om_resourceVersion := ""; om_labels := l;
     om_annotations := a; om_finalizers := fin; om_owners := owners; om_deletion := None |}.

#[export] Instance ref_volume_api : VolumeApi := {|
  CStorVolumeConfigPhasePending := "Pending";
  CStorVolumeConfigPhaseBound := "Bound";
  CStorVolumeConfigResizing := "Resizing";
  CStorVolumeConfigResizePending := "ResizePending";
  CStorVolumeConfigResizeFailed := "ResizeFailed";
  CStorVolumeConfigResizeSuccess := "ResizeSuccess";
  CStorVolumeReplicaFinalizer := "cstorvolumereplica.openebs.io/finalizer";
  CVRStatusEmpty := "";
  CVRStatusRecreate := "Recreate";
  CStorPoolStatusOffline := "OFFLINE";
  SourceVolumeKey := "openebs.io/source-volume";
  SnapshotNameKey := "openebs.io/snapshot";
  CloneEnableKEY := "openebs.io/cloned";
  TargetPort := "3260";
  PodDisruptionBudgetKey := "openebs.io/pod-disruption-budget";
  PersistentVolumeLabelKey := "openebs.io/persistent-volume";
  VolumePolicyKey := "openebs.io/volume-policy";
  OpenEBSNamespace := "OPENEBS_NAMESPACE";
  GetDesiredReplicaPoolNames := cvc_Policy_ReplicaPoolInfo;
  GetPoolNames := fmap (λ r, label (labels r) "cstorpoolinstance.openebs.io/name");
  IsScaleDownInProgress cv :=
    (cv_DesiredReplicationFactor cv <? Z.of_nat (size (cv_Status_KnownReplicas cv)))%Z;
  ListDiff l1 l2 := filter (λ x, x ∉ l2) l1;
  IsChangeInLists l1 l2 :=
    negb (forallb (λ x, bool_decide (x ∈ l2)) l1 && forallb (λ x, bool_decide (x ∈ l1)) l2);
  build_service a :=
    {| svc_meta := meta_built (sa_name a) (sa_labels a) ∅ [] (sa_owners a);
       svc_Selectors := sa_selectors a; svc_Ports := sa_ports a; svc_ClusterIP := "10.0.0.1" |};
  build_cv a :=
    {| cv_meta := meta_built (va_name a) (va_labels a) ∅ [] (va_owners a);
       cv_Capacity := match parse_quantity (va_capacity a) with OK q => q | Err _ => 0 end;
       cv_TargetIP := va_targetIP a; cv_TargetPort := va_port a; cv_Iqn := va_iqn a;
       cv_TargetPortal := va_portal a; cv_ReplicationFactor := va_replicationFactor a;
       cv_DesiredReplicationFactor := va_desiredReplicationFactor a;
       cv_ConsistencyFactor := va_consistencyFactor a; cv_KnownReplicas := ∅;
       cv_Status_Capacity := 0; cv_Status_KnownReplicas := ∅; cv_State := cv_new_state;
       cv_VersionDetails := version_at (va_version a) |};
  build_cvr a :=
    {| cvr_meta := meta_built (ra_name a) (ra_labels a) (ra_annotations a) [ra_finalizer a]
                     (ra_owners a);
       cvr_TargetIP := ra_targetIP a; cvr_Capacity := ra_capacity a;
       cvr_ZvolWorkers := ra_workers a; cvr_ReplicaID := ra_replicaID a; cvr_Status := cvr_status_of (ra_phase a);
       cvr_VersionDetails := version_at (ra_version a) |};
  cvc_WithLabels l c := cvc_with_labels (l ∪ labels c) c;
  cvc_ControllerRef c := ref_owner "CStorVolumeConfig" (meta c);
  cv_ControllerRef c := ref_owner "CStorVolume" (meta c);
  GetReference cv := OK (name cv);
  Quantity_String q := pretty q;
  json_Marshal_string s := OK s;
  json_Marshal_patch _ := OK "";
  json_Marshal_cvc c := OK (pretty (cvc_Status_Capacity c));
  json_Marshal_cv c := OK (pretty (cv_Capacity c));
  CreateMergePatch _ modified := OK modified;
  xxhash_Sum64 s := Z.of_nat (String.length s);
  spew_policy p := pol_Replica_IOWorkers p;
  fnv_Sum32 s := Z.of_nat (String.length s);
  rand_Perm _ n := seq 0 n;
|}.

#[export] Instance ref_volume_api_laws : VolumeApiLaws.
Proof.
  split; intros; cbn; try done.
  split.
  - rewrite negb_false_iff, andb_true_iff, !forallb_forall. setoid_rewrite bool_decide_eq_true.
    intros [Ha Hb] x. split; [intros Hx; apply Ha|intros Hx; apply Hb]; by apply list_elem_of_In.
  - intros Hx. rewrite negb_false_iff, andb_true_iff, !forallb_forall.
    setoid_rewrite bool_decide_eq_true. split; intros x Hin; apply Hx; by apply list_elem_of_In.
Qed.
