(* ===== verification/VolumeWebhook.v ===== *)
(** * VolumeWebhook: admission of volumes and namespaces
      (pkg/webhook/cvc.go, pvc.go, namespace.go and the dispatch of webhook.go)

    An update of a CStorVolumeConfig may add pools to a volume or remove one of
    them; a persistent volume claim with clones may not be deleted; deleting the
    namespace of the operators removes the webhook configuration. *)

From stdpp Require Import base gmap strings list sets.
From Stdlib Require Import Ascii ZArith Lia.
From S2P Require Import Prelude Api VolumeApi Webhook PoolOps.

(** ** pkg/webhook/cvc.go *)

(** The loop of IsUniqueList; [listMap] are the names seen so far. *)
Fixpoint unique_from (listMap : gset string) (list : list string) : bool :=
  match list with
  | [] => true
  | str :: list' => if has listMap str then false else unique_from ({[str]} ∪ listMap) list'
  end.

Definition IsUniqueList (list : list string) : bool := unique_from ∅ list.

Definition isScalingInProgress (cvcObj : CStorVolumeConfig) : bool :=
  negb (bool_decide (length (cvc_Policy_ReplicaPoolInfo cvcObj) =
                     length (cvc_Status_PoolInfo cvcObj))).

Definition validateReplicaCount (cvcOldObj cvcNewObj : CStorVolumeConfig) : result unit :=
  if negb (cvc_Provision_ReplicaCount cvcOldObj =? cvc_Provision_ReplicaCount cvcNewObj)%Z then
    Err (Errorf "cvc %s replicaCount got modified from %d to %d" [name cvcOldObj])
  else OK tt.

Definition validateProvisionedCapacity (cvcOldObj cvcNewObj : CStorVolumeConfig) : result unit :=
  if negb (cvc_Provision_Capacity cvcNewObj =? cvc_Provision_Capacity cvcOldObj)%Z then
    Err (Errorf "cvc initial provisioned capacity `Spec.Provision.Capacity` is immutable, can't be modified " [])
  else OK tt.

Definition validateReplicaScaling (cvcOldObj cvcNewObj : CStorVolumeConfig) : result unit :=
  if isScalingInProgress cvcOldObj then
    if negb (bool_decide (length (cvc_Policy_ReplicaPoolInfo cvcOldObj) =
                          length (cvc_Policy_ReplicaPoolInfo cvcNewObj)))
    then Err (Errorf "scaling of CVC %s is already in progress" [name cvcOldObj])
    else OK tt
  else OK tt.

Section volume_webhook.
Context {W : Type} `{VolumeApi} `{PodEnv} `{OpenebsApi} `{GoRuntime}.
Context `{!ResourceClient W CStorVolumeConfig} `{!ResourceClient W CStorVolume}
  `{!ResourceClient W PersistentVolumeClaim} `{!ResourceClient W ValidatingWebhookConfiguration}
  `{!ResourceClient W Node} `{!ResourceClient W BlockDevice}
  `{!ResourceClient W BlockDeviceClaim} `{!ResourceClient W CStorPoolInstance}
  `{!ResourceClient W CStorPoolCluster} `{!ResourceClient W CStorVolumeReplica}.

Definition validatePoolListChanges (cvcOldObj cvcNewObj : CStorVolumeConfig) : result unit :=
  let oldCurrentPoolNames := cvc_Status_PoolInfo cvcOldObj in
  let newDesiredPoolNames := GetDesiredReplicaPoolNames cvcNewObj in
  let modifiedPoolNames := ListDiff oldCurrentPoolNames newDesiredPoolNames in
  if negb (bool_decide (cvc_Status_Phase cvcOldObj = CStorVolumeConfigPhaseBound)) &&
     (negb (bool_decide (cvc_Status_Phase cvcNewObj = CStorVolumeConfigPhaseBound)) &&
      negb (bool_decide (length oldCurrentPoolNames = length newDesiredPoolNames)))
  then Err (Errorf "Can't perform scaling of volume replicas when CVC is not in %s state"
              [CStorVolumeConfigPhaseBound])
  else if bool_decide (length oldCurrentPoolNames ≤ length newDesiredPoolNames) then
    if bool_decide (0 < length modifiedPoolNames)
    then Err (Errorf "volume replica migration directly by modifying pool names %v is not yet supported"
                modifiedPoolNames)
    else OK tt
  else
    if bool_decide (1 < length modifiedPoolNames)
    then Err (Errorf "Can't perform more than one replica scale down requested scale down count %d" [])
    else OK tt.

Definition validatePoolNames (cvcObj : CStorVolumeConfig) : result unit :=
  let replicaPoolNames := GetDesiredReplicaPoolNames cvcObj in
  if negb (IsUniqueList replicaPoolNames) then
    Err (Errorf "duplicate pool names %v found under spec of cvc %s"
           (replicaPoolNames ++ [name cvcObj]))
  else if negb (IsUniqueList (cvc_Status_PoolInfo cvcObj)) then
    Err (Errorf "duplicate pool names %v found under status of cvc %s"
           (cvc_Status_PoolInfo cvcObj ++ [name cvcObj]))
  else OK tt.

(** The loop over the list of validations, then the check of the new object. *)
Fixpoint run_validations (fs : list (CStorVolumeConfig → CStorVolumeConfig → result unit))
  (cvcOldObj cvcNewObj : CStorVolumeConfig) : result unit :=
  match fs with
  | [] => validatePoolNames cvcNewObj
  | f :: fs' =>
      match f cvcOldObj cvcNewObj with
      | Err err => Err err
      | OK _ => run_validations fs' cvcOldObj cvcNewObj
      end
  end.

Definition validateCVCSpecChanges (cvcOldObj cvcNewObj : CStorVolumeConfig) : result unit :=
  run_validations [validateReplicaCount; validateProvisionedCapacity; validatePoolListChanges;
                   validateReplicaScaling] cvcOldObj cvcNewObj.

(** An admission review: its kind, its request, and what the raw object decodes to
    when a volume configuration is expected. *)
Record AdmissionReview := {
  ar_kind : string;
  ar_request : AdmissionRequest;
  ar_cvc : result CStorVolumeConfig;
}.

Definition validateCVCUpdateRequest (w : W) (ar : AdmissionReview) : AdmissionResponse :=
  match ar_cvc ar with
  | Err err => refused err StatusBadRequest
  | OK cvcNewObj =>
      match rGet (Obj:=CStorVolumeConfig) w (namespace cvcNewObj) (name cvcNewObj) with
      | Err err => refused err StatusBadRequest
      | OK cvcOldObj =>
          match validateCVCSpecChanges cvcOldObj cvcNewObj with
          | Err err => refused err StatusBadRequest
          | OK _ => accepted
          end
      end
  end.

(** [response.Allowed = true], and a refusal with only a message. *)
Definition allowed : AdmissionResponse := {| Allowed := true; Result := None |}.
Definition denied (msg : error) : AdmissionResponse :=
  {| Allowed := false;
     Result := Some {| st_Status := ""; st_Code := 0; st_Reason := ""; st_Message := Some msg |} |}.
Definition forbidden (reason : string) (msg : error) : AdmissionResponse :=
  {| Allowed := false;
     Result := Some {| st_Status := StatusFailure; st_Code := 403; st_Reason := reason;
                       st_Message := Some msg |} |}.

Definition validateCVC (w : W) (ar : AdmissionReview) : AdmissionResponse :=
  match req_operation (ar_request ar) with
  | Update => validateCVCUpdateRequest w ar
  | _ => allowed
  end.

(** ** pkg/webhook/pvc.go *)

Definition ignoredNamespaces : list string := ["kube-system"; "kube-public"].

Definition admissionRequired (ignoredList : list string) (metadata : ObjectMeta) : bool :=
  negb (existsb (λ ns, bool_decide (om_namespace metadata = ns)) ignoredList).

Definition validationRequired (ignoredList : list string) (metadata : ObjectMeta) : bool :=
  admissionRequired ignoredList metadata.

Definition getCstorVolumes (w : W) (selector : string) : result (list CStorVolume) :=
  rList w "" selector.
Definition getCstorVolumeClaims (w : W) (selector : string) : result (list CStorVolumeConfig) :=
  rList w "" selector.

(** The selector of the volumes that were cloned from the volume of the claim. *)
Definition source_volume_label (pvc : PersistentVolumeClaim) : string :=
  "openebs.io/source-volume=" +:+ pvc_VolumeName pvc.

Definition validatePVCDeleteRequest (w : W) (req : AdmissionRequest) : AdmissionResponse :=
  if bool_decide (req_name req = "") then allowed
  else
    match rGet (Obj:=PersistentVolumeClaim) w (req_namespace req) (req_name req) with
    | Err err => denied (Wrapf err "error retrieving PVC: %v" [])
    | OK pvc =>
        if negb (validationRequired ignoredNamespaces (pvc_meta pvc)) then allowed
        else
          let listOptions := source_volume_label pvc in
          match getCstorVolumes w listOptions with
          | Err err => denied (Wrapf err "error retrieving CstorVolumes: %v" [])
          | OK cStorVolumes =>
              if negb (bool_decide (length cStorVolumes = 0)) then
                forbidden "PVC with cloned volumes can't be deleted"
                  (Errorf "pvc %q has '%v' cloned volume(s)" [name pvc])
              else
                match getCstorVolumeClaims w listOptions with
                | Err err => denied (Wrapf err "error retrieving CstorVolumeClaims: %v" [])
                | OK cStorVolumeClaims =>
                    if negb (bool_decide (length cStorVolumeClaims = 0)) then
                      forbidden "PVC with cloned volumes can't be deleted"
                        (Errorf "pvc %q has '%v' cloned volume(s)" [name pvc])
                    else allowed
                end
          end
    end.

Definition validatePVCCreateRequest : AdmissionResponse := allowed.

Definition validatePVC (w : W) (ar : AdmissionReview) : AdmissionResponse :=
  match req_operation (ar_request ar) with
  | Create => validatePVCCreateRequest
  | Delete => validatePVCDeleteRequest w (ar_request ar)
  | _ => allowed
  end.

(** ** pkg/webhook/namespace.go *)

Definition validatorWebhook : string := "openebs-cstor-validation-webhook".

Definition getOpenebsNamespace : result string :=
  match os_LookupEnv OpenEBSNamespace with
  | None => Err (Errorf "%s must be set" [OpenEBSNamespace])
  | Some ns => OK ns
  end.

Definition validateNamespaceDeleteRequest (req : AdmissionRequest) : M W AdmissionResponse :=
  if bool_decide (req_name req = "") then mret allowed
  else
    let* r := call (rDelete (Obj:=ValidatingWebhookConfiguration) "" validatorWebhook) in
    match r with
    | Err err => mret (denied err)
    | OK _ => mret allowed
    end.

Definition validateNamespace (ar : AdmissionReview) : M W AdmissionResponse :=
  let req := ar_request ar in
  match getOpenebsNamespace with
  | Err err => mret (denied (Wrapf err "error getting OPENEBS_NAMESPACE env %s: %v" [req_name req]))
  | OK openebsNamespace =>
      if bool_decide (openebsNamespace = req_name req) then
        match req_operation req with
        | Delete => validateNamespaceDeleteRequest req
        | _ => mret allowed
        end
      else mret allowed
  end.

(** ** The dispatch on the kind of the object (webhook.go) *)

(** [ns] is the value of the environment variable read by validateCSPC. *)
Definition validate (ns : string) (ar : AdmissionReview) : M W AdmissionResponse :=
  if bool_decide (ar_kind ar = "Namespace") then validateNamespace ar
  else if bool_decide (ar_kind ar = "PersistentVolumeClaim") then reads (λ w, validatePVC w ar)
  else if bool_decide (ar_kind ar = "CStorPoolCluster") then validateCSPC ns (ar_request ar)
  else if bool_decide (ar_kind ar = "CStorVolumeConfig") then reads (λ w, validateCVC w ar)
  else mret allowed.
End volume_webhook.

(** ** The pools of a volume *)

Lemma unique_from_spec seen l :
  unique_from seen l = true ↔ NoDup l ∧ ∀ x, x ∈ l → x ∉ seen.
Proof.
  revert seen. induction l as [|x l IH]; intros seen; cbn [unique_from].
  - split; [|done]. intros _. split; [constructor|]. by intros x ?%elem_of_nil.
  - unfold has. case_bool_decide as Hx.
    + split; [done|]. intros [_ Hs]. exfalso. eapply Hs; [left|done].
    + rewrite IH, NoDup_cons. set_solver.
Qed.

Lemma IsUniqueList_spec l : IsUniqueList l = true ↔ NoDup l.
Proof. unfold IsUniqueList. rewrite unique_from_spec. set_solver. Qed.

(** What a change of the pools of a volume may be: it keeps every pool that holds a
    replica, or it removes exactly one of them and adds none. *)
Definition pools_changed (old new : list string) : Prop :=
  old ⊆ new ∨ ∃ p, old ≡ₚ p :: new.

(** The test on the lists that the webhook makes. *)
Definition pools_tested (old new : list string) : Prop :=
  if bool_decide (length old ≤ length new) then filter (λ x, x ∉ new) old = []
  else length (filter (λ x, x ∉ new) old) ≤ 1.

Lemma filter_notin_nil (old new : list string) :
  filter (λ x, x ∉ new) old = [] ↔ old ⊆ new.
Proof.
  split.
  - intros Hf x Hx. destruct (decide (x ∈ new)) as [|Hn]; [done|].
    assert (x ∈ filter (λ x, x ∉ new) old) as Hin by (by apply list_elem_of_filter).
    rewrite Hf in Hin. by apply elem_of_nil in Hin.
  - intros Hs. apply filter_none. set_solver.
Qed.

Lemma filter_split_length (P : string → Prop) `{∀ x, Decision (P x)} (l : list string) :
  l ≡ₚ filter (λ x, ¬ P x) l ++ filter P l.
Proof.
  induction l as [|x l IH]; [done|]. destruct (decide (P x)) as [HP|HP].
  - rewrite (filter_cons_False (λ x, ¬ P x)), (filter_cons_True P) by naive_solver.
    rewrite <-Permutation_middle. by constructor.
  - rewrite (filter_cons_True (λ x, ¬ P x)), (filter_cons_False P) by naive_solver.
    cbn. by constructor.
Qed.

Lemma pools_tested_changed old new :
  NoDup old → NoDup new → pools_tested old new ↔ pools_changed old new.
Proof.
  intros Ho Hn. unfold pools_tested, pools_changed. case_bool_decide as Hlen.
  - rewrite filter_notin_nil. split; [by left|]. intros [|[p Hp]]; [done|].
    apply Permutation_length in Hp. cbn in Hp. lia.
  - pose proof (filter_split_length (λ x, x ∈ new) old) as Hsplit. split.
    + intros H1. right. set (kept := filter (λ x, x ∈ new) old) in *.
      assert (NoDup kept) as Hk by by apply NoDup_filter.
      assert (kept ⊆ new) as Hsub by (intros x [??]%list_elem_of_filter; done).
      pose proof (submseteq_length _ _ (NoDup_submseteq _ _ Hk Hsub)) as Hle.
      pose proof (Permutation_length Hsplit) as Hsum. rewrite length_app in Hsum.
      destruct (filter (λ x, x ∉ new) old) as [|p [|]] eqn:Hf; cbn in *; try lia.
      exists p. etrans; [exact Hsplit|]. rewrite Hf. apply perm_skip.
      apply submseteq_length_Permutation; [by apply NoDup_submseteq|lia].
    + intros [Hs|[p Hp]].
      { pose proof (submseteq_length _ _ (NoDup_submseteq _ _ Ho Hs)). lia. }
      rewrite (filter_Permutation _ _ _ Hp), filter_cons.
      assert (filter (λ x, x ∉ new) new = []) as -> by by apply filter_notin_nil.
      case_decide; cbn; lia.
Qed.

(** ** Admission of a volume update *)

(** When an update of a volume configuration is safe: the volume keeps its
    provisioned size and replica count, no pool is named twice, its pools change by
    additions or by one removal, while it is bound and not already scaling. *)
Record cvc_change_ok `{VolumeApi} (old new : CStorVolumeConfig) : Prop := {
  co_count : cvc_Provision_ReplicaCount new = cvc_Provision_ReplicaCount old;
  co_capacity : cvc_Provision_Capacity new = cvc_Provision_Capacity old;
  co_spec : NoDup (cvc_Policy_ReplicaPoolInfo new);
  co_status : NoDup (cvc_Status_PoolInfo new);
  co_pools : pools_changed (cvc_Status_PoolInfo old) (cvc_Policy_ReplicaPoolInfo new);
  co_bound : cvc_Status_Phase old = CStorVolumeConfigPhaseBound ∨
             cvc_Status_Phase new = CStorVolumeConfigPhaseBound ∨
             length (cvc_Policy_ReplicaPoolInfo new) = length (cvc_Status_PoolInfo old);
  co_scaling : length (cvc_Policy_ReplicaPoolInfo old) = length (cvc_Status_PoolInfo old) ∨
               length (cvc_Policy_ReplicaPoolInfo new) = length (cvc_Policy_ReplicaPoolInfo old);
}.

Section volume_admission.
Context {W : Type} `{VolumeApiLaws}.
Context `{!ResourceClient W CStorVolumeConfig} `{!ResourceClient W CStorVolume}
  `{!ResourceClient W PersistentVolumeClaim}.

Lemma validatePoolListChanges_OK old new :
  validatePoolListChanges old new = OK tt ↔
  (cvc_Status_Phase old = CStorVolumeConfigPhaseBound ∨
   cvc_Status_Phase new = CStorVolumeConfigPhaseBound ∨
   length (cvc_Policy_ReplicaPoolInfo new) = length (cvc_Status_PoolInfo old)) ∧
  pools_tested (cvc_Status_PoolInfo old) (cvc_Policy_ReplicaPoolInfo new).
Proof.
  unfold validatePoolListChanges, pools_tested. rewrite desired_pool_names, ListDiff_spec.
  set (f := filter _ _). clearbody f.
  destruct f as [|? [|? ?]]; repeat case_bool_decide; cbn in *; naive_solver lia.
Qed.

Lemma validateReplicaScaling_OK old new :
  validateReplicaScaling old new = OK tt ↔
  length (cvc_Policy_ReplicaPoolInfo old) = length (cvc_Status_PoolInfo old) ∨
  length (cvc_Policy_ReplicaPoolInfo new) = length (cvc_Policy_ReplicaPoolInfo old).
Proof.
  unfold validateReplicaScaling, isScalingInProgress.
  repeat case_bool_decide; cbn; naive_solver lia.
Qed.

Lemma validatePoolNames_OK new :
  validatePoolNames new = OK tt ↔
  NoDup (cvc_Policy_ReplicaPoolInfo new) ∧ NoDup (cvc_Status_PoolInfo new).
Proof.
  unfold validatePoolNames. rewrite desired_pool_names, <-!IsUniqueList_spec.
  destruct (IsUniqueList _), (IsUniqueList _); cbn; naive_solver.
Qed.

Lemma run_validations_OK fs old new :
  run_validations fs old new = OK tt ↔
  Forall (λ f, f old new = OK tt) fs ∧ validatePoolNames new = OK tt.
Proof.
  induction fs as [|f fs IH]; cbn; [naive_solver|].
  rewrite Forall_cons. destruct (f old new) as [[]|]; naive_solver.
Qed.

Lemma validateCVCSpecChanges_OK old new :
  NoDup (cvc_Status_PoolInfo old) →
  validateCVCSpecChanges old new = OK tt ↔ cvc_change_ok old new.
Proof.
  intros Hnd. unfold validateCVCSpecChanges. rewrite run_validations_OK.
  rewrite !Forall_cons, validatePoolListChanges_OK, validateReplicaScaling_OK,
    validatePoolNames_OK.
  unfold validateReplicaCount, validateProvisionedCapacity.
  destruct (Z.eqb_spec (cvc_Provision_ReplicaCount old) (cvc_Provision_ReplicaCount new));
    destruct (Z.eqb_spec (cvc_Provision_Capacity new) (cvc_Provision_Capacity old)); cbn;
    (split; [intros ((?&?&[??]&?&?)&?&?)|intros []]); try congruence.
  - split; try done. by apply pools_tested_changed.
  - repeat split; try done. by apply pools_tested_changed.
Qed.

Lemma validateCVCUpdateRequest_exact w ar old new :
  ar_cvc ar = OK new → rGet w (namespace new) (name new) = OK old →
  NoDup (cvc_Status_PoolInfo old) →
  Allowed (validateCVCUpdateRequest w ar) = true ↔ cvc_change_ok old new.
Proof.
  intros Hdec Hget Hnd. unfold validateCVCUpdateRequest. rewrite Hdec, Hget.
  rewrite <-(validateCVCSpecChanges_OK _ _ Hnd).
  destruct (validateCVCSpecChanges old new) as [[]|]; cbn; naive_solver.
Qed.

(** ** Admission of a claim deletion *)

Lemma validatePVCDeleteRequest_exact w req :
  Allowed (validatePVCDeleteRequest w req) = true ↔
  req_name req = "" ∨ ∃ pvc : PersistentVolumeClaim,
    rGet w (req_namespace req) (req_name req) = OK pvc ∧
    (om_namespace (pvc_meta pvc) ∈ ignoredNamespaces ∨
     rList (Obj:=CStorVolume) w "" (source_volume_label pvc) = OK [] ∧
     rList (Obj:=CStorVolumeConfig) w "" (source_volume_label pvc) = OK []).
Proof.
  unfold validatePVCDeleteRequest, validationRequired, admissionRequired.
  case_bool_decide as Hn; [naive_solver|].
  destruct (rGet _ _ _) as [pvc|] eqn:Hg; [|naive_solver].
  destruct (existsb _ _) eqn:He; cbn [negb].
  { split; [|done]. intros _. right. exists pvc. split; [done|]. left.
    apply existsb_exists in He as (ns & Hin & ->%bool_decide_eq_true). by apply list_elem_of_In. }
  assert (om_namespace (pvc_meta pvc) ∉ ignoredNamespaces) as Hns.
  { intros Hin. apply not_true_iff_false in He. apply He, existsb_exists.
    exists (om_namespace (pvc_meta pvc)). by rewrite <-list_elem_of_In, bool_decide_eq_true. }
  unfold getCstorVolumes, getCstorVolumeClaims.
  destruct (rList (Obj:=CStorVolume) _ _ _) as [[|v vs]|] eqn:H1;
    [|split; [done|]; intros [?|(? & [= <-] & [?|[??]])]; congruence..].
  destruct (rList (Obj:=CStorVolumeConfig) _ _ _) as [[|v vs]|] eqn:H2;
    [|split; [done|]; intros [?|(? & [= <-] & [?|[??]])]; congruence..].
  split; [intros _; right; by eauto|done].
Qed.
End volume_admission.
