(* ===== verification/Registration.v ===== *)
(** * Registration: start-up and server of the admission webhook
      (pkg/webhook: configuration.go, triple.go, webhook.go, IsCurrentLessThanNewVersion of util.go)

    At start the webhook creates a signing certificate and stores it in a secret, creates its
    service and registers itself with the API server; objects of an older version are updated or
    deleted first.  Then it serves requests over HTTP.  Cryptography is the class [Crypto]. *)

From stdpp Require Import base gmap strings list sets pretty.
From Stdlib Require Import Ascii ZArith Lia.
From coqutil Require Import Datatypes.RecordSetters.
From S2P Require Import Prelude Steps Api Version Webhook VolumeApi VolumeWebhook.
Import DoubleBraceUpdate.

(** ** Certificates (triple.go) *)

(** certutil.Config and x509.Certificate as a template; a usage is the name of its constant, and
    times are those of [Now] in seconds. *)
Record cert_config := {
  cc_CommonName : string;
  cc_Organization : list string;
  cc_DNSNames : list string;
  cc_IPs : list string;
  cc_Usages : list string;
}.
Record cert_template := {
  ct_CommonName : string;
  ct_Organization : list string;
  ct_DNSNames : list string;
  ct_IPAddresses : list string;
  ct_SerialNumber : Z;
  ct_NotBefore : Z;
  ct_NotAfter : Z;
  ct_KeyUsage : list string;
  ct_ExtKeyUsage : list string;
}.

(** crypto/rsa, crypto/x509, crypto/rand, encoding/pem, net and k8s.io/client-go/util/cert *)
Class Crypto (W : Type) := {
  rsa_PrivateKey : Type;
  x509_Certificate : Type;
  rsa_GenerateKey : Z → W → result rsa_PrivateKey * W;
  cryptorand_Int : Z → W → result Z * W;
  certutil_NewSelfSignedCACert : cert_config → rsa_PrivateKey → W → result x509_Certificate * W;
  x509_CreateCertificate : cert_template → x509_Certificate → rsa_PrivateKey → rsa_PrivateKey → W → result string * W;
  x509_ParseCertificate : string → result x509_Certificate;
  x509_MarshalPKCS1PrivateKey : rsa_PrivateKey → string;
  cert_NotBefore : x509_Certificate → Z;
  cert_Raw : x509_Certificate → string;
  pem_EncodeToMemory : string → string → string;
  net_ParseIP : string → option string;
}.

Definition rsaKeySize : Z := 2048.
Definition duration365d : Z := 60 * 60 * 24 * 365.
Definition CertificateBlockType : string := "CERTIFICATE".
Definition RSAPrivateKeyBlockType : string := "RSA PRIVATE KEY".
Definition MaxInt64 : Z := 2 ^ 63 - 1.

Section certificates.
Context {W : Type} `{!Env W} `{!Crypto W}.

Record KeyPair := { kp_Key : rsa_PrivateKey; kp_Cert : x509_Certificate }.

Definition newPrivateKey : M W (result rsa_PrivateKey) := call (rsa_GenerateKey rsaKeySize).

Definition NewCA (name : string) : M W (result KeyPair) :=
  let* key := newPrivateKey in
  match key with
  | Err _ => mret (Err (Errorf "unable to create a private key for a new CA: %v" []))
  | OK key =>
      let config := {| cc_CommonName := name; cc_Organization := []; cc_DNSNames := []; cc_IPs := [];
                       cc_Usages := [] |} in
      let* cert := call (certutil_NewSelfSignedCACert config key) in
      mret match cert with
           | Err _ => Err (Errorf "unable to create a self-signed certificate for a new CA: %v" [])
           | OK cert => OK {| kp_Key := key; kp_Cert := cert |}
           end
  end.

Definition NewSignedCert (cfg : cert_config) (key : rsa_PrivateKey) (caCert : x509_Certificate)
  (caKey : rsa_PrivateKey) : M W (result x509_Certificate) :=
  let* serial := call (cryptorand_Int MaxInt64) in
  match serial with
  | Err err => mret (Err err)
  | OK serial =>
      if bool_decide (cc_CommonName cfg = "") then mret (Err (Errorf "must specify a CommonName" []))
      else if bool_decide (cc_Usages cfg = []) then
        mret (Err (Errorf "must specify at least one ExtKeyUsage" []))
      else
        let* now := reads Now in
        let certTmpl :=
          {| ct_CommonName := cc_CommonName cfg; ct_Organization := cc_Organization cfg;
             ct_DNSNames := cc_DNSNames cfg; ct_IPAddresses := cc_IPs cfg; ct_SerialNumber := serial;
             ct_NotBefore := cert_NotBefore caCert; ct_NotAfter := (now + duration365d)%Z;
             ct_KeyUsage := ["KeyUsageKeyEncipherment"; "KeyUsageDigitalSignature"];
             ct_ExtKeyUsage := cc_Usages cfg |} in
        let* certDERBytes := call (x509_CreateCertificate certTmpl caCert key caKey) in
        mret match certDERBytes with
             | Err err => Err err
             | OK b => x509_ParseCertificate b
             end
  end.

(** The names of a service in the cluster. *)
Definition internalAPIServerFQDN (svcName svcNamespace dnsDomain : string) : list string :=
  let namespacedName := svcName +:+ "." +:+ svcNamespace in
  [svcName; namespacedName; namespacedName +:+ ".svc"; namespacedName +:+ ".svc." +:+ dnsDomain].

Definition NewServerKeyPair (ca : KeyPair) (commonName svcName svcNamespace dnsDomain : string)
  (ips hostnames : list string) : M W (result KeyPair) :=
  let* key := newPrivateKey in
  match key with
  | Err _ => mret (Err (Errorf "unable to create a server private key: %v" []))
  | OK key =>
      let config :=
        {| cc_CommonName := commonName; cc_Organization := [];
           cc_DNSNames := hostnames ++ internalAPIServerFQDN svcName svcNamespace dnsDomain;
           cc_IPs := omap net_ParseIP ips; cc_Usages := ["ExtKeyUsageServerAuth"] |} in
      let* cert := NewSignedCert config key (kp_Cert ca) (kp_Key ca) in
      mret match cert with
           | Err _ => Err (Errorf "unable to sign the server certificate: %v" [])
           | OK cert => OK {| kp_Key := key; kp_Cert := cert |}
           end
  end.

Definition NewClientKeyPair (ca : KeyPair) (commonName : string) (organizations : list string)
  : M W (result KeyPair) :=
  let* key := newPrivateKey in
  match key with
  | Err _ => mret (Err (Errorf "unable to create a client private key: %v" []))
  | OK key =>
      let config :=
        {| cc_CommonName := commonName; cc_Organization := organizations; cc_DNSNames := []; cc_IPs := [];
           cc_Usages := ["ExtKeyUsageClientAuth"] |} in
      let* cert := NewSignedCert config key (kp_Cert ca) (kp_Key ca) in
      mret match cert with
           | Err _ => Err (Errorf "unable to sign the client certificate: %v" [])
           | OK cert => OK {| kp_Key := key; kp_Cert := cert |}
           end
  end.

Definition EncodeCertPEM (cert : x509_Certificate) : string :=
  pem_EncodeToMemory CertificateBlockType (cert_Raw cert).
Definition EncodePrivateKeyPEM (key : rsa_PrivateKey) : string :=
  pem_EncodeToMemory RSAPrivateKeyBlockType (x509_MarshalPKCS1PrivateKey key).
End certificates.

(** ** Registration (configuration.go) *)

Record Secret := { sec_meta : ObjectMeta; sec_Type : string; sec_Data : gmap string string }.
#[export] Instance sec_HasMeta : HasMeta Secret :=
  {| meta := sec_meta; with_meta m s := {| sec_meta := m; sec_Type := sec_Type s; sec_Data := sec_Data s |} |}.

Definition validatorServiceName : string := "openebs-cstor-admission-server".
Definition validatorSecret : string := "openebs-cstor-admission-secret".
Definition webhookHandlerName : string := "admission-webhook.cstor.openebs.io".
Definition validationPath : string := "/validate".
Definition validationPort : Z := 8443.
Definition webhookLabel : string := "openebs.io/component-name" +:+ "=" +:+ "cstor-admission-webhook".
Definition webhooksvcLabel : string := "openebs.io/component-name" +:+ "=" +:+ "cstor-admission-webhook".
Definition AdmissionNameEnvVar : string := "ADMISSION_WEBHOOK_NAME".
Definition WebhookFailurePolicy : string := "ADMISSION_WEBHOOK_FAILURE_POLICY".
Definition appCrt : string := "app.crt".
Definition appKey : string := "app.pem".
Definition rootCrt : string := "ca.crt".

(** The rules; the operations, policies and classes are strings of admissionregistration/v1. *)
Definition Ignore : string := "Ignore".
Definition Fail_ : string := "Fail".
Definition pvcRule : RuleWithOperations :=
  {| rule_Operations := ["CREATE"; "DELETE"]; rule_APIGroups := ["*"]; rule_APIVersions := ["*"];
     rule_Resources := ["persistentvolumeclaims"] |}.
Definition cspcRule : RuleWithOperations :=
  {| rule_Operations := ["CREATE"; "UPDATE"; "DELETE"]; rule_APIGroups := ["cstor.openebs.io"];
     rule_APIVersions := ["v1"]; rule_Resources := ["cstorpoolclusters"] |}.
Definition cvcRuleWithOperations : RuleWithOperations :=
  {| rule_Operations := ["UPDATE"]; rule_APIGroups := ["cstor.openebs.io"]; rule_APIVersions := ["v1"];
     rule_Resources := ["cstorvolumeconfigs"] |}.
Definition nsRuleWithOperations : RuleWithOperations :=
  {| rule_Operations := ["DELETE"]; rule_APIGroups := ["*"]; rule_APIVersions := ["*"];
     rule_Resources := ["namespaces"] |}.

(** strings.ToLower, on ASCII letters *)
Definition lower_ascii (a : ascii) : ascii :=
  let n := Ascii.nat_of_ascii a in
  if (65 <=? n)%nat && (n <=? 90)%nat then Ascii.ascii_of_nat (n + 32) else a.
Fixpoint strings_ToLower (s : string) : string :=
  match s with "" => "" | String a s' => String (lower_ascii a) (strings_ToLower s') end.

Definition failurePolicy `{PodEnv} : string :=
  let policy := default "" (os_LookupEnv WebhookFailurePolicy) in
  if bool_decide (strings_ToLower policy ∈ ["no"; "false"; "ignore"]) then Ignore else Fail_.

(** util.go: the loop over the components of the older version. *)
Fixpoint less_components (oldVersions newVersions : list string) : outcome bool :=
  match oldVersions, newVersions with
  | [], _ => Ret false
  | _ :: _, [] => Panic "index out of range"
  | o :: os, n :: ns =>
      if (Atoi o =? Atoi n)%Z then less_components os ns else Ret (Atoi o <? Atoi n)%Z
  end.
Definition IsCurrentLessThanNewVersion (old new : string) : outcome bool :=
  less_components (split_on "."%char (before_dash old)) (split_on "."%char (before_dash new)).

(** config.Webhooks[0].Rules = append(config.Webhooks[0].Rules, rule) *)
Definition append_rule (rule : RuleWithOperations) (config : ValidatingWebhookConfiguration)
  : outcome ValidatingWebhookConfiguration :=
  match vwc_Webhooks config with
  | [] => Panic "index out of range"
  | h :: hs => Ret (config {{ vwc_Webhooks := (h {{ wh_Rules := wh_Rules h ++ [rule] }}) :: hs }})
  end.
Definition addNSWithDeleteRule `{OpenebsApi} (config : ValidatingWebhookConfiguration)
  : outcome ValidatingWebhookConfiguration :=
  let* less := IsCurrentLessThanNewVersion (label (labels config) OpenEBSVersionLabelKey) "2.5.0" in
  if less : bool then append_rule nsRuleWithOperations config else Ret config.

Definition GetAdmissionName `{PodEnv} : result string :=
  match os_LookupEnv AdmissionNameEnvVar with
  | None => Err (Errorf "%s must be set" [AdmissionNameEnvVar])
  | Some n => if bool_decide (n = "") then Err (Errorf "%s must not be empty" [AdmissionNameEnvVar]) else OK n
  end.

Section registration.
Context {W : Type} `{OpenebsApi} `{VolumeApi} `{PodEnv} `{BuildInfo} `{!Env W} `{!Crypto W}.
Context `{!ResourceClient W Secret} `{!ResourceClient W Service} `{!ResourceClient W Deployment}.
Context `{!ResourceClient W ValidatingWebhookConfiguration}.

(** The labels of the objects of the webhook. *)
Definition webhook_labels : gmap string string :=
  <["app" := "cstor-admission-webhook"]>
  (<["openebs.io/component-name" := "cstor-admission-webhook"]>
  (<[OpenEBSVersionLabelKey := GetVersion]> ∅)).
Definition webhook_meta (n ns : string) (owner : OwnerReference) : ObjectMeta :=
  {| om_name := n; om_namespace := ns; om_uid := ""; om_resourceVersion := ""; om_labels := webhook_labels;
     om_annotations := ∅; om_finalizers := []; om_owners := [owner]; om_deletion := None |}.

Definition GetSecret (ns secretName : string) (w : W) : result Secret := rGet w ns secretName.
Definition GetValidatorWebhook (validator : string) (w : W) : result ValidatingWebhookConfiguration :=
  rGet w "" validator.

Definition webhook_service (owner : OwnerReference) (serviceName ns : string) : Service :=
  {| svc_meta := webhook_meta serviceName ns owner;
     svc_Selectors := {["app" := "cstor-admission-webhook"]};
     svc_Ports := [{| sp_Name := ""; sp_Port := 443; sp_Protocol := "TCP"; sp_TargetPort := validationPort |}];
     svc_ClusterIP := "" |}.
Definition createWebhookService (owner : OwnerReference) (serviceName ns : string) : M W (option error) :=
  let* r := reads (λ w, rGet (Obj:=Service) w ns serviceName) in
  match r with
  | OK _ => mret None
  | Err err =>
      if negb (IsNotFound err) then mret (Some (Wrapf err "failed to get webhook service {%v}" [serviceName]))
      else
        let* r := call (rCreate ns (webhook_service owner serviceName ns)) in
        mret (match r with OK _ => None | Err err => Some err end)
  end.

Definition webhook_handler (ns serviceName signingCert : string) : ValidatingWebhook :=
  {| wh_Name := webhookHandlerName;
     wh_Rules := [pvcRule; cspcRule; cvcRuleWithOperations; nsRuleWithOperations];
     wh_ServiceNamespace := ns; wh_ServiceName := serviceName; wh_ServicePath := validationPath;
     wh_CABundle := signingCert; wh_SideEffects := "None"; wh_AdmissionReviewVersions := ["v1"];
     wh_TimeoutSeconds := 5; wh_FailurePolicy := failurePolicy |}.
Definition webhook_config (owner : OwnerReference) (validator ns serviceName signingCert : string)
  : ValidatingWebhookConfiguration :=
  {| vwc_meta := webhook_meta validator "" owner; vwc_Webhooks := [webhook_handler ns serviceName signingCert] |}.
Definition createAdmissionValidatingConfig (owner : OwnerReference)
  (validator ns serviceName signingCert : string) : M W (option error) :=
  let* r := reads (GetValidatorWebhook validator) in
  match r with
  | OK _ => mret None
  | Err err =>
      if negb (IsNotFound err) then
        mret (Some (Wrapf err "failed to get validating WebhookConfiguration for {%v}" [validator]))
      else
        let* r := call (rCreate "" (webhook_config owner validator ns serviceName signingCert)) in
        mret (match r with OK _ => None | Err err => Some err end)
  end.

Definition webhook_secret (owner : OwnerReference) (secretName ns : string) (ca server : KeyPair) : Secret :=
  {| sec_meta := webhook_meta secretName ns owner; sec_Type := "Opaque";
     sec_Data := <[appCrt := EncodeCertPEM (kp_Cert server)]>
                 (<[appKey := EncodePrivateKeyPEM (kp_Key server)]>
                 (<[rootCrt := EncodeCertPEM (kp_Cert ca)]> ∅)) |}.
Definition createCertsSecret (owner : OwnerReference) (secretName serviceName ns : string) : M W (result Secret) :=
  let* caKeyPair := NewCA (serviceName +:+ "-ca") in
  match caKeyPair with
  | Err _ => mret (Err (Errorf "failed to create root-ca: %v" []))
  | OK caKeyPair =>
      let* apiServerKeyPair := NewServerKeyPair caKeyPair (join "." [serviceName; ns; "svc"]) serviceName ns
                                 "cluster.local" [] [] in
      match apiServerKeyPair with
      | Err _ => mret (Err (Errorf "failed to create server key pair: %v" []))
      | OK apiServerKeyPair => call (rCreate ns (webhook_secret owner secretName ns caKeyPair apiServerKeyPair))
      end
  end.

(** A loop that returns at the first error. *)
Fixpoint try_each {A} (f : A → M W (option error)) (l : list A) : M W (option error) :=
  match l with
  | [] => mret None
  | a :: l' => let* err := f a in match err with Some err => mret (Some err) | None => try_each f l' end
  end.

(** obj.Labels[types.OpenEBSVersionLabelKey] = version.Current() *)
Definition with_version {Obj} `{HasMeta Obj} (o : Obj) : Obj :=
  with_meta (meta_with_labels (<[OpenEBSVersionLabelKey := current_version]> (labels o)) (meta o)) o.
Definition is_current {Obj} `{HasMeta Obj} (o : Obj) : bool :=
  bool_decide (label (labels o) OpenEBSVersionLabelKey = current_version).

(** The secrets and services: there are no functions that transform them. *)
Definition upgrade_object {Obj} `{HasMeta Obj} `{!ResourceClient W Obj} (what ns : string) (o : Obj)
  : M W (option error) :=
  if negb (is_current o) then
    let* r := call (rUpdate ns (with_version o)) in
    mret (match r with OK _ => None | Err _ => Some (Errorf what [name o]) end)
  else mret None.

Definition transformConfig : list (ValidatingWebhookConfiguration → outcome ValidatingWebhookConfiguration) :=
  [addNSWithDeleteRule].
Definition transform_config (config : ValidatingWebhookConfiguration) : outcome ValidatingWebhookConfiguration :=
  foldl (λ acc t, let* c := acc in t c) (Ret config) transformConfig.

Definition upgrade_config (config : ValidatingWebhookConfiguration) : M W (option error) :=
  if negb (is_current config) then
    let* less := lift (λ _, IsCurrentLessThanNewVersion (label (labels config) OpenEBSVersionLabelKey) "2.8.0") in
    if less : bool then
      let* r := call (rDelete (Obj:=ValidatingWebhookConfiguration) "" (name config)) in
      mret (match r with
            | OK _ => None
            | Err _ => Some (Errorf "failed to delete older webhook config %s: %s" [name config])
            end)
    else
      let* newConfig := lift (λ _, transform_config config) in
      let* r := call (rUpdate "" (with_version newConfig)) in
      mret (match r with
            | OK _ => None
            | Err _ => Some (Errorf "failed to update older webhook config %s: %s" [name config])
            end)
  else mret None.

(** The three loops of preUpgrade. *)
Definition upgrade_configs : M W (option error) :=
  let* webhookConfigList := reads (λ w, rList (Obj:=ValidatingWebhookConfiguration) w "" webhookLabel) in
  match webhookConfigList with
  | Err _ => mret (Some (Errorf "failed to list older webhook config: %s" []))
  | OK l => try_each upgrade_config l
  end.
Definition upgrade_services (openebsNamespace : string) : M W (option error) :=
  let* svcList := reads (λ w, rList (Obj:=Service) w openebsNamespace webhooksvcLabel) in
  match svcList with
  | Err _ => mret (Some (Errorf "failed to list old service: %s" []))
  | OK l => try_each (upgrade_object "failed to update old service %s: %s" openebsNamespace) l
  end.
Definition upgrade_secrets (openebsNamespace : string) : M W (option error) :=
  let* secretlist := reads (λ w, rList (Obj:=Secret) w openebsNamespace webhookLabel) in
  match secretlist with
  | Err _ => mret (Some (Errorf "failed to list old secret: %s" []))
  | OK l => try_each (upgrade_object "failed to update old secret %s: %s" openebsNamespace) l
  end.
Definition and_then (m m' : M W (option error)) : M W (option error) :=
  let* err := m in match err with Some err => mret (Some err) | None => m' end.
Definition preUpgrade (openebsNamespace : string) : M W (option error) :=
  and_then (upgrade_secrets openebsNamespace)
    (and_then (upgrade_services openebsNamespace) upgrade_configs).

(** The secret that holds the certificates, created when there is none. *)
Definition get_or_create_secret (owner : OwnerReference) (openebsNamespace : string) : M W (result Secret) :=
  let* certSecret := reads (GetSecret openebsNamespace validatorSecret) in
  match certSecret with
  | OK certSecret => mret (OK certSecret)
  | Err err =>
      if IsNotFound err then
        let* certSecret := createCertsSecret owner validatorSecret validatorServiceName openebsNamespace in
        mret (match certSecret with
              | OK certSecret => OK certSecret
              | Err _ => Err (Errorf "failed to create secret(%s) resource %v" [validatorSecret])
              end)
      else mret (Err (Errorf "unable to read secret object %s: %v" [validatorSecret]))
  end.

Definition InitValidationServer (owner : OwnerReference) : M W (option error) :=
  match getOpenebsNamespace with
  | Err err => mret (Some err)
  | OK openebsNamespace =>
      let* err := preUpgrade openebsNamespace in
      match err with
      | Some err => mret (Some err)
      | None =>
          let* certSecret := get_or_create_secret owner openebsNamespace in
          match certSecret with
          | Err err => mret (Some err)
          | OK certSecret =>
              match sec_Data certSecret !! rootCrt with
              | None => mret (Some (Errorf "%s value not found in %s secret" [rootCrt; validatorSecret]))
              | Some signingCertBytes =>
                  let* serviceErr := createWebhookService owner validatorServiceName openebsNamespace in
                  match serviceErr with
                  | Some _ => mret (Some (Errorf "failed to create Service{%s}: %v" [validatorServiceName]))
                  | None =>
                      let* validatorErr := createAdmissionValidatingConfig owner validatorWebhook
                        openebsNamespace validatorServiceName signingCertBytes in
                      mret (match validatorErr with
                            | Some _ => Some (Errorf "failed to create validator{%s}: %v" [validatorWebhook])
                            | None => None
                            end)
                  end
              end
          end
      end
  end.

(** metav1.NewControllerRef of a deployment *)
Definition deployment_ref (d : Deployment) : OwnerReference :=
  {| or_apiVersion := "apps/v1"; or_kind := "Deployment"; or_name := name d; or_uid := om_uid (dep_meta d);
     or_controller := Some true; or_blockOwnerDeletion := Some true |}.
Definition GetAdmissionReference (w : W) : result OwnerReference :=
  match getOpenebsNamespace with
  | Err err => Err err
  | OK openebsNamespace =>
      match rList (Obj:=Deployment) w openebsNamespace webhookLabel with
      | Err _ => Err (Errorf "failed to list admission deployment: %s" [])
      | OK l =>
          match first_such (λ d, negb (bool_decide (name d = ""))) l with
          | Some d => OK (deployment_ref d)
          | None => Err (Errorf "failed to create deployment ownerReference" [])
          end
      end
  end.

(** ** The server (webhook.go) *)

(** The certificates of the server, from the secret; [x509_pool] tells whether a certificate is
    accepted as a root and [tls_pair] whether the certificate and the key fit. *)
Definition New_certificates (x509_pool : string → bool) (tls_pair : string → string → option error) (w : W)
  : result (string * string) :=
  match getOpenebsNamespace with
  | Err err => Err err
  | OK admNamespace =>
      match GetSecret admNamespace validatorSecret w with
      | Err _ => Err (Errorf "failed to read secret(%s) object %v" [validatorSecret])
      | OK certSecret =>
          let missing (key : string) := Errorf "%s value not found in %s secret" [key; validatorSecret] in
          match sec_Data certSecret !! appCrt with
          | None => Err (missing appCrt)
          | Some certBytes =>
              match sec_Data certSecret !! appKey with
              | None => Err (missing appKey)
              | Some keyBytes =>
                  match sec_Data certSecret !! rootCrt with
                  | None => Err (missing rootCrt)
                  | Some signingCertBytes =>
                      if negb (x509_pool signingCertBytes) then Err (Errorf "failed to parse root certificate" [])
                      else
                        match tls_pair certBytes keyBytes with
                        | Some err => Err err
                        | None => OK (certBytes, keyBytes)
                        end
                  end
              end
          end
      end
  end.
End registration.

(** The request: a body that cannot be read is empty. *)
Record webhook_request := { wr_Body : result string; wr_ContentType : string; wr_Path : string }.
Inductive http_write := HttpError (msg : string) (code : Z) | HttpBody (s : string).

Section serve.
Context {W : Type} `{GoRuntime} `{OpenebsApi} `{VolumeApi} `{PodEnv}.
Context `{!ResourceClient W Node} `{!ResourceClient W BlockDevice} `{!ResourceClient W BlockDeviceClaim}
  `{!ResourceClient W CStorPoolCluster} `{!ResourceClient W CStorPoolInstance} `{!ResourceClient W CStorVolumeReplica}
  `{!ResourceClient W CStorVolumeConfig} `{!ResourceClient W CStorVolume}
  `{!ResourceClient W PersistentVolumeClaim} `{!ResourceClient W ValidatingWebhookConfiguration}.
(** The deserializer, which may set a part of the review also when it fails: the request with its
    identifier, and the error; encoding/json on a review with a response and an identifier; and
    http.ResponseWriter.Write. *)
Context (deserializer_Decode : string → option (AdmissionReview * string) * option error).
Context (json_Marshal_review : option (AdmissionResponse * string) → result string).
Context (resp_Write : string → option error) (ns : string).

Definition decode_failure (err : error) : AdmissionResponse :=
  {| Allowed := false;
     Result := Some {| st_Status := ""; st_Code := 0; st_Reason := ""; st_Message := Some err |} |}.

Definition review_response (path : string) (ar : option (AdmissionReview * string)) (err : option error)
  : M W (option AdmissionResponse) :=
  match err with
  | Some err => mret (Some (decode_failure err))
  | None =>
      if bool_decide (path = "/validate") then
        match ar with
        | None => panic "nil pointer dereference"
        | Some (ar, _) => let* r := validate ns ar in mret (Some r)
        end
      else mret None
  end.

Definition Serve (r : webhook_request) : M W (list http_write) :=
  let body := match wr_Body r with OK data => data | Err _ => "" end in
  if bool_decide (body = "") then mret [HttpError "empty body" 400]
  else if negb (bool_decide (wr_ContentType r = "application/json")) then
    mret [HttpError "invalid Content-Type, expect `application/json`" 415]
  else
    let '(ar, err) := deserializer_Decode body in
    let* admissionResponse := review_response (wr_Path r) ar err in
    let uid := match ar with Some (_, uid) => uid | None => "" end in
    let resp := json_Marshal_review ((λ a, (a, uid)) <$> admissionResponse) in
    let failed := match resp with Err _ => [HttpError "could not encode response: %v" 500] | OK _ => [] end in
    let bytes := match resp with OK b => b | Err _ => "" end in
    let written := match resp_Write bytes with
                   | None => [HttpBody bytes]
                   | Some _ => [HttpError "could not write response: %v" 500]
                   end in
    mret (failed ++ written).
End serve.
