(* ===== verification/Debug.v ===== *)
(** * Debug: the error injection of debug builds (pkg/debug)

    In a debug build a server lets a client choose which calls of the operators fail.  The model has
    the table of injected errors with its setters and predicates, the random thresholds, the handlers
    of the server, and the predicates of a release build, which never inject. *)

From stdpp Require Import base gmap strings list sets.
From Stdlib Require Import ZArith Lia.
From coqutil Require Import Datatypes.RecordSetters.
From S2P Require Import Prelude.
Import DoubleBraceUpdate.

Definition Inject : string := "true".
Definition Eject : string := "false".

Record CRUDErrorInjection := {
  InjectDeleteCollectionError : string;
  InjectDeleteError : string;
  InjectListError : string;
  InjectGetError : string;
  InjectCreateError : string;
  InjectUpdateError : string;
  InjectPatchError : string;
}.
Record ErrorPercentageThreshold := { Threshold : Z }.
(** The five types of one kind of calls each have the same two fields. *)
Record injection := { crudErrors : CRUDErrorInjection; ErrorPercentage : ErrorPercentageThreshold }.
Definition CSPIErrorInjection : Type := injection.
Definition CSPCErrorInjection : Type := injection.
Definition DeploymentErrorInjection : Type := injection.
Definition ZFSErrorInjection : Type := injection.
Definition CVRErrorInjection : Type := injection.
Record ErrorInjection := {
  CSPIError : CSPIErrorInjection;
  CSPCError : CSPCErrorInjection;
  DeploymentError : DeploymentErrorInjection;
  ZFSError : ZFSErrorInjection;
  CVRError : CVRErrorInjection;
}.
#[export] Instance CRUDErrorInjection_eq_dec : EqDecision CRUDErrorInjection.
Proof. solve_decision. Defined.

Definition no_errors : CRUDErrorInjection :=
  {| InjectDeleteCollectionError := ""; InjectDeleteError := ""; InjectListError := ""; InjectGetError := "";
     InjectCreateError := ""; InjectUpdateError := ""; InjectPatchError := "" |}.
Definition no_injection : injection := {| crudErrors := no_errors; ErrorPercentage := {| Threshold := 0 |} |}.
Definition NewErrorInjection : ErrorInjection :=
  {| CSPIError := no_injection; CSPCError := no_injection; DeploymentError := no_injection;
     ZFSError := no_injection; CVRError := no_injection |}.

(** ** Setters (types.go) *)

Definition set_crud (f : CRUDErrorInjection → CRUDErrorInjection) (i : injection) : injection :=
  {| crudErrors := f (crudErrors i); ErrorPercentage := ErrorPercentage i |}.
Definition set_threshold (t : Z) (i : injection) : injection :=
  {| crudErrors := crudErrors i; ErrorPercentage := {| Threshold := t |} |}.

Definition WithCSPCDeleteCollectionError (ejectOrInject : string) (ei : ErrorInjection) : ErrorInjection :=
  ei {{ CSPCError ::= set_crud (λ c, c {{ InjectDeleteCollectionError := ejectOrInject }}) }}.
Definition WithCSPCDeleteError (ejectOrInject : string) (ei : ErrorInjection) : ErrorInjection :=
  ei {{ CSPCError ::= set_crud (λ c, c {{ InjectDeleteError := ejectOrInject }}) }}.
Definition WithCSPCListError (ejectOrInject : string) (ei : ErrorInjection) : ErrorInjection :=
  ei {{ CSPCError ::= set_crud (λ c, c {{ InjectListError := ejectOrInject }}) }}.
Definition WithCSPCGetError (ejectOrInject : string) (ei : ErrorInjection) : ErrorInjection :=
  ei {{ CSPCError ::= set_crud (λ c, c {{ InjectGetError := ejectOrInject }}) }}.
Definition WithCSPCCreateError (ejectOrInject : string) (ei : ErrorInjection) : ErrorInjection :=
  ei {{ CSPCError ::= set_crud (λ c, c {{ InjectCreateError := ejectOrInject }}) }}.
Definition WithCSPCUpdateError (ejectOrInject : string) (ei : ErrorInjection) : ErrorInjection :=
  ei {{ CSPCError ::= set_crud (λ c, c {{ InjectUpdateError := ejectOrInject }}) }}.
Definition WithCSPCPatchError (ejectOrInject : string) (ei : ErrorInjection) : ErrorInjection :=
  ei {{ CSPCError ::= set_crud (λ c, c {{ InjectPatchError := ejectOrInject }}) }}.
Definition WithCSPIDeleteCollectionError (ejectOrInject : string) (ei : ErrorInjection) : ErrorInjection :=
  ei {{ CSPIError ::= set_crud (λ c, c {{ InjectDeleteCollectionError := ejectOrInject }}) }}.
Definition WithCSPIDeleteError (ejectOrInject : string) (ei : ErrorInjection) : ErrorInjection :=
  ei {{ CSPIError ::= set_crud (λ c, c {{ InjectDeleteError := ejectOrInject }}) }}.
Definition WithCSPIListError (ejectOrInject : string) (ei : ErrorInjection) : ErrorInjection :=
  ei {{ CSPIError ::= set_crud (λ c, c {{ InjectListError := ejectOrInject }}) }}.
Definition WithCSPIGetError (ejectOrInject : string) (ei : ErrorInjection) : ErrorInjection :=
  ei {{ CSPIError ::= set_crud (λ c, c {{ InjectGetError := ejectOrInject }}) }}.
Definition WithCSPICreateError (ejectOrInject : string) (ei : ErrorInjection) : ErrorInjection :=
  ei {{ CSPIError ::= set_crud (λ c, c {{ InjectCreateError := ejectOrInject }}) }}.
Definition WithCSPIUpdateError (ejectOrInject : string) (ei : ErrorInjection) : ErrorInjection :=
  ei {{ CSPIError ::= set_crud (λ c, c {{ InjectUpdateError := ejectOrInject }}) }}.
Definition WithCSPIPatchError (ejectOrInject : string) (ei : ErrorInjection) : ErrorInjection :=
  ei {{ CSPIError ::= set_crud (λ c, c {{ InjectPatchError := ejectOrInject }}) }}.
Definition WithDeploymentDeleteCollectionError (ejectOrInject : string) (ei : ErrorInjection) : ErrorInjection :=
  ei {{ DeploymentError ::= set_crud (λ c, c {{ InjectDeleteCollectionError := ejectOrInject }}) }}.
Definition WithDeploymentDeleteError (ejectOrInject : string) (ei : ErrorInjection) : ErrorInjection :=
  ei {{ DeploymentError ::= set_crud (λ c, c {{ InjectDeleteError := ejectOrInject }}) }}.
Definition WithDeploymentListError (ejectOrInject : string) (ei : ErrorInjection) : ErrorInjection :=
  ei {{ DeploymentError ::= set_crud (λ c, c {{ InjectListError := ejectOrInject }}) }}.
Definition WithDeploymentGetError (ejectOrInject : string) (ei : ErrorInjection) : ErrorInjection :=
  ei {{ DeploymentError ::= set_crud (λ c, c {{ InjectGetError := ejectOrInject }}) }}.
Definition WithDeploymentCreateError (ejectOrInject : string) (ei : ErrorInjection) : ErrorInjection :=
  ei {{ DeploymentError ::= set_crud (λ c, c {{ InjectCreateError := ejectOrInject }}) }}.
Definition WithDeploymentUpdateError (ejectOrInject : string) (ei : ErrorInjection) : ErrorInjection :=
  ei {{ DeploymentError ::= set_crud (λ c, c {{ InjectUpdateError := ejectOrInject }}) }}.
Definition WithDeploymentPatchError (ejectOrInject : string) (ei : ErrorInjection) : ErrorInjection :=
  ei {{ DeploymentError ::= set_crud (λ c, c {{ InjectPatchError := ejectOrInject }}) }}.
Definition WithZFSGetError (ejectOrInject : string) (ei : ErrorInjection) : ErrorInjection :=
  ei {{ ZFSError ::= set_crud (λ c, c {{ InjectGetError := ejectOrInject }}) }}.
Definition WithZFSCreateError (ejectOrInject : string) (ei : ErrorInjection) : ErrorInjection :=
  ei {{ ZFSError ::= set_crud (λ c, c {{ InjectCreateError := ejectOrInject }}) }}.
Definition WithZFSDeleteError (ejectOrInject : string) (ei : ErrorInjection) : ErrorInjection :=
  ei {{ ZFSError ::= set_crud (λ c, c {{ InjectDeleteError := ejectOrInject }}) }}.
Definition WithCVRCreateError (ejectOrInject : string) (ei : ErrorInjection) : ErrorInjection :=
  ei {{ CVRError ::= set_crud (λ c, c {{ InjectCreateError := ejectOrInject }}) }}.
Definition WithCVRGetError (ejectOrInject : string) (ei : ErrorInjection) : ErrorInjection :=
  ei {{ CVRError ::= set_crud (λ c, c {{ InjectGetError := ejectOrInject }}) }}.
Definition WithCVRDeleteError (ejectOrInject : string) (ei : ErrorInjection) : ErrorInjection :=
  ei {{ CVRError ::= set_crud (λ c, c {{ InjectDeleteError := ejectOrInject }}) }}.
Definition WithCVRUpdateError (ejectOrInject : string) (ei : ErrorInjection) : ErrorInjection :=
  ei {{ CVRError ::= set_crud (λ c, c {{ InjectUpdateError := ejectOrInject }}) }}.

(** ** Thresholds: the errors are injected when a random percentage is above the threshold *)

Section threshold.
Context {W : Type} (rand_Intn : Z → W → Z * W).
Definition GetRandomErrorPercentage : M W Z := call (rand_Intn 101).
Definition WithCSPIThreshold (threshold : Z) (ei : ErrorInjection) : M W ErrorInjection :=
  let ei := ei {{ CSPIError ::= set_threshold threshold }} in
  let* percentage := GetRandomErrorPercentage in
  mret (if (threshold <? percentage)%Z then
    WithCSPIUpdateError Inject (WithCSPIPatchError Inject (WithCSPIListError Inject (WithCSPIGetError Inject (WithCSPIDeleteError Inject (WithCSPICreateError Inject (WithCSPIDeleteCollectionError Inject ei))))))
  else ei).
Definition WithCSPCThreshold (threshold : Z) (ei : ErrorInjection) : M W ErrorInjection :=
  let ei := ei {{ CSPCError ::= set_threshold threshold }} in
  let* percentage := GetRandomErrorPercentage in
  mret (if (threshold <? percentage)%Z then
    WithCSPCUpdateError Inject (WithCSPCPatchError Inject (WithCSPCListError Inject (WithCSPCGetError Inject (WithCSPCDeleteError Inject (WithCSPCCreateError Inject (WithCSPCDeleteCollectionError Inject ei))))))
  else ei).
Definition WithDeploymentThreshold (threshold : Z) (ei : ErrorInjection) : M W ErrorInjection :=
  let ei := ei {{ DeploymentError ::= set_threshold threshold }} in
  let* percentage := GetRandomErrorPercentage in
  mret (if (threshold <? percentage)%Z then
    WithDeploymentUpdateError Inject (WithDeploymentPatchError Inject (WithDeploymentListError Inject (WithDeploymentGetError Inject (WithDeploymentDeleteError Inject (WithDeploymentCreateError Inject (WithDeploymentDeleteCollectionError Inject ei))))))
  else ei).
Definition WithZFSThreshold (threshold : Z) (ei : ErrorInjection) : M W ErrorInjection :=
  let ei := ei {{ ZFSError ::= set_threshold threshold }} in
  let* percentage := GetRandomErrorPercentage in
  mret (if (threshold <? percentage)%Z then
    WithZFSGetError Inject (WithZFSDeleteError Inject (WithZFSCreateError Inject ei))
  else ei).
Definition WithCVRThreshold (threshold : Z) (ei : ErrorInjection) : M W ErrorInjection :=
  let ei := ei {{ CVRError ::= set_threshold threshold }} in
  let* percentage := GetRandomErrorPercentage in
  mret (if (threshold <? percentage)%Z then
    WithCVRUpdateError Inject (WithCVRGetError Inject (WithCVRDeleteError Inject (WithCVRCreateError Inject ei)))
  else ei).
End threshold.

(** ** Predicates of a debug build (debug.go) *)

Module DebugBuild.
Definition IsCSPCDeleteCollectionErrorInjected (ei : ErrorInjection) : bool :=
  bool_decide (InjectDeleteCollectionError (crudErrors (CSPCError ei)) = Inject).
Definition IsCSPCDeleteErrorInjected (ei : ErrorInjection) : bool :=
  bool_decide (InjectDeleteError (crudErrors (CSPCError ei)) = Inject).
Definition IsCSPCListErrorInjected (ei : ErrorInjection) : bool :=
  bool_decide (InjectListError (crudErrors (CSPCError ei)) = Inject).
Definition IsCSPCGetErrorInjected (ei : ErrorInjection) : bool :=
  bool_decide (InjectGetError (crudErrors (CSPCError ei)) = Inject).
Definition IsCSPCCreateErrorInjected (ei : ErrorInjection) : bool :=
  bool_decide (InjectCreateError (crudErrors (CSPCError ei)) = Inject).
Definition IsCSPCUpdateErrorInjected (ei : ErrorInjection) : bool :=
  bool_decide (InjectUpdateError (crudErrors (CSPCError ei)) = Inject).
Definition IsCSPCPatchErrorInjected (ei : ErrorInjection) : bool :=
  bool_decide (InjectPatchError (crudErrors (CSPCError ei)) = Inject).
Definition IsCSPIDeleteCollectionErrorInjected (ei : ErrorInjection) : bool :=
  bool_decide (InjectDeleteCollectionError (crudErrors (CSPIError ei)) = Inject).
Definition IsCSPIDeleteErrorInjected (ei : ErrorInjection) : bool :=
  bool_decide (InjectDeleteError (crudErrors (CSPIError ei)) = Inject).
Definition IsCSPIListErrorInjected (ei : ErrorInjection) : bool :=
  bool_decide (InjectListError (crudErrors (CSPIError ei)) = Inject).
Definition IsCSPIGetErrorInjected (ei : ErrorInjection) : bool :=
  bool_decide (InjectGetError (crudErrors (CSPIError ei)) = Inject).
Definition IsCSPICreateErrorInjected (ei : ErrorInjection) : bool :=
  bool_decide (InjectCreateError (crudErrors (CSPIError ei)) = Inject).
Definition IsCSPIUpdateErrorInjected (ei : ErrorInjection) : bool :=
  bool_decide (InjectUpdateError (crudErrors (CSPIError ei)) = Inject).
Definition IsCSPIPatchErrorInjected (ei : ErrorInjection) : bool :=
  bool_decide (InjectPatchError (crudErrors (CSPIError ei)) = Inject).
Definition IsDeploymentDeleteCollectionErrorInjected (ei : ErrorInjection) : bool :=
  bool_decide (InjectDeleteCollectionError (crudErrors (DeploymentError ei)) = Inject).
Definition IsDeploymentDeleteErrorInjected (ei : ErrorInjection) : bool :=
  bool_decide (InjectDeleteError (crudErrors (DeploymentError ei)) = Inject).
Definition IsDeploymentListErrorInjected (ei : ErrorInjection) : bool :=
  bool_decide (InjectListError (crudErrors (DeploymentError ei)) = Inject).
Definition IsDeploymentGetErrorInjected (ei : ErrorInjection) : bool :=
  bool_decide (InjectGetError (crudErrors (DeploymentError ei)) = Inject).
Definition IsDeploymentCreateErrorInjected (ei : ErrorInjection) : bool :=
  bool_decide (InjectCreateError (crudErrors (DeploymentError ei)) = Inject).
Definition IsDeploymentUpdateErrorInjected (ei : ErrorInjection) : bool :=
  bool_decide (InjectUpdateError (crudErrors (DeploymentError ei)) = Inject).
Definition IsDeploymentPatchErrorInjected (ei : ErrorInjection) : bool :=
  bool_decide (InjectPatchError (crudErrors (DeploymentError ei)) = Inject).
Definition IsZFSGetErrorInjected (ei : ErrorInjection) : bool :=
  bool_decide (InjectGetError (crudErrors (ZFSError ei)) = Inject).
Definition IsZFSDeleteErrorInjected (ei : ErrorInjection) : bool :=
  bool_decide (InjectDeleteError (crudErrors (ZFSError ei)) = Inject).
Definition IsZFSCreateErrorInjected (ei : ErrorInjection) : bool :=
  bool_decide (InjectCreateError (crudErrors (ZFSError ei)) = Inject).
Definition IsCVRCreateErrorInjected (ei : ErrorInjection) : bool := false.
Definition IsCVRDeleteErrorInjected (ei : ErrorInjection) : bool := false.
Definition IsCVRGetErrorInjected (ei : ErrorInjection) : bool := false.
Definition IsCVRUpdateErrorInjected (ei : ErrorInjection) : bool := false.

(** What a handler writes to its response. *)
Inductive resp_write := WriteHeader (code : Z) | Write (s : string).
Definition index : list resp_write := [WriteHeader 200; Write "Error Injection API Server Is Running!"].

Section server.
(** encoding/json on the table, which is decoded into the given one; an error leaves what was set. *)
Context (json_Marshal_EI : ErrorInjection → result string).
Context (json_Unmarshal_EI : string → ErrorInjection → ErrorInjection).
Definition inject (method : string) (body : result string) (EI : ErrorInjection) : list resp_write * ErrorInjection :=
  if bool_decide (method = "GET") then
    match json_Marshal_EI EI with
    | Err _ => ([WriteHeader 500; Write "Failed to marshal error injection config: %s"], EI)
    | OK bytes => ([WriteHeader 200; Write bytes], EI)
    end
  else if bool_decide (method = "POST") then
    match body with
    | Err _ => ([Write "Incorrect data or format in body"; WriteHeader 500;
                 Write "Incorrect data or format in body: %s"], EI)
    | OK reqBody => ([], json_Unmarshal_EI reqBody EI)
    end
  else ([Write "Method Not Allowed"; WriteHeader 405; Write "Method Not Allowed"], EI).

(** The code of a response: the first write sets it. *)
Definition resp_code (l : list resp_write) : Z := match l with WriteHeader c :: _ => c | _ => 200 end.
End server.
End DebugBuild.

(** ** Predicates of a release build (release.go) *)

Module ReleaseBuild.
Definition IsCSPCDeleteCollectionErrorInjected (ei : ErrorInjection) : bool := false.
Definition IsCSPCDeleteErrorInjected (ei : ErrorInjection) : bool := false.
Definition IsCSPCListErrorInjected (ei : ErrorInjection) : bool := false.
Definition IsCSPCGetErrorInjected (ei : ErrorInjection) : bool := false.
Definition IsCSPCCreateErrorInjected (ei : ErrorInjection) : bool := false.
Definition IsCSPCUpdateErrorInjected (ei : ErrorInjection) : bool := false.
Definition IsCSPCPatchErrorInjected (ei : ErrorInjection) : bool := false.
Definition IsCSPIDeleteCollectionErrorInjected (ei : ErrorInjection) : bool := false.
Definition IsCSPIDeleteErrorInjected (ei : ErrorInjection) : bool := false.
Definition IsCSPIListErrorInjected (ei : ErrorInjection) : bool := false.
Definition IsCSPIGetErrorInjected (ei : ErrorInjection) : bool := false.
Definition IsCSPICreateErrorInjected (ei : ErrorInjection) : bool := false.
Definition IsCSPIUpdateErrorInjected (ei : ErrorInjection) : bool := false.
Definition IsCSPIPatchErrorInjected (ei : ErrorInjection) : bool := false.
Definition IsDeploymentDeleteCollectionErrorInjected (ei : ErrorInjection) : bool := false.
Definition IsDeploymentDeleteErrorInjected (ei : ErrorInjection) : bool := false.
Definition IsDeploymentListErrorInjected (ei : ErrorInjection) : bool := false.
Definition IsDeploymentGetErrorInjected (ei : ErrorInjection) : bool := false.
Definition IsDeploymentCreateErrorInjected (ei : ErrorInjection) : bool := false.
Definition IsDeploymentUpdateErrorInjected (ei : ErrorInjection) : bool := false.
Definition IsDeploymentPatchErrorInjected (ei : ErrorInjection) : bool := false.
Definition IsZFSGetErrorInjected (ei : ErrorInjection) : bool := false.
Definition IsZFSCreateErrorInjected (ei : ErrorInjection) : bool := false.
Definition IsZFSDeleteErrorInjected (ei : ErrorInjection) : bool := false.
Definition IsCVRCreateErrorInjected (ei : ErrorInjection) : bool := false.
Definition IsCVRDeleteErrorInjected (ei : ErrorInjection) : bool := false.
Definition IsCVRGetErrorInjected (ei : ErrorInjection) : bool := false.
Definition IsCVRUpdateErrorInjected (ei : ErrorInjection) : bool := false.
End ReleaseBuild.

(** ** What the setters and the thresholds do *)

(** The setters with the predicates of the same call, for the calls whose predicate looks at the
    table. *)
Definition calls : list ((string → ErrorInjection → ErrorInjection) * (ErrorInjection → bool)) :=
  [(WithCSPCDeleteCollectionError, DebugBuild.IsCSPCDeleteCollectionErrorInjected);
   (WithCSPCDeleteError, DebugBuild.IsCSPCDeleteErrorInjected);
   (WithCSPCListError, DebugBuild.IsCSPCListErrorInjected);
   (WithCSPCGetError, DebugBuild.IsCSPCGetErrorInjected);
   (WithCSPCCreateError, DebugBuild.IsCSPCCreateErrorInjected);
   (WithCSPCUpdateError, DebugBuild.IsCSPCUpdateErrorInjected);
   (WithCSPCPatchError, DebugBuild.IsCSPCPatchErrorInjected);
   (WithCSPIDeleteCollectionError, DebugBuild.IsCSPIDeleteCollectionErrorInjected);
   (WithCSPIDeleteError, DebugBuild.IsCSPIDeleteErrorInjected);
   (WithCSPIListError, DebugBuild.IsCSPIListErrorInjected);
   (WithCSPIGetError, DebugBuild.IsCSPIGetErrorInjected);
   (WithCSPICreateError, DebugBuild.IsCSPICreateErrorInjected);
   (WithCSPIUpdateError, DebugBuild.IsCSPIUpdateErrorInjected);
   (WithCSPIPatchError, DebugBuild.IsCSPIPatchErrorInjected);
   (WithDeploymentDeleteCollectionError, DebugBuild.IsDeploymentDeleteCollectionErrorInjected);
   (WithDeploymentDeleteError, DebugBuild.IsDeploymentDeleteErrorInjected);
   (WithDeploymentListError, DebugBuild.IsDeploymentListErrorInjected);
   (WithDeploymentGetError, DebugBuild.IsDeploymentGetErrorInjected);
   (WithDeploymentCreateError, DebugBuild.IsDeploymentCreateErrorInjected);
   (WithDeploymentUpdateError, DebugBuild.IsDeploymentUpdateErrorInjected);
   (WithDeploymentPatchError, DebugBuild.IsDeploymentPatchErrorInjected);
   (WithZFSGetError, DebugBuild.IsZFSGetErrorInjected);
   (WithZFSDeleteError, DebugBuild.IsZFSDeleteErrorInjected);
   (WithZFSCreateError, DebugBuild.IsZFSCreateErrorInjected)].

(** A setter decides the predicate of its own call and no other one. *)
Lemma setters_independent i j set_i is_i set_j is_j v ei :
  calls !! i = Some (set_i, is_i) → calls !! j = Some (set_j, is_j) →
  is_j (set_i v ei) = if decide (i = j) then bool_decide (v = Inject) else is_j ei.
Proof.
  intros Hi Hj. apply lookup_lt_Some in Hi as Hi'. apply lookup_lt_Some in Hj as Hj'. cbn in Hi', Hj'.
  do 24 (destruct i as [|i]; [injection Hi as <- <-; clear Hi';
    do 24 (destruct j as [|j]; [injection Hj as <- <-; reflexivity|]); lia|]). lia.
Qed.
(** A threshold of 100 injects no errors and a negative one injects all: the percentage above which
    errors are injected is the threshold. *)
Lemma threshold_injects {W} (rand_Intn : Z → W → Z * W) threshold ei w :
  let '(p, w') := rand_Intn 101%Z w in
  ∃ ei', WithCSPCThreshold rand_Intn threshold ei w = (Ret ei', w') ∧
    DebugBuild.IsCSPCCreateErrorInjected ei' =
      ((threshold <? p)%Z || DebugBuild.IsCSPCCreateErrorInjected ei).
Proof.
  destruct (rand_Intn 101%Z w) as [p w'] eqn:Hr.
  unfold WithCSPCThreshold, GetRandomErrorPercentage, mbind, M_bind, call. rewrite Hr.
  destruct (threshold <? p)%Z; eexists; (split; [reflexivity|]); done.
Qed.

(** The response to a bad body or a method that is not allowed has the code 200: the text is
    written before the header. *)
Lemma inject_codes jm ju e EI :
  DebugBuild.resp_code (DebugBuild.inject jm ju "POST" (Err e) EI).1 = 200%Z ∧
  DebugBuild.resp_code (DebugBuild.inject jm ju "PUT" (Err e) EI).1 = 200%Z.
Proof. done. Qed.
