(* ===== verification/DebugClient.v ===== *)
(** * DebugClient: the client and the routes of the error injection (pkg/debug)

    A test drives a debug build through the client of inject_client.go; the server of debug.go
    dispatches its requests to the handlers of [Debug].  The transport is the class [HttpClient]. *)

From stdpp Require Import base gmap strings list sets.
From Stdlib Require Import ZArith Lia.
From S2P Require Import Prelude Debug.

(** net/http and net/url: a request is made from its method, its address and its body; a response
    is its code and the outcome of reading its body. *)
Record http_request := {
  hr_method : string;
  hr_url : string;
  hr_headers : gmap string string;
  hr_body : option string;
}.
Class HttpClient (W : Type) := {
  (** [u.String()] of a scheme and a host, resolved with a path *)
  url_resolved : string → string → string → string;
  (** http.NewRequest, when it refuses the address *)
  NewRequest_error : string → string → option error;
  http_Do : http_request → W → result (Z * result string) * W;
}.

(** A client has the address of its server. *)
Record Client := { BaseURL_Scheme : string; BaseURL_Host : string }.
Definition NewClient (host : string) : Client := {| BaseURL_Scheme := "http"; BaseURL_Host := host |}.

Section client.
Context {W : Type} `{!HttpClient W}.
Context (json_Marshal_EI : ErrorInjection → result string).
Context (json_Unmarshal_EI : string → ErrorInjection → ErrorInjection) (json_error : string → option error).

Definition send (c : Client) (method : string) (body : option string) : M W (result (Z * result string)) :=
  let u := url_resolved (W:=W) (BaseURL_Scheme c) (BaseURL_Host c) "/inject" in
  match NewRequest_error (W:=W) method u with
  | Some err => mret (Err err)
  | None => call (http_Do {| hr_method := method; hr_url := u;
                             hr_headers := {["Accept" := "application/json"]}; hr_body := body |})
  end.

(** The table and the error of its decoding are returned together. *)
Definition GetInject (c : Client) : M W (option ErrorInjection * option error) :=
  let* r := send c "GET" None in
  match r with
  | Err err => mret (None, Some err)
  | OK (_, body) =>
      match body with
      | Err err => mret (None, Some err)
      | OK body => mret (Some (json_Unmarshal_EI body NewErrorInjection), json_error body)
      end
  end.

(** The code and the body of the response are not looked at. *)
Definition PostInject (c : Client) (EI : ErrorInjection) : M W (option error) :=
  match json_Marshal_EI EI with
  | Err err => mret (Some err)
  | OK b =>
      let* r := send c "POST" (Some b) in
      match r with
      | Err err => mret (Some err)
      | OK _ => mret None
      end
  end.

(** RegisterRoutes: the pattern "/" has every other path. *)
Definition serve (path method : string) (body : result string) (EI : ErrorInjection)
  : list DebugBuild.resp_write * ErrorInjection :=
  if bool_decide (path = "/inject")
  then DebugBuild.inject json_Marshal_EI json_Unmarshal_EI method body EI
  else (DebugBuild.index, EI).
Definition resp_text (l : list DebugBuild.resp_write) : string :=
  foldr (λ x s, match x with DebugBuild.Write t => t +:+ s | _ => s end) "" l.

(** A transport that reaches the server: a request to the resolved address is served with its path
    on the table of the server. *)
Class Connected (c : Client) (table : W → ErrorInjection) : Prop := {
  address_ok : ∀ m, NewRequest_error (W:=W) m (url_resolved (W:=W) (BaseURL_Scheme c) (BaseURL_Host c) "/inject") = None;
  Do_serves : ∀ m h b w, ∃ w',
    let '(l, EI') := serve "/inject" m (OK (default "" b)) (table w) in
    http_Do {| hr_method := m; hr_url := url_resolved (W:=W) (BaseURL_Scheme c) (BaseURL_Host c) "/inject";
               hr_headers := h; hr_body := b |} w =
      (OK (DebugBuild.resp_code l, OK (resp_text l)), w') ∧ table w' = EI';
}.
(** encoding/json: no field of the table is omitted when it is empty, so decoding overwrites the
    whole table. *)
Class TableJson : Prop := {
  table_marshals : ∀ EI, ∃ b, json_Marshal_EI EI = OK b;
  table_decodes : ∀ EI b EI', json_Marshal_EI EI = OK b → json_Unmarshal_EI b EI' = EI ∧ json_error b = None;
}.

(** What is posted is what the server then injects, and what a client gets. *)
Lemma post_get c table EI (w : W) :
  Connected c table → TableJson →
  ∃ w1 w2, PostInject c EI w = (Ret None, w1) ∧ table w1 = EI ∧
    GetInject c w1 = (Ret (Some EI, None), w2) ∧ table w2 = EI.
Proof.
  intros Hc Hj. destruct (table_marshals EI) as [b Hb].
  destruct (Do_serves "POST" {["Accept" := "application/json"]} (Some b) w) as (w1 & Hp & Ht).
  cbn in Ht. destruct (table_decodes EI b (table w) Hb) as [Hd He]. rewrite Hd in Ht.
  destruct (Do_serves "GET" {["Accept" := "application/json"]} None w1) as (w2 & Hg).
  unfold serve, DebugBuild.inject in Hg. cbn in Hg. rewrite Ht, Hb in Hg. destruct Hg as [Hg Ht2]. cbn in Hg.
  exists w1, w2. unfold PostInject, GetInject, send, mbind, M_bind, call. rewrite Hb, !address_ok, Hp, Hg.
  split_and!; [done..| |done]. rewrite app_string_nil_r. by destruct (table_decodes EI b NewErrorInjection Hb) as [-> ->].
Qed.

(** A post that the server refuses is reported as a success. *)
Lemma post_ignores_response c EI b code body (w w' : W) :
  json_Marshal_EI EI = OK b → NewRequest_error (W:=W) "POST" (url_resolved (W:=W) (BaseURL_Scheme c) (BaseURL_Host c) "/inject") = None →
  http_Do {| hr_method := "POST"; hr_url := url_resolved (W:=W) (BaseURL_Scheme c) (BaseURL_Host c) "/inject";
             hr_headers := {["Accept" := "application/json"]}; hr_body := Some b |} w = (OK (code, body), w') →
  PostInject c EI w = (Ret None, w').
Proof. intros Hb Hn Hd. unfold PostInject, send, mbind, M_bind, call. by rewrite Hb, Hn, Hd. Qed.
End client.
