(* ===== verification/Algorithm.v ===== *)
(** * Algorithm: choosing a node and building a pool instance (pkg/cspc/algorithm)

    For each missing pool the operator picks a pool specification whose node has no
    pool yet, claims its block devices and builds the CStorPoolInstance.  The
    definitions follow select_node.go, build_csp.go and config.go; [Config] is
    passed along because a selection marks the node it visits. *)

From stdpp Require Import base gmap strings list sets pretty.
From Stdlib Require Import Ascii ZArith Lia.
From S2P Require Import Prelude Api Version Webhook PoolOps.

(** ** Configuration (config.go) *)

Record Config := {
  ac_CSPC : CStorPoolCluster;
  ac_Namespace : string;
  VisitedNodes : gset string;
}.

Record Builder := { ConfigObj : Config; errs : list error }.

Definition cspc_zero : CStorPoolCluster :=
  {| cspc_meta := meta_empty;
     cspc_Spec := {| Pools := []; DefaultResources := None; DefaultAuxResources := None;
                     spec_Tolerations := None; DefaultPriorityClassName := "" |};
     cspc_Status := {| ProvisionedInstances := 0; DesiredInstances := 0; HealthyInstances := 0;
                       Conditions := [] |};
     cspc_VersionDetails :=
       {| AutoUpgrade := false; Desired := "";
          vd_Status := {| DependentsUpgraded := false; Current := ""; State := VersionStateNone;
                          Message := ""; Reason := "" |} |} |}.

Definition NewBuilder : Builder :=
  {| ConfigObj := {| ac_CSPC := cspc_zero; ac_Namespace := ""; VisitedNodes := ∅ |}; errs := [] |}.

Definition WithNameSpace (ns : string) (b : Builder) : Builder :=
  if bool_decide (String.length ns = 0) then
    {| ConfigObj := ConfigObj b;
       errs := errs b ++
         [Errorf "failed to build algorithm config object: missing namespace" []] |}
  else
    {| ConfigObj := {| ac_CSPC := ac_CSPC (ConfigObj b); ac_Namespace := ns;
                       VisitedNodes := VisitedNodes (ConfigObj b) |};
       errs := errs b |}.

(** A nil pointer to a cluster is [None]. *)
Definition WithCSPC (cspc : option CStorPoolCluster) (b : Builder) : Builder :=
  match cspc with
  | None =>
      {| ConfigObj := ConfigObj b;
         errs := errs b ++ [Errorf "failed to build algorithm config object: nil cspc object" []] |}
  | Some cspc =>
      {| ConfigObj := {| ac_CSPC := cspc; ac_Namespace := ac_Namespace (ConfigObj b);
                         VisitedNodes := VisitedNodes (ConfigObj b) |};
         errs := errs b |}
  end.

Definition Build (b : Builder) : result Config :=
  if bool_decide (0 < length (errs b)) then Err (Errorf "%+v" []) else OK (ConfigObj b).

Definition visit (nodeName : string) (ac : Config) : Config :=
  {| ac_CSPC := ac_CSPC ac; ac_Namespace := ac_Namespace ac;
     VisitedNodes := {[nodeName]} ∪ VisitedNodes ac |}.

(** ** Devices, claims and tags (select_node.go) *)

Definition GetBDListForNode (pool : PoolSpec) : list string :=
  (DataRaidGroups pool ++ WriteCacheRaidGroups pool) ≫= λ group,
    BlockDeviceName <$> CStorPoolInstanceBlockDevices group.

Definition IsBlockDeviceClaimed `{OpenebsApi} (bd : BlockDevice) : bool :=
  bool_decide (bd_ClaimState bd = BlockDeviceClaimed).

Definition BDCHasLabel (labelKey labelValue : string) (bdc : BlockDeviceClaim) : bool :=
  match labels bdc !! labelKey with
  | Some val => bool_decide (val = labelValue)
  | None => false
  end.

Definition GetCapacity `{OpenebsApi} (capacity : string) : result Z :=
  match ParseQuantity capacity with
  | Err _ => Err (Errorf "Failed to parse capacity:{%s}" [])
  | OK resCapacity => OK resCapacity
  end.

(** The body of the loop keeps an entry as it is written, spaces included. *)
Definition getAllowedTagMap `{OpenebsApi} (cspcAnnotation : gmap string string) : gset string :=
  let allowedTags := label cspcAnnotation OpenEBSAllowedBDTagKey in
  if bool_decide (TrimSpace allowedTags = "") then ∅
  else
    foldl (λ allowedTagsMap v,
             if bool_decide (TrimSpace v = "") then allowedTagsMap else {[v]} ∪ allowedTagsMap)
      ∅ (split_on ","%char allowedTags).

Definition ApiVersion : string := "cstor.openebs.io/v1".
Definition StoragePoolKindCSPC : string := "CStorPoolCluster".

Definition GetCSPCOwnerReference (cspc : CStorPoolCluster) : OwnerReference :=
  {| or_apiVersion := ApiVersion; or_kind := StoragePoolKindCSPC; or_name := name cspc;
     or_uid := uid cspc; or_controller := Some true; or_blockOwnerDeletion := Some true |}.

Section algorithm.
Context {W : Type} `{GoRuntime} `{OpenebsApi} `{BuildInfo} `{!Env W}.
Context `{!ResourceClient W Node} `{!ResourceClient W BlockDevice}
  `{!ResourceClient W BlockDeviceClaim} `{!ResourceClient W CStorPoolInstance}.

(** getLabelSelectorString is the text of the function of that name in
    pkg/webhook, and ByteCount that of pkg/webhook/util.go. *)
Definition GetNodeFromLabelSelector (w : W) (sel : gmap string string)
  : outcome (result string) :=
  let* selector := getLabelSelectorString sel in
  Ret match rList (Obj:=Node) w "" selector with
      | Err err => Err (Wrapf err "failed to get node list from the node selector" [])
      | OK items =>
          match items with
          | [node] => OK (label (labels node) HostNameLabelKey)
          | _ => Err (Errorf "invalid no.of nodes %d from the given node selectors" [])
          end
      end.

(** The pool instances of the cluster. *)
Definition list_cspis (w : W) (ac : Config) : result (list CStorPoolInstance) :=
  rList w (ac_Namespace ac) (CStorPoolClusterLabelKey +:+ "=" +:+ name (ac_CSPC ac)).

Definition GetUsedNodes (w : W) (ac : Config) : result (gset string) :=
  match list_cspis w ac with
  | Err err => Err (Wrapf err "could not list already created cspi(s)" [])
  | OK cspiList =>
      OK (foldl (λ usedNode cspObj, {[label (labels cspObj) HostNameLabelKey]} ∪ usedNode)
            ∅ cspiList)
  end.

Definition GetUsedBlockDevices (w : W) (ac : Config) : result (gset string) :=
  match list_cspis w ac with
  | Err err => Err (Wrapf err "could not list already provisioned cspi(s)" [])
  | OK cspiList =>
      OK (foldl (λ used cspiObj,
            foldl (λ used rg,
              foldl (λ used cspiBD, {[BlockDeviceName cspiBD]} ∪ used) used
                (CStorPoolInstanceBlockDevices rg))
              used (cspi_DataRaidGroups (cspi_Spec cspiObj) ++
                    cspi_WriteCacheRaidGroups (cspi_Spec cspiObj)))
            ∅ cspiList)
  end.

(** *** Selecting a node *)

(** The loop over the pools.  A node with an empty host name label makes the
    error message dereference a nil error. *)
Fixpoint select_pool (w : W) (ac : Config) (usedNodes usedBlockDevices : gset string)
  (pools : list PoolSpec) : outcome (result (PoolSpec * string) * Config) :=
  match pools with
  | [] => Ret (Err (Errorf "no node qualified for pool creation" []), ac)
  | pool :: pools' =>
      let* r := GetNodeFromLabelSelector w (NodeSelector pool) in
      match r with
      | Err _ => select_pool w ac usedNodes usedBlockDevices pools'
      | OK nodeName =>
          if bool_decide (nodeName = "") then
            Panic "invalid memory address or nil pointer dereference"
          else if has (VisitedNodes ac) nodeName then
            select_pool w ac usedNodes usedBlockDevices pools'
          else
            let ac := visit nodeName ac in
            if existsb (has usedBlockDevices) (GetBDListForNode pool) then
              select_pool w ac usedNodes usedBlockDevices pools'
            else if negb (has usedNodes nodeName) then Ret (OK (pool, nodeName), ac)
            else select_pool w ac usedNodes usedBlockDevices pools'
      end
  end.

Definition SelectNode (w : W) (ac : Config) : outcome (result (PoolSpec * string) * Config) :=
  match GetUsedNodes w ac with
  | Err err => Ret (Err (Wrapf err "could not get used nodes list for pool creation" []), ac)
  | OK usedNodes =>
      match GetUsedBlockDevices w ac with
      | Err err =>
          Ret (Err (Wrapf err "could not get used blockdevice list for pool creation" []), ac)
      | OK usedBlockDevices =>
          select_pool w ac usedNodes usedBlockDevices (Pools (cspc_Spec (ac_CSPC ac)))
      end
  end.

(** *** Claiming block devices *)

Definition IsClaimedBDUsable (w : W) (ac : Config) (bd : BlockDevice) : result bool :=
  if IsBlockDeviceClaimed bd then
    match bd_ClaimRef bd with
    | None => Err (Errorf "nil claim reference found in bd" [])
    | Some bdcName =>
        match rGet (Obj:=BlockDeviceClaim) w (ac_Namespace ac) bdcName with
        | Err err =>
            Err (Wrapf err "could not get block device claim for block device {%s}" [name bd])
        | OK bdcAPIObject =>
            if BDCHasLabel CStorPoolClusterLabelKey (name (ac_CSPC ac)) bdcAPIObject
            then OK true else OK false
        end
    end
  else Err (Errorf "block device {%s} is not claimed" [name bd]).

(** The end of ClaimBD: a claim that exists already is left as it is. *)
Definition create_claim (ac : Config) (bdObj : BlockDevice) (newBDCObj : BlockDeviceClaim)
  : M W (result unit) :=
  let* r := call (rCreate (ac_Namespace ac) newBDCObj) in
  match r with
  | OK _ => mret (OK tt)
  | Err err =>
      if IsAlreadyExists err then mret (OK tt)
      else mret (Err (Wrapf err "failed to create block device claim for bd {%s}" [name bdObj]))
  end.

Definition ClaimBD (ac : Config) (bdObj : BlockDevice) : M W (result unit) :=
  let* capacity := lift (λ _, ByteCount (bd_Storage bdObj)) in
  match GetCapacity capacity with
  | Err _ => mret (Err (Errorf "failed to get capacity from block device %s:%s" [name bdObj]))
  | OK resourceList =>
      let value := labels bdObj !! BlockDeviceTagLabelKey in
      let allowedBDTags := getAllowedTagMap (annotations (ac_CSPC ac)) in
      let tag_error :=
        match value with
        | None => None
        | Some value =>
            if bool_decide (TrimSpace value = "") then
              Some (Errorf "failed to create block device claim for bd {%s} as it has empty value for bd tag"
                      [name bdObj])
            else if negb (has allowedBDTags (TrimSpace value)) then
              Some (Errorf "cannot use bd {%s} as it has tag %s but cspc has allowed bd tags as %s"
                      [name bdObj; value;
                       label (annotations (ac_CSPC ac)) OpenEBSAllowedBDTagKey])
            else None
        end in
      match tag_error with
      | Some err => mret (Err err)
      | None =>
          let newBDCObj :=
            build_bdc {| ba_name := "bdc-cstor-" +:+ uid bdObj;
                         ba_namespace := ac_Namespace ac;
                         ba_labels := {[CStorPoolClusterLabelKey := name (ac_CSPC ac)]};
                         ba_annotations := ∅;
                         ba_blockDeviceName := name bdObj;
                         ba_hostName := label (labels bdObj) HostNameLabelKey;
                         ba_capacity := resourceList;
                         ba_owner := GetCSPCOwnerReference (ac_CSPC ac);
                         ba_finalizer := CSPCFinalizer |} in
          let newBDCObj :=
            match value with
            | Some value => bdc_with_selector (Some {[BlockDeviceTagLabelKey := value]}) newBDCObj
            | None => newBDCObj
            end in
          create_claim ac bdObj newBDCObj
      end
  end.

(** The loop over the devices; [pendingClaim] counts the claims it made. *)
Fixpoint claim_devices (ac : Config) (BD : list string) (pendingClaim : nat)
  (pendingClaimBDs : gset string) : M W (result unit) :=
  match BD with
  | [] =>
      if bool_decide (0 < pendingClaim) then
        mret (Err (Errorf "%d block device claims are pending, BDs that are pending for claim are::%v"
                     (elements pendingClaimBDs)))
      else mret (OK tt)
  | bdName :: BD' =>
      let* r := reads (λ w, rGet (Obj:=BlockDevice) w (ac_Namespace ac) bdName) in
      match r with
      | Err err =>
          mret (Err (Wrapf err "error in getting details for BD {%s} whether it is claimed" [bdName]))
      | OK bdAPIObj =>
          if IsBlockDeviceClaimed bdAPIObj then
            let* u := reads (λ w, IsClaimedBDUsable w ac bdAPIObj) in
            match u with
            | Err errBD =>
                mret (Err (Wrapf errBD "error in getting details for BD {%s} for usability" [bdName]))
            | OK false => mret (Err (Errorf "BD {%s} already in use" [bdName]))
            | OK true => claim_devices ac BD' pendingClaim pendingClaimBDs
            end
          else
            let* c := ClaimBD ac bdAPIObj in
            match c with
            | Err err => mret (Err (Wrapf err "Failed to claim BD {%s}" [bdName]))
            | OK _ => claim_devices ac BD' (S pendingClaim) ({[name bdAPIObj]} ∪ pendingClaimBDs)
            end
      end
  end.

Definition ClaimBDsForNode (ac : Config) (BD : list string) : M W (result unit) :=
  claim_devices ac BD 0 ∅.

(** *** The pool instance (build_csp.go) *)

Definition buildLabelsForCSPI (ac : Config) (nodeName : string) : gmap string string :=
  <[CASTypeLabelKey := CasTypeCStor]>
    (<[OpenEBSVersionLabelKey := GetVersion]>
      (<[CStorPoolClusterLabelKey := name (ac_CSPC ac)]>
        (<[HostNameLabelKey := nodeName]> ∅))).

(** The defaulting of the pool configuration of a new pool instance. *)
Definition creation_defaults (spec : CStorPoolClusterSpec) (pc : PoolConfig) : PoolConfig :=
  {| DataRaidGroupType := DataRaidGroupType pc;
     WriteCacheGroupType := WriteCacheGroupType pc;
     ThickProvision := ThickProvision pc;
     Compression := Compression pc;
     Resources := match Resources pc with None => DefaultResources spec | r => r end;
     AuxResources := match AuxResources pc with None => DefaultAuxResources spec | r => r end;
     Tolerations := match Tolerations pc with
                    | None | Some [] => spec_Tolerations spec
                    | t => t
                    end;
     PriorityClassName := match PriorityClassName pc with
                          | None => Some (DefaultPriorityClassName spec)
                          | p => p
                          end;
     ROThresholdLimit := match ROThresholdLimit pc with None => Some 85%Z | l => l end |}.

Definition GetCSPISpec (ac : Config) : M W (result CStorPoolInstance * Config) :=
  let* (r, ac) := lift (λ w, SelectNode w ac) in
  match r with
  | Err err => mret (Err (Wrapf err "failed to select a node" []), ac)
  | OK (poolSpec, nodeName) =>
      if bool_decide (nodeName = "") then
        mret (Err (Errorf "failed to select a node as empty node name received from SelectNode" []),
              ac)
      else
        let poolConfig := creation_defaults (cspc_Spec (ac_CSPC ac)) (ps_PoolConfig poolSpec) in
        let* suffix := rand_string 4 in
        let cspiObj :=
          build_cspi {| ca_name := name (ac_CSPC ac) +:+ "-" +:+ suffix;
                        ca_namespace := ac_Namespace ac;
                        ca_nodeSelector := NodeSelector poolSpec;
                        ca_nodeName := nodeName;
                        ca_poolConfig := poolConfig;
                        ca_data := DataRaidGroups poolSpec;
                        ca_writeCache := WriteCacheRaidGroups poolSpec;
                        ca_owner := GetCSPCOwnerReference (ac_CSPC ac);
                        ca_labels := buildLabelsForCSPI ac nodeName;
                        ca_finalizer := CSPCFinalizer;
                        ca_version := GetVersion |} in
        let cspiObj :=
          if bool_decide (label (annotations (ac_CSPC ac)) OpenEBSDisableDependantsReconcileKey
                          = "true")
          then cspi_WithAnnotations {[OpenEBSDisableReconcileLabelKey := "true"]} cspiObj
          else cspiObj in
        let* c := ClaimBDsForNode ac (GetBDListForNode poolSpec) in
        match c with
        | Err err => mret (Err (Wrapf err "failed to claim block devices for node {%s}" [nodeName]),
                           ac)
        | OK _ => mret (OK cspiObj, ac)
        end
  end.
End algorithm.

(** ** Allowed tags *)

Lemma allowed_tags_fold (l : list string) (acc : gset string) t :
  t ∈ foldl (λ m v, if bool_decide (TrimSpace v = "") then m else {[v]} ∪ m) acc l ↔
  t ∈ acc ∨ (t ∈ l ∧ TrimSpace t ≠ "").
Proof.
  revert acc. induction l as [|v l IH]; intros acc; cbn; [set_solver|].
  rewrite IH. case_bool_decide; set_solver.
Qed.

(** A tag is allowed when it is an entry of the annotation, as written there. *)
Lemma allowed_tags_spec `{OpenebsApi} a t :
  t ∈ getAllowedTagMap a ↔
  t ∈ split_on ","%char (label a OpenEBSAllowedBDTagKey) ∧ TrimSpace t ≠ "" ∧
  TrimSpace (label a OpenEBSAllowedBDTagKey) ≠ "".
Proof.
  unfold getAllowedTagMap. case_bool_decide as Ht; [set_solver|].
  rewrite allowed_tags_fold. set_solver.
Qed.

(** ** Selecting a node, and claiming *)

Section algorithm_facts.
Context {W : Type} `{GoRuntime} `{OpenebsApi} `{BuildInfo} `{!Env W}.
Context `{!ResourceClient W Node} `{!ResourceClient W BlockDevice}
  `{!ResourceClient W BlockDeviceClaim} `{!ResourceClient W CStorPoolInstance}.
Implicit Types (w : W) (ac : Config).

Lemma GetNode_OK w sel host :
  GetNodeFromLabelSelector w sel = Ret (OK host) ↔ selects w sel host.
Proof. apply GetHostName_OK. Qed.

(** Two configurations of the same cluster, the second one having visited more nodes. *)
Definition advanced ac ac' : Prop :=
  ac_CSPC ac' = ac_CSPC ac ∧ ac_Namespace ac' = ac_Namespace ac ∧
  VisitedNodes ac ⊆ VisitedNodes ac'.

#[local] Instance advanced_preorder : PreOrder advanced.
Proof. split; [by intros ac|]. intros x y z (?&?&?) (?&?&?). split_and!; [congruence..|set_solver]. Qed.

Lemma advanced_visit n ac : advanced ac (visit n ac).
Proof. split_and!; [done..|cbn; set_solver]. Qed.

(** One round of the loop. *)
Definition round_skipped w ac (usedNodes usedBDs : gset string) (p : PoolSpec) ac' : Prop :=
  (ac' = ac ∧ ∀ n, selects w (NodeSelector p) n → n ∈ VisitedNodes ac) ∨
  (∃ n, ac' = visit n ac ∧ selects w (NodeSelector p) n ∧
    (n ∈ usedNodes ∨ ∃ bd, bd ∈ GetBDListForNode p ∧ bd ∈ usedBDs)).

Lemma select_pool_cons w ac usedNodes usedBDs p pools r ac' :
  select_pool w ac usedNodes usedBDs (p :: pools) = Ret (r, ac') →
  (∃ ac1, round_skipped w ac usedNodes usedBDs p ac1 ∧
     select_pool w ac1 usedNodes usedBDs pools = Ret (r, ac')) ∨
  (∃ n, r = OK (p, n) ∧ ac' = visit n ac ∧ selects w (NodeSelector p) n ∧ n ≠ "" ∧
     n ∉ VisitedNodes ac ∧ n ∉ usedNodes ∧ ∀ bd, bd ∈ GetBDListForNode p → bd ∉ usedBDs).
Proof.
  cbn [select_pool]. intros Hr. apply outcome_bind_Ret in Hr as (v & Hv & Hr).
  destruct v as [n|e]; [|left; exists ac; split; [left|done]; split; [done|]].
  - pose proof Hv as Hsel. apply GetNode_OK in Hsel.
    case_bool_decide as Hn; [done|]. destruct (has (VisitedNodes ac) n) eqn:Hvis.
    { apply has_true in Hvis. left. exists ac. split; [|done]. left. split; [done|].
      intros n' Hs%GetNode_OK. rewrite Hv in Hs. by simplify_eq. }
    apply has_false in Hvis. destruct (existsb _ _) eqn:Hbd.
    { apply existsb_true in Hbd as (bd & Hin & Hu%has_true). left. eexists. split; [|exact Hr].
      right. eauto 10. }
    destruct (has usedNodes n) eqn:Hu; cbn in Hr.
    { apply has_true in Hu. left. eexists. split; [|exact Hr]. right. eauto 10. }
    apply has_false in Hu. simplify_eq. right. exists n. split_and!; try done.
    intros bd Hin. apply has_false. by eapply existsb_false in Hbd.
  - intros n Hs%GetNode_OK. congruence.
Qed.

Lemma round_advanced w ac un ub p ac' : round_skipped w ac un ub p ac' → advanced ac ac'.
Proof. intros [[-> _]|(n & -> & _)]; [done|apply advanced_visit]. Qed.

Lemma select_pool_advanced w ac un ub pools r ac' :
  select_pool w ac un ub pools = Ret (r, ac') → advanced ac ac'.
Proof.
  revert ac. induction pools as [|p pools IH]; intros ac Hr; [by simplify_eq/=|].
  apply select_pool_cons in Hr as [(ac1 & Hs%round_advanced & Hr)|(n & _ & -> & _)].
  - etrans; [done|by eapply IH].
  - apply advanced_visit.
Qed.

(** What a selection guarantees. *)
Definition selected w ac (un ub : gset string) (p : PoolSpec) (n : string) : Prop :=
  selects w (NodeSelector p) n ∧ n ≠ "" ∧ n ∉ VisitedNodes ac ∧ n ∉ un ∧
  ∀ bd, bd ∈ GetBDListForNode p → bd ∉ ub.

Lemma select_pool_OK w ac un ub pools p n ac' :
  select_pool w ac un ub pools = Ret (OK (p, n), ac') →
  p ∈ pools ∧ selected w ac un ub p n ∧ n ∈ VisitedNodes ac'.
Proof.
  revert ac. induction pools as [|p0 pools IH]; intros ac Hr; [done|].
  apply select_pool_cons in Hr as [(ac1 & Hs%round_advanced & Hr)|(n0 & E & -> & Hp)].
  - apply IH in Hr as (Hin & (? & ? & ? & ?) & ?). destruct Hs as (_ & _ & Hsub).
    split_and!; [set_solver| |done]. split_and!; try done; set_solver.
  - simplify_eq. split_and!; [set_solver|done|cbn; set_solver].
Qed.

(** Why no pool was selected: each pool that has a node names one that was
    visited before, or that holds a pool, or that would reuse a device. *)
Lemma select_pool_Err w ac un ub pools e ac' p n :
  select_pool w ac un ub pools = Ret (Err e, ac') → p ∈ pools → selects w (NodeSelector p) n →
  n ∈ VisitedNodes ac ∨ ∃ p', p' ∈ pools ∧ selects w (NodeSelector p') n ∧
    (n ∈ un ∨ ∃ bd, bd ∈ GetBDListForNode p' ∧ bd ∈ ub).
Proof.
  revert ac. induction pools as [|p0 pools IH]; intros ac Hr Hp Hn; [set_solver|].
  apply select_pool_cons in Hr as [(ac1 & Hs & Hr)|(n0 & E & _)]; [|done].
  destruct (decide (n ∈ VisitedNodes ac1)) as [Hv|Hv].
  - destruct Hs as [[-> _]|(n1 & -> & Hsel & Hwhy)]; [by left|].
    apply elem_of_union in Hv as [Heq%elem_of_singleton|]; [|by left]. subst n1.
    right. exists p0. split_and!; [set_solver|done..].
  - apply elem_of_cons in Hp as [->|Hp].
    + destruct Hs as [[-> Hall]|(n1 & -> & Hsel & Hwhy)]; [naive_solver|].
      apply GetNode_OK in Hn, Hsel. rewrite Hn in Hsel. simplify_eq. cbn in Hv. set_solver.
    + apply IH in Hr as [?|(p' & Hp' & ?)]; [done| |done|done]. right. exists p'. set_solver.
Qed.

(** The nodes and devices in use, read back from the pool instances. *)
Definition node_used w ac (n : string) : Prop :=
  ∃ cspis c, list_cspis w ac = OK cspis ∧ c ∈ cspis ∧ label (labels c) HostNameLabelKey = n.
Definition cspi_bds (c : CStorPoolInstance) : list string :=
  rgs_bds (cspi_DataRaidGroups (cspi_Spec c) ++ cspi_WriteCacheRaidGroups (cspi_Spec c)).
Definition device_used w ac (bd : string) : Prop :=
  ∃ cspis c, list_cspis w ac = OK cspis ∧ c ∈ cspis ∧ bd ∈ cspi_bds c.

Lemma foldl_add {A} (f : A → string) (l : list A) (acc : gset string) x :
  x ∈ foldl (λ s a, {[f a]} ∪ s) acc l ↔ x ∈ acc ∨ x ∈ (f <$> l).
Proof. revert acc. induction l as [|a l IH]; intros acc; cbn; [set_solver|]. rewrite IH. set_solver. Qed.

Lemma used_nodes_spec w ac s n : GetUsedNodes w ac = OK s → n ∈ s ↔ node_used w ac n.
Proof.
  unfold GetUsedNodes, node_used. intros. case_match eqn:E; simplify_eq.
  rewrite foldl_add, list_elem_of_fmap. set_solver.
Qed.

Lemma used_devices_spec w ac s bd : GetUsedBlockDevices w ac = OK s → bd ∈ s ↔ device_used w ac bd.
Proof.
  unfold GetUsedBlockDevices, device_used. intros. case_match eqn:E; simplify_eq.
  rename select (list CStorPoolInstance) into l.
  assert (∀ acc : gset string, foldl (λ used cspiObj, foldl (λ used rg,
      foldl (λ used cspiBD, {[BlockDeviceName cspiBD]} ∪ used) used
        (CStorPoolInstanceBlockDevices rg)) used
      (cspi_DataRaidGroups (cspi_Spec cspiObj) ++ cspi_WriteCacheRaidGroups (cspi_Spec cspiObj)))
      acc l = foldl (λ s x, {[x]} ∪ s) acc (l ≫= cspi_bds)) as ->.
  { intros acc. rewrite <- foldl_bind. apply foldl_ext_in. intros s c _. unfold cspi_bds, rgs_bds.
    rewrite <- foldl_bind. apply foldl_ext_in. intros s' rg _. unfold rg_bds.
    by rewrite <- foldl_fmap. }
  rewrite (foldl_add id), list_fmap_id, list_elem_of_bind. set_solver.
Qed.

Lemma SelectNode_OK w ac p n ac' :
  SelectNode w ac = Ret (OK (p, n), ac') →
  p ∈ Pools (cspc_Spec (ac_CSPC ac)) ∧ selects w (NodeSelector p) n ∧ n ≠ "" ∧
  n ∉ VisitedNodes ac ∧ n ∈ VisitedNodes ac' ∧ advanced ac ac' ∧ ¬ node_used w ac n ∧
  ∀ bd, bd ∈ pool_bds p → ¬ device_used w ac bd.
Proof.
  unfold SelectNode. intros Hr. destruct (GetUsedNodes w ac) as [un|] eqn:Eu; [|done].
  destruct (GetUsedBlockDevices w ac) as [ub|] eqn:Eb; [|done].
  pose proof (select_pool_advanced _ _ _ _ _ _ _ Hr) as Hadv.
  apply select_pool_OK in Hr as (Hin & (Hs & Hne & Hv & Hu & Hb) & Hv').
  split_and!; try done.
  - by rewrite <- used_nodes_spec.
  - intros bd Hbd. rewrite <- used_devices_spec; eauto.
Qed.

Lemma SelectNode_advanced w ac r ac' : SelectNode w ac = Ret (r, ac') → advanced ac ac'.
Proof.
  unfold SelectNode. intros Hr. split_run; try done. by eapply select_pool_advanced.
Qed.

(** *** Claims *)

(** The device is claimed, and its claim carries the label of the cluster. *)
Definition claimed_by w ac (bd : string) : Prop :=
  ∃ (o : BlockDevice) c (bdc : BlockDeviceClaim),
    rGet w (ac_Namespace ac) bd = OK o ∧ bd_ClaimState o = BlockDeviceClaimed ∧
    bd_ClaimRef o = Some c ∧ rGet w (ac_Namespace ac) c = OK bdc ∧
    labels bdc !! CStorPoolClusterLabelKey = Some (name (ac_CSPC ac)).

Lemma IsClaimedBDUsable_true w ac o :
  IsClaimedBDUsable w ac o = OK true ↔
  bd_ClaimState o = BlockDeviceClaimed ∧ ∃ c (bdc : BlockDeviceClaim),
    bd_ClaimRef o = Some c ∧ rGet w (ac_Namespace ac) c = OK bdc ∧
    labels bdc !! CStorPoolClusterLabelKey = Some (name (ac_CSPC ac)).
Proof.
  unfold IsClaimedBDUsable, IsBlockDeviceClaimed, BDCHasLabel. case_bool_decide; [|naive_solver].
  destruct (bd_ClaimRef o) as [c|]; [|naive_solver].
  destruct (rGet w _ c) as [bdc|] eqn:Hg;
    [|split; [done|]; intros (_ & c0 & b0 & ? & ? & _); simplify_eq; congruence].
  destruct (labels bdc !! CStorPoolClusterLabelKey) as [v|] eqn:Hl; [case_bool_decide|]; cbn;
    (split; [intros; simplify_eq; eauto 10|intros (_ & c' & b' & ? & ? & ?); simplify_eq; congruence]).
Qed.

(** The tag of a device lets the cluster use it. *)
Definition tag_allowed ac (o : BlockDevice) : Prop :=
  ∀ v, labels o !! BlockDeviceTagLabelKey = Some v →
    TrimSpace v ≠ "" ∧ TrimSpace v ∈ getAllowedTagMap (annotations (ac_CSPC ac)).

(** The claim the operator creates for a device. *)
Definition claim_for ac (o : BlockDevice) (bdc : BlockDeviceClaim) : Prop :=
  name bdc = "bdc-cstor-" +:+ uid o ∧ bdc_BlockDeviceName bdc = name o ∧
  labels bdc !! CStorPoolClusterLabelKey = Some (name (ac_CSPC ac)) ∧
  CSPCFinalizer ∈ finalizers bdc.

(** The claim was created, or was there already. *)
Definition claim_created {A} (c : result A) : Prop := ∀ e, c = Err e → IsAlreadyExists e = true.

Lemma create_claim_run ac o bdc w r w' :
  create_claim ac o bdc w = (r, w') →
  ∃ c res, rCreate (ac_Namespace ac) bdc w = (c, w') ∧ r = Ret res ∧
    (res = OK tt ↔ claim_created c).
Proof.
  unfold create_claim, mbind, M_bind, call, claim_created.
  destruct (rCreate (ac_Namespace ac) bdc w) as [c w1].
  destruct c as [x|e]; [|destruct (IsAlreadyExists e) eqn:Ee]; intros [-> ->]%mret_run;
    eexists _, _; (split; [done|split; [done|]]); (split; [|done || intros Hc]).
  - done.
  - intros _ e' [= <-]. done.
  - done.
  - specialize (Hc e eq_refl). congruence.
Qed.

Lemma ClaimBD_writes `{!OpenebsApiLaws} ac o w w' r :
  ClaimBD ac o w = (r, w') →
  (w' = w ∧ r ≠ Ret (OK tt)) ∨
  (tag_allowed ac o ∧ ∃ bdc c res, claim_for ac o bdc ∧
    rCreate (ac_Namespace ac) bdc w = (c, w') ∧ r = Ret res ∧ (res = OK tt ↔ claim_created c)).
Proof.
  unfold ClaimBD, mbind, M_bind, lift.
  destruct (ByteCount (bd_Storage o)) as [cap|]; [|intros; simplify_eq; by left].
  destruct (GetCapacity cap) as [q|]; [|intros [-> ->]%mret_run; by left].
  set (a := {| ba_name := _ |}).
  assert (claim_for ac o (build_bdc a)) as Hba.
  { split_and!; [apply (build_bdc_name a)|apply (build_bdc_blockDeviceName a)|
                 |apply (build_bdc_finalizer a)].
    apply build_bdc_labels, lookup_singleton_eq. }
  clearbody a. destruct (labels o !! BlockDeviceTagLabelKey) as [v|] eqn:Hv.
  - case_bool_decide as H3; [intros [-> ->]%mret_run; by left|].
    destruct (has _ (TrimSpace v)) eqn:H4; cbn [negb]; [|intros [-> ->]%mret_run; by left].
    apply has_true in H4. intros (c & res & ? & ? & ?)%create_claim_run. right.
    split; [intros v' Hv'; by simplify_eq|]. eexists _, c, res. split; [|split; [eassumption|done]]. exact Hba.
  - intros (c & res & ? & ? & ?)%create_claim_run. right.
    split; [intros v' Hv'; congruence|]. eexists _, c, res. split; [|split; [eassumption|done]]. exact Hba.
Qed.

Lemma claim_devices_OK ac BD n pend w w' :
  claim_devices ac BD n pend w = (Ret (OK tt), w') ↔
  n = 0 ∧ w' = w ∧ Forall (claimed_by w ac) BD.
Proof.
  revert n pend w. induction BD as [|bd BD IH]; intros n pend w; cbn [claim_devices].
  { case_bool_decide; rewrite mret_run; split; intros; destruct_and?; simplify_eq; try lia;
      split_and!; try done; lia. }
  unfold mbind, M_bind, reads. rewrite Forall_cons. unfold claimed_by at 1.
  destruct (rGet w (ac_Namespace ac) bd) as [o|e] eqn:Hg; [|rewrite mret_run; split; intros].
  2: { by destruct_and?. }
  2: { destruct_and?. naive_solver. }
  destruct (IsBlockDeviceClaimed o) eqn:Hc.
  - pose proof (IsClaimedBDUsable_true w ac o) as Hu.
    destruct (IsClaimedBDUsable w ac o) as [[]|e]; [rewrite IH|rewrite mret_run..]; naive_solver.
  - unfold IsBlockDeviceClaimed in Hc. rewrite bool_decide_eq_false in Hc.
    split; [|naive_solver]. destruct (ClaimBD ac o w) as [[[[]|e]|s] w1]; [|by intros [? _]%mret_run|done].
    by intros [? _]%IH.
Qed.

(** The claims are only successful when there was nothing left to claim. *)
Lemma ClaimBDsForNode_OK ac BD w w' :
  ClaimBDsForNode ac BD w = (Ret (OK tt), w') ↔ w' = w ∧ Forall (claimed_by w ac) BD.
Proof. unfold ClaimBDsForNode. rewrite claim_devices_OK. naive_solver. Qed.

(** The only writes: claims, for unclaimed devices the cluster may use. *)
Inductive claim_step ac : W → W → Prop :=
| claim_device w bd (o : BlockDevice) (bdc : BlockDeviceClaim) :
    rGet w (ac_Namespace ac) bd = OK o → bd_ClaimState o ≠ BlockDeviceClaimed →
    tag_allowed ac o → claim_for ac o bdc →
    claim_step ac w (rCreate (ac_Namespace ac) bdc w).2.

Lemma ClaimBD_step `{!OpenebsApiLaws} ac bd (o : BlockDevice) w r w' :
  rGet w (ac_Namespace ac) bd = OK o → bd_ClaimState o ≠ BlockDeviceClaimed →
  ClaimBD ac o w = (r, w') → rtc (claim_step ac) w w'.
Proof.
  intros Hg Hc [[-> _]|(Ht & bdc & c & res & Hb & Hcr & _)]%ClaimBD_writes; [done|].
  apply rtc_once. assert (w' = (rCreate (ac_Namespace ac) bdc w).2) as -> by (by rewrite Hcr).
  by econstructor.
Qed.

Lemma claim_devices_steps `{!OpenebsApiLaws} ac BD n pend w r w' :
  claim_devices ac BD n pend w = (r, w') → rtc (claim_step ac) w w'.
Proof.
  revert n pend w. induction BD as [|bd BD IH]; intros n pend w; cbn [claim_devices].
  { case_bool_decide; by intros [-> ->]%mret_run. }
  unfold mbind, M_bind, reads.
  destruct (rGet w (ac_Namespace ac) bd) as [o|e] eqn:Hg; [|by intros [-> ->]%mret_run].
  destruct (IsBlockDeviceClaimed o) eqn:Hc.
  - destruct (IsClaimedBDUsable w ac o) as [[]|e]; [by apply IH|by intros [-> ->]%mret_run..].
  - unfold IsBlockDeviceClaimed in Hc. rewrite bool_decide_eq_false in Hc.
    destruct (ClaimBD ac o w) as [c w1] eqn:Ecl. pose proof (ClaimBD_step _ _ _ _ _ _ Hg Hc Ecl).
    destruct c as [[[]|e]|s]; intros Hr.
    + etrans; [done|]. by eapply IH.
    + by apply mret_run in Hr as [-> ->].
    + by simplify_eq.
Qed.

(** *** The pool instance *)

(** The configuration of a new pool instance is the pool's, with the defaults. *)
Definition instance_of ac (p : PoolSpec) (n : string) (c : CStorPoolInstance) : Prop :=
  cspi_Spec c =
    {| cspi_HostName := n; cspi_NodeSelector := NodeSelector p;
       cspi_PoolConfig := creation_defaults (cspc_Spec (ac_CSPC ac)) (ps_PoolConfig p);
       cspi_DataRaidGroups := DataRaidGroups p;
       cspi_WriteCacheRaidGroups := WriteCacheRaidGroups p |} ∧
  namespace c = ac_Namespace ac ∧
  (∃ suffix, name c = name (ac_CSPC ac) +:+ "-" +:+ suffix) ∧
  (∀ k v, buildLabelsForCSPI ac n !! k = Some v → labels c !! k = Some v).

Lemma advanced_claimed ac ac' w bd : advanced ac ac' → claimed_by w ac' bd → claimed_by w ac bd.
Proof. intros (E1 & E2 & _). unfold claimed_by. by rewrite E1, E2. Qed.

Lemma advanced_instance ac ac' p n c : advanced ac ac' → instance_of ac' p n c → instance_of ac p n c.
Proof. intros (E1 & E2 & _). unfold instance_of, buildLabelsForCSPI. by rewrite E1, E2. Qed.

Lemma advanced_step ac ac' w w' : advanced ac ac' → claim_step ac' w w' → claim_step ac w w'.
Proof.
  intros (E1 & E2 & _) Hs. inversion Hs as [w0 bd o bdc Hg Hc Ht Hf]; subst.
  unfold tag_allowed, claim_for in *. rewrite E2 in *. rewrite E1 in *. by econstructor.
Qed.

Lemma GetCSPISpec_OK `{!OpenebsApiLaws} ac w c ac' w' :
  GetCSPISpec ac w = (Ret (OK c, ac'), w') →
  ∃ p n, SelectNode w ac = Ret (OK (p, n), ac') ∧ w' = (rand_String 4 w).2 ∧
    Forall (claimed_by w' ac) (pool_bds p) ∧ instance_of ac p n c.
Proof.
  unfold GetCSPISpec, mbind, M_bind, lift, rand_string, call.
  destruct (SelectNode w ac) as [[[[p n]|e] ac1]|s] eqn:Hsel; [|by intros [? _]%mret_run|done].
  case_bool_decide; [by intros [? _]%mret_run|].
  destruct (rand_String 4 w) as [s w2] eqn:Er.
  destruct (ClaimBDsForNode ac1 (GetBDListForNode p) w2) as [[[[]|e]|why] w3] eqn:Hc;
    [|by intros [? _]%mret_run|done].
  intros [Heq ->]%mret_run. injection Heq as -> ->.
  apply ClaimBDsForNode_OK in Hc as [-> Hc]. pose proof (SelectNode_advanced _ _ _ _ Hsel).
  exists p, n. split_and!; [done|done| |].
  - eapply Forall_impl; [exact Hc|]. intros bd. by apply advanced_claimed.
  - eapply advanced_instance; [done|].
    set (a := {| ca_name := _ |}). pose proof (build_cspi_spec a) as Hsp.
    destruct (build_cspi_meta a) as [Hnm Hns]. pose proof (build_cspi_labels a) as Hl.
    case_bool_decide; unfold instance_of; [|split_and!; [done|done|by exists s|done]].
    destruct (cspi_WithAnnotations_meta {[OpenEBSDisableReconcileLabelKey := "true"]}
      (build_cspi a)) as (-> & -> & ->). rewrite cspi_WithAnnotations_spec.
    split_and!; [done|done|by exists s|done].
Qed.

(** Whatever the outcome, only a random suffix is drawn and claims are created. *)
Lemma GetCSPISpec_steps `{!OpenebsApiLaws} ac w r w' :
  GetCSPISpec ac w = (r, w') → w' = w ∨ rtc (claim_step ac) (rand_String 4 w).2 w'.
Proof.
  unfold GetCSPISpec, mbind, M_bind, lift, rand_string, call.
  destruct (SelectNode w ac) as [[[[p n]|e] ac1]|s] eqn:Hsel;
    [|intros [-> ->]%mret_run; by left|intros; simplify_eq; by left].
  apply SelectNode_advanced in Hsel. case_bool_decide; [intros [-> ->]%mret_run; by left|].
  destruct (rand_String 4 w) as [s w1]. cbn [snd].
  destruct (ClaimBDsForNode ac1 (GetBDListForNode p) w1) as [cr w2] eqn:Hc.
  apply claim_devices_steps in Hc. intros Hr. right.
  assert (w' = w2) as ->
    by (destruct cr as [[[]|e]|why]; [by apply mret_run in Hr as [_ ->]..|by simplify_eq]).
  clear Hr. induction Hc; [done|]. econstructor; [by eapply advanced_step|done].
Qed.
End algorithm_facts.
