(* ===== verification/PoolDeploy.v ===== *)
(** * PoolDeploy: the deployment that runs a pool (pkg/cspc/algorithm/build_deploy.go)

    Each pool instance is run by a deployment with three containers: the pool
    manager, the pool itself and the exporter. *)

From stdpp Require Import base gmap strings list sets.
From Stdlib Require Import Ascii ZArith Lia.
From S2P Require Import Prelude Api Version Algorithm.

Definition PoolMgmtContainerName : string := "cstor-pool-mgmt".
Definition PoolContainerName : string := "cstor-pool".
Definition PoolExporterContainerName : string := "maya-exporter".

Definition defaultPoolMgmtMounts : list VolumeMount :=
  [ {| vm_Name := "device"; MountPath := "/dev" |};
    {| vm_Name := "tmp"; MountPath := "/tmp" |};
    {| vm_Name := "udev"; MountPath := "/run/udev" |};
    {| vm_Name := "storagepath"; MountPath := "/var/openebs/cstor-pool" |};
    {| vm_Name := "sockfile"; MountPath := "/var/tmp/sock" |} ].

Definition HostPathDirectory : string := "Directory".
Definition HostPathDirectoryOrCreate : string := "DirectoryOrCreate".

Section deploy.
Context `{OpenebsApi} `{BuildInfo} `{PodEnv}.

Definition getReplicaCount : Z := 1.

Definition getDeployOwnerReference (cspi : CStorPoolInstance) : list OwnerReference :=
  [cspi_ControllerRef cspi].

Definition getDeployLabels (csp : CStorPoolInstance) : gmap string string :=
  <["openebs.io/version" := GetVersion]>
    (<[CStorPoolInstanceLabelKey := name csp]>
      (<["app" := "cstor-pool"]>
        (<[CStorPoolClusterLabelKey := label (labels csp) CStorPoolClusterLabelKey]> ∅))).

Definition getDeployAnnotations : gmap string string :=
  {["openebs.io/monitoring" := "pool_exporter_prometheus"]}.

Definition getPodLabels (csp : CStorPoolInstance) : gmap string string := getDeployLabels csp.

Definition getPodAnnotations : gmap string string :=
  list_to_map [("openebs.io/monitoring", "pool_exporter_prometheus");
               ("prometheus.io/path", "/metrics");
               ("prometheus.io/port", "9500");
               ("prometheus.io/scrape", "true");
               ("cluster-autoscaler.kubernetes.io/safe-to-evict", "false")].

Definition getDeployMatchLabels : gmap string string := {["app" := "cstor-pool"]}.

Definition getPoolMgmtImage : string :=
  default "quay.io/openebs/cstor-pool-manager-amd64:ci" (os_LookupEnv "OPENEBS_IO_CSPI_MGMT_IMAGE").

Definition getPoolImage : string :=
  default "quay.io/openebs/cstor-pool:ci" (os_LookupEnv "OPENEBS_IO_CSTOR_POOL_IMAGE").

Definition getMayaExporterImage : string :=
  default "quay.io/openebs/m-exporter:ci" (os_LookupEnv "OPENEBS_IO_CSTOR_POOL_EXPORTER_IMAGE").

Definition getContainerPort (port : list Z) : list ContainerPort :=
  (λ p, {| cp_ContainerPort := p; cp_Protocol := "TCP" |}) <$> port.

Definition getSparseDirPath : string :=
  default "/var/openebs/sparse" (os_LookupEnv "OPENEBS_IO_CSTOR_POOL_SPARSE_DIR").

Definition getPoolMgmtMounts : list VolumeMount :=
  defaultPoolMgmtMounts ++ [{| vm_Name := "sparse"; MountPath := getSparseDirPath |}].

Definition getPoolUIDAsEnv (cspc : CStorPoolCluster) : list EnvVar :=
  [EnvValue "OPENEBS_IO_POOL_NAME" (uid cspc)].

Definition getPoolMgmtEnv (cspi : CStorPoolInstance) : list EnvVar :=
  [ EnvValue "OPENEBS_IO_CSPI_ID" (uid cspi);
    EnvValue "RESYNC_INTERVAL" "30";
    EnvFieldRef "POD_NAME" "metadata.name";
    EnvFieldRef "NAMESPACE" "metadata.namespace" ].

Definition quote : string := String (ascii_of_nat 34) "".

Definition getPoolLivenessProbe : Probe :=
  {| probe_Command := ["/bin/sh"; "-c";
       "timeout 120 zfs set io.openebs:livenesstimestamp=" +:+ quote +:+ "$(date +%s)" +:+ quote
       +:+ " cstor-$OPENEBS_IO_POOL_NAME"];
     FailureThreshold := 3; InitialDelaySeconds := 300; PeriodSeconds := 60;
     TimeoutSeconds := 150 |}.

Definition getPoolMounts : list VolumeMount := getPoolMgmtMounts.

Definition getPoolEnv (cspi : CStorPoolInstance) : list EnvVar :=
  [EnvValue "OPENEBS_IO_CSTOR_ID" (uid cspi)].

Definition getPoolLifeCycle : list string := ["/bin/sh"; "-c"; "sleep 2"].

Definition no_requirements : ResourceRequirements := {| rr_limits := ∅; rr_requests := ∅ |}.

Definition getResourceRequirementForCStorPool (cspi : CStorPoolInstance) : ResourceRequirements :=
  match Resources (cspi_PoolConfig (cspi_Spec cspi)) with
  | None => no_requirements
  | Some r => r
  end.

Definition getAuxResourceRequirement (cspi : CStorPoolInstance) : ResourceRequirements :=
  match AuxResources (cspi_PoolConfig (cspi_Spec cspi)) with
  | None => no_requirements
  | Some r => r
  end.

Definition getPoolPodToleration (cspi : CStorPoolInstance) : list Toleration :=
  match Tolerations (cspi_PoolConfig (cspi_Spec cspi)) with
  | None | Some [] => []
  | Some l => l
  end.

Definition getPriorityClass (cspi : CStorPoolInstance) : string :=
  match PriorityClassName (cspi_PoolConfig (cspi_Spec cspi)) with
  | None => ""
  | Some p => p
  end.

Definition pool_containers (c : Config) (cspi : CStorPoolInstance) : list Container :=
  [ {| ctr_Image := getPoolMgmtImage; ctr_Name := PoolMgmtContainerName;
       ctr_ImagePullPolicy := "IfNotPresent"; ctr_Privileged := true;
       ctr_EnvsNew := getPoolMgmtEnv cspi; ctr_Envs := getPoolUIDAsEnv (ac_CSPC c);
       ctr_Resources := Some (getAuxResourceRequirement cspi);
       ctr_VolumeMounts := getPoolMgmtMounts; ctr_Ports := []; ctr_LivenessProbe := None;
       ctr_PostStart := None; ctr_Command := []; ctr_Args := [] |};
    {| ctr_Image := getPoolImage; ctr_Name := PoolContainerName;
       ctr_ImagePullPolicy := "IfNotPresent"; ctr_Privileged := true;
       ctr_EnvsNew := getPoolEnv cspi; ctr_Envs := getPoolUIDAsEnv (ac_CSPC c);
       ctr_Resources := Some (getResourceRequirementForCStorPool cspi);
       ctr_VolumeMounts := getPoolMounts;
       ctr_Ports := getContainerPort [12000; 3232; 3233]%Z;
       ctr_LivenessProbe := Some getPoolLivenessProbe;
       ctr_PostStart := Some getPoolLifeCycle; ctr_Command := []; ctr_Args := [] |};
    {| ctr_Image := getMayaExporterImage; ctr_Name := PoolExporterContainerName;
       ctr_ImagePullPolicy := "IfNotPresent"; ctr_Privileged := true;
       ctr_EnvsNew := []; ctr_Envs := []; ctr_Resources := None;
       ctr_VolumeMounts := getPoolMounts; ctr_Ports := getContainerPort [9500]%Z;
       ctr_LivenessProbe := None; ctr_PostStart := None;
       ctr_Command := ["maya-exporter"]; ctr_Args := ["-e=pool"] |} ].

Definition pool_volumes (c : Config) : list Volume :=
  let dir := GetOpenebsBaseDirPath +:+ "/cstor-pool/" +:+ name (ac_CSPC c) in
  [ {| vol_Name := "device"; vol_Source := HostPath "/dev" HostPathDirectory |};
    {| vol_Name := "udev"; vol_Source := HostPath "/run/udev" HostPathDirectory |};
    {| vol_Name := "tmp"; vol_Source := HostPath dir HostPathDirectoryOrCreate |};
    {| vol_Name := "sparse"; vol_Source := HostPath getSparseDirPath HostPathDirectoryOrCreate |};
    {| vol_Name := "storagepath"; vol_Source := HostPath dir HostPathDirectoryOrCreate |};
    {| vol_Name := "sockfile"; vol_Source := EmptyDir |} ].

(** The arguments of the builder chain of GetPoolDeploySpec. *)
Definition pool_deploy_args (c : Config) (cspi : CStorPoolInstance) : deploy_args :=
  {| da_name := name cspi; da_namespace := namespace cspi;
       da_annotations := getDeployAnnotations; da_labels := getDeployLabels cspi;
       da_owners := getDeployOwnerReference cspi;
       da_spec :=
         {| dep_Replicas := getReplicaCount; dep_StrategyType := "Recreate";
            dep_MatchLabels := getDeployMatchLabels;
            dep_Template :=
              {| pod_Labels := getPodLabels cspi; pod_Annotations := getPodAnnotations;
                 pod_PriorityClassName := getPriorityClass cspi;
                 pod_NodeSelector := cspi_NodeSelector (cspi_Spec cspi);
                 pod_ServiceAccountName := GetServiceAccountName; pod_Affinity := None;
                 pod_Tolerations := getPoolPodToleration cspi;
                 pod_ImagePullSecrets := GetImagePullSecrets GetOpenEBSImagePullSecrets;
                 pod_Containers := pool_containers c cspi;
                 pod_Volumes := pool_volumes c |} |} |}.

Definition GetPoolDeploySpec (c : Config) (cspi : CStorPoolInstance) : Deployment :=
  build_deployment (pool_deploy_args c cspi).
End deploy.

(** ** The template is consistent *)

(** The pods carry the labels the deployment selects, whatever the label keys are,
    and every volume a container mounts is a volume of the pod. *)
Section deploy_facts.
Context `{OpenebsApi} `{BuildInfo} `{PodEnv} `{!OpenebsApiLaws}.

Definition selector_matches (d : DeploymentSpec) : Prop :=
  ∀ k v, dep_MatchLabels d !! k = Some v → pod_Labels (dep_Template d) !! k = Some v.

Definition mounts_bound (p : PodTemplateSpec) : Prop :=
  Forall (λ c, Forall (λ m, vm_Name m ∈ (vol_Name <$> pod_Volumes p)) (ctr_VolumeMounts c))
    (pod_Containers p).

Lemma deploy_selector c cspi :
  CStorPoolInstanceLabelKey ≠ "app" → selector_matches (dep_Spec (GetPoolDeploySpec c cspi)).
Proof.
  intros Hne. unfold GetPoolDeploySpec. destruct (build_deployment_meta (pool_deploy_args c cspi)) as (_ & _ & ->).
  intros k v. cbn. unfold getDeployMatchLabels, getPodLabels, getDeployLabels.
  rewrite lookup_singleton_Some. intros [<- <-].
  rewrite lookup_insert_ne by done. rewrite lookup_insert_ne by done. apply lookup_insert_eq.
Qed.

Lemma deploy_mounts c cspi : mounts_bound (dep_Template (dep_Spec (GetPoolDeploySpec c cspi))).
Proof.
  unfold GetPoolDeploySpec. destruct (build_deployment_meta (pool_deploy_args c cspi)) as (_ & _ & ->).
  unfold mounts_bound. cbn. repeat constructor; cbn; set_solver.
Qed.
End deploy_facts.
