(* ===== verification/Zcmd.v ===== *)
(** * Zcmd: building and running commands (pkg/zcmd/bin and what all builders share)

    Every builder of pkg/zcmd has fields for the operands of a command, the text of the
    command, an executor, a list of checks and an error.  A [builder] is the object
    with its checks and its error; the methods that all packages repeat, Validate,
    appendCommand, Build and Execute, are defined here once and instantiated by the
    modules of [Zpool] and [Zfs].  The second part is the word splitting of a shell, with
    which the texts of the commands are specified. *)

From stdpp Require Import base gmap strings list sets pretty.
From Stdlib Require Import Ascii ZArith Lia.
From S2P Require Import Prelude Api.

Definition ZPOOL : string := "zpool".
Definition ZFS : string := "zfs".
Definition BASH : string := "bash".

(** ** Running a command *)

(** The bytes and the error of [exec.Command("bash", "-c", command).CombinedOutput()]. *)
Definition output : Type := string * option error.
Class Shell (W : Type) := { bash : string → W → output * W }.

(** The implementations of bin.Executor, without those of tests. *)
Inductive executor := Zcmd.

Section executor.
Context {W : Type} `{Shell W}.

(** Zcmd.Execute *)
Definition Zcmd_Execute (command : string) : M W output := call (bash command).

Definition Executor_Execute (e : executor) : string → M W output :=
  match e with Zcmd => Zcmd_Execute end.
End executor.

(** ** Builders *)

Record builder (A : Type) := { object : A; checks : list (A → bool); err : option error }.
Arguments object {A} _.
Arguments checks {A} _.
Arguments err {A} _.

Definition new {A} (a : A) : builder A := {| object := a; checks := []; err := None |}.
Definition upd {A} (f : A → A) (b : builder A) : builder A :=
  {| object := f (object b); checks := checks b; err := err b |}.
Definition WithCheck {A} (check : list (A → bool)) (b : builder A) : builder A :=
  {| object := object b; checks := checks b ++ check; err := err b |}.

Definition str_set (s : string) : bool := negb (bool_decide (s = "")).
Definition list_set {A} (l : list A) : bool := match l with [] => false | _ => true end.
Definition executor_set (e : option executor) : bool :=
  match e with Some _ => true | None => false end.

(** github.com/pkg/errors.Wrapf: the nil error stays nil. *)
Definition errors_Wrapf (e : option error) (format : string) (args : list string) : option error :=
  (λ e, Wrapf e format args) <$> e.

Definition Validate {A} (b : builder A) : builder A :=
  foldl (λ b check,
    if negb (check (object b)) then
      {| object := object b; checks := checks b;
         err := errors_Wrapf (err b) "validation failed {%v}" [] |}
    else b) b (checks b).

(** appendCommand: strings.Builder.WriteString returns a nil error. *)
Definition appendCommand (c cmd : string) : string := c +:+ cmd.

(** Build, from the text of the command of an object. *)
Definition build_with {A} (set_command : string → A → A) (command : A → string) (b : builder A)
  : builder A * option error :=
  let b := Validate b in
  let b := upd (λ p, set_command (command p) p) b in
  (b, err b).

Section execute.
Context {W : Type} `{Shell W} {A R : Type}.

(** Execute, from Build and the fields of an object: [fromExecutor] and [fromShell] make
    the result from the output of the executor and from that of the shell. *)
Definition execute_by (fail : error → R) (build : builder A → builder A * option error)
  (ex : A → option executor) (command : A → string) (fromExecutor fromShell : output → R)
  (b : builder A) : M W R :=
  let '(b, err) := build b in
  match err with
  | Some err => mret (fail err)
  | None =>
      let p := object b in
      match ex p with
      | Some e => let* o := Executor_Execute e (command p) in mret (fromExecutor o)
      | None => let* o := call (bash (command p)) in mret (fromShell o)
      end
  end.
End execute.

(** [return nil, err] *)
Definition no_output (e : error) : output := ("", Some e).

(** What the Execute methods make of the output. *)
Definition raw (o : output) : output := o.
Definition wrap_error (o : output) : output :=
  match o with
  | (ret, Some _) => (ret, Some (Errorf "error %s %s" [ret]))
  | (ret, None) => (ret, None)
  end.
Definition execution_failed (o : output) : output :=
  match o with
  | (ret, Some err) => ("", Some (Wrapf err "execution failed %s" [ret]))
  | (_, None) => ("", None)
  end.
Definition wrap_output (o : output) : output :=
  match o with
  | (out, Some err) => ("", Some (Wrapf err "%s" [out]))
  | (out, None) => (out, None)
  end.

Definition execute {W} `{Shell W} {A} (build : builder A → builder A * option error)
  (ex : A → option executor) (command : A → string) (f : output → output)
  : builder A → M W output := execute_by no_output build ex command f f.

(** ** Outputs in JSON *)

(** internalapis/apis/cstor of openebs/api: the device tree of a pool. *)
Inductive Vdev := mkVdev {
  vdev_Path : string;
  IsWholeDisk : Z;
  VdevStats : list Z;
  ScanStats : list Z;
  Children : list Vdev;
}.
Record VdevTree := { Topvdev : list Vdev; Spares : list Vdev; Readcache : list Vdev }.
Record Topology := { VdevTree_ : VdevTree }.
Definition no_topology : Topology :=
  {| VdevTree_ := {| Topvdev := []; Spares := []; Readcache := [] |} |}.

(** Stats and ZFSStats of pkg/zcmd/zfs/stats, SnapshotList of pkg/zcmd/zfs/listsnap. *)
Record Stats := { stats_Name : string; stats_Status : string; RebuildStatus : string; Quorum : Z }.
Record ZFSStats := { zfs_Stats : list Stats }.
Record SnapshotList := { sl_Name : string; SnapList : gmap string string }.
Definition no_snapshots : SnapshotList := {| sl_Name := ""; SnapList := ∅ |}.

(** encoding/json.Unmarshal into these types: the value, filled as far as the input goes,
    and the error. *)
Class ZJson := {
  json_Topology : string → Topology * option error;
  json_ZFSStats : string → ZFSStats * option error;
  json_SnapshotList : string → SnapshotList * option error;
}.

(** fmt.Sprintf of a format without arguments: [%%] is a percent sign, a directive shows
    that its argument is missing.  Flags, widths, argument indexes and stars are not
    covered. *)
Fixpoint Sprintf0 (s : string) : string :=
  match s with
  | "" => ""
  | String "%" (String "%" s') => String "%" (Sprintf0 s')
  | String "%" "" => "%!(NOVERB)"
  | String "%" (String v s') => "%!" +:+ String v "(MISSING)" +:+ Sprintf0 s'
  | String a s' => String a (Sprintf0 s')
  end.

(** ** Words of a shell *)

(** The characters that a shell does not take literally, and the space. *)
Definition special : list ascii :=
  bytes "|&;<>()$`\'*?[]#~!{}" ++ [Ascii.ascii_of_nat 9; Ascii.ascii_of_nat 10; Ascii.ascii_of_nat 34].
Definition space : ascii := " "%char.

Fixpoint all_chars (P : ascii → bool) (s : string) : bool :=
  match s with "" => true | String a s' => P a && all_chars P s' end.

Fixpoint split_words (cur s : string) : list string :=
  match s with
  | "" => if bool_decide (cur = "") then [] else [cur]
  | String a s' =>
      if Ascii.eqb a space then
        (if bool_decide (cur = "") then [] else [cur]) ++ split_words "" s'
      else split_words (cur +:+ String a "") s'
  end.
Definition words (s : string) : list string := split_words "" s.

Definition literal (a : ascii) : bool := negb (existsb (Ascii.eqb a) special).

(** The words of a command line without special characters. *)
Definition shell_words (s : string) : option (list string) :=
  if all_chars literal s then Some (words s) else None.

(** One word: literal characters, at least one, and no space. *)
Definition word (s : string) : Prop :=
  s ≠ "" ∧ all_chars (λ a, literal a && negb (Ascii.eqb a space)) s = true.
#[export] Instance word_dec s : Decision (word s).
Proof. unfold word. apply _. Defined.

(** ** Facts about words *)

Lemma str_app_assoc (a b c : string) : (a +:+ b) +:+ c = a +:+ (b +:+ c).
Proof. induction a as [|x a IH]; cbn; [done|]. by rewrite IH. Qed.

Lemma str_app_nil_r (a : string) : a +:+ "" = a.
Proof. induction a as [|x a IH]; cbn; [done|]. by rewrite IH. Qed.

Lemma all_chars_app P a b : all_chars P (a +:+ b) = all_chars P a && all_chars P b.
Proof. induction a as [|x a IH]; cbn; [done|]. by rewrite IH, andb_assoc. Qed.

Lemma all_chars_impl (P Q : ascii → bool) s :
  (∀ a, P a = true → Q a = true) → all_chars P s = true → all_chars Q s = true.
Proof.
  intros HPQ. induction s as [|a s IH]; cbn; [done|]. rewrite !andb_true_iff. naive_solver.
Qed.

Lemma word_literal w : word w → all_chars literal w = true.
Proof. intros [_ Hw]. revert Hw. apply all_chars_impl. intros a. by rewrite andb_true_iff; intros []. Qed.

Lemma word_app v w : word v → word w → word (v +:+ w).
Proof.
  intros [Hv Hv'] [_ Hw]. split; [by destruct v|]. by rewrite all_chars_app, Hv', Hw.
Qed.

Lemma split_words_run cur w s :
  all_chars (λ a, literal a && negb (Ascii.eqb a space)) w = true →
  split_words cur (w +:+ s) = split_words (cur +:+ w) s.
Proof.
  revert cur. induction w as [|a w IH]; intros cur; cbn; [by rewrite str_app_nil_r|].
  rewrite !andb_true_iff, negb_true_iff. intros [[_ ->] Hw]. rewrite (IH _ Hw).
  by rewrite str_app_assoc.
Qed.

Lemma words_space s t : words (s +:+ " " +:+ t) = words s ++ words t.
Proof.
  unfold words. generalize "" at 1 3. induction s as [|a s IH]; intros cur; cbn.
  - done.
  - destruct (Ascii.eqb a space); [|apply IH]. rewrite IH. by rewrite app_assoc.
Qed.

Lemma words_word w : word w → words w = [w].
Proof.
  intros [Hw Hp]. unfold words. rewrite <-(str_app_nil_r w) at 1.
  rewrite (split_words_run "" w "" Hp). cbn. by rewrite bool_decide_false.
Qed.

(** ** Reading a text that grows

    [reads_as c ws closed]: the text [c] has literal characters only and its words are
    [ws]; when [closed] holds the next character starts a new word. *)

Definition ends_closed (c : string) : Prop := c = "" ∨ ∃ c', c = c' +:+ " ".

Definition reads_as (c : string) (ws : list string) (closed : bool) : Prop :=
  all_chars literal c = true ∧ words c = ws ∧ (closed = true → ends_closed c).

Lemma reads_nil : reads_as "" [] true.
Proof. split_and!; [done..|]. by left. Qed.

Lemma reads_weaken c ws closed : reads_as c ws closed → reads_as c ws false.
Proof. by intros (? & ? & _). Qed.

(** A text that starts with a space. *)
Lemma reads_sep c ws closed x ws' closed' :
  reads_as c ws closed → reads_as x ws' closed' →
  reads_as (appendCommand c (" " +:+ x)) (ws ++ ws') closed'.
Proof.
  intros (Hl & <- & _) (Hl' & <- & Hc). unfold appendCommand. split_and!.
  - by rewrite !all_chars_app, Hl, Hl'.
  - apply words_space.
  - intros Hx. right. destruct (Hc Hx) as [->|[x' ->]]; [by exists c|].
    exists (c +:+ " " +:+ x'). by rewrite !str_app_assoc.
Qed.

(** A text after a closed one. *)
Lemma reads_app c ws x ws' closed' :
  reads_as c ws true → reads_as x ws' closed' → reads_as (appendCommand c x) (ws ++ ws') closed'.
Proof.
  intros (Hl & <- & Hc) Hx. unfold appendCommand. destruct (Hc eq_refl) as [->|[c' ->]].
  - exact Hx.
  - rewrite str_app_assoc. replace (words (c' +:+ " ")) with (words c').
    + apply (reads_sep c' (words c') false x ws' closed'); [|done].
      rewrite all_chars_app in Hl. apply andb_true_iff in Hl as [Hl _]. by split_and!.
    + pose proof (words_space c' "") as Hw. cbn in Hw. rewrite Hw. cbn. by rewrite app_nil_r.
Qed.

Lemma reads_word w : word w → reads_as w [w] false.
Proof. intros Hw. split_and!; [by apply word_literal|by apply words_word|done]. Qed.

Lemma reads_word_space w : word w → reads_as (w +:+ " ") [w] true.
Proof.
  intros Hw. split_and!.
  - by rewrite all_chars_app, word_literal.
  - pose proof (words_space w "") as Hs. cbn in Hs. rewrite Hs, (words_word w Hw). done.
  - intros _. right. by exists w.
Qed.

Lemma reads_words x ws closed w :
  word w → reads_as x ws closed → reads_as (w +:+ " " +:+ x) (w :: ws) closed.
Proof.
  intros Hw (Hl & <- & Hc). split_and!.
  - by rewrite !all_chars_app, word_literal, Hl.
  - by rewrite words_space, (words_word w Hw).
  - intros Hx. right. destruct (Hc Hx) as [->|[x' ->]]; [by exists w|].
    exists (w +:+ " " +:+ x'). by rewrite !str_app_assoc.
Qed.

Lemma reads_if (b : bool) c c' ws ws' closed :
  (b = true → reads_as c (ws ++ ws') closed) → reads_as c' ws closed →
  reads_as (if b then c else c') (ws ++ if b then ws' else []) closed.
Proof. destruct b; [by intros H _; apply H|]. by rewrite app_nil_r. Qed.

Lemma reads_fold {A} (f : string → A → string) (g : A → list string) (l : list A) c ws closed :
  (∀ c ws a, a ∈ l → reads_as c ws closed → reads_as (f c a) (ws ++ g a) closed) →
  reads_as c ws closed → reads_as (foldl f c l) (ws ++ (l ≫= g)) closed.
Proof.
  revert c ws. induction l as [|a l IH]; intros c ws Hf Hc; cbn.
  - by rewrite app_nil_r.
  - rewrite app_assoc. apply IH; [|apply Hf; [set_solver|done]].
    intros c' ws' a' Ha'. apply Hf. set_solver.
Qed.

Lemma reads_shell c ws closed : reads_as c ws closed → shell_words c = Some ws.
Proof. intros (Hl & <- & _). unfold shell_words. by rewrite Hl. Qed.

(** ** The checks of a builder *)

Lemma Validate_object {A} (b : builder A) : object (Validate b) = object b.
Proof.
  unfold Validate. generalize (checks b). intros l. revert b.
  induction l as [|c l IH]; intros b; cbn; [done|]. rewrite IH. by destruct (negb _).
Qed.

Lemma Validate_err {A} (b : builder A) : err b = None → err (Validate b) = None.
Proof.
  unfold Validate. generalize (checks b). intros l. revert b.
  induction l as [|c l IH]; intros b Hb; cbn; [done|]. apply IH.
  destruct (negb _); cbn; [|done]. by rewrite Hb.
Qed.

Lemma build_with_spec {A} (set_command : string → A → A) command (b : builder A) :
  err b = None →
  build_with set_command command b =
    (upd (λ p, set_command (command p) p) (Validate b), None).
Proof. intros Hb. unfold build_with. cbn. by rewrite Validate_err. Qed.
