(* ===== verification/Zpool.v ===== *)
(** * Zpool: the builders of zpool commands (pkg/zcmd/zpool)

    A module for each package: the fields of its struct, its With methods, its
    predicates, the text of its command, Build and Execute.  [Type_] is the field Type.
    The accessors of the files utils.go are in [Zaccess]. *)

From stdpp Require Import base gmap strings list sets pretty.
From Stdlib Require Import Ascii ZArith Lia.
From coqutil Require Import Datatypes.RecordSetters.
From S2P Require Import Prelude Api Zcmd.
Import DoubleBraceUpdate.

Module padd.
(** pkg/zcmd/zpool/add *)
Definition Operation : string := "add".
Record PoolExpansion := {
  VdevList : list string;
  Property : list string;
  Pool : string;
  Forcefully : bool;
  Command : string;
  DeviceType : string;
  Type_ : string;
  Executor : option executor;
}.
Definition NewPoolExpansion : builder PoolExpansion :=
  new {| VdevList := []; Property := []; Pool := ""; Forcefully := false; Command := "";
    DeviceType := ""; Type_ := ""; Executor := None |}.

Definition WithVdevList (xs : list string) : builder PoolExpansion → builder PoolExpansion :=
  upd (λ p, p {{ VdevList ::= (λ l, l ++ xs) }}).
Definition WithProperty (key value : string) : builder PoolExpansion → builder PoolExpansion :=
  upd (λ p, p {{ Property ::= (λ l, l ++ [key +:+ "=" +:+ value]) }}).
Definition WithForcefully (x : bool) : builder PoolExpansion → builder PoolExpansion :=
  upd (λ p, p {{ Forcefully := x }}).
Definition WithPool (x : string) : builder PoolExpansion → builder PoolExpansion :=
  upd (λ p, p {{ Pool := x }}).
Definition WithDeviceType (x : string) : builder PoolExpansion → builder PoolExpansion :=
  upd (λ p, p {{ DeviceType := x }}).
Definition WithType (x : string) : builder PoolExpansion → builder PoolExpansion :=
  upd (λ p, p {{ Type_ := x }}).
Definition WithCommand (x : string) : builder PoolExpansion → builder PoolExpansion :=
  upd (λ p, p {{ Command := x }}).
Definition WithExecutor (x : option executor) : builder PoolExpansion → builder PoolExpansion :=
  upd (λ p, p {{ Executor := x }}).

Definition IsVdevListSet (p : PoolExpansion) : bool := list_set (VdevList p).
Definition IsPropertySet (p : PoolExpansion) : bool := list_set (Property p).
Definition IsPoolSet (p : PoolExpansion) : bool := str_set (Pool p).
Definition IsDeviceTypeSet (p : PoolExpansion) : bool :=
  negb (bool_decide (DeviceType p = "stripe")) && str_set (DeviceType p).
Definition IsTypeSet (p : PoolExpansion) : bool :=
  negb (bool_decide (Type_ p = "stripe")) && str_set (Type_ p).
Definition IsForcefullySet (p : PoolExpansion) : bool := Forcefully p.
Definition IsCommandSet (p : PoolExpansion) : bool := str_set (Command p).
Definition IsExecutorSet (p : PoolExpansion) : bool := executor_set (Executor p).

Definition command (p : PoolExpansion) : string :=
  let c := "" in
  let c := appendCommand c ZPOOL in
  let c := appendCommand c (" " +:+ Operation +:+ " ") in
  let c := if IsForcefullySet p then appendCommand c " -f " else c in
  let c := if IsPropertySet p then
      foldl (λ c x, appendCommand c (" -o " +:+ x +:+ " ")) c (Property p) else c in
  let c := appendCommand c (Pool p) in
  let c := if IsDeviceTypeSet p then appendCommand c (" " +:+ DeviceType p +:+ " ") else c in
  let c := if IsTypeSet p then appendCommand c (" " +:+ Type_ p +:+ " ") else c in
  let c := foldl (λ c x, appendCommand c (" " +:+ x +:+ " ")) c (VdevList p) in
  c.

Definition Build : builder PoolExpansion → builder PoolExpansion * option error :=
  build_with (λ c p, p {{ Command := c }}) command.
Definition Execute {W} `{Shell W} : builder PoolExpansion → M W output :=
  execute Build (λ p, Executor p) Command wrap_error.
End padd.

Module pattach.
(** pkg/zcmd/zpool/attach *)
Definition Operation : string := "attach".
Record PoolAttach := {
  Property : list string;
  Forcefully : bool;
  Device : string;
  NewDevice : string;
  Pool : string;
  Command : string;
  Executor : option executor;
}.
Definition NewPoolAttach : builder PoolAttach :=
  new {| Property := []; Forcefully := false; Device := ""; NewDevice := ""; Pool := "";
    Command := ""; Executor := None |}.

Definition WithProperty (key value : string) : builder PoolAttach → builder PoolAttach :=
  upd (λ p, p {{ Property ::= (λ l, l ++ [key +:+ "=" +:+ value]) }}).
Definition WithForcefully (x : bool) : builder PoolAttach → builder PoolAttach :=
  upd (λ p, p {{ Forcefully := x }}).
Definition WithDevice (x : string) : builder PoolAttach → builder PoolAttach :=
  upd (λ p, p {{ Device := x }}).
Definition WithNewDevice (x : string) : builder PoolAttach → builder PoolAttach :=
  upd (λ p, p {{ NewDevice := x }}).
Definition WithPool (x : string) : builder PoolAttach → builder PoolAttach :=
  upd (λ p, p {{ Pool := x }}).
Definition WithCommand (x : string) : builder PoolAttach → builder PoolAttach :=
  upd (λ p, p {{ Command := x }}).
Definition WithExecutor (x : option executor) : builder PoolAttach → builder PoolAttach :=
  upd (λ p, p {{ Executor := x }}).

Definition IsPropertySet (p : PoolAttach) : bool := list_set (Property p).
Definition IsForcefullySet (p : PoolAttach) : bool := Forcefully p.
Definition IsDeviceSet (p : PoolAttach) : bool := str_set (Device p).
Definition IsNewDeviceSet (p : PoolAttach) : bool := str_set (NewDevice p).
Definition IsPoolSet (p : PoolAttach) : bool := str_set (Pool p).
Definition IsCommandSet (p : PoolAttach) : bool := str_set (Command p).
Definition IsExecutorSet (p : PoolAttach) : bool := executor_set (Executor p).

Definition command (p : PoolAttach) : string :=
  let c := "" in
  let c := appendCommand c ZPOOL in
  let c := appendCommand c (" " +:+ Operation +:+ " ") in
  let c := if IsForcefullySet p then appendCommand c " -f " else c in
  let c := if IsPropertySet p then
      foldl (λ c x, appendCommand c (" -o " +:+ x +:+ " ")) c (Property p) else c in
  let c := appendCommand c (Pool p) in
  let c := appendCommand c (" " +:+ Device p +:+ " ") in
  let c := appendCommand c (" " +:+ NewDevice p +:+ " ") in
  c.

Definition Build : builder PoolAttach → builder PoolAttach * option error :=
  build_with (λ c p, p {{ Command := c }}) command.
Definition Execute {W} `{Shell W} : builder PoolAttach → M W output :=
  execute Build (λ p, Executor p) Command raw.
End pattach.

Module pclear.
(** pkg/zcmd/zpool/clear *)
Definition Operation : string := "clear".
Record PoolClear := {
  Pool : string;
  Vdev : list string;
  Command : string;
  Executor : option executor;
}.
Definition NewPoolClear : builder PoolClear :=
  new {| Pool := ""; Vdev := []; Command := ""; Executor := None |}.

Definition WithPool (x : string) : builder PoolClear → builder PoolClear :=
  upd (λ p, p {{ Pool := x }}).
Definition WithVdev (x : string) : builder PoolClear → builder PoolClear :=
  upd (λ p, p {{ Vdev ::= (λ l, l ++ [x]) }}).
Definition WithCommand (x : string) : builder PoolClear → builder PoolClear :=
  upd (λ p, p {{ Command := x }}).
Definition WithExecutor (x : option executor) : builder PoolClear → builder PoolClear :=
  upd (λ p, p {{ Executor := x }}).

Definition IsPoolSet (p : PoolClear) : bool := str_set (Pool p).
Definition IsVdevSet (p : PoolClear) : bool := list_set (Vdev p).
Definition IsCommandSet (p : PoolClear) : bool := str_set (Command p).
Definition IsExecutorSet (p : PoolClear) : bool := executor_set (Executor p).

Definition command (p : PoolClear) : string :=
  let c := "" in
  let c := appendCommand c ZPOOL in
  let c := appendCommand c (" " +:+ Operation +:+ " ") in
  let c := appendCommand c (Pool p) in
  let c := foldl (λ c x, appendCommand c (" " +:+ x +:+ " ")) c (Vdev p) in
  c.

Definition Build : builder PoolClear → builder PoolClear * option error :=
  build_with (λ c p, p {{ Command := c }}) command.
Definition Execute {W} `{Shell W} : builder PoolClear → M W output :=
  execute Build (λ p, Executor p) Command raw.
End pclear.

Module pcreate.
(** pkg/zcmd/zpool/create *)
Definition Operation : string := "create".
Record PoolCreate := {
  Property : list string;
  FSProperty : list string;
  Pool : string;
  Type_ : string;
  Vdev : list string;
  Forcefully : bool;
  Command : string;
  Executor : option executor;
}.
Definition NewPoolCreate : builder PoolCreate :=
  new {| Property := []; FSProperty := []; Pool := ""; Type_ := ""; Vdev := []; Forcefully :=
    false; Command := ""; Executor := None |}.

Definition WithProperty (key value : string) : builder PoolCreate → builder PoolCreate :=
  upd (λ p, if str_set value then p {{ Property ::= (λ l, l ++ [key +:+ "=" +:+ value]) }} else p).
Definition WithFSProperty (key value : string) : builder PoolCreate → builder PoolCreate :=
  upd (λ p, if str_set value then p {{ FSProperty ::= (λ l, l ++ [key +:+ "=" +:+ value]) }} else p).
Definition WithPool (x : string) : builder PoolCreate → builder PoolCreate :=
  upd (λ p, p {{ Pool := x }}).
Definition WithType (x : string) : builder PoolCreate → builder PoolCreate :=
  upd (λ p, p {{ Type_ := x }}).
Definition WithVdev (x : string) : builder PoolCreate → builder PoolCreate :=
  upd (λ p, p {{ Vdev ::= (λ l, l ++ [x]) }}).
Definition WithVdevList (xs : list string) : builder PoolCreate → builder PoolCreate :=
  upd (λ p, p {{ Vdev ::= (λ l, l ++ xs) }}).
Definition WithForcefully (x : bool) : builder PoolCreate → builder PoolCreate :=
  upd (λ p, p {{ Forcefully := x }}).
Definition WithCommand (x : string) : builder PoolCreate → builder PoolCreate :=
  upd (λ p, p {{ Command := x }}).
Definition WithExecutor (x : option executor) : builder PoolCreate → builder PoolCreate :=
  upd (λ p, p {{ Executor := x }}).

Definition IsPropertySet (p : PoolCreate) : bool := list_set (Property p).
Definition IsFSPropertySet (p : PoolCreate) : bool := list_set (FSProperty p).
Definition IsPoolSet (p : PoolCreate) : bool := str_set (Pool p).
Definition IsVdevSet (p : PoolCreate) : bool := list_set (Vdev p).
Definition IsForcefullySet (p : PoolCreate) : bool := Forcefully p.
Definition IsTypeSet (p : PoolCreate) : bool :=
  negb (bool_decide (Type_ p = "stripe")) && str_set (Type_ p).
Definition IsCommandSet (p : PoolCreate) : bool := str_set (Command p).
Definition IsExecutorSet (p : PoolCreate) : bool := executor_set (Executor p).

Definition command (p : PoolCreate) : string :=
  let c := "" in
  let c := appendCommand c ZPOOL in
  let c := appendCommand c (" " +:+ Operation +:+ " ") in
  let c := if IsForcefullySet p then appendCommand c " -f " else c in
  let c := if IsPropertySet p then
      foldl (λ c x, appendCommand c (" -o " +:+ x +:+ " ")) c (Property p) else c in
  let c := if IsFSPropertySet p then
      foldl (λ c x, appendCommand c (" -O " +:+ x +:+ " ")) c (FSProperty p) else c in
  let c := appendCommand c (Pool p) in
  let c := if IsTypeSet p then appendCommand c (" " +:+ Type_ p +:+ " ") else c in
  let c := foldl (λ c x, appendCommand c (" " +:+ x +:+ " ")) c (Vdev p) in
  c.

Definition Build : builder PoolCreate → builder PoolCreate * option error :=
  build_with (λ c p, p {{ Command := c }}) command.
Definition Execute {W} `{Shell W} : builder PoolCreate → M W output :=
  execute Build (λ p, Executor p) Command raw.
End pcreate.

Module pdestroy.
(** pkg/zcmd/zpool/destroy *)
Definition Operation : string := "destroy".
Record PoolDestroy := {
  Pool : string;
  Forcefully : bool;
  Command : string;
  Executor : option executor;
}.
Definition NewPoolDestroy : builder PoolDestroy :=
  new {| Pool := ""; Forcefully := false; Command := ""; Executor := None |}.

Definition WithPool (x : string) : builder PoolDestroy → builder PoolDestroy :=
  upd (λ p, p {{ Pool := x }}).
Definition WithForcefully (x : bool) : builder PoolDestroy → builder PoolDestroy :=
  upd (λ p, p {{ Forcefully := x }}).
Definition WithCommand (x : string) : builder PoolDestroy → builder PoolDestroy :=
  upd (λ p, p {{ Command := x }}).
Definition WithExecutor (x : option executor) : builder PoolDestroy → builder PoolDestroy :=
  upd (λ p, p {{ Executor := x }}).

Definition IsPoolSet (p : PoolDestroy) : bool := str_set (Pool p).
Definition IsForcefullySet (p : PoolDestroy) : bool := Forcefully p.
Definition IsCommandSet (p : PoolDestroy) : bool := str_set (Command p).
Definition IsExecutorSet (p : PoolDestroy) : bool := executor_set (Executor p).

Definition command (p : PoolDestroy) : string :=
  let c := "" in
  let c := appendCommand c ZPOOL in
  let c := appendCommand c (" " +:+ Operation +:+ " ") in
  let c := if IsForcefullySet p then appendCommand c " -f " else c in
  let c := appendCommand c (Pool p) in
  c.

Definition Build : builder PoolDestroy → builder PoolDestroy * option error :=
  build_with (λ c p, p {{ Command := c }}) command.
Definition Execute {W} `{Shell W} : builder PoolDestroy → M W output :=
  execute Build (λ p, Executor p) Command wrap_error.
End pdestroy.

Module pdetach.
(** pkg/zcmd/zpool/detach *)
Definition Operation : string := "detach".
Record PoolDetach := {
  Pool : string;
  Vdev : string;
  Command : string;
  Executor : option executor;
}.
Definition NewPoolDetach : builder PoolDetach :=
  new {| Pool := ""; Vdev := ""; Command := ""; Executor := None |}.

Definition WithPool (x : string) : builder PoolDetach → builder PoolDetach :=
  upd (λ p, p {{ Pool := x }}).
Definition WithVdev (x : string) : builder PoolDetach → builder PoolDetach :=
  upd (λ p, p {{ Vdev := x }}).
Definition WithCommand (x : string) : builder PoolDetach → builder PoolDetach :=
  upd (λ p, p {{ Command := x }}).

Definition IsPoolSet (p : PoolDetach) : bool := str_set (Pool p).
Definition IsVdevSet (p : PoolDetach) : bool := str_set (Vdev p).
Definition IsCommandSet (p : PoolDetach) : bool := str_set (Command p).
Definition IsExecutorSet (p : PoolDetach) : bool := executor_set (Executor p).

Definition command (p : PoolDetach) : string :=
  let c := "" in
  let c := appendCommand c ZPOOL in
  let c := appendCommand c (" " +:+ Operation +:+ " ") in
  let c := appendCommand c (" " +:+ Pool p +:+ " ") in
  let c := appendCommand c (" " +:+ Vdev p +:+ " ") in
  c.

Definition Build : builder PoolDetach → builder PoolDetach * option error :=
  build_with (λ c p, p {{ Command := c }}) command.
Definition Execute {W} `{Shell W} : builder PoolDetach → M W output :=
  execute Build (λ p, Executor p) Command raw.
End pdetach.

Module pdump.
(** pkg/zcmd/zpool/dump *)
Definition Operation : string := "dump".
Record PoolDump := {
  Pool : string;
  Command : string;
  StripVdevPath : bool;
  Executor : option executor;
}.
Definition NewPoolDump : builder PoolDump :=
  new {| Pool := ""; Command := ""; StripVdevPath := false; Executor := None |}.

Definition WithPool (x : string) : builder PoolDump → builder PoolDump :=
  upd (λ p, p {{ Pool := x }}).
Definition WithCommand (x : string) : builder PoolDump → builder PoolDump :=
  upd (λ p, p {{ Command := x }}).
Definition WithStripVdevPath : builder PoolDump → builder PoolDump :=
  upd (λ p, p {{ StripVdevPath := true }}).
Definition WithExecutor (x : option executor) : builder PoolDump → builder PoolDump :=
  upd (λ p, p {{ Executor := x }}).

Definition IsPoolSet (p : PoolDump) : bool := str_set (Pool p).
Definition IsCommandSet (p : PoolDump) : bool := str_set (Command p).
Definition IsExecutorSet (p : PoolDump) : bool := executor_set (Executor p).

Definition command (p : PoolDump) : string :=
  let c := "" in
  let c := appendCommand c ZPOOL in
  let c := appendCommand c (" " +:+ Operation +:+ " ") in
  let c := appendCommand c (Pool p) in
  c.

Definition Build : builder PoolDump → builder PoolDump * option error :=
  build_with (λ c p, p {{ Command := c }}) command.

(** unicode.IsNumber and unicode.IsLetter of the rune of a byte. *)
Definition IsNumber (a : ascii) : bool :=
  let n := Ascii.nat_of_ascii a in
  ((48 <=? n) && (n <=? 57) || bool_decide (n ∈ [178; 179; 185; 188; 189; 190]))%nat.
Definition IsLetter (a : ascii) : bool :=
  let n := Ascii.nat_of_ascii a in
  ((65 <=? n) && (n <=? 90) || (97 <=? n) && (n <=? 122) || bool_decide (n ∈ [170; 181; 186]) ||
   (192 <=? n) && (n <=? 255) && negb (bool_decide (n ∈ [215; 247])))%nat.

(** [d[getLastIndex(d, fn):]] is [drop (getLastIndex fn d) d]. *)
Fixpoint getLastIndex (fn : ascii → bool) (p : list ascii) : nat :=
  match p with
  | [] => 0
  | a :: p' => if fn a then S (getLastIndex fn p') else 0
  end.

(** The index of the last byte that is [b], and of the first occurrence of [sub]. *)
Fixpoint last_index (b : ascii) (p : list ascii) : option nat :=
  match p with
  | [] => None
  | a :: p' =>
      match last_index b p' with
      | Some i => Some (S i)
      | None => if Ascii.eqb a b then Some 0 else None
      end
  end.
Fixpoint index_of (sub p : list ascii) : option nat :=
  if bool_decide (take (length sub) p = sub) then Some 0
  else match p with [] => None | _ :: p' => S <$> index_of sub p' end.

(** The branches of getDiskStripPath: the index of [part] in the name and that of [d], or
    [None] when no branch is taken.  [pathBytes[:3]] may reach beyond the name into the
    capacity of its array, whose bytes are not those of "xvd". *)
Definition partition_suffix (pathBytes : list ascii) : outcome (option (nat * nat)) :=
  let by_p :=
    match last_index "p"%char pathBytes with
    | Some idx =>
        if (1 <? idx)%nat && match pathBytes !! (idx - 1) with Some a => IsNumber a | None => false end
        then Some (idx, idx + 1) else None
    | None => None
    end in
  match index_of (bytes "-part") pathBytes with
  | Some (S i) => Ret (Some (S i, S i + 5))
  | _ =>
      match by_p with
      | Some r => Ret (Some r)
      | None =>
          match pathBytes with
          | [] => Panic "index out of range"
          | a :: rest =>
              let isDisk : outcome bool :=
                if bool_decide (a ∈ bytes "hsv") then
                  match rest with
                  | [] => Panic "index out of range"
                  | b :: _ => Ret (Ascii.eqb b "d"%char)
                  end
                else Ret false in
              let* isDisk := isDisk in
              if isDisk : bool then
                let i := 2 + getLastIndex IsLetter (drop 2 pathBytes) in Ret (Some (i, i))
              else if bool_decide (take 3 pathBytes = bytes "xvd") then
                let i := 3 + getLastIndex IsLetter (drop 3 pathBytes) in Ret (Some (i, i))
              else Ret None
          end
      end
  end.

Definition newline : ascii := Ascii.ascii_of_nat 10.
Fixpoint before_newline (l : list ascii) : list ascii :=
  match l with
  | [] => []
  | a :: l' => if Ascii.eqb a newline then [] else a :: before_newline l'
  end.

(** The bytes of the partition suffix are overwritten with newlines, and the path is cut at
    the first newline. *)
Definition getDiskStripPath (path : list ascii) : outcome (list ascii) :=
  match last_index "/"%char path with
  | None => Ret path
  | Some lastIndex =>
      let dir := take (lastIndex + 1) path in
      let pathBytes := drop (lastIndex + 1) path in
      let* s := partition_suffix pathBytes in
      match s with
      | Some (part, d) =>
          let digits := drop d pathBytes in
          if list_set digits && (getLastIndex IsNumber digits =? length digits)%nat then
            Ret (before_newline
                   (dir ++ take part pathBytes ++ replicate (length pathBytes - part) newline))
          else Ret (before_newline path)
      | None => Ret (before_newline path)
      end
  end.

Definition text (l : list ascii) : string := String.string_of_list_ascii l.

Fixpoint strip_vdev (v : Vdev) : outcome Vdev :=
  match v with
  | mkVdev path whole stats scan children =>
      let* path :=
        if (whole =? 1)%Z then (let* p := getDiskStripPath (bytes path) in Ret (text p))
        else Ret path in
      let* children :=
        (fix strip l :=
           match l with
           | [] => Ret []
           | c :: l' => let* c := strip_vdev c in let* l' := strip l' in Ret (c :: l')
           end) children in
      Ret (mkVdev path whole stats scan children)
  end.

Fixpoint stripDiskPath (vdevlist : list Vdev) : outcome (list Vdev) :=
  match vdevlist with
  | [] => Ret []
  | v :: vdevlist' =>
      let* v := strip_vdev v in let* l := stripDiskPath vdevlist' in Ret (v :: l)
  end.

(** The topology is stripped whenever the command ran. *)
Definition Execute {W} `{Shell W} `{ZJson} (b : builder PoolDump)
  : M W (Topology * option error) :=
  let f (o : output) :=
    match o with
    | (_, Some err) => inl (no_topology, Some err)
    | (out, None) => inr (json_Topology out)
    end in
  let* r := execute_by (λ err, inl (no_topology, Some err)) Build (λ p, Executor p) Command f f b in
  match r with
  | inl r => mret r
  | inr (t, err) =>
      if StripVdevPath (object b) then
        let* top := lift (λ _, stripDiskPath (Topvdev (VdevTree_ t))) in
        let* spares := lift (λ _, stripDiskPath (Spares (VdevTree_ t))) in
        let* cache := lift (λ _, stripDiskPath (Readcache (VdevTree_ t))) in
        mret ({| VdevTree_ := {| Topvdev := top; Spares := spares; Readcache := cache |} |}, err)
      else mret (t, err)
  end.
End pdump.

Module pexport.
(** pkg/zcmd/zpool/export *)
Definition Operation : string := "export".
Record PoolExport := {
  AllPool : bool;
  Forcefully : bool;
  PoolList : list string;
  Command : string;
  Executor : option executor;
}.
Definition NewPoolExport : builder PoolExport :=
  new {| AllPool := false; Forcefully := false; PoolList := []; Command := ""; Executor :=
    None |}.

Definition WithAllPool (x : bool) : builder PoolExport → builder PoolExport :=
  upd (λ p, p {{ AllPool := x }}).
Definition WithForcefully (x : bool) : builder PoolExport → builder PoolExport :=
  upd (λ p, p {{ Forcefully := x }}).
Definition WithPool (x : string) : builder PoolExport → builder PoolExport :=
  upd (λ p, p {{ PoolList ::= (λ l, l ++ [x]) }}).
Definition WithCommand (x : string) : builder PoolExport → builder PoolExport :=
  upd (λ p, p {{ Command := x }}).
Definition WithExecutor (x : option executor) : builder PoolExport → builder PoolExport :=
  upd (λ p, p {{ Executor := x }}).

Definition IsAllPoolSet (p : PoolExport) : bool := AllPool p.
Definition IsForcefullySet (p : PoolExport) : bool := Forcefully p.
Definition IsPoolListSet (p : PoolExport) : bool := list_set (PoolList p).
Definition IsCommandSet (p : PoolExport) : bool := str_set (Command p).
Definition IsExecutorSet (p : PoolExport) : bool := executor_set (Executor p).

Definition command (p : PoolExport) : string :=
  let c := "" in
  let c := appendCommand c ZPOOL in
  let c := appendCommand c (" " +:+ Operation +:+ " ") in
  let c := if IsForcefullySet p then appendCommand c " -f " else c in
  let c := foldl (λ c x, appendCommand c (" " +:+ x +:+ " ")) c (PoolList p) in
  c.

Definition Build : builder PoolExport → builder PoolExport * option error :=
  build_with (λ c p, p {{ Command := c }}) command.
Definition Execute {W} `{Shell W} : builder PoolExport → M W output :=
  execute Build (λ p, Executor p) Command raw.
End pexport.

Module pget.
(** pkg/zcmd/zpool/get *)
Definition Operation : string := "get".
Record PoolGProperty := {
  PropList : list string;
  IsScriptedMode : bool;
  IsParsableMode : bool;
  FieldList : list string;
  Pool : string;
  Command : string;
  Executor : option executor;
}.
Definition NewPoolGetProperty : builder PoolGProperty :=
  new {| PropList := []; IsScriptedMode := false; IsParsableMode := false; FieldList := [];
    Pool := ""; Command := ""; Executor := None |}.

Definition WithProperty (x : string) : builder PoolGProperty → builder PoolGProperty :=
  upd (λ p, p {{ PropList ::= (λ l, l ++ [x]) }}).
Definition WithPropertyList (xs : list string) : builder PoolGProperty → builder PoolGProperty :=
  upd (λ p, p {{ PropList ::= (λ l, l ++ xs) }}).
Definition WithScriptedMode (x : bool) : builder PoolGProperty → builder PoolGProperty :=
  upd (λ p, p {{ IsScriptedMode := x }}).
Definition WithParsableMode (x : bool) : builder PoolGProperty → builder PoolGProperty :=
  upd (λ p, p {{ IsParsableMode := x }}).
Definition WithField (x : string) : builder PoolGProperty → builder PoolGProperty :=
  upd (λ p, p {{ FieldList ::= (λ l, l ++ [x]) }}).
Definition WithPool (x : string) : builder PoolGProperty → builder PoolGProperty :=
  upd (λ p, p {{ Pool := x }}).
Definition WithCommand (x : string) : builder PoolGProperty → builder PoolGProperty :=
  upd (λ p, p {{ Command := x }}).
Definition WithExecutor (x : option executor) : builder PoolGProperty → builder PoolGProperty :=
  upd (λ p, p {{ Executor := x }}).

Definition IsPropListSet (p : PoolGProperty) : bool := list_set (PropList p).
Definition IsPoolSet (p : PoolGProperty) : bool := str_set (Pool p).
Definition IsCommandSet (p : PoolGProperty) : bool := str_set (Command p).
Definition IsScriptedModeSet (p : PoolGProperty) : bool := IsScriptedMode p.
Definition IsParsableModeSet (p : PoolGProperty) : bool := IsParsableMode p.
Definition IsFieldListSet (p : PoolGProperty) : bool := list_set (FieldList p).
Definition IsExecutorSet (p : PoolGProperty) : bool := executor_set (Executor p).

Definition command (p : PoolGProperty) : string :=
  let c := "" in
  let c := appendCommand c ZPOOL in
  let c := appendCommand c (" " +:+ Operation +:+ " ") in
  let c := if IsScriptedModeSet p then appendCommand c " -H " else c in
  let c := if IsParsableModeSet p then appendCommand c " -p " else c in
  let c := if IsFieldListSet p then
      (let c := appendCommand c " -o " in
       let c := foldl (λ c x, appendCommand c (x +:+ ",")) c (FieldList p) in
       let c := appendCommand c " " in c) else c in
  let c := if IsPropListSet p then
      (let c := foldl (λ c x, appendCommand c (x +:+ ",")) c (PropList p) in
       let c := appendCommand c " " in c) else c in
  let c := if IsPoolSet p then appendCommand c (" " +:+ Pool p +:+ " ") else c in
  c.

Definition Build : builder PoolGProperty → builder PoolGProperty * option error :=
  build_with (λ c p, p {{ Command := c }}) command.
Definition Execute {W} `{Shell W} : builder PoolGProperty → M W output :=
  execute Build (λ p, Executor p) Command raw.
End pget.

Module pimport.
(** pkg/zcmd/zpool/import *)
Definition Operation : string := "import".
Record PoolImport := {
  Cachefile : string;
  Directorylist : list string;
  ImportAll : bool;
  ForceImport : bool;
  Property : list string;
  Pool : string;
  NewPool : string;
  Command : string;
  Executor : option executor;
}.
Definition NewPoolImport : builder PoolImport :=
  new {| Cachefile := ""; Directorylist := []; ImportAll := false; ForceImport := false;
    Property := []; Pool := ""; NewPool := ""; Command := ""; Executor := None |}.

Definition WithCachefile (x : string) : builder PoolImport → builder PoolImport :=
  upd (λ p, p {{ Cachefile := x }}).
Definition WithDirectory (x : string) : builder PoolImport → builder PoolImport :=
  upd (λ p, p {{ Directorylist ::= (λ l, l ++ [x]) }}).
Definition WithImportAll (x : bool) : builder PoolImport → builder PoolImport :=
  upd (λ p, p {{ ImportAll := x }}).
Definition WithForceImport (x : bool) : builder PoolImport → builder PoolImport :=
  upd (λ p, p {{ ForceImport := x }}).
Definition WithProperty (key value : string) : builder PoolImport → builder PoolImport :=
  upd (λ p, if str_set value then p {{ Property ::= (λ l, l ++ [key +:+ "=" +:+ value]) }} else p).
Definition WithPool (x : string) : builder PoolImport → builder PoolImport :=
  upd (λ p, p {{ Pool := x }}).
Definition WithNewPool (x : string) : builder PoolImport → builder PoolImport :=
  upd (λ p, p {{ NewPool := x }}).
Definition WithCommand (x : string) : builder PoolImport → builder PoolImport :=
  upd (λ p, p {{ Command := x }}).
Definition WithExecutor (x : option executor) : builder PoolImport → builder PoolImport :=
  upd (λ p, p {{ Executor := x }}).

Definition IsCachefileSet (p : PoolImport) : bool := str_set (Cachefile p).
Definition IsDirectorylistSet (p : PoolImport) : bool := list_set (Directorylist p).
Definition IsImportAllSet (p : PoolImport) : bool := ImportAll p.
Definition IsForceImportSet (p : PoolImport) : bool := ForceImport p.
Definition IsPropertySet (p : PoolImport) : bool := list_set (Property p).
Definition IsPoolSet (p : PoolImport) : bool := str_set (Pool p).
Definition IsNewPoolSet (p : PoolImport) : bool := str_set (NewPool p).
Definition IsCommandSet (p : PoolImport) : bool := str_set (Command p).
Definition IsExecutorSet (p : PoolImport) : bool := executor_set (Executor p).

Definition command (p : PoolImport) : string :=
  let c := "" in
  let c := appendCommand c ZPOOL in
  let c := appendCommand c (" " +:+ Operation +:+ " ") in
  let c := if IsPropertySet p then
      foldl (λ c x, appendCommand c (" -o " +:+ x +:+ " ")) c (Property p) else c in
  let c := if negb (IsCachefileSet p) && IsDirectorylistSet p then
      foldl (λ c x, if str_set x then appendCommand c (" -d " +:+ x +:+ " ") else c) c (Directorylist p) else c in
  let c := if IsCachefileSet p then appendCommand c (" -c " +:+ Cachefile p +:+ " ") else c in
  let c := if IsForceImportSet p then appendCommand c " -f " else c in
  let c := if IsImportAllSet p then
      appendCommand c " -a " else (let c := appendCommand c (Sprintf0 (Pool p)) in
       let c := if IsNewPoolSet p then appendCommand c (" " +:+ NewPool p +:+ " ") else c in c) in
  c.

Definition Build : builder PoolImport → builder PoolImport * option error :=
  build_with (λ c p, p {{ Command := c }}) command.
Definition Execute {W} `{Shell W} : builder PoolImport → M W output :=
  execute Build (λ p, Executor p) Command raw.
End pimport.

Module plabelclear.
(** pkg/zcmd/zpool/labelclear *)
Definition Operation : string := "labelclear".
Record PoolLabelClear := {
  Vdev : string;
  Forcefully : bool;
  Command : string;
  Executor : option executor;
}.
Definition NewPoolLabelClear : builder PoolLabelClear :=
  new {| Vdev := ""; Forcefully := false; Command := ""; Executor := None |}.

Definition WithForceFully (x : bool) : builder PoolLabelClear → builder PoolLabelClear :=
  upd (λ p, p {{ Forcefully := x }}).
Definition WithVdev (x : string) : builder PoolLabelClear → builder PoolLabelClear :=
  upd (λ p, p {{ Vdev := x }}).
Definition WithExecutor (x : option executor) : builder PoolLabelClear → builder PoolLabelClear :=
  upd (λ p, p {{ Executor := x }}).
Definition WithCommand (x : string) : builder PoolLabelClear → builder PoolLabelClear :=
  upd (λ p, p {{ Command := x }}).

Definition IsVdevSet (p : PoolLabelClear) : bool := str_set (Vdev p).
Definition IsForcefullySet (p : PoolLabelClear) : bool := Forcefully p.
Definition IsCommandSet (p : PoolLabelClear) : bool := str_set (Command p).
Definition IsExecutorSet (p : PoolLabelClear) : bool := executor_set (Executor p).

Definition command (p : PoolLabelClear) : string :=
  let c := "" in
  let c := appendCommand c ZPOOL in
  let c := appendCommand c (" " +:+ Operation +:+ " ") in
  let c := if IsForcefullySet p then appendCommand c " -f " else c in
  let c := appendCommand c (" " +:+ Vdev p +:+ " ") in
  c.

Definition Build : builder PoolLabelClear → builder PoolLabelClear * option error :=
  build_with (λ c p, p {{ Command := c }}) command.
Definition Execute {W} `{Shell W} : builder PoolLabelClear → M W output :=
  execute Build (λ p, Executor p) Command raw.
End plabelclear.

Module poffline.
(** pkg/zcmd/zpool/offline *)
Definition Operation : string := "offline".
Record PoolOffline := {
  ForceOffline : bool;
  isTemporary : bool;
  Pool : string;
  Devicelist : list string;
  Command : string;
  Executor : option executor;
}.
Definition NewPoolOffline : builder PoolOffline :=
  new {| ForceOffline := false; isTemporary := false; Pool := ""; Devicelist := []; Command :=
    ""; Executor := None |}.

Definition WithForceOffline (x : bool) : builder PoolOffline → builder PoolOffline :=
  upd (λ p, p {{ ForceOffline := x }}).
Definition WithisTemporary (x : bool) : builder PoolOffline → builder PoolOffline :=
  upd (λ p, p {{ isTemporary := x }}).
Definition WithPool (x : string) : builder PoolOffline → builder PoolOffline :=
  upd (λ p, p {{ Pool := x }}).
Definition WithDevicelist (x : string) : builder PoolOffline → builder PoolOffline :=
  upd (λ p, p {{ Devicelist ::= (λ l, l ++ [x]) }}).
Definition WithCommand (x : string) : builder PoolOffline → builder PoolOffline :=
  upd (λ p, p {{ Command := x }}).
Definition WithExecutor (x : option executor) : builder PoolOffline → builder PoolOffline :=
  upd (λ p, p {{ Executor := x }}).

Definition IsForceOfflineSet (p : PoolOffline) : bool := ForceOffline p.
Definition IsTemporarySet (p : PoolOffline) : bool := isTemporary p.
Definition IsPoolSet (p : PoolOffline) : bool := str_set (Pool p).
Definition IsDevicelistSet (p : PoolOffline) : bool := list_set (Devicelist p).
Definition IsCommandSet (p : PoolOffline) : bool := str_set (Command p).
Definition IsExecutorSet (p : PoolOffline) : bool := executor_set (Executor p).

Definition command (p : PoolOffline) : string :=
  let c := "" in
  let c := appendCommand c ZPOOL in
  let c := appendCommand c (" " +:+ Operation +:+ " ") in
  let c := if IsTemporarySet p then appendCommand c " -t " else c in
  let c := appendCommand c (" " +:+ Pool p +:+ " ") in
  let c := if IsDevicelistSet p then
      foldl (λ c x, appendCommand c (" " +:+ x +:+ " ")) c (Devicelist p) else c in
  c.

Definition Build : builder PoolOffline → builder PoolOffline * option error :=
  build_with (λ c p, p {{ Command := c }}) command.
Definition Execute {W} `{Shell W} : builder PoolOffline → M W output :=
  execute Build (λ p, Executor p) Command raw.
End poffline.

Module ponline.
(** pkg/zcmd/zpool/online *)
Definition Operation : string := "online".
Record PoolOnline := {
  Pool : string;
  Device : list string;
  ShouldExpand : bool;
  Command : string;
  Executor : option executor;
}.
Definition NewPoolOnline : builder PoolOnline :=
  new {| Pool := ""; Device := []; ShouldExpand := false; Command := ""; Executor := None |}.

Definition WithPool (x : string) : builder PoolOnline → builder PoolOnline :=
  upd (λ p, p {{ Pool := x }}).
Definition WithDevice (x : string) : builder PoolOnline → builder PoolOnline :=
  upd (λ p, p {{ Device ::= (λ l, l ++ [x]) }}).
Definition WithShouldExpand (x : bool) : builder PoolOnline → builder PoolOnline :=
  upd (λ p, p {{ ShouldExpand := x }}).
Definition WithCommand (x : string) : builder PoolOnline → builder PoolOnline :=
  upd (λ p, p {{ Command := x }}).
Definition WithExecutor (x : option executor) : builder PoolOnline → builder PoolOnline :=
  upd (λ p, p {{ Executor := x }}).

Definition IsPoolSet (p : PoolOnline) : bool := str_set (Pool p).
Definition IsDeviceSet (p : PoolOnline) : bool := list_set (Device p).
Definition IsShouldExpandSet (p : PoolOnline) : bool := ShouldExpand p.
Definition IsCommandSet (p : PoolOnline) : bool := str_set (Command p).
Definition IsExecutorSet (p : PoolOnline) : bool := executor_set (Executor p).

Definition command (p : PoolOnline) : string :=
  let c := "" in
  let c := appendCommand c ZPOOL in
  let c := appendCommand c (" " +:+ Operation +:+ " ") in
  let c := if IsShouldExpandSet p then appendCommand c " -e " else c in
  let c := appendCommand c (" " +:+ Pool p +:+ " ") in
  let c := if IsDeviceSet p then
      foldl (λ c x, appendCommand c (" " +:+ x +:+ " ")) c (Device p) else c in
  c.

Definition Build : builder PoolOnline → builder PoolOnline * option error :=
  build_with (λ c p, p {{ Command := c }}) command.
Definition Execute {W} `{Shell W} : builder PoolOnline → M W output :=
  execute Build (λ p, Executor p) Command raw.
End ponline.

Module premove.
(** pkg/zcmd/zpool/remove *)
Definition Operation : string := "remove".
Record PoolRemove := {
  Pool : string;
  Device : list string;
  Command : string;
  Executor : option executor;
}.
Definition NewPoolRemove : builder PoolRemove :=
  new {| Pool := ""; Device := []; Command := ""; Executor := None |}.

Definition WithPool (x : string) : builder PoolRemove → builder PoolRemove :=
  upd (λ p, p {{ Pool := x }}).
Definition WithDevice (x : string) : builder PoolRemove → builder PoolRemove :=
  upd (λ p, p {{ Device ::= (λ l, l ++ [x]) }}).
Definition WithCommand (x : string) : builder PoolRemove → builder PoolRemove :=
  upd (λ p, p {{ Command := x }}).
Definition WithExecutor (x : option executor) : builder PoolRemove → builder PoolRemove :=
  upd (λ p, p {{ Executor := x }}).

Definition IsPoolSet (p : PoolRemove) : bool := str_set (Pool p).
Definition IsDeviceSet (p : PoolRemove) : bool := list_set (Device p).
Definition IsCommandSet (p : PoolRemove) : bool := str_set (Command p).
Definition IsExecutorSet (p : PoolRemove) : bool := executor_set (Executor p).

Definition command (p : PoolRemove) : string :=
  let c := "" in
  let c := appendCommand c ZPOOL in
  let c := appendCommand c (" " +:+ Operation +:+ " ") in
  let c := appendCommand c (" " +:+ Pool p +:+ " ") in
  let c := if IsDeviceSet p then
      foldl (λ c x, appendCommand c (" " +:+ x +:+ " ")) c (Device p) else c in
  c.

Definition Build : builder PoolRemove → builder PoolRemove * option error :=
  build_with (λ c p, p {{ Command := c }}) command.
Definition Execute {W} `{Shell W} : builder PoolRemove → M W output :=
  execute Build (λ p, Executor p) Command raw.
End premove.

Module preplace.
(** pkg/zcmd/zpool/replace *)
Definition Operation : string := "replace".
Record PoolDiskReplace := {
  OldVdev : string;
  NewVdev : string;
  Property : list string;
  Pool : string;
  Forcefully : bool;
  Command : string;
  Executor : option executor;
}.
Definition NewPoolDiskReplace : builder PoolDiskReplace :=
  new {| OldVdev := ""; NewVdev := ""; Property := []; Pool := ""; Forcefully := false;
    Command := ""; Executor := None |}.

Definition WithOldVdev (x : string) : builder PoolDiskReplace → builder PoolDiskReplace :=
  upd (λ p, p {{ OldVdev := x }}).
Definition WithNewVdev (x : string) : builder PoolDiskReplace → builder PoolDiskReplace :=
  upd (λ p, p {{ NewVdev := x }}).
Definition WithProperty (key value : string) : builder PoolDiskReplace → builder PoolDiskReplace :=
  upd (λ p, p {{ Property ::= (λ l, l ++ [key +:+ "=" +:+ value]) }}).
Definition WithForcefully (x : bool) : builder PoolDiskReplace → builder PoolDiskReplace :=
  upd (λ p, p {{ Forcefully := x }}).
Definition WithPool (x : string) : builder PoolDiskReplace → builder PoolDiskReplace :=
  upd (λ p, p {{ Pool := x }}).
Definition WithCommand (x : string) : builder PoolDiskReplace → builder PoolDiskReplace :=
  upd (λ p, p {{ Command := x }}).
Definition WithExecutor (x : option executor) : builder PoolDiskReplace → builder PoolDiskReplace :=
  upd (λ p, p {{ Executor := x }}).

Definition IsOldVdevSet (p : PoolDiskReplace) : bool := str_set (OldVdev p).
Definition IsNewVdevSet (p : PoolDiskReplace) : bool := str_set (NewVdev p).
Definition IsPropertySet (p : PoolDiskReplace) : bool := list_set (Property p).
Definition IsPoolSet (p : PoolDiskReplace) : bool := str_set (Pool p).
Definition IsForcefullySet (p : PoolDiskReplace) : bool := Forcefully p.
Definition IsCommandSet (p : PoolDiskReplace) : bool := str_set (Command p).
Definition IsExecutorSet (p : PoolDiskReplace) : bool := executor_set (Executor p).

Definition command (p : PoolDiskReplace) : string :=
  let c := "" in
  let c := appendCommand c ZPOOL in
  let c := appendCommand c (" " +:+ Operation +:+ " ") in
  let c := if IsForcefullySet p then appendCommand c " -f " else c in
  let c := if IsPropertySet p then
      foldl (λ c x, appendCommand c (" -o " +:+ x +:+ " ")) c (Property p) else c in
  let c := appendCommand c (Pool p) in
  let c := appendCommand c (" " +:+ OldVdev p) in
  let c := appendCommand c (" " +:+ NewVdev p) in
  c.

Definition Build : builder PoolDiskReplace → builder PoolDiskReplace * option error :=
  build_with (λ c p, p {{ Command := c }}) command.
Definition Execute {W} `{Shell W} : builder PoolDiskReplace → M W output :=
  execute Build (λ p, Executor p) Command execution_failed.
End preplace.

Module pset.
(** pkg/zcmd/zpool/set *)
Definition Operation : string := "set".
Record PoolSProperty := {
  PropList : list string;
  Pool : string;
  Command : string;
  Executor : option executor;
}.
Definition NewPoolSetProperty : builder PoolSProperty :=
  new {| PropList := []; Pool := ""; Command := ""; Executor := None |}.

Definition WithProperty (key value : string) : builder PoolSProperty → builder PoolSProperty :=
  upd (λ p, p {{ PropList ::= (λ l, l ++ [key +:+ "=" +:+ value]) }}).
Definition WithPool (x : string) : builder PoolSProperty → builder PoolSProperty :=
  upd (λ p, p {{ Pool := x }}).
Definition WithCommand (x : string) : builder PoolSProperty → builder PoolSProperty :=
  upd (λ p, p {{ Command := x }}).
Definition WithExecutor (x : option executor) : builder PoolSProperty → builder PoolSProperty :=
  upd (λ p, p {{ Executor := x }}).

Definition IsPropListSet (p : PoolSProperty) : bool := list_set (PropList p).
Definition IsPoolSet (p : PoolSProperty) : bool := str_set (Pool p).
Definition IsCommandSet (p : PoolSProperty) : bool := str_set (Command p).
Definition IsExecutorSet (p : PoolSProperty) : bool := executor_set (Executor p).

Definition command (p : PoolSProperty) : string :=
  let c := "" in
  let c := appendCommand c ZPOOL in
  let c := appendCommand c (" " +:+ Operation +:+ " ") in
  let c := if IsPropListSet p then
      foldl (λ c x, appendCommand c (" " +:+ x +:+ " ")) c (PropList p) else c in
  let c := appendCommand c (Pool p) in
  c.

Definition Build : builder PoolSProperty → builder PoolSProperty * option error :=
  build_with (λ c p, p {{ Command := c }}) command.
Definition Execute {W} `{Shell W} : builder PoolSProperty → M W output :=
  execute Build (λ p, Executor p) Command raw.
End pset.

Module pstatus.
(** pkg/zcmd/zpool/status *)
Definition Operation : string := "status".
Record PoolStatus := {
  Pool : string;
  Command : string;
  Executor : option executor;
}.
Definition NewPoolStatus : builder PoolStatus :=
  new {| Pool := ""; Command := ""; Executor := None |}.

Definition WithPool (x : string) : builder PoolStatus → builder PoolStatus :=
  upd (λ p, p {{ Pool := x }}).
Definition WithCommand (x : string) : builder PoolStatus → builder PoolStatus :=
  upd (λ p, p {{ Command := x }}).
Definition WithExecutor (x : option executor) : builder PoolStatus → builder PoolStatus :=
  upd (λ p, p {{ Executor := x }}).

Definition IsPoolSet (p : PoolStatus) : bool := str_set (Pool p).
Definition IsCommandSet (p : PoolStatus) : bool := str_set (Command p).
Definition IsExecutorSet (p : PoolStatus) : bool := executor_set (Executor p).

Definition command (p : PoolStatus) : string :=
  let c := "" in
  let c := appendCommand c ZPOOL in
  let c := appendCommand c (" " +:+ Operation +:+ " ") in
  let c := appendCommand c (Pool p) in
  c.

Definition Build : builder PoolStatus → builder PoolStatus * option error :=
  build_with (λ c p, p {{ Command := c }}) command.
Definition Execute {W} `{Shell W} : builder PoolStatus → M W output :=
  execute Build (λ p, Executor p) Command raw.
End pstatus.
