(* ===== verification/Zfs.v ===== *)
(** * Zfs: the builders of zfs commands (pkg/zcmd/zfs)

    A module for each package, as in [Zpool]. *)

From stdpp Require Import base gmap strings list sets pretty.
From Stdlib Require Import Ascii ZArith Lia.
From coqutil Require Import Datatypes.RecordSetters.
From S2P Require Import Prelude Api Zcmd.
Import DoubleBraceUpdate.

Module vclone.
(** pkg/zcmd/zfs/clone *)
Definition Operation : string := "clone".
Record VolumeClone := {
  Snapshot : string;
  TargetDataset : string;
  SourceDataset : string;
  Property : list string;
  CreateParent : bool;
  Command : string;
}.
Definition NewVolumeClone : builder VolumeClone :=
  new {| Snapshot := ""; TargetDataset := ""; SourceDataset := ""; Property := [];
    CreateParent := false; Command := "" |}.

Definition WithSnapshot (x : string) : builder VolumeClone → builder VolumeClone :=
  upd (λ p, p {{ Snapshot := x }}).
Definition WithTargetDataset (x : string) : builder VolumeClone → builder VolumeClone :=
  upd (λ p, p {{ TargetDataset := x }}).
Definition WithSourceDataset (x : string) : builder VolumeClone → builder VolumeClone :=
  upd (λ p, p {{ SourceDataset := x }}).
Definition WithProperty (key value : string) : builder VolumeClone → builder VolumeClone :=
  upd (λ p, p {{ Property ::= (λ l, l ++ ["%s=%s"; key; value]) }}).
Definition WithCreateParent (x : bool) : builder VolumeClone → builder VolumeClone :=
  upd (λ p, p {{ CreateParent := x }}).
Definition WithCommand (x : string) : builder VolumeClone → builder VolumeClone :=
  upd (λ p, p {{ Command := x }}).

Definition IsSnapshotSet (p : VolumeClone) : bool := str_set (Snapshot p).
Definition IsTargetDatasetSet (p : VolumeClone) : bool := str_set (TargetDataset p).
Definition IsSourceDatasetSet (p : VolumeClone) : bool := str_set (SourceDataset p).
Definition IsPropertySet (p : VolumeClone) : bool := list_set (Property p).
Definition IsCreateParentSet (p : VolumeClone) : bool := CreateParent p.
Definition IsCommandSet (p : VolumeClone) : bool := str_set (Command p).

Definition command (p : VolumeClone) : string :=
  let c := "" in
  let c := appendCommand c ZFS in
  let c := appendCommand c (" " +:+ Operation +:+ " ") in
  let c := appendCommand c (SourceDataset p +:+ "@" +:+ Snapshot p +:+ " ") in
  let c := appendCommand c (TargetDataset p) in
  c.

Definition Build : builder VolumeClone → builder VolumeClone * option error :=
  build_with (λ c p, p {{ Command := c }}) command.
Definition Execute {W} `{Shell W} : builder VolumeClone → M W output :=
  execute Build (λ p, None) Command raw.
End vclone.

Module vcreate.
(** pkg/zcmd/zfs/create *)
Definition Operation : string := "create".
Record VolumeCreate := {
  Name : string;
  Size : string;
  BlockSize : string;
  Property : list string;
  Reservation : bool;
  CreateParent : bool;
  Command : string;
}.
Definition NewVolumeCreate : builder VolumeCreate :=
  new {| Name := ""; Size := ""; BlockSize := ""; Property := []; Reservation := false;
    CreateParent := false; Command := "" |}.

Definition WithName (x : string) : builder VolumeCreate → builder VolumeCreate :=
  upd (λ p, p {{ Name := x }}).
Definition WithSize (x : string) : builder VolumeCreate → builder VolumeCreate :=
  upd (λ p, p {{ Size := x }}).
Definition WithBlockSize (x : string) : builder VolumeCreate → builder VolumeCreate :=
  upd (λ p, p {{ BlockSize := x }}).
Definition WithProperty (key value : string) : builder VolumeCreate → builder VolumeCreate :=
  upd (λ p, p {{ Property ::= (λ l, l ++ [key +:+ "=" +:+ value]) }}).
Definition WithReservation (x : bool) : builder VolumeCreate → builder VolumeCreate :=
  upd (λ p, p {{ Reservation := x }}).
Definition WithCreateParent (x : bool) : builder VolumeCreate → builder VolumeCreate :=
  upd (λ p, p {{ CreateParent := x }}).
Definition WithCommand (x : string) : builder VolumeCreate → builder VolumeCreate :=
  upd (λ p, p {{ Command := x }}).

Definition IsNameSet (p : VolumeCreate) : bool := str_set (Name p).
Definition IsSizeSet (p : VolumeCreate) : bool := str_set (Size p).
Definition IsBlockSizeSet (p : VolumeCreate) : bool := str_set (BlockSize p).
Definition IsPropertySet (p : VolumeCreate) : bool := list_set (Property p).
Definition IsReservationSet (p : VolumeCreate) : bool := Reservation p.
Definition IsCreateParentSet (p : VolumeCreate) : bool := CreateParent p.
Definition IsCommandSet (p : VolumeCreate) : bool := str_set (Command p).

Definition command (p : VolumeCreate) : string :=
  let c := "" in
  let c := appendCommand c ZFS in
  let c := appendCommand c (" " +:+ Operation +:+ " ") in
  let c := appendCommand c (" -V " +:+ Size p) in
  let c := if negb (IsReservationSet p) then appendCommand c " -s " else c in
  let c := if IsBlockSizeSet p then appendCommand c (" -b " +:+ BlockSize p) else c in
  let c := if IsPropertySet p then
      foldl (λ c x, appendCommand c (" -o " +:+ x)) c (Property p) else c in
  let c := appendCommand c (" " +:+ Name p) in
  c.

Definition Build : builder VolumeCreate → builder VolumeCreate * option error :=
  build_with (λ c p, p {{ Command := c }}) command.
Definition Execute {W} `{Shell W} : builder VolumeCreate → M W output :=
  execute Build (λ p, None) Command raw.
End vcreate.

Module vdestroy.
(** pkg/zcmd/zfs/destroy *)
Definition Operation : string := "destroy".
Record VolumeDestroy := {
  DryRun : bool;
  Recursive : bool;
  Name : string;
  Command : string;
}.
Definition NewVolumeDestroy : builder VolumeDestroy :=
  new {| DryRun := false; Recursive := false; Name := ""; Command := "" |}.

Definition WithDryRun (x : bool) : builder VolumeDestroy → builder VolumeDestroy :=
  upd (λ p, p {{ DryRun := x }}).
Definition WithRecursive (x : bool) : builder VolumeDestroy → builder VolumeDestroy :=
  upd (λ p, p {{ Recursive := x }}).
Definition WithName (x : string) : builder VolumeDestroy → builder VolumeDestroy :=
  upd (λ p, p {{ Name := x }}).
Definition WithCommand (x : string) : builder VolumeDestroy → builder VolumeDestroy :=
  upd (λ p, p {{ Command := x }}).

Definition IsDryRunSet (p : VolumeDestroy) : bool := DryRun p.
Definition IsRecursiveSet (p : VolumeDestroy) : bool := Recursive p.
Definition IsNameSet (p : VolumeDestroy) : bool := str_set (Name p).
Definition IsCommandSet (p : VolumeDestroy) : bool := str_set (Command p).

Definition command (p : VolumeDestroy) : string :=
  let c := "" in
  let c := appendCommand c ZFS in
  let c := appendCommand c (" " +:+ Operation +:+ " ") in
  let c := if IsDryRunSet p then appendCommand c " -n" else c in
  let c := if IsRecursiveSet p then appendCommand c " -R " else c in
  let c := appendCommand c (Name p) in
  c.

Definition Build : builder VolumeDestroy → builder VolumeDestroy * option error :=
  build_with (λ c p, p {{ Command := c }}) command.
Definition Execute {W} `{Shell W} : builder VolumeDestroy → M W output :=
  execute Build (λ p, None) Command raw.
End vdestroy.

Module vget.
(** pkg/zcmd/zfs/get *)
Definition Operation : string := "get".
Record VolumeGetProperty := {
  Proplist : list string;
  Dataset : string;
  IsScriptedMode : bool;
  IsParsableMode : bool;
  FieldList : list string;
  Snapshot : string;
  Command : string;
  Executor : option executor;
}.
Definition NewVolumeGetProperty : builder VolumeGetProperty :=
  new {| Proplist := []; Dataset := ""; IsScriptedMode := false; IsParsableMode := false;
    FieldList := []; Snapshot := ""; Command := ""; Executor := None |}.

Definition WithProperty (x : string) : builder VolumeGetProperty → builder VolumeGetProperty :=
  upd (λ p, p {{ Proplist ::= (λ l, l ++ [x]) }}).
Definition WithScriptedMode (x : bool) : builder VolumeGetProperty → builder VolumeGetProperty :=
  upd (λ p, p {{ IsScriptedMode := x }}).
Definition WithParsableMode (x : bool) : builder VolumeGetProperty → builder VolumeGetProperty :=
  upd (λ p, p {{ IsParsableMode := x }}).
Definition WithField (x : string) : builder VolumeGetProperty → builder VolumeGetProperty :=
  upd (λ p, p {{ FieldList ::= (λ l, l ++ [x]) }}).
Definition WithPropertyList (xs : list string) : builder VolumeGetProperty → builder VolumeGetProperty :=
  upd (λ p, p {{ Proplist ::= (λ l, l ++ xs) }}).
Definition WithDataset (x : string) : builder VolumeGetProperty → builder VolumeGetProperty :=
  upd (λ p, p {{ Dataset := x }}).
Definition WithSnapshot (x : string) : builder VolumeGetProperty → builder VolumeGetProperty :=
  upd (λ p, p {{ Snapshot := x }}).
Definition WithCommand (x : string) : builder VolumeGetProperty → builder VolumeGetProperty :=
  upd (λ p, p {{ Command := x }}).
Definition WithExecutor (x : option executor) : builder VolumeGetProperty → builder VolumeGetProperty :=
  upd (λ p, p {{ Executor := x }}).

Definition IsProplistSet (p : VolumeGetProperty) : bool := list_set (Proplist p).
Definition IsDatasetSet (p : VolumeGetProperty) : bool := str_set (Dataset p).
Definition IsSnapshotSet (p : VolumeGetProperty) : bool := str_set (Snapshot p).
Definition IsCommandSet (p : VolumeGetProperty) : bool := str_set (Command p).
Definition IsScriptedModeSet (p : VolumeGetProperty) : bool := IsScriptedMode p.
Definition IsParsableModeSet (p : VolumeGetProperty) : bool := IsParsableMode p.
Definition IsFieldListSet (p : VolumeGetProperty) : bool := list_set (FieldList p).
Definition IsExecutorSet (p : VolumeGetProperty) : bool := executor_set (Executor p).

Definition command (p : VolumeGetProperty) : string :=
  let c := "" in
  let c := appendCommand c ZFS in
  let c := appendCommand c (" " +:+ Operation +:+ " ") in
  let c := if IsScriptedModeSet p then appendCommand c " -H " else c in
  let c := if IsParsableModeSet p then appendCommand c " -p " else c in
  let c := if IsFieldListSet p then
      (let c := appendCommand c " -o " in
       let c := foldl (λ c x, appendCommand c (x +:+ ",")) c (FieldList p) in
       let c := appendCommand c " " in c) else c in
  let c := if IsProplistSet p then
      (let c := foldl (λ c x, appendCommand c (x +:+ ",")) c (Proplist p) in
       let c := appendCommand c " " in c) else c in
  let c := appendCommand c (Dataset p) in
  let c := if IsSnapshotSet p then appendCommand c ("@" +:+ Snapshot p) else c in
  c.

Definition Build : builder VolumeGetProperty → builder VolumeGetProperty * option error :=
  build_with (λ c p, p {{ Command := c }}) command.
(** Only the output of the shell is wrapped. *)
Definition Execute {W} `{Shell W} : builder VolumeGetProperty → M W output :=
  execute_by no_output Build (λ p, Executor p) Command raw wrap_output.
End vget.

Module vlist.
(** pkg/zcmd/zfs/list *)
Definition Operation : string := "list".
Record VolumeList := {
  PropList : list string;
  Dataset : string;
  Command : string;
  IsScriptedMode : bool;
  IsParsableMode : bool;
  FieldList : list string;
  Executor : option executor;
}.
Definition NewVolumeList : builder VolumeList :=
  new {| PropList := []; Dataset := ""; Command := ""; IsScriptedMode := false; IsParsableMode
    := false; FieldList := []; Executor := None |}.

Definition WithProperty (x : string) : builder VolumeList → builder VolumeList :=
  upd (λ p, p {{ PropList ::= (λ l, l ++ [x]) }}).
Definition WithField (x : string) : builder VolumeList → builder VolumeList :=
  upd (λ p, p {{ FieldList ::= (λ l, l ++ [x]) }}).
Definition WithDataset (x : string) : builder VolumeList → builder VolumeList :=
  upd (λ p, p {{ Dataset := x }}).
Definition WithCommand (x : string) : builder VolumeList → builder VolumeList :=
  upd (λ p, p {{ Command := x }}).
Definition WithScriptedMode (x : bool) : builder VolumeList → builder VolumeList :=
  upd (λ p, p {{ IsScriptedMode := x }}).
Definition WithParsableMode (x : bool) : builder VolumeList → builder VolumeList :=
  upd (λ p, p {{ IsParsableMode := x }}).
Definition WithExecutor (x : option executor) : builder VolumeList → builder VolumeList :=
  upd (λ p, p {{ Executor := x }}).

Definition IsProplistSet (p : VolumeList) : bool := list_set (PropList p).
Definition IsFieldListSet (p : VolumeList) : bool := list_set (FieldList p).
Definition IsScriptedModeSet (p : VolumeList) : bool := IsScriptedMode p.
Definition IsParsableModeSet (p : VolumeList) : bool := IsParsableMode p.
Definition IsDatasetSet (p : VolumeList) : bool := str_set (Dataset p).
Definition IsCommandSet (p : VolumeList) : bool := str_set (Command p).
Definition IsExecutorSet (p : VolumeList) : bool := executor_set (Executor p).

Definition command (p : VolumeList) : string :=
  let c := "" in
  let c := appendCommand c ZFS in
  let c := appendCommand c (" " +:+ Operation +:+ " ") in
  let c := if IsScriptedModeSet p then appendCommand c " -H " else c in
  let c := if IsParsableModeSet p then appendCommand c " -p " else c in
  let c := if IsFieldListSet p then
      (let c := appendCommand c " -o " in
       let c := foldl (λ c x, appendCommand c (x +:+ ",")) c (FieldList p) in
       let c := appendCommand c " " in c) else c in
  let c := if IsProplistSet p then
      foldl (λ c x, appendCommand c (" -o " +:+ x)) c (PropList p) else c in
  let c := if IsDatasetSet p then appendCommand c (" " +:+ Dataset p +:+ " ") else c in
  c.

Definition Build : builder VolumeList → builder VolumeList * option error :=
  build_with (λ c p, p {{ Command := c }}) command.
Definition Execute {W} `{Shell W} : builder VolumeList → M W output :=
  execute Build (λ p, Executor p) Command wrap_output.
End vlist.

Module vlistsnap.
(** pkg/zcmd/zfs/listsnap *)
Definition Operation : string := "listsnap".
Record VolumeListSnapshot := {
  Dataset : string;
  Command : string;
}.
Definition NewVolumeListSnapshot : builder VolumeListSnapshot :=
  new {| Dataset := ""; Command := "" |}.

Definition WithDataset (x : string) : builder VolumeListSnapshot → builder VolumeListSnapshot :=
  upd (λ p, p {{ Dataset := x }}).

Definition IsDatasetSet (p : VolumeListSnapshot) : bool := str_set (Dataset p).

Definition command (p : VolumeListSnapshot) : string :=
  let c := "" in
  let c := appendCommand c ZFS in
  let c := appendCommand c (" " +:+ Operation +:+ " ") in
  let c := appendCommand c (Dataset p) in
  c.

Definition Build : builder VolumeListSnapshot → builder VolumeListSnapshot * option error :=
  build_with (λ c p, p {{ Command := c }}) command.

Definition Execute {W} `{Shell W} `{ZJson}
  : builder VolumeListSnapshot → M W (SnapshotList * option error) :=
  let f (o : output) :=
    match o with
    | (ret, Some _) => (no_snapshots, Some (Errorf "Output: %s Error: %s" [ret]))
    | (ret, None) => json_SnapshotList ret
    end in
  execute_by (λ err, (no_snapshots, Some err)) Build (λ _, None) Command f f.
End vlistsnap.

Module vreceive.
(** pkg/zcmd/zfs/receive *)
Definition Operation : string := "receive".
Record VolumeSnapshotRecv := {
  Snapshot : string;
  Dataset : string;
  Target : string;
  LastSnapshot : string;
  Dedup : bool;
  DryRun : bool;
  EnableCompression : bool;
  Command : string;
}.
Definition NewVolumeSnapshotRecv : builder VolumeSnapshotRecv :=
  new {| Snapshot := ""; Dataset := ""; Target := ""; LastSnapshot := ""; Dedup := false;
    DryRun := false; EnableCompression := false; Command := "" |}.

Definition WithSnapshot (x : string) : builder VolumeSnapshotRecv → builder VolumeSnapshotRecv :=
  upd (λ p, p {{ Snapshot := x }}).
Definition WithDataset (x : string) : builder VolumeSnapshotRecv → builder VolumeSnapshotRecv :=
  upd (λ p, p {{ Dataset := x }}).
Definition WithTarget (x : string) : builder VolumeSnapshotRecv → builder VolumeSnapshotRecv :=
  upd (λ p, p {{ Target := x }}).
Definition WithDedup (x : bool) : builder VolumeSnapshotRecv → builder VolumeSnapshotRecv :=
  upd (λ p, p {{ Dedup := x }}).
Definition WithLastSnapshot (x : string) : builder VolumeSnapshotRecv → builder VolumeSnapshotRecv :=
  upd (λ p, p {{ LastSnapshot := x }}).
Definition WithDryRun (x : bool) : builder VolumeSnapshotRecv → builder VolumeSnapshotRecv :=
  upd (λ p, p {{ DryRun := x }}).
Definition WithEnableCompression (x : bool) : builder VolumeSnapshotRecv → builder VolumeSnapshotRecv :=
  upd (λ p, p {{ EnableCompression := x }}).
Definition WithCommand (x : string) : builder VolumeSnapshotRecv → builder VolumeSnapshotRecv :=
  upd (λ p, p {{ Command := x }}).

Definition IsSnapshotSet (p : VolumeSnapshotRecv) : bool := str_set (Snapshot p).
Definition IsDatasetSet (p : VolumeSnapshotRecv) : bool := str_set (Dataset p).
Definition IsTargetSet (p : VolumeSnapshotRecv) : bool := str_set (Target p).
Definition IsDedupSet (p : VolumeSnapshotRecv) : bool := Dedup p.
Definition IsLastSnapshotSet (p : VolumeSnapshotRecv) : bool := str_set (LastSnapshot p).
Definition IsDryRunSet (p : VolumeSnapshotRecv) : bool := DryRun p.
Definition IsEnableCompressionSet (p : VolumeSnapshotRecv) : bool := EnableCompression p.
Definition IsCommandSet (p : VolumeSnapshotRecv) : bool := str_set (Command p).

Definition command (p : VolumeSnapshotRecv) : string :=
  let c := "" in
  let c := appendCommand c ZFS in
  let c := appendCommand c (" " +:+ Operation +:+ " ") in
  let c := if IsDedupSet p then appendCommand c " -D " else c in
  let c := if IsLastSnapshotSet p then
      appendCommand c (" -i @" +:+ LastSnapshot p +:+ " ") else c in
  let c := appendCommand c (" " +:+ Dataset p +:+ "@" +:+ Snapshot p +:+ " ") in
  let c := appendCommand c (" | nc " +:+ Target p) in
  c.

Definition Build : builder VolumeSnapshotRecv → builder VolumeSnapshotRecv * option error :=
  build_with (λ c p, p {{ Command := c }}) command.
Definition Execute {W} `{Shell W} : builder VolumeSnapshotRecv → M W output :=
  execute Build (λ p, None) Command raw.
End vreceive.

Module vrename.
(** pkg/zcmd/zfs/rename *)
Definition Operation : string := "rename".
Record VolumeRename := {
  CreateParent : bool;
  ForceUnmount : bool;
  Source : string;
  Dest : string;
  Command : string;
}.
Definition NewVolumeRename : builder VolumeRename :=
  new {| CreateParent := false; ForceUnmount := false; Source := ""; Dest := ""; Command := ""
    |}.

Definition WithCreateParent (x : bool) : builder VolumeRename → builder VolumeRename :=
  upd (λ p, p {{ CreateParent := x }}).
Definition WithForceUnmount (x : bool) : builder VolumeRename → builder VolumeRename :=
  upd (λ p, p {{ ForceUnmount := x }}).
Definition WithSource (x : string) : builder VolumeRename → builder VolumeRename :=
  upd (λ p, p {{ Source := x }}).
Definition WithDest (x : string) : builder VolumeRename → builder VolumeRename :=
  upd (λ p, p {{ Dest := x }}).
Definition WithCommand (x : string) : builder VolumeRename → builder VolumeRename :=
  upd (λ p, p {{ Command := x }}).

Definition IsCreateParentSet (p : VolumeRename) : bool := CreateParent p.
Definition IsForceUnmountSet (p : VolumeRename) : bool := ForceUnmount p.
Definition IsSourceSet (p : VolumeRename) : bool := str_set (Source p).
Definition IsDestSet (p : VolumeRename) : bool := str_set (Dest p).
Definition IsCommandSet (p : VolumeRename) : bool := str_set (Command p).

Definition command (p : VolumeRename) : string :=
  let c := "" in
  let c := appendCommand c ZFS in
  let c := appendCommand c (" " +:+ Operation +:+ " ") in
  let c := if IsCreateParentSet p then appendCommand c " p" else c in
  let c := appendCommand c (Source p +:+ " " +:+ Dest p) in
  c.

Definition Build : builder VolumeRename → builder VolumeRename * option error :=
  build_with (λ c p, p {{ Command := c }}) command.
Definition Execute {W} `{Shell W} : builder VolumeRename → M W output :=
  execute Build (λ p, None) Command raw.
End vrename.

Module vrollback.
(** pkg/zcmd/zfs/rollback *)
Definition Operation : string := "rollback".
Record VolumeRollback := {
  Destroy : bool;
  ForceUnmount : bool;
  DestroySnap : bool;
  Snapshot : string;
  Command : string;
}.
Definition NewVolumeRollback : builder VolumeRollback :=
  new {| Destroy := false; ForceUnmount := false; DestroySnap := false; Snapshot := "";
    Command := "" |}.

Definition WithDestroy (x : bool) : builder VolumeRollback → builder VolumeRollback :=
  upd (λ p, p {{ Destroy := x }}).
Definition WithForceUnmount (x : bool) : builder VolumeRollback → builder VolumeRollback :=
  upd (λ p, p {{ ForceUnmount := x }}).
Definition WithDestroySnap (x : bool) : builder VolumeRollback → builder VolumeRollback :=
  upd (λ p, p {{ DestroySnap := x }}).
Definition WithSnapshot (x : string) : builder VolumeRollback → builder VolumeRollback :=
  upd (λ p, p {{ Snapshot := x }}).
Definition WithCommand (x : string) : builder VolumeRollback → builder VolumeRollback :=
  upd (λ p, p {{ Command := x }}).

Definition IsDestroySet (p : VolumeRollback) : bool := Destroy p.
Definition IsForceUnmountSet (p : VolumeRollback) : bool := ForceUnmount p.
Definition IsDestroySnapSet (p : VolumeRollback) : bool := DestroySnap p.
Definition IsSnapshotSet (p : VolumeRollback) : bool := str_set (Snapshot p).
Definition IsCommandSet (p : VolumeRollback) : bool := str_set (Command p).

Definition command (p : VolumeRollback) : string :=
  let c := "" in
  let c := appendCommand c ZFS in
  let c := appendCommand c (" " +:+ Operation +:+ " ") in
  let c := if IsDestroySet p then
      (let c := appendCommand c " -R " in
       let c := if IsForceUnmountSet p then appendCommand c " -f " else c in c) else c in
  let c := if IsDestroySnapSet p then appendCommand c " -r " else c in
  let c := appendCommand c (Snapshot p) in
  c.

Definition Build : builder VolumeRollback → builder VolumeRollback * option error :=
  build_with (λ c p, p {{ Command := c }}) command.
Definition Execute {W} `{Shell W} : builder VolumeRollback → M W output :=
  execute Build (λ p, None) Command raw.
End vrollback.

Module vsend.
(** pkg/zcmd/zfs/send *)
Definition Operation : string := "send".
Record VolumeSnapshotSend := {
  Snapshot : string;
  Dataset : string;
  Target : string;
  LastSnapshot : string;
  Dedup : bool;
  DryRun : bool;
  EnableCompression : bool;
  Command : string;
}.
Definition NewVolumeSnapshotSend : builder VolumeSnapshotSend :=
  new {| Snapshot := ""; Dataset := ""; Target := ""; LastSnapshot := ""; Dedup := false;
    DryRun := false; EnableCompression := false; Command := "" |}.

Definition WithSnapshot (x : string) : builder VolumeSnapshotSend → builder VolumeSnapshotSend :=
  upd (λ p, p {{ Snapshot := x }}).
Definition WithDataset (x : string) : builder VolumeSnapshotSend → builder VolumeSnapshotSend :=
  upd (λ p, p {{ Dataset := x }}).
Definition WithTarget (x : string) : builder VolumeSnapshotSend → builder VolumeSnapshotSend :=
  upd (λ p, p {{ Target := x }}).
Definition WithDedup (x : bool) : builder VolumeSnapshotSend → builder VolumeSnapshotSend :=
  upd (λ p, p {{ Dedup := x }}).
Definition WithLastSnapshot (x : string) : builder VolumeSnapshotSend → builder VolumeSnapshotSend :=
  upd (λ p, p {{ LastSnapshot := x }}).
Definition WithDryRun (x : bool) : builder VolumeSnapshotSend → builder VolumeSnapshotSend :=
  upd (λ p, p {{ DryRun := x }}).
Definition WithEnableCompression (x : bool) : builder VolumeSnapshotSend → builder VolumeSnapshotSend :=
  upd (λ p, p {{ EnableCompression := x }}).
Definition WithCommand (x : string) : builder VolumeSnapshotSend → builder VolumeSnapshotSend :=
  upd (λ p, p {{ Command := x }}).

Definition IsSnapshotSet (p : VolumeSnapshotSend) : bool := str_set (Snapshot p).
Definition IsDatasetSet (p : VolumeSnapshotSend) : bool := str_set (Dataset p).
Definition IsTargetSet (p : VolumeSnapshotSend) : bool := str_set (Target p).
Definition IsDedupSet (p : VolumeSnapshotSend) : bool := Dedup p.
Definition IsLastSnapshotSet (p : VolumeSnapshotSend) : bool := str_set (LastSnapshot p).
Definition IsDryRunSet (p : VolumeSnapshotSend) : bool := DryRun p.
Definition IsEnableCompressionSet (p : VolumeSnapshotSend) : bool := EnableCompression p.
Definition IsCommandSet (p : VolumeSnapshotSend) : bool := str_set (Command p).

Definition command (p : VolumeSnapshotSend) : string :=
  let c := "" in
  let c := appendCommand c ZFS in
  let c := appendCommand c (" " +:+ Operation +:+ " ") in
  let c := if IsDedupSet p then appendCommand c " -D " else c in
  let c := if IsLastSnapshotSet p then
      appendCommand c (" -i @" +:+ LastSnapshot p +:+ " ") else c in
  let c := appendCommand c (" " +:+ Dataset p +:+ "@" +:+ Snapshot p +:+ " ") in
  let c := appendCommand c (" | nc " +:+ Target p) in
  c.

Definition Build : builder VolumeSnapshotSend → builder VolumeSnapshotSend * option error :=
  build_with (λ c p, p {{ Command := c }}) command.
Definition Execute {W} `{Shell W} : builder VolumeSnapshotSend → M W output :=
  execute Build (λ p, None) Command raw.
End vsend.

Module vset.
(** pkg/zcmd/zfs/set *)
Definition Operation : string := "set".
Record VolumeSetProperty := {
  Proplist : list string;
  Dataset : string;
  Snapshot : string;
  Command : string;
  Executor : option executor;
}.
Definition NewVolumeSetProperty : builder VolumeSetProperty :=
  new {| Proplist := []; Dataset := ""; Snapshot := ""; Command := ""; Executor := None |}.

Definition WithProperty (key value : string) : builder VolumeSetProperty → builder VolumeSetProperty :=
  upd (λ p, p {{ Proplist ::= (λ l, l ++ [key +:+ "=" +:+ value]) }}).
Definition WithDataset (x : string) : builder VolumeSetProperty → builder VolumeSetProperty :=
  upd (λ p, p {{ Dataset := x }}).
Definition WithSnapshot (x : string) : builder VolumeSetProperty → builder VolumeSetProperty :=
  upd (λ p, p {{ Snapshot := x }}).
Definition WithCommand (x : string) : builder VolumeSetProperty → builder VolumeSetProperty :=
  upd (λ p, p {{ Command := x }}).
Definition WithExecutor (x : option executor) : builder VolumeSetProperty → builder VolumeSetProperty :=
  upd (λ p, p {{ Executor := x }}).

Definition IsProplistSet (p : VolumeSetProperty) : bool := list_set (Proplist p).
Definition IsDatasetSet (p : VolumeSetProperty) : bool := str_set (Dataset p).
Definition IsSnapshotSet (p : VolumeSetProperty) : bool := str_set (Snapshot p).
Definition IsCommandSet (p : VolumeSetProperty) : bool := str_set (Command p).
Definition IsExecutorSet (p : VolumeSetProperty) : bool := executor_set (Executor p).

Definition command (p : VolumeSetProperty) : string :=
  let c := "" in
  let c := appendCommand c ZFS in
  let c := appendCommand c (" " +:+ Operation +:+ " ") in
  let c := if IsProplistSet p then
      foldl (λ c x, appendCommand c (" " +:+ x +:+ " ")) c (Proplist p) else c in
  let c := appendCommand c (Dataset p) in
  let c := if IsSnapshotSet p then appendCommand c ("@" +:+ Snapshot p) else c in
  c.

Definition Build : builder VolumeSetProperty → builder VolumeSetProperty * option error :=
  build_with (λ c p, p {{ Command := c }}) command.
Definition Execute {W} `{Shell W} : builder VolumeSetProperty → M W output :=
  execute Build (λ p, Executor p) Command raw.
End vset.

Module vsnapshot.
(** pkg/zcmd/zfs/snapshot *)
Definition Operation : string := "snapshot".
Record VolumeSnapshot := {
  Property : list string;
  Snapshot : string;
  Dataset : string;
  Recursive : bool;
  Command : string;
}.
Definition NewVolumeSnapshot : builder VolumeSnapshot :=
  new {| Property := []; Snapshot := ""; Dataset := ""; Recursive := false; Command := "" |}.

Definition WithProperty (key value : string) : builder VolumeSnapshot → builder VolumeSnapshot :=
  upd (λ p, p {{ Property ::= (λ l, l ++ [key +:+ "=" +:+ value]) }}).
Definition WithRecursive (x : bool) : builder VolumeSnapshot → builder VolumeSnapshot :=
  upd (λ p, p {{ Recursive := x }}).
Definition WithSnapshot (x : string) : builder VolumeSnapshot → builder VolumeSnapshot :=
  upd (λ p, p {{ Snapshot := x }}).
Definition WithDataset (x : string) : builder VolumeSnapshot → builder VolumeSnapshot :=
  upd (λ p, p {{ Dataset := x }}).
Definition WithCommand (x : string) : builder VolumeSnapshot → builder VolumeSnapshot :=
  upd (λ p, p {{ Command := x }}).

Definition IsPropertySet (p : VolumeSnapshot) : bool := list_set (Property p).
Definition IsRecursiveSet (p : VolumeSnapshot) : bool := Recursive p.
Definition IsSnapshotSet (p : VolumeSnapshot) : bool := str_set (Snapshot p).
Definition IsDatasetSet (p : VolumeSnapshot) : bool := str_set (Dataset p).
Definition IsCommandSet (p : VolumeSnapshot) : bool := str_set (Command p).

Definition command (p : VolumeSnapshot) : string :=
  let c := "" in
  let c := appendCommand c ZFS in
  let c := appendCommand c (" " +:+ Operation +:+ " ") in
  let c := if IsRecursiveSet p then appendCommand c " -r " else c in
  let c := if IsPropertySet p then
      foldl (λ c x, appendCommand c (" -o " +:+ x)) c (Property p) else c in
  let c := appendCommand c (" " +:+ Dataset p +:+ "@" +:+ Snapshot p +:+ " ") in
  c.

Definition Build : builder VolumeSnapshot → builder VolumeSnapshot * option error :=
  build_with (λ c p, p {{ Command := c }}) command.
Definition Execute {W} `{Shell W} : builder VolumeSnapshot → M W output :=
  execute Build (λ p, None) Command raw.
End vsnapshot.

Module vstats.
(** pkg/zcmd/zfs/stats *)
Definition Operation : string := "stats".
Record VolumeStats := {
  Proplist : list string;
  Dataset : string;
  Command : string;
  Executor : option executor;
}.
Definition NewVolumeStats : builder VolumeStats :=
  new {| Proplist := []; Dataset := ""; Command := ""; Executor := None |}.

Definition WithProperty (x : string) : builder VolumeStats → builder VolumeStats :=
  upd (λ p, p {{ Proplist ::= (λ l, l ++ [x]) }}).
Definition WithDataset (x : string) : builder VolumeStats → builder VolumeStats :=
  upd (λ p, p {{ Dataset := x }}).
Definition WithCommand (x : string) : builder VolumeStats → builder VolumeStats :=
  upd (λ p, p {{ Command := x }}).
Definition WithExecutor (x : option executor) : builder VolumeStats → builder VolumeStats :=
  upd (λ p, p {{ Executor := x }}).

Definition IsProplistSet (p : VolumeStats) : bool := list_set (Proplist p).
Definition IsDatasetSet (p : VolumeStats) : bool := str_set (Dataset p).
Definition IsCommandSet (p : VolumeStats) : bool := str_set (Command p).
Definition IsExecutorSet (p : VolumeStats) : bool := executor_set (Executor p).

Definition command (p : VolumeStats) : string :=
  let c := "" in
  let c := appendCommand c ZFS in
  let c := appendCommand c (" " +:+ Operation +:+ " ") in
  let c := if IsProplistSet p then
      foldl (λ c x, appendCommand c (" -o " +:+ x)) c (Proplist p) else c in
  let c := if IsDatasetSet p then appendCommand c (" " +:+ Dataset p +:+ " ") else c in
  c.

Definition Build : builder VolumeStats → builder VolumeStats * option error :=
  build_with (λ c p, p {{ Command := c }}) command.

Definition Execute {W} `{Shell W} `{ZJson} : builder VolumeStats → M W (result ZFSStats) :=
  let f (o : output) :=
    match o with
    | (out, Some err) => Err (Wrapf err "%s" [out])
    | (out, None) =>
        match json_ZFSStats out with
        | (_, Some err) => Err (Wrapf err "failed to unmarshal %s" [out])
        | (zStats, None) => OK zStats
        end
    end in
  execute_by Err Build (λ p, Executor p) Command f f.
End vstats.
