(* ===== verification/Zaccess.v ===== *)
(** * Zaccess: the accessors of the command builders (utils.go of pkg/zcmd and cmd.go)

    A module for each file utils.go: its Set and Get methods.  A builder method stores what the Set
    method of the field stores, with three exceptions; the constructors of cmd.go are those of the
    packages. *)

From stdpp Require Import base gmap strings list sets.
From Stdlib Require Import ZArith Lia.
From coqutil Require Import Datatypes.RecordSetters.
From S2P Require Import Prelude Api Zcmd Zpool Zfs.
Import DoubleBraceUpdate.

Module vclone_access.
(** pkg/zcmd/zfs/clone/utils.go *)
Import vclone.
Definition SetSnapshot (x : string) (p : VolumeClone) : VolumeClone := p {{ Snapshot := x }}.
Definition SetTargetDataset (x : string) (p : VolumeClone) : VolumeClone := p {{ TargetDataset := x }}.
Definition SetSourceDataset (x : string) (p : VolumeClone) : VolumeClone := p {{ SourceDataset := x }}.
Definition SetProperty (key value : string) (p : VolumeClone) : VolumeClone :=
  p {{ Property ::= (λ l, l ++ ["%s=%s"; key; value]) }}.
Definition SetCreateParent (x : bool) (p : VolumeClone) : VolumeClone := p {{ CreateParent := x }}.
Definition SetCommand (x : string) (p : VolumeClone) : VolumeClone := p {{ Command := x }}.
End vclone_access.

Module vcreate_access.
(** pkg/zcmd/zfs/create/utils.go *)
Import vcreate.
Definition SetName (x : string) (p : VolumeCreate) : VolumeCreate := p {{ Name := x }}.
Definition SetSize (x : string) (p : VolumeCreate) : VolumeCreate := p {{ Size := x }}.
Definition SetBlockSize (x : string) (p : VolumeCreate) : VolumeCreate := p {{ BlockSize := x }}.
Definition SetProperty (key value : string) (p : VolumeCreate) : VolumeCreate :=
  p {{ Property ::= (λ l, l ++ [key +:+ "=" +:+ value]) }}.
Definition SetReservation (x : bool) (p : VolumeCreate) : VolumeCreate := p {{ Reservation := x }}.
Definition SetCreateParent (x : bool) (p : VolumeCreate) : VolumeCreate := p {{ CreateParent := x }}.
Definition SetCommand (x : string) (p : VolumeCreate) : VolumeCreate := p {{ Command := x }}.
End vcreate_access.

Module vdestroy_access.
(** pkg/zcmd/zfs/destroy/utils.go *)
Import vdestroy.
Definition SetDryRun (x : bool) (p : VolumeDestroy) : VolumeDestroy := p {{ DryRun := x }}.
Definition SetRecursive (x : bool) (p : VolumeDestroy) : VolumeDestroy := p {{ Recursive := x }}.
Definition SetName (x : string) (p : VolumeDestroy) : VolumeDestroy := p {{ Name := x }}.
Definition SetCommand (x : string) (p : VolumeDestroy) : VolumeDestroy := p {{ Command := x }}.
Definition GetDryRun (p : VolumeDestroy) : bool := DryRun p.
Definition GetRecursive (p : VolumeDestroy) : bool := Recursive p.
Definition GetName (p : VolumeDestroy) : string := Name p.
Definition GetCommand (p : VolumeDestroy) : string := Command p.
End vdestroy_access.

Module vget_access.
(** pkg/zcmd/zfs/get/utils.go *)
Import vget.
Definition SetProperty (key value : string) (p : VolumeGetProperty) : VolumeGetProperty :=
  p {{ Proplist ::= (λ l, l ++ [key +:+ "=" +:+ value]) }}.
Definition SetDataset (x : string) (p : VolumeGetProperty) : VolumeGetProperty := p {{ Dataset := x }}.
Definition SetSnapshot (x : string) (p : VolumeGetProperty) : VolumeGetProperty := p {{ Snapshot := x }}.
Definition SetCommand (x : string) (p : VolumeGetProperty) : VolumeGetProperty := p {{ Command := x }}.
Definition GetProplist (p : VolumeGetProperty) : list string := Proplist p.
Definition GetDataset (p : VolumeGetProperty) : string := Dataset p.
Definition GetSnapshot (p : VolumeGetProperty) : string := Snapshot p.
Definition GetCommand (p : VolumeGetProperty) : string := Command p.
End vget_access.

Module vreceive_access.
(** pkg/zcmd/zfs/receive/utils.go *)
Import vreceive.
Definition SetSnapshot (x : string) (p : VolumeSnapshotRecv) : VolumeSnapshotRecv :=
  p {{ Snapshot := x }}.
Definition SetDataset (x : string) (p : VolumeSnapshotRecv) : VolumeSnapshotRecv := p {{ Dataset := x }}.
Definition SetTarget (x : string) (p : VolumeSnapshotRecv) : VolumeSnapshotRecv := p {{ Target := x }}.
Definition SetDedup (x : bool) (p : VolumeSnapshotRecv) : VolumeSnapshotRecv := p {{ Dedup := x }}.
Definition SetLastSnapshot (x : string) (p : VolumeSnapshotRecv) : VolumeSnapshotRecv :=
  p {{ LastSnapshot := x }}.
Definition SetDryRun (x : bool) (p : VolumeSnapshotRecv) : VolumeSnapshotRecv := p {{ DryRun := x }}.
Definition SetEnableCompression (x : bool) (p : VolumeSnapshotRecv) : VolumeSnapshotRecv :=
  p {{ EnableCompression := x }}.
Definition SetCommand (x : string) (p : VolumeSnapshotRecv) : VolumeSnapshotRecv := p {{ Command := x }}.
Definition GetSnapshot (p : VolumeSnapshotRecv) : string := Snapshot p.
Definition GetDataset (p : VolumeSnapshotRecv) : string := Dataset p.
Definition GetTarget (p : VolumeSnapshotRecv) : string := Target p.
Definition GetDedup (p : VolumeSnapshotRecv) : bool := Dedup p.
Definition GetLastSnapshot (p : VolumeSnapshotRecv) : string := LastSnapshot p.
Definition GetDryRun (p : VolumeSnapshotRecv) : bool := DryRun p.
Definition GetEnableCompression (p : VolumeSnapshotRecv) : bool := EnableCompression p.
Definition GetCommand (p : VolumeSnapshotRecv) : string := Command p.
End vreceive_access.

Module vrename_access.
(** pkg/zcmd/zfs/rename/utils.go *)
Import vrename.
Definition SetCreateParent (x : bool) (p : VolumeRename) : VolumeRename := p {{ CreateParent := x }}.
Definition SetForceUnmount (x : bool) (p : VolumeRename) : VolumeRename := p {{ ForceUnmount := x }}.
Definition SetSource (x : string) (p : VolumeRename) : VolumeRename := p {{ Source := x }}.
Definition SetDest (x : string) (p : VolumeRename) : VolumeRename := p {{ Dest := x }}.
Definition SetCommand (x : string) (p : VolumeRename) : VolumeRename := p {{ Command := x }}.
Definition GetCreateParent (p : VolumeRename) : bool := CreateParent p.
Definition GetForceUnmount (p : VolumeRename) : bool := ForceUnmount p.
Definition GetSource (p : VolumeRename) : string := Source p.
Definition GetDest (p : VolumeRename) : string := Dest p.
Definition GetCommand (p : VolumeRename) : string := Command p.
End vrename_access.

Module vrollback_access.
(** pkg/zcmd/zfs/rollback/utils.go *)
Import vrollback.
Definition SetDestroy (x : bool) (p : VolumeRollback) : VolumeRollback := p {{ Destroy := x }}.
Definition SetForceUnmount (x : bool) (p : VolumeRollback) : VolumeRollback := p {{ ForceUnmount := x }}.
Definition SetDestroySnap (x : bool) (p : VolumeRollback) : VolumeRollback := p {{ DestroySnap := x }}.
Definition SetSnapshot (x : string) (p : VolumeRollback) : VolumeRollback := p {{ Snapshot := x }}.
Definition SetCommand (x : string) (p : VolumeRollback) : VolumeRollback := p {{ Command := x }}.
Definition GetDestroy (p : VolumeRollback) : bool := Destroy p.
Definition GetForceUnmount (p : VolumeRollback) : bool := ForceUnmount p.
Definition GetDestroySnap (p : VolumeRollback) : bool := DestroySnap p.
Definition GetSnapshot (p : VolumeRollback) : string := Snapshot p.
Definition GetCommand (p : VolumeRollback) : string := Command p.
End vrollback_access.

Module vsend_access.
(** pkg/zcmd/zfs/send/utils.go *)
Import vsend.
Definition SetSnapshot (x : string) (p : VolumeSnapshotSend) : VolumeSnapshotSend :=
  p {{ Snapshot := x }}.
Definition SetDataset (x : string) (p : VolumeSnapshotSend) : VolumeSnapshotSend := p {{ Dataset := x }}.
Definition SetTarget (x : string) (p : VolumeSnapshotSend) : VolumeSnapshotSend := p {{ Target := x }}.
Definition SetDedup (x : bool) (p : VolumeSnapshotSend) : VolumeSnapshotSend := p {{ Dedup := x }}.
Definition SetLastSnapshot (x : string) (p : VolumeSnapshotSend) : VolumeSnapshotSend :=
  p {{ LastSnapshot := x }}.
Definition SetDryRun (x : bool) (p : VolumeSnapshotSend) : VolumeSnapshotSend := p {{ DryRun := x }}.
Definition SetEnableCompression (x : bool) (p : VolumeSnapshotSend) : VolumeSnapshotSend :=
  p {{ EnableCompression := x }}.
Definition SetCommand (x : string) (p : VolumeSnapshotSend) : VolumeSnapshotSend := p {{ Command := x }}.
Definition GetSnapshot (p : VolumeSnapshotSend) : string := Snapshot p.
Definition GetDataset (p : VolumeSnapshotSend) : string := Dataset p.
Definition GetTarget (p : VolumeSnapshotSend) : string := Target p.
Definition GetDedup (p : VolumeSnapshotSend) : bool := Dedup p.
Definition GetLastSnapshot (p : VolumeSnapshotSend) : string := LastSnapshot p.
Definition GetDryRun (p : VolumeSnapshotSend) : bool := DryRun p.
Definition GetEnableCompression (p : VolumeSnapshotSend) : bool := EnableCompression p.
Definition GetCommand (p : VolumeSnapshotSend) : string := Command p.
End vsend_access.

Module vset_access.
(** pkg/zcmd/zfs/set/utils.go *)
Import vset.
Definition SetProperty (key value : string) (p : VolumeSetProperty) : VolumeSetProperty :=
  p {{ Proplist ::= (λ l, l ++ [key +:+ "=" +:+ value]) }}.
Definition SetDataset (x : string) (p : VolumeSetProperty) : VolumeSetProperty := p {{ Dataset := x }}.
Definition SetSnapshot (x : string) (p : VolumeSetProperty) : VolumeSetProperty := p {{ Snapshot := x }}.
Definition SetCommand (x : string) (p : VolumeSetProperty) : VolumeSetProperty := p {{ Command := x }}.
Definition GetProplist (p : VolumeSetProperty) : list string := Proplist p.
Definition GetDataset (p : VolumeSetProperty) : string := Dataset p.
Definition GetSnapshot (p : VolumeSetProperty) : string := Snapshot p.
Definition GetCommand (p : VolumeSetProperty) : string := Command p.
End vset_access.

Module vsnapshot_access.
(** pkg/zcmd/zfs/snapshot/utils.go *)
Import vsnapshot.
Definition SetProperty (key value : string) (p : VolumeSnapshot) : VolumeSnapshot :=
  p {{ Property ::= (λ l, l ++ [key +:+ "=" +:+ value]) }}.
Definition SetRecursive (x : bool) (p : VolumeSnapshot) : VolumeSnapshot := p {{ Recursive := x }}.
Definition SetSnapshot (x : string) (p : VolumeSnapshot) : VolumeSnapshot := p {{ Snapshot := x }}.
Definition SetDataset (x : string) (p : VolumeSnapshot) : VolumeSnapshot := p {{ Dataset := x }}.
Definition SetCommand (x : string) (p : VolumeSnapshot) : VolumeSnapshot := p {{ Command := x }}.
Definition GetProperty (p : VolumeSnapshot) : list string := Property p.
Definition GetRecursive (p : VolumeSnapshot) : bool := Recursive p.
Definition GetSnapshot (p : VolumeSnapshot) : string := Snapshot p.
Definition GetDataset (p : VolumeSnapshot) : string := Dataset p.
Definition GetCommand (p : VolumeSnapshot) : string := Command p.
End vsnapshot_access.

Module padd_access.
(** pkg/zcmd/zpool/add/utils.go *)
Import padd.
Definition SetVdev (x : string) (p : PoolExpansion) : PoolExpansion :=
  p {{ VdevList ::= (λ l, l ++ [x]) }}.
Definition SetProperty (key value : string) (p : PoolExpansion) : PoolExpansion :=
  p {{ Property ::= (λ l, l ++ [key +:+ "=" +:+ value]) }}.
Definition SetPool (x : string) (p : PoolExpansion) : PoolExpansion := p {{ Pool := x }}.
Definition SetCommand (x : string) (p : PoolExpansion) : PoolExpansion := p {{ Command := x }}.
Definition GetVdevList (p : PoolExpansion) : list string := VdevList p.
Definition GetProperty (p : PoolExpansion) : list string := Property p.
Definition GetPool (p : PoolExpansion) : string := Pool p.
Definition GetCommand (p : PoolExpansion) : string := Command p.
End padd_access.

Module pattach_access.
(** pkg/zcmd/zpool/attach/utils.go *)
Import pattach.
Definition SetProperty (key value : string) (p : PoolAttach) : PoolAttach :=
  p {{ Property ::= (λ l, l ++ [key +:+ "=" +:+ value]) }}.
Definition SetForcefully (x : bool) (p : PoolAttach) : PoolAttach := p {{ Forcefully := x }}.
Definition SetDevice (x : string) (p : PoolAttach) : PoolAttach := p {{ Device := x }}.
Definition SetNewDevice (x : string) (p : PoolAttach) : PoolAttach := p {{ NewDevice := x }}.
Definition SetPool (x : string) (p : PoolAttach) : PoolAttach := p {{ Pool := x }}.
Definition SetCommand (x : string) (p : PoolAttach) : PoolAttach := p {{ Command := x }}.
Definition GetProperty (p : PoolAttach) : list string := Property p.
Definition GetForcefully (p : PoolAttach) : bool := Forcefully p.
Definition GetDevice (p : PoolAttach) : string := Device p.
Definition GetNewDevice (p : PoolAttach) : string := NewDevice p.
Definition GetPool (p : PoolAttach) : string := Pool p.
Definition GetCommand (p : PoolAttach) : string := Command p.
End pattach_access.

Module pclear_access.
(** pkg/zcmd/zpool/clear/utils.go *)
Import pclear.
Definition SetPool (x : string) (p : PoolClear) : PoolClear := p {{ Pool := x }}.
Definition SetVdev (x : string) (p : PoolClear) : PoolClear := p {{ Vdev ::= (λ l, l ++ [x]) }}.
Definition SetCommand (x : string) (p : PoolClear) : PoolClear := p {{ Command := x }}.
Definition GetPool (p : PoolClear) : string := Pool p.
Definition GetVdev (p : PoolClear) : list string := Vdev p.
Definition GetCommand (p : PoolClear) : string := Command p.
End pclear_access.

Module pcreate_access.
(** pkg/zcmd/zpool/create/utils.go *)
Import pcreate.
Definition SetProperty (key value : string) (p : PoolCreate) : PoolCreate :=
  p {{ Property ::= (λ l, l ++ [key +:+ "=" +:+ value]) }}.
Definition SetPool (x : string) (p : PoolCreate) : PoolCreate := p {{ Pool := x }}.
Definition SetVdev (x : string) (p : PoolCreate) : PoolCreate := p {{ Vdev ::= (λ l, l ++ [x]) }}.
Definition SetForcefully (x : bool) (p : PoolCreate) : PoolCreate := p {{ Forcefully := x }}.
Definition SetCommand (x : string) (p : PoolCreate) : PoolCreate := p {{ Command := x }}.
Definition GetProperty (p : PoolCreate) : list string := Property p.
Definition GetPool (p : PoolCreate) : string := Pool p.
Definition GetVdev (p : PoolCreate) : list string := Vdev p.
Definition GetForcefully (p : PoolCreate) : bool := Forcefully p.
Definition GetCommand (p : PoolCreate) : string := Command p.
End pcreate_access.

Module pdestroy_access.
(** pkg/zcmd/zpool/destroy/utils.go *)
Import pdestroy.
Definition SetPool (x : string) (p : PoolDestroy) : PoolDestroy := p {{ Pool := x }}.
Definition SetForcefully (x : bool) (p : PoolDestroy) : PoolDestroy := p {{ Forcefully := x }}.
Definition SetCommand (x : string) (p : PoolDestroy) : PoolDestroy := p {{ Command := x }}.
Definition GetPool (p : PoolDestroy) : string := Pool p.
Definition GetForcefully (p : PoolDestroy) : bool := Forcefully p.
Definition GetCommand (p : PoolDestroy) : string := Command p.
End pdestroy_access.

Module pdetach_access.
(** pkg/zcmd/zpool/detach/utils.go *)
Import pdetach.
Definition SetPool (x : string) (p : PoolDetach) : PoolDetach := p {{ Pool := x }}.
Definition SetVdev (x : string) (p : PoolDetach) : PoolDetach := p {{ Vdev := x }}.
Definition SetCommand (x : string) (p : PoolDetach) : PoolDetach := p {{ Command := x }}.
Definition GetPool (p : PoolDetach) : string := Pool p.
Definition GetVdev (p : PoolDetach) : string := Vdev p.
Definition GetCommand (p : PoolDetach) : string := Command p.
End pdetach_access.

Module pdump_access.
(** pkg/zcmd/zpool/dump/utils.go *)
Import pdump.
Definition SetPool (x : string) (p : PoolDump) : PoolDump := p {{ Pool := x }}.
Definition SetCommand (x : string) (p : PoolDump) : PoolDump := p {{ Command := x }}.
Definition GetPool (p : PoolDump) : string := Pool p.
Definition GetCommand (p : PoolDump) : string := Command p.
End pdump_access.

Module pexport_access.
(** pkg/zcmd/zpool/export/utils.go *)
Import pexport.
Definition SetAllPool (x : bool) (p : PoolExport) : PoolExport := p {{ AllPool := x }}.
Definition SetForcefully (x : bool) (p : PoolExport) : PoolExport := p {{ Forcefully := x }}.
Definition SetPoolList (x : string) (p : PoolExport) : PoolExport :=
  p {{ PoolList ::= (λ l, l ++ [x]) }}.
Definition SetCommand (x : string) (p : PoolExport) : PoolExport := p {{ Command := x }}.
Definition GetAllPool (p : PoolExport) : bool := AllPool p.
Definition GetForcefully (p : PoolExport) : bool := Forcefully p.
Definition GetPoolList (p : PoolExport) : list string := PoolList p.
Definition GetCommand (p : PoolExport) : string := Command p.
End pexport_access.

Module pget_access.
(** pkg/zcmd/zpool/get/utils.go *)
Import pget.
Definition SetPropList (x : string) (p : PoolGProperty) : PoolGProperty :=
  p {{ PropList ::= (λ l, l ++ [x]) }}.
Definition SetPool (x : string) (p : PoolGProperty) : PoolGProperty := p {{ Pool := x }}.
Definition SetCommand (x : string) (p : PoolGProperty) : PoolGProperty := p {{ Command := x }}.
Definition GetPropList (p : PoolGProperty) : list string := PropList p.
Definition GetPool (p : PoolGProperty) : string := Pool p.
Definition GetCommand (p : PoolGProperty) : string := Command p.
End pget_access.

Module pimport_access.
(** pkg/zcmd/zpool/import/utils.go *)
Import pimport.
Definition SetCachefile (x : string) (p : PoolImport) : PoolImport := p {{ Cachefile := x }}.
Definition SetDirectorylist (x : string) (p : PoolImport) : PoolImport :=
  p {{ Directorylist ::= (λ l, l ++ [x]) }}.
Definition SetImportAll (x : bool) (p : PoolImport) : PoolImport := p {{ ImportAll := x }}.
Definition SetForceImport (x : bool) (p : PoolImport) : PoolImport := p {{ ForceImport := x }}.
Definition SetProperty (key value : string) (p : PoolImport) : PoolImport :=
  p {{ Property ::= (λ l, l ++ [key +:+ "=" +:+ value]) }}.
Definition SetPool (x : string) (p : PoolImport) : PoolImport := p {{ Pool := x }}.
Definition SetNewPool (x : string) (p : PoolImport) : PoolImport := p {{ NewPool := x }}.
Definition SetCommand (x : string) (p : PoolImport) : PoolImport := p {{ Command := x }}.
Definition GetCachefile (p : PoolImport) : string := Cachefile p.
Definition GetDirectorylist (p : PoolImport) : list string := Directorylist p.
Definition GetImportAll (p : PoolImport) : bool := ImportAll p.
Definition GetForceImport (p : PoolImport) : bool := ForceImport p.
Definition GetProperty (p : PoolImport) : list string := Property p.
Definition GetPool (p : PoolImport) : string := Pool p.
Definition GetNewPool (p : PoolImport) : string := NewPool p.
Definition GetCommand (p : PoolImport) : string := Command p.
End pimport_access.

Module plabelclear_access.
(** pkg/zcmd/zpool/labelclear/utils.go *)
Import plabelclear.
Definition SetVdev (x : string) (p : PoolLabelClear) : PoolLabelClear := p {{ Vdev := x }}.
Definition SetForcefully (x : bool) (p : PoolLabelClear) : PoolLabelClear := p {{ Forcefully := x }}.
Definition SetCommand (x : string) (p : PoolLabelClear) : PoolLabelClear := p {{ Command := x }}.
End plabelclear_access.

Module poffline_access.
(** pkg/zcmd/zpool/offline/utils.go *)
Import poffline.
Definition SetForceOffline (x : bool) (p : PoolOffline) : PoolOffline := p {{ ForceOffline := x }}.
Definition SetisTemporary (x : bool) (p : PoolOffline) : PoolOffline := p {{ isTemporary := x }}.
Definition SetPool (x : string) (p : PoolOffline) : PoolOffline := p {{ Pool := x }}.
Definition SetDevice (x : string) (p : PoolOffline) : PoolOffline :=
  p {{ Devicelist ::= (λ l, l ++ [x]) }}.
Definition SetCommand (x : string) (p : PoolOffline) : PoolOffline := p {{ Command := x }}.
Definition GetForceOffline (p : PoolOffline) : bool := ForceOffline p.
Definition GetisTemporary (p : PoolOffline) : bool := isTemporary p.
Definition GetPool (p : PoolOffline) : string := Pool p.
Definition GetDevicelist (p : PoolOffline) : list string := Devicelist p.
Definition GetCommand (p : PoolOffline) : string := Command p.
End poffline_access.

Module ponline_access.
(** pkg/zcmd/zpool/online/utils.go *)
Import ponline.
Definition SetPool (x : string) (p : PoolOnline) : PoolOnline := p {{ Pool := x }}.
Definition SetDevice (x : string) (p : PoolOnline) : PoolOnline := p {{ Device ::= (λ l, l ++ [x]) }}.
Definition SetShouldExpand (x : bool) (p : PoolOnline) : PoolOnline := p {{ ShouldExpand := x }}.
Definition SetCommand (x : string) (p : PoolOnline) : PoolOnline := p {{ Command := x }}.
Definition GetPool (p : PoolOnline) : string := Pool p.
Definition GetDevice (p : PoolOnline) : list string := Device p.
Definition GetShouldExpand (p : PoolOnline) : bool := ShouldExpand p.
Definition GetCommand (p : PoolOnline) : string := Command p.
End ponline_access.

Module premove_access.
(** pkg/zcmd/zpool/remove/utils.go *)
Import premove.
Definition SetPool (x : string) (p : PoolRemove) : PoolRemove := p {{ Pool := x }}.
Definition SetDevice (x : string) (p : PoolRemove) : PoolRemove := p {{ Device ::= (λ l, l ++ [x]) }}.
Definition SetCommand (x : string) (p : PoolRemove) : PoolRemove := p {{ Command := x }}.
Definition GetPool (p : PoolRemove) : string := Pool p.
Definition GetDevice (p : PoolRemove) : list string := Device p.
Definition GetCommand (p : PoolRemove) : string := Command p.
End premove_access.

Module preplace_access.
(** pkg/zcmd/zpool/replace/utils.go *)
Import preplace.
Definition SetNewVdev (x : string) (p : PoolDiskReplace) : PoolDiskReplace := p {{ NewVdev := x }}.
Definition SetOldVdev (x : string) (p : PoolDiskReplace) : PoolDiskReplace := p {{ OldVdev := x }}.
Definition SetProperty (key value : string) (p : PoolDiskReplace) : PoolDiskReplace :=
  p {{ Property ::= (λ l, l ++ [key +:+ "=" +:+ value]) }}.
Definition SetPool (x : string) (p : PoolDiskReplace) : PoolDiskReplace := p {{ Pool := x }}.
Definition SetCommand (x : string) (p : PoolDiskReplace) : PoolDiskReplace := p {{ Command := x }}.
Definition GetProperty (p : PoolDiskReplace) : list string := Property p.
Definition GetPool (p : PoolDiskReplace) : string := Pool p.
Definition GetCommand (p : PoolDiskReplace) : string := Command p.
End preplace_access.

Module pset_access.
(** pkg/zcmd/zpool/set/utils.go *)
Import pset.
Definition SetPropList (key value : string) (p : PoolSProperty) : PoolSProperty :=
  p {{ PropList ::= (λ l, l ++ [key +:+ "=" +:+ value]) }}.
Definition SetPool (x : string) (p : PoolSProperty) : PoolSProperty := p {{ Pool := x }}.
Definition SetCommand (x : string) (p : PoolSProperty) : PoolSProperty := p {{ Command := x }}.
Definition GetPropList (p : PoolSProperty) : list string := PropList p.
Definition GetPool (p : PoolSProperty) : string := Pool p.
Definition GetCommand (p : PoolSProperty) : string := Command p.
End pset_access.

Module pstatus_access.
(** pkg/zcmd/zpool/status/utils.go *)
Import pstatus.
Definition SetPool (x : string) (p : PoolStatus) : PoolStatus := p {{ Pool := x }}.
Definition SetCommand (x : string) (p : PoolStatus) : PoolStatus := p {{ Command := x }}.
Definition GetPool (p : PoolStatus) : string := Pool p.
Definition GetCommand (p : PoolStatus) : string := Command p.
End pstatus_access.

(** Both constructors return the empty struct. *)
Module cmd.
Definition NewVolumeClone : builder vclone.VolumeClone := vclone.NewVolumeClone.
Definition NewPoolSetProperty : builder pset.PoolSProperty := pset.NewPoolSetProperty.
Definition NewPoolGetProperty : builder pget.PoolGProperty := pget.NewPoolGetProperty.
Definition NewPoolOffline : builder poffline.PoolOffline := poffline.NewPoolOffline.
Definition NewPoolExpansion : builder padd.PoolExpansion := padd.NewPoolExpansion.
Definition NewPoolStatus : builder pstatus.PoolStatus := pstatus.NewPoolStatus.
Definition NewPoolDestroy : builder pdestroy.PoolDestroy := pdestroy.NewPoolDestroy.
Definition NewPoolDetach : builder pdetach.PoolDetach := pdetach.NewPoolDetach.
Definition NewPoolRemove : builder premove.PoolRemove := premove.NewPoolRemove.
Definition NewPoolClear : builder pclear.PoolClear := pclear.NewPoolClear.
Definition NewPoolOnline : builder ponline.PoolOnline := ponline.NewPoolOnline.
Definition NewPoolImport : builder pimport.PoolImport := pimport.NewPoolImport.
Definition NewPoolAttach : builder pattach.PoolAttach := pattach.NewPoolAttach.
Definition NewPoolExport : builder pexport.PoolExport := pexport.NewPoolExport.
Definition NewPoolCreate : builder pcreate.PoolCreate := pcreate.NewPoolCreate.
Definition NewVolumeGetProperty : builder vget.VolumeGetProperty := vget.NewVolumeGetProperty.
Definition NewVolumeList : builder vlist.VolumeList := vlist.NewVolumeList.
Definition NewVolumeStats : builder vstats.VolumeStats := vstats.NewVolumeStats.
Definition NewVolumeListSnapshot : builder vlistsnap.VolumeListSnapshot := vlistsnap.NewVolumeListSnapshot.
Definition NewVolumeSetProperty : builder vset.VolumeSetProperty := vset.NewVolumeSetProperty.
Definition NewVolumeRollback : builder vrollback.VolumeRollback := vrollback.NewVolumeRollback.
Definition NewVolumeDestroy : builder vdestroy.VolumeDestroy := vdestroy.NewVolumeDestroy.
Definition NewVolumeRename : builder vrename.VolumeRename := vrename.NewVolumeRename.
Definition NewVolumeSnapshot : builder vsnapshot.VolumeSnapshot := vsnapshot.NewVolumeSnapshot.
Definition NewVolumeCreate : builder vcreate.VolumeCreate := vcreate.NewVolumeCreate.
Definition NewVolumeSnapshotSend : builder vsend.VolumeSnapshotSend := vsend.NewVolumeSnapshotSend.
Definition NewVolumeSnapshotRecv : builder vreceive.VolumeSnapshotRecv := vreceive.NewVolumeSnapshotRecv.
Definition NewPoolLabelClear : builder plabelclear.PoolLabelClear := plabelclear.NewPoolLabelClear.
Definition NewPoolDiskReplace : builder preplace.PoolDiskReplace := preplace.NewPoolDiskReplace.
Definition NewPoolDump : builder pdump.PoolDump := pdump.NewPoolDump.
End cmd.

(** The builder methods of zfs store what the Set methods store. *)
Lemma zfs_setters :
  (∀ x b, vclone.WithSnapshot x b = upd (vclone_access.SetSnapshot x) b) ∧
  (∀ x b, vclone.WithTargetDataset x b = upd (vclone_access.SetTargetDataset x) b) ∧
  (∀ x b, vclone.WithSourceDataset x b = upd (vclone_access.SetSourceDataset x) b) ∧
  (∀ key value b, vclone.WithProperty key value b = upd (vclone_access.SetProperty key value) b) ∧
  (∀ x b, vclone.WithCreateParent x b = upd (vclone_access.SetCreateParent x) b) ∧
  (∀ x b, vclone.WithCommand x b = upd (vclone_access.SetCommand x) b) ∧
  (∀ x b, vcreate.WithName x b = upd (vcreate_access.SetName x) b) ∧
  (∀ x b, vcreate.WithSize x b = upd (vcreate_access.SetSize x) b) ∧
  (∀ x b, vcreate.WithBlockSize x b = upd (vcreate_access.SetBlockSize x) b) ∧
  (∀ key value b, vcreate.WithProperty key value b = upd (vcreate_access.SetProperty key value) b) ∧
  (∀ x b, vcreate.WithReservation x b = upd (vcreate_access.SetReservation x) b) ∧
  (∀ x b, vcreate.WithCreateParent x b = upd (vcreate_access.SetCreateParent x) b) ∧
  (∀ x b, vcreate.WithCommand x b = upd (vcreate_access.SetCommand x) b) ∧
  (∀ x b, vdestroy.WithDryRun x b = upd (vdestroy_access.SetDryRun x) b) ∧
  (∀ x b, vdestroy.WithRecursive x b = upd (vdestroy_access.SetRecursive x) b) ∧
  (∀ x b, vdestroy.WithName x b = upd (vdestroy_access.SetName x) b) ∧
  (∀ x b, vdestroy.WithCommand x b = upd (vdestroy_access.SetCommand x) b) ∧
  (∀ x b, vget.WithDataset x b = upd (vget_access.SetDataset x) b) ∧
  (∀ x b, vget.WithSnapshot x b = upd (vget_access.SetSnapshot x) b) ∧
  (∀ x b, vget.WithCommand x b = upd (vget_access.SetCommand x) b) ∧
  (∀ x b, vreceive.WithSnapshot x b = upd (vreceive_access.SetSnapshot x) b) ∧
  (∀ x b, vreceive.WithDataset x b = upd (vreceive_access.SetDataset x) b) ∧
  (∀ x b, vreceive.WithTarget x b = upd (vreceive_access.SetTarget x) b) ∧
  (∀ x b, vreceive.WithDedup x b = upd (vreceive_access.SetDedup x) b) ∧
  (∀ x b, vreceive.WithLastSnapshot x b = upd (vreceive_access.SetLastSnapshot x) b) ∧
  (∀ x b, vreceive.WithDryRun x b = upd (vreceive_access.SetDryRun x) b) ∧
  (∀ x b, vreceive.WithEnableCompression x b = upd (vreceive_access.SetEnableCompression x) b) ∧
  (∀ x b, vreceive.WithCommand x b = upd (vreceive_access.SetCommand x) b) ∧
  (∀ x b, vrename.WithCreateParent x b = upd (vrename_access.SetCreateParent x) b) ∧
  (∀ x b, vrename.WithForceUnmount x b = upd (vrename_access.SetForceUnmount x) b) ∧
  (∀ x b, vrename.WithSource x b = upd (vrename_access.SetSource x) b) ∧
  (∀ x b, vrename.WithDest x b = upd (vrename_access.SetDest x) b) ∧
  (∀ x b, vrename.WithCommand x b = upd (vrename_access.SetCommand x) b) ∧
  (∀ x b, vrollback.WithDestroy x b = upd (vrollback_access.SetDestroy x) b) ∧
  (∀ x b, vrollback.WithForceUnmount x b = upd (vrollback_access.SetForceUnmount x) b) ∧
  (∀ x b, vrollback.WithDestroySnap x b = upd (vrollback_access.SetDestroySnap x) b) ∧
  (∀ x b, vrollback.WithSnapshot x b = upd (vrollback_access.SetSnapshot x) b) ∧
  (∀ x b, vrollback.WithCommand x b = upd (vrollback_access.SetCommand x) b) ∧
  (∀ x b, vsend.WithSnapshot x b = upd (vsend_access.SetSnapshot x) b) ∧
  (∀ x b, vsend.WithDataset x b = upd (vsend_access.SetDataset x) b) ∧
  (∀ x b, vsend.WithTarget x b = upd (vsend_access.SetTarget x) b) ∧
  (∀ x b, vsend.WithDedup x b = upd (vsend_access.SetDedup x) b) ∧
  (∀ x b, vsend.WithLastSnapshot x b = upd (vsend_access.SetLastSnapshot x) b) ∧
  (∀ x b, vsend.WithDryRun x b = upd (vsend_access.SetDryRun x) b) ∧
  (∀ x b, vsend.WithEnableCompression x b = upd (vsend_access.SetEnableCompression x) b) ∧
  (∀ x b, vsend.WithCommand x b = upd (vsend_access.SetCommand x) b) ∧
  (∀ key value b, vset.WithProperty key value b = upd (vset_access.SetProperty key value) b) ∧
  (∀ x b, vset.WithDataset x b = upd (vset_access.SetDataset x) b) ∧
  (∀ x b, vset.WithSnapshot x b = upd (vset_access.SetSnapshot x) b) ∧
  (∀ x b, vset.WithCommand x b = upd (vset_access.SetCommand x) b) ∧
  (∀ key value b, vsnapshot.WithProperty key value b = upd (vsnapshot_access.SetProperty key value) b) ∧
  (∀ x b, vsnapshot.WithRecursive x b = upd (vsnapshot_access.SetRecursive x) b) ∧
  (∀ x b, vsnapshot.WithSnapshot x b = upd (vsnapshot_access.SetSnapshot x) b) ∧
  (∀ x b, vsnapshot.WithDataset x b = upd (vsnapshot_access.SetDataset x) b) ∧
  (∀ x b, vsnapshot.WithCommand x b = upd (vsnapshot_access.SetCommand x) b).
Proof. split_and!; reflexivity. Qed.

(** The builder methods of zpool store what the Set methods store. *)
Lemma zpool_setters :
  (∀ key value b, padd.WithProperty key value b = upd (padd_access.SetProperty key value) b) ∧
  (∀ x b, padd.WithPool x b = upd (padd_access.SetPool x) b) ∧
  (∀ x b, padd.WithCommand x b = upd (padd_access.SetCommand x) b) ∧
  (∀ key value b, pattach.WithProperty key value b = upd (pattach_access.SetProperty key value) b) ∧
  (∀ x b, pattach.WithForcefully x b = upd (pattach_access.SetForcefully x) b) ∧
  (∀ x b, pattach.WithDevice x b = upd (pattach_access.SetDevice x) b) ∧
  (∀ x b, pattach.WithNewDevice x b = upd (pattach_access.SetNewDevice x) b) ∧
  (∀ x b, pattach.WithPool x b = upd (pattach_access.SetPool x) b) ∧
  (∀ x b, pattach.WithCommand x b = upd (pattach_access.SetCommand x) b) ∧
  (∀ x b, pclear.WithPool x b = upd (pclear_access.SetPool x) b) ∧
  (∀ x b, pclear.WithVdev x b = upd (pclear_access.SetVdev x) b) ∧
  (∀ x b, pclear.WithCommand x b = upd (pclear_access.SetCommand x) b) ∧
  (∀ x b, pcreate.WithPool x b = upd (pcreate_access.SetPool x) b) ∧
  (∀ x b, pcreate.WithVdev x b = upd (pcreate_access.SetVdev x) b) ∧
  (∀ x b, pcreate.WithForcefully x b = upd (pcreate_access.SetForcefully x) b) ∧
  (∀ x b, pcreate.WithCommand x b = upd (pcreate_access.SetCommand x) b) ∧
  (∀ x b, pdestroy.WithPool x b = upd (pdestroy_access.SetPool x) b) ∧
  (∀ x b, pdestroy.WithForcefully x b = upd (pdestroy_access.SetForcefully x) b) ∧
  (∀ x b, pdestroy.WithCommand x b = upd (pdestroy_access.SetCommand x) b) ∧
  (∀ x b, pdetach.WithPool x b = upd (pdetach_access.SetPool x) b) ∧
  (∀ x b, pdetach.WithVdev x b = upd (pdetach_access.SetVdev x) b) ∧
  (∀ x b, pdetach.WithCommand x b = upd (pdetach_access.SetCommand x) b) ∧
  (∀ x b, pdump.WithPool x b = upd (pdump_access.SetPool x) b) ∧
  (∀ x b, pdump.WithCommand x b = upd (pdump_access.SetCommand x) b) ∧
  (∀ x b, pexport.WithAllPool x b = upd (pexport_access.SetAllPool x) b) ∧
  (∀ x b, pexport.WithForcefully x b = upd (pexport_access.SetForcefully x) b) ∧
  (∀ x b, pexport.WithCommand x b = upd (pexport_access.SetCommand x) b) ∧
  (∀ x b, pget.WithPool x b = upd (pget_access.SetPool x) b) ∧
  (∀ x b, pget.WithCommand x b = upd (pget_access.SetCommand x) b) ∧
  (∀ x b, pimport.WithCachefile x b = upd (pimport_access.SetCachefile x) b) ∧
  (∀ x b, pimport.WithImportAll x b = upd (pimport_access.SetImportAll x) b) ∧
  (∀ x b, pimport.WithForceImport x b = upd (pimport_access.SetForceImport x) b) ∧
  (∀ x b, pimport.WithPool x b = upd (pimport_access.SetPool x) b) ∧
  (∀ x b, pimport.WithNewPool x b = upd (pimport_access.SetNewPool x) b) ∧
  (∀ x b, pimport.WithCommand x b = upd (pimport_access.SetCommand x) b) ∧
  (∀ x b, plabelclear.WithVdev x b = upd (plabelclear_access.SetVdev x) b) ∧
  (∀ x b, plabelclear.WithCommand x b = upd (plabelclear_access.SetCommand x) b) ∧
  (∀ x b, poffline.WithForceOffline x b = upd (poffline_access.SetForceOffline x) b) ∧
  (∀ x b, poffline.WithisTemporary x b = upd (poffline_access.SetisTemporary x) b) ∧
  (∀ x b, poffline.WithPool x b = upd (poffline_access.SetPool x) b) ∧
  (∀ x b, poffline.WithCommand x b = upd (poffline_access.SetCommand x) b) ∧
  (∀ x b, ponline.WithPool x b = upd (ponline_access.SetPool x) b) ∧
  (∀ x b, ponline.WithDevice x b = upd (ponline_access.SetDevice x) b) ∧
  (∀ x b, ponline.WithShouldExpand x b = upd (ponline_access.SetShouldExpand x) b) ∧
  (∀ x b, ponline.WithCommand x b = upd (ponline_access.SetCommand x) b) ∧
  (∀ x b, premove.WithPool x b = upd (premove_access.SetPool x) b) ∧
  (∀ x b, premove.WithDevice x b = upd (premove_access.SetDevice x) b) ∧
  (∀ x b, premove.WithCommand x b = upd (premove_access.SetCommand x) b) ∧
  (∀ x b, preplace.WithNewVdev x b = upd (preplace_access.SetNewVdev x) b) ∧
  (∀ x b, preplace.WithOldVdev x b = upd (preplace_access.SetOldVdev x) b) ∧
  (∀ key value b, preplace.WithProperty key value b = upd (preplace_access.SetProperty key value) b) ∧
  (∀ x b, preplace.WithPool x b = upd (preplace_access.SetPool x) b) ∧
  (∀ x b, preplace.WithCommand x b = upd (preplace_access.SetCommand x) b) ∧
  (∀ x b, pset.WithPool x b = upd (pset_access.SetPool x) b) ∧
  (∀ x b, pset.WithCommand x b = upd (pset_access.SetCommand x) b) ∧
  (∀ x b, pstatus.WithPool x b = upd (pstatus_access.SetPool x) b) ∧
  (∀ x b, pstatus.WithCommand x b = upd (pstatus_access.SetCommand x) b).
Proof. split_and!; reflexivity. Qed.

(** The exceptions: a property with an empty value is dropped by the builder methods of zpool create
    and zpool import and set by the Set methods; the Set method of zfs get asks for "key=value". *)
Lemma property_setters_differ key value (c : pcreate.PoolCreate) (i : pimport.PoolImport) (g : vget.VolumeGetProperty) :
  pcreate.WithProperty key "" (new c) = new c ∧
  pcreate.Property (pcreate_access.SetProperty key "" c) = pcreate.Property c ++ [key +:+ "="] ∧
  pimport.WithProperty key "" (new i) = new i ∧
  pimport.Property (pimport_access.SetProperty key "" i) = pimport.Property i ++ [key +:+ "="] ∧
  object (vget.WithProperty key (new g)) = g {{ vget.Proplist ::= (λ l, l ++ [key]) }} ∧
  vget.Proplist (vget_access.SetProperty key value g) = vget.Proplist g ++ [key +:+ "=" +:+ value].
Proof. split_and!; reflexivity. Qed.
