(* ===== verification/Zspec.v ===== *)
(** * Zspec: the arguments of the commands

    For the builders that the operators use: the list of arguments that a command means,
    written down without spaces, and the theorem that a shell splits the text of the
    command into exactly these arguments when the operands are single words. *)

From stdpp Require Import base gmap strings list sets pretty.
From Stdlib Require Import Ascii ZArith Lia.
From S2P Require Import Prelude Api Zcmd Zpool Zfs.

(** ** Reading the pieces of a command *)

Definition starts_space (s : string) : bool :=
  match s with String a _ => Ascii.eqb a space | "" => false end.

Lemma reads_literal l ws closed :
  all_chars literal l = true → words l = ws → (closed = true → ends_closed l) → reads_as l ws closed.
Proof. unfold reads_as. tauto. Qed.

Lemma ends_closed_space s : ends_closed (s +:+ " ").
Proof. right. by exists s. Qed.

Lemma reads_append c ws closed x ws' closed' :
  reads_as c ws closed → reads_as x ws' closed' → closed || starts_space x = true →
  reads_as (appendCommand c x) (ws ++ ws') closed'.
Proof.
  intros Hc Hx [->|Hs]%orb_true_iff; [by apply reads_app|].
  destruct x as [|a x]; [done|]. cbn in Hs. apply Ascii.eqb_eq in Hs as ->.
  destruct Hx as (Hl & Hw & He). cbn in Hl, Hw. unfold words in Hw. cbn in Hw.
  apply (reads_sep c ws closed x ws' closed'); [done|]. split_and!; [done..|].
  intros Hcl. destruct (He Hcl) as [|[x' Hx']]; [done|].
  destruct x' as [|b x']; cbn in Hx'; injection Hx'; [intros ->; by left|].
  intros -> _. right. by exists x'.
Qed.

Lemma reads_let (x : string) (k : string → string) ws closed ws' closed' :
  reads_as x ws closed → (∀ c, reads_as c ws closed → reads_as (k c) ws' closed') →
  reads_as (let c := x in k c) ws' closed'.
Proof. intros Hx Hk. by apply Hk. Qed.

Lemma reads_eq c ws ws' closed : reads_as c ws closed → ws = ws' → reads_as c ws' closed.
Proof. by intros ? <-. Qed.

Lemma str_set_word s : s = "" ∨ word s → str_set s = true → word s.
Proof. by intros [->|]. Qed.

Lemma words_elem l (x : string) : Forall word l → x ∈ l → word x.
Proof. rewrite Forall_forall. auto. Qed.

(** A value that is appended only when it is set. *)
Definition opt_word (s : string) : Prop := s = "" ∨ word s.
Definition operand (s : string) (set : bool) : list string := if set then [s] else [].
Lemma reads_opt_word s : opt_word s → reads_as s (operand s (str_set s)) false.
Proof.
  intros [->|Hw]; [exact (reads_weaken _ _ _ reads_nil)|].
  unfold str_set, operand. destruct Hw as [Hs Hc]. rewrite bool_decide_false by done. by apply reads_word.
Qed.

Lemma opt_words_elem (l : list string) d : Forall opt_word l → d ∈ l → str_set d = true → word d.
Proof. rewrite Forall_forall. intros Hl Hd. apply str_set_word. by apply Hl. Qed.

(** A list of words that are joined by commas is one word. *)
Definition commas (l : list string) : string := foldr (λ x acc, x +:+ "," +:+ acc) "" l.
Lemma foldl_commas c l : foldl (λ c x, appendCommand c (x +:+ ",")) c l = appendCommand c (commas l).
Proof.
  revert c. induction l as [|x l IH]; intros c; cbn; [by unfold appendCommand; rewrite str_app_nil_r|].
  rewrite IH. unfold appendCommand. by rewrite !str_app_assoc.
Qed.
Lemma commas_word l : Forall word l → list_set l = true → word (commas l).
Proof.
  destruct l as [|x l]; [done|]. intros [[Hx Hc] Hl]%Forall_cons _. split; [by destruct x|].
  cbn. rewrite all_chars_app, Hc. cbn. clear Hx Hc x.
  induction Hl as [|y l [_ Hy] _ IH]; cbn; [done|]. by rewrite all_chars_app, Hy.
Qed.

Lemma reads_if_false (b : bool) c c' ws closed :
  b = false → reads_as c' ws closed → reads_as (if b then c else c') ws closed.
Proof. by intros ->. Qed.

(** The pieces of a text: literals, words and words between literals. *)
Ltac reads_closed :=
  eapply (reads_literal _ _ true); [reflexivity|vm_compute; reflexivity|];
  intros _; right; lazymatch goal with |- ∃ c', ?l = _ =>
    let n := eval vm_compute in (String.substring 0 (String.length l - 1) l) in
    exists n; reflexivity end.
Ltac reads_open := eapply (reads_literal _ _ false); [reflexivity|vm_compute; reflexivity|intros [=]].
(** An operand whose predicate holds is not empty. *)
Ltac guarded :=
  match goal with
  | Ho : opt_word ?t, G : ?g _ = true |- word ?t =>
      destruct Ho as [E|]; [exfalso; unfold g in G; rewrite E, ?andb_false_r in G; by cbn in G|assumption]
  end.
Ltac joined :=
  match goal with
  | G : _ = true |- word (commas ?l) => eapply commas_word; [assumption|exact G]
  end.
Ltac is_word :=
  solve [guarded | joined | eauto using words_elem, str_set_word, opt_words_elem | apply (bool_decide_unpack _); vm_compute; exact I].
Ltac reads_piece :=
  lazymatch goal with
  | |- reads_as (?a +:+ " ") _ _ => eapply reads_word_space; is_word
  | |- reads_as (?a +:+ ?b) _ _ => eapply (reads_app a _ b); [reads_closed|reads_piece]
  | |- reads_as ?a _ _ => first [eapply reads_word; is_word | reads_closed | reads_open | eapply reads_opt_word; assumption]
  end.

(** One step of a command: an appended piece, a conditional one, a loop. *)
Ltac reads_expr :=
  lazymatch goal with
  | |- reads_as (let c := ?x in @?k c) _ _ =>
      eapply (reads_let x k); [reads_expr|cbv beta; intros ? ?; reads_expr]
  | |- reads_as (appendCommand ?c ?x) _ _ =>
      eapply reads_append; [reads_expr|reads_piece|reflexivity]
  | |- reads_as (if ?b then _ else _) _ _ =>
      first [eapply reads_if_false; [assumption|reads_expr]
            |eapply reads_if; cycle 1; [reads_expr|intros ?; reads_join]
            |eapply reads_if; cycle 1; [eapply reads_weaken; reads_expr|intros ?; reads_join]]
  | |- reads_as (foldl (λ c x, appendCommand c (x +:+ ",")) _ _) _ _ =>
      rewrite foldl_commas; reads_expr
  | |- reads_as (foldl _ _ _) _ _ =>
      first [eapply reads_fold; cycle 1; [reads_expr|intros ? ? ? ? ?; reads_join]
            |eapply reads_fold; cycle 1;
               [eapply reads_weaken; reads_expr|intros ? ? ? ? ?; reads_join]]
  | |- reads_as _ _ _ => first [eassumption | eapply reads_weaken; eassumption | apply reads_nil]
  end
with reads_join := first [reads_expr | eapply reads_weaken; reads_expr | reads_block]
(** A branch with several steps: its words are read in one piece. *)
with reads_block :=
  lazymatch goal with
  | H : reads_as ?c ?w _ |- reads_as _ (?w ++ _) _ =>
      revert H; generalize w; intros ? ?;
      eapply reads_eq; [first [reads_expr|eapply reads_weaken; reads_expr]|rewrite <-!app_assoc; reflexivity]
  end.

Ltac reads_command cmd := eapply reads_eq; [cbv beta delta [cmd]; reads_expr|].

(** The equation between the words that were read and the arguments. *)
Lemma bind_if_set {A B} (l : list A) (f : A → list B) : (if list_set l then l ≫= f else []) = l ≫= f.
Proof. by destruct l. Qed.
Lemma bind_return {A} (l : list A) : (l ≫= λ a, [a]) = l.
Proof. induction l as [|a l IH]; cbn; [done|]. by f_equal. Qed.
Ltac reads_args :=
  repeat match goal with
  | |- context [if ?b then ?l ≫= ?f else []] =>
      replace (if b then l ≫= f else []) with (l ≫= f) by (symmetry; apply (bind_if_set l f))
  end;
  cbn [app]; rewrite ?bind_return, <-?app_assoc; try reflexivity.

(** ** zpool *)

Definition flag (name : string) (b : bool) : list string := if b then [name] else [].
Definition options (name : string) (l : list string) : list string := l ≫= λ v, [name; v].

Definition pool_create_args (p : pcreate.PoolCreate) : list string :=
  ["zpool"; "create"] ++ flag "-f" (pcreate.Forcefully p) ++ options "-o" (pcreate.Property p) ++
  options "-O" (pcreate.FSProperty p) ++ [pcreate.Pool p] ++
  operand (pcreate.Type_ p) (pcreate.IsTypeSet p) ++ pcreate.Vdev p.

Lemma pool_create_words p :
  Forall word (pcreate.Property p) → Forall word (pcreate.FSProperty p) → word (pcreate.Pool p) →
  opt_word (pcreate.Type_ p) → Forall word (pcreate.Vdev p) →
  reads_as (pcreate.command p) (pool_create_args p) false.
Proof. intros. reads_command pcreate.command. reads_args. Qed.

Definition pool_add_args (p : padd.PoolExpansion) : list string :=
  ["zpool"; "add"] ++ flag "-f" (padd.Forcefully p) ++ options "-o" (padd.Property p) ++
  [padd.Pool p] ++ operand (padd.DeviceType p) (padd.IsDeviceTypeSet p) ++
  operand (padd.Type_ p) (padd.IsTypeSet p) ++ padd.VdevList p.

Lemma pool_add_words p :
  Forall word (padd.Property p) → word (padd.Pool p) → opt_word (padd.DeviceType p) →
  opt_word (padd.Type_ p) → Forall word (padd.VdevList p) →
  reads_as (padd.command p) (pool_add_args p) false.
Proof. intros. reads_command padd.command. reads_args. Qed.

Definition pool_replace_args (p : preplace.PoolDiskReplace) : list string :=
  ["zpool"; "replace"] ++ flag "-f" (preplace.Forcefully p) ++ options "-o" (preplace.Property p) ++
  [preplace.Pool p; preplace.OldVdev p; preplace.NewVdev p].

Lemma pool_replace_words p :
  Forall word (preplace.Property p) → word (preplace.Pool p) → word (preplace.OldVdev p) →
  word (preplace.NewVdev p) → reads_as (preplace.command p) (pool_replace_args p) false.
Proof. intros. reads_command preplace.command. reads_args. Qed.

Definition pool_destroy_args (p : pdestroy.PoolDestroy) : list string :=
  ["zpool"; "destroy"] ++ flag "-f" (pdestroy.Forcefully p) ++ [pdestroy.Pool p].

Lemma pool_destroy_words p :
  word (pdestroy.Pool p) → reads_as (pdestroy.command p) (pool_destroy_args p) false.
Proof. intros. reads_command pdestroy.command. reads_args. Qed.

Definition pool_labelclear_args (p : plabelclear.PoolLabelClear) : list string :=
  ["zpool"; "labelclear"] ++ flag "-f" (plabelclear.Forcefully p) ++ [plabelclear.Vdev p].

Lemma pool_labelclear_words p :
  word (plabelclear.Vdev p) → reads_as (plabelclear.command p) (pool_labelclear_args p) true.
Proof. intros. reads_command plabelclear.command. reads_args. Qed.

Definition pool_set_args (p : pset.PoolSProperty) : list string :=
  ["zpool"; "set"] ++ pset.PropList p ++ [pset.Pool p].

Lemma pool_set_words p :
  Forall word (pset.PropList p) → word (pset.Pool p) →
  reads_as (pset.command p) (pool_set_args p) false.
Proof. intros. reads_command pset.command. reads_args. Qed.

Definition pool_get_args (p : pget.PoolGProperty) : list string :=
  ["zpool"; "get"] ++ flag "-H" (pget.IsScriptedMode p) ++ flag "-p" (pget.IsParsableMode p) ++
  (if pget.IsFieldListSet p then ["-o"; commas (pget.FieldList p)] else []) ++
  operand (commas (pget.PropList p)) (pget.IsPropListSet p) ++
  operand (pget.Pool p) (pget.IsPoolSet p).

Lemma pool_get_words p :
  Forall word (pget.FieldList p) → Forall word (pget.PropList p) → opt_word (pget.Pool p) →
  reads_as (pget.command p) (pool_get_args p) true.
Proof. intros. reads_command pget.command. reads_args. Qed.

(** An import of a pool, under a new name when one is set; without a pool the command lists
    the pools that can be imported. *)
Definition pool_import_args (p : pimport.PoolImport) : list string :=
  ["zpool"; "import"] ++ options "-o" (pimport.Property p) ++
  (if pimport.IsCachefileSet p then ["-c"; pimport.Cachefile p]
   else options "-d" (filter (λ d, d ≠ "") (pimport.Directorylist p))) ++
  flag "-f" (pimport.ForceImport p) ++ operand (pimport.Pool p) (pimport.IsPoolSet p) ++
  operand (pimport.NewPool p) (pimport.IsNewPoolSet p).

Lemma options_filter name (l : list string) :
  options name (filter (λ d, d ≠ "") l) = l ≫= λ d, if str_set d then [name; d] else [].
Proof.
  induction l as [|d l IH]; [done|]. rewrite filter_cons, bind_cons, <-IH.
  unfold str_set. destruct (decide (d = "")) as [->|Hd]; [done|].
  rewrite decide_True, bool_decide_false by done. done.
Qed.

Lemma pool_import_words p :
  pimport.ImportAll p = false → Forall word (pimport.Property p) → opt_word (pimport.Cachefile p) →
  Forall opt_word (pimport.Directorylist p) → Sprintf0 (pimport.Pool p) = pimport.Pool p →
  opt_word (pimport.Pool p) → opt_word (pimport.NewPool p) →
  reads_as (pimport.command p) (pool_import_args p) false.
Proof.
  intros Hall ? ? ? Hfmt ? ?. eapply reads_eq; [cbv beta delta [pimport.command]|].
  - unfold pimport.IsImportAllSet. rewrite Hall, Hfmt. reads_expr.
  - reads_args. unfold pool_import_args. rewrite options_filter.
    destruct (pimport.IsCachefileSet p); [reflexivity|].
    unfold pimport.IsDirectorylistSet. by destruct (pimport.Directorylist p).
Qed.

(** ** zfs *)

Definition volume_set_args (p : vset.VolumeSetProperty) : list string :=
  ["zfs"; "set"] ++ vset.Proplist p ++ [vset.Dataset p].

Lemma volume_set_words p :
  Forall word (vset.Proplist p) → word (vset.Dataset p) → vset.IsSnapshotSet p = false →
  reads_as (vset.command p) (volume_set_args p) false.
Proof. intros. reads_command vset.command. reads_args. Qed.

Definition volume_get_args (p : vget.VolumeGetProperty) : list string :=
  ["zfs"; "get"] ++ flag "-H" (vget.IsScriptedMode p) ++ flag "-p" (vget.IsParsableMode p) ++
  (if vget.IsFieldListSet p then ["-o"; commas (vget.FieldList p)] else []) ++
  operand (commas (vget.Proplist p)) (vget.IsProplistSet p) ++ [vget.Dataset p].

Lemma volume_get_words p :
  Forall word (vget.FieldList p) → Forall word (vget.Proplist p) → word (vget.Dataset p) →
  vget.IsSnapshotSet p = false → reads_as (vget.command p) (volume_get_args p) false.
Proof. intros. reads_command vget.command. reads_args. Qed.

Definition volume_destroy_args (p : vdestroy.VolumeDestroy) : list string :=
  ["zfs"; "destroy"] ++ flag "-n" (vdestroy.DryRun p) ++ flag "-R" (vdestroy.Recursive p) ++
  [vdestroy.Name p].

(** A dry run must be recursive: otherwise the flag and the name are one word. *)
Lemma volume_destroy_words p :
  word (vdestroy.Name p) → vdestroy.IsDryRunSet p = false →
  reads_as (vdestroy.command p) (volume_destroy_args p) false.
Proof.
  intros ? Hd. reads_command vdestroy.command. reads_args. unfold volume_destroy_args.
  unfold vdestroy.IsDryRunSet in Hd. by rewrite Hd.
Qed.
