(* ===== verification/PoolApi.v ===== *)
(** * PoolApi: what the pool manager uses of other packages and of its process

    The pool manager runs next to the zfs tools of one pool.  [PoolApi] has the constants and
    helpers of github.com/openebs/api and of the API machinery that it calls, [Runner] the
    interface util.Runner, [Process] the variables that the controllers of the process share;
    the functions of the Go library on strings that the sources use are defined at the end. *)

From stdpp Require Import base gmap strings list sets pretty.
From Stdlib Require Import Ascii ZArith Lia.
From S2P Require Import Prelude Api Zcmd.

Class PoolApi := {
  (** pkg/apis/types *)
  OpenEBSCStorExistingPoolName : string;
  CStorPoolBasePath : string;
  CacheFileName : string;
  (** pkg/apis/cstor/v1 *)
  CStorPoolStatusPending : string;
  CStorPoolStatusDeletionFailed : string;
  CSPIPoolExpansion : string;
  CSPIDiskReplacement : string;
  CSPIDiskUnavailable : string;
  CSPIPoolLost : string;
  PoolStriped : string;
  CVRStatusInit : string;
  CVRStatusOnline : string;
  CVRStatusOffline : string;
  CVRStatusDegraded : string;
  CVRStatusNewReplicaDegraded : string;
  CVRStatusRebuilding : string;
  CVRStatusReconstructingNewReplica : string;
  CVRStatusError : string;
  CVRStatusDeletionFailed : string;
  CVRStatusInvalid : string;
  cspi_IsDestroyed : CStorPoolInstance → bool;
  cspi_IsEmptyStatus : CStorPoolInstance → bool;
  cspi_IsPendingStatus : CStorPoolInstance → bool;
  cspi_HasAnnotation : string → string → CStorPoolInstance → bool;
  GetAllRaidGroups : CStorPoolInstance → list RaidGroup;
  (** pkg/apis/openebs.io/v1alpha1 *)
  bdc_RemoveFinalizer : string → BlockDeviceClaim → BlockDeviceClaim;
  GetBlockDeviceClaimFromBDName : list BlockDeviceClaim → string → result BlockDeviceClaim;
  (** pkg/internalapis/apis/cstor: indexes into the statistics of a device, states, and the
      device with a path in a list of device trees *)
  VdevStateIndex : nat;
  VdevScanProcessedIndex : nat;
  VdevScanStatsStateIndex : nat;
  VdevScanStatsScanFuncIndex : nat;
  VdevStateHealthy : Z;
  PoolScanFinished : Z;
  PoolScanFuncResilver : Z;
  GetVdevFromPath : string → list Vdev → option Vdev;
  GetVdevState : Vdev → string;
  PoolOperator : string;
  (** pkg/util *)
  util_Namespace : string;
  util_GetEnv : string → string;
  (** resource.ParseQuantity, Quantity.Value and Quantity.Add *)
  resource_ParseQuantity : string → result Quantity;
  Quantity_Value : Quantity → Z;
  Quantity_Add : Quantity → Quantity → Quantity;
  (** client-go/tools/cache: SplitMetaNamespaceKey and MetaNamespaceKeyFunc *)
  cache_SplitMetaNamespaceKey : string → result (string * string);
  cache_MetaNamespaceKeyFunc : ObjectMeta → result string;
}.

(** What the pool manager relies on: the claim that is found is one of the list and claims the
    device; the device that is found has the path; the values of quantities are int64. *)
Class PoolApiLaws `{PoolApi} : Prop := {
  GetBlockDeviceClaimFromBDName_spec : ∀ l bd c,
    GetBlockDeviceClaimFromBDName l bd = OK c → c ∈ l ∧ bdc_BlockDeviceName c = bd;
  bdc_RemoveFinalizer_spec : ∀ f c x,
    x ∈ finalizers (bdc_RemoveFinalizer f c) ↔ x ∈ finalizers c ∧ x ≠ f;
  bdc_RemoveFinalizer_name : ∀ f c, name (bdc_RemoveFinalizer f c) = name c;
  Quantity_Value_int64 : ∀ q, (- 2 ^ 63 ≤ Quantity_Value q < 2 ^ 63)%Z;
}.

(** ** The process *)

(** util.Runner: the output of a program that is run with arguments. *)
Class Runner (W : Type) := {
  RunStdoutPipe : string → list string → W → output * W;
  RunCombinedOutput : string → list string → W → output * W;
}.

(** The package variables of pkg/controllers/common and pkg/pool/operations: [g_poolName] is
    the cached pool name, [g_Locked] whether SyncResources.Mux is held, [g_IsImported] is
    SyncResources.IsImported, [g_ImportedVol] InitialImportedPoolVol and [g_datasets] the
    properties that ds.datasetsToProperties remembers for a dataset. *)
Record pool_globals := {
  g_poolName : string;
  g_Locked : bool;
  g_IsImported : bool;
  g_ImportedVol : list string;
  g_datasets : gmap string (gmap string string);
}.

Class Process (W : Type) := {
  globals : W → pool_globals;
  with_globals : pool_globals → W → W;
}.
Class ProcessLaws (W : Type) `{!Process W} : Prop := {
  globals_with : ∀ g w, globals (with_globals g w) = g;
  with_globals_twice : ∀ g g' (w : W), with_globals g (with_globals g' w) = with_globals g w;
  with_globals_same : ∀ w : W, with_globals (globals w) w = w;
}.

Section process.
Context {W : Type} `{!Process W} `{PodEnv}.

Definition set_globals (f : pool_globals → pool_globals) : M W unit :=
  λ w, (Ret tt, with_globals (f (globals w)) w).
Definition get_globals : M W pool_globals := reads globals.

Definition g_with_locked (b : bool) (g : pool_globals) : pool_globals :=
  {| g_poolName := g_poolName g; g_Locked := b; g_IsImported := g_IsImported g;
     g_ImportedVol := g_ImportedVol g; g_datasets := g_datasets g |}.
Definition g_with_imported (b : bool) (g : pool_globals) : pool_globals :=
  {| g_poolName := g_poolName g; g_Locked := g_Locked g; g_IsImported := b;
     g_ImportedVol := g_ImportedVol g; g_datasets := g_datasets g |}.
Definition g_with_volumes (l : list string) (g : pool_globals) : pool_globals :=
  {| g_poolName := g_poolName g; g_Locked := g_Locked g; g_IsImported := g_IsImported g;
     g_ImportedVol := l; g_datasets := g_datasets g |}.
Definition g_with_poolName (n : string) (g : pool_globals) : pool_globals :=
  {| g_poolName := n; g_Locked := g_Locked g; g_IsImported := g_IsImported g;
     g_ImportedVol := g_ImportedVol g; g_datasets := g_datasets g |}.
Definition g_with_datasets (d : gmap string (gmap string string)) (g : pool_globals) : pool_globals :=
  {| g_poolName := g_poolName g; g_Locked := g_Locked g; g_IsImported := g_IsImported g;
     g_ImportedVol := g_ImportedVol g; g_datasets := d |}.

(** sync.Mutex.  One handler runs at a time here, so that a lock that is held is never
    released by another goroutine: Lock would block for ever.  Unlocking a free mutex is a
    fatal error. *)
Definition Mux_Lock : M W unit :=
  let* g := get_globals in
  if g_Locked g then panic "Lock blocks" else set_globals (g_with_locked true).
Definition Mux_Unlock : M W unit :=
  let* g := get_globals in
  if g_Locked g then set_globals (g_with_locked false) else panic "unlock of unlocked mutex".

Definition os_Getenv (n : string) : string := default "" (os_LookupEnv n).
End process.

(** ** Functions of the packages strings and strconv *)

Definition newline : ascii := Ascii.ascii_of_nat 10.
Definition lines (s : string) : list string := split_on newline s.

Fixpoint prefix_of (p s : string) : bool :=
  match p, s with
  | "", _ => true
  | String a p', String b s' => Ascii.eqb a b && prefix_of p' s'
  | _, "" => false
  end.
Definition strings_HasPrefix (s p : string) : bool := prefix_of p s.
Definition strings_HasSuffix (s p : string) : bool := prefix_of (rev_string p) (rev_string s).
Fixpoint strings_Contains (s sub : string) : bool :=
  prefix_of sub s || match s with "" => false | String _ s' => strings_Contains s' sub end.

(** The index of the first byte [a], and of the last one. *)
Fixpoint index_byte (a : ascii) (s : string) : option nat :=
  match s with
  | "" => None
  | String b s' => if Ascii.eqb a b then Some 0 else S <$> index_byte a s'
  end.
Fixpoint last_index_byte (a : ascii) (s : string) : option nat :=
  match s with
  | "" => None
  | String b s' =>
      match last_index_byte a s' with
      | Some i => Some (S i)
      | None => if Ascii.eqb a b then Some 0 else None
      end
  end.

(** strings.Replace(s, old, new, n) for one byte and [n >= 0]. *)
Fixpoint replace_byte (old new : ascii) (n : nat) (s : string) : string :=
  match s with
  | "" => ""
  | String b s' =>
      match n with
      | 0 => s
      | S n' => if Ascii.eqb b old then String new (replace_byte old new n' s')
                else String b (replace_byte old new n s')
      end
  end.

(** strings.Fields on ASCII text. *)
Fixpoint fields_from (cur s : string) : list string :=
  match s with
  | "" => if bool_decide (cur = "") then [] else [cur]
  | String a s' =>
      if is_space a then (if bool_decide (cur = "") then [] else [cur]) ++ fields_from "" s'
      else fields_from (cur +:+ String a "") s'
  end.
Definition strings_Fields (s : string) : list string := fields_from "" s.

(** strings.ToUpper and strings.EqualFold on ASCII text. *)
Definition upper (a : ascii) : ascii :=
  let n := Ascii.nat_of_ascii a in
  if ((97 <=? n) && (n <=? 122))%nat then Ascii.ascii_of_nat (n - 32) else a.
Fixpoint strings_ToUpper (s : string) : string :=
  match s with "" => "" | String a s' => String (upper a) (strings_ToUpper s') end.
Definition strings_EqualFold (s t : string) : bool :=
  bool_decide (strings_ToUpper s = strings_ToUpper t).

(** strconv.ParseUint(s, 10, 64) *)
Fixpoint parse_uint (acc : Z) (s : string) : option Z :=
  match s with
  | "" => Some acc
  | String a s' =>
      let n := Ascii.nat_of_ascii a in
      if ((48 <=? n) && (n <=? 57))%nat then parse_uint (acc * 10 + Z.of_nat (n - 48)) s' else None
  end.
Definition ParseUint (s : string) : result Z :=
  match s with
  | "" => Err (Errorf "strconv.ParseUint: parsing %q: invalid syntax" [s])
  | _ =>
      match parse_uint 0 s with
      | None => Err (Errorf "strconv.ParseUint: parsing %q: invalid syntax" [s])
      | Some n => if (n <? 2 ^ 64)%Z then OK n
                  else Err (Errorf "strconv.ParseUint: parsing %q: value out of range" [s])
      end
  end.

(** The element of a slice, which panics outside of its bounds. *)
Definition slice_at {A} (l : list A) (i : nat) : outcome A :=
  match l !! i with Some a => Ret a | None => Panic "index out of range" end.
