(* ===== verification/StringFacts.v ===== *)
(** * StringFacts: prefixes, suffixes and parts of strings

    Specifications of the functions of package strings that [PoolApi] defines. *)

From stdpp Require Import base gmap strings list sets.
From Stdlib Require Import Ascii ZArith Lia.
From S2P Require Import Prelude Api PoolApi.

Implicit Types s t p : string.

Lemma prefix_of_spec p s : prefix_of p s = true ↔ ∃ t, s = p +:+ t.
Proof.
  revert s. induction p as [|a p IH]; intros s; cbn; [split; [by exists s|done]|].
  destruct s as [|b s]; [split; [done|by intros [? ?]]|].
  rewrite andb_true_iff, IH, Ascii.eqb_eq. split.
  - intros (-> & t & ->). by exists t.
  - intros (t & [= -> ->]). eauto.
Qed.

Lemma rev_onto_app s t acc : rev_onto (s +:+ t) acc = rev_onto t (rev_onto s acc).
Proof. revert acc. induction s as [|a s IH]; intros acc; [done|apply IH]. Qed.
Lemma rev_onto_acc s acc : rev_onto s acc = rev_onto s "" +:+ acc.
Proof.
  revert acc. induction s as [|a s IH]; intros acc; [done|]. cbn. rewrite (IH (String a acc)), (IH (String a "")).
  by rewrite app_string_assoc.
Qed.
Lemma rev_string_app s t : rev_string (s +:+ t) = rev_string t +:+ rev_string s.
Proof. unfold rev_string. by rewrite rev_onto_app, rev_onto_acc. Qed.
Lemma rev_string_involutive s : rev_string (rev_string s) = s.
Proof.
  induction s as [|a s IH]; [done|]. change (String a s) with (String a "" +:+ s).
  by rewrite rev_string_app, rev_string_app, IH.
Qed.

Lemma HasSuffix_spec s p : strings_HasSuffix s p = true ↔ ∃ t, s = t +:+ p.
Proof.
  unfold strings_HasSuffix. rewrite prefix_of_spec. split; intros [t Ht].
  - exists (rev_string t). by rewrite <-(rev_string_involutive s), Ht, rev_string_app, rev_string_involutive.
  - exists (rev_string t). by rewrite Ht, rev_string_app.
Qed.

Lemma Contains_spec s p : strings_Contains s p = true ↔ ∃ t u, s = t +:+ p +:+ u.
Proof.
  induction s as [|a s IH]; cbn; rewrite orb_true_iff, prefix_of_spec.
  - split; [intros [[t Ht]|?]; [by exists "", t|done]|].
    intros (t & u & Ht). left. destruct t; [by exists u|done].
  - rewrite IH. split.
    + intros [[t Ht]|(t & u & ->)]; [by exists "", t|by exists (String a t), u].
    + intros (t & u & Ht). destruct t as [|b t]; [left; by exists u|]. injection Ht as <- Ht.
      right. by exists t, u.
Qed.

Lemma Contains_suffix s p : strings_HasSuffix s p = true → strings_Contains s p = true.
Proof.
  rewrite HasSuffix_spec, Contains_spec. intros [t ->]. exists t, "". by rewrite app_string_nil_r.
Qed.
