(* ===== verification/TargetDeploy.v ===== *)
(** * TargetDeploy: the deployment that exports a volume
      (pkg/controllers/cstorvolumeconfig/deployment.go and policy.go)

    A volume is exported by a deployment with three containers: the iSCSI target, the
    exporter and the volume manager.  A policy of the volume sets its tunables;
    policy.go fills in the defaults. *)

From stdpp Require Import base gmap strings list sets pretty.
From Stdlib Require Import Ascii ZArith Lia.
From S2P Require Import Prelude Api VolumeApi Version.

(** ** Policies (policy.go) *)

Definition defaultQueueDepth : string := "32".
Definition defaultIOWorkers : Z := 6.

Definition zero_requirements : ResourceRequirements :=
  {| rr_requests := <["cpu" := "0"]> {["memory" := "0"]};
     rr_limits := <["cpu" := "0"]> {["memory" := "0"]} |}.

Definition getDefaultPolicySpec : CStorVolumePolicySpec :=
  {| pol_ReplicaAffinity := false;
     pol_Target := {| tgt_QueueDepth := defaultQueueDepth; tgt_IOWorkers := defaultIOWorkers;
                      tgt_Resources := Some zero_requirements;
                      tgt_AuxResources := Some zero_requirements; tgt_Tolerations := [];
                      tgt_PodAffinity := None; tgt_NodeSelector := ∅;
                      tgt_PriorityClassName := "" |};
     pol_Replica_IOWorkers := ""; pol_ReplicaPoolInfo := [] |}.

Definition pol_with_target (t : TargetSpec) (p : CStorVolumePolicySpec) : CStorVolumePolicySpec :=
  {| pol_ReplicaAffinity := pol_ReplicaAffinity p; pol_Target := t;
     pol_Replica_IOWorkers := pol_Replica_IOWorkers p;
     pol_ReplicaPoolInfo := pol_ReplicaPoolInfo p |}.

Definition defaultTargetPolicy (policy defaultPolicy : CStorVolumePolicySpec)
  : CStorVolumePolicySpec :=
  let t := pol_Target policy in
  let d := pol_Target defaultPolicy in
  pol_with_target
    {| tgt_QueueDepth :=
         if bool_decide (tgt_QueueDepth t = "") then tgt_QueueDepth d else tgt_QueueDepth t;
       tgt_IOWorkers := if (tgt_IOWorkers t =? 0)%Z then tgt_IOWorkers d else tgt_IOWorkers t;
       tgt_Resources := match tgt_Resources t with None => tgt_Resources d | r => r end;
       tgt_AuxResources := match tgt_AuxResources t with None => tgt_AuxResources d | r => r end;
       tgt_Tolerations := tgt_Tolerations t; tgt_PodAffinity := tgt_PodAffinity t;
       tgt_NodeSelector := tgt_NodeSelector t;
       tgt_PriorityClassName := tgt_PriorityClassName t |} policy.

Definition defaultReplicaPolicy (policy defaultPolicy : CStorVolumePolicySpec)
  : CStorVolumePolicySpec := policy.

Definition validatePolicySpec (policy : CStorVolumePolicySpec) : CStorVolumePolicySpec :=
  foldl (λ policy o, o policy getDefaultPolicySpec) policy
    [defaultTargetPolicy; defaultReplicaPolicy].

(** ** The deployment (deployment.go) *)

Definition openebsPVC : string := "openebs.io/persistent-volume-claim".

Definition tolerationSeconds : Z := 30.
Definition deployreplicas : Z := 1.
Definition resyncInterval : string := "30".
Definition TargetContainerName : string := "cstor-istgt".
Definition MonitorContainerName : string := "maya-volume-exporter".
Definition MgmtContainerName : string := "cstor-volume-mgmt".

Definition defaultMounts : list VolumeMount :=
  [ {| vm_Name := "sockfile"; MountPath := "/var/run" |};
    {| vm_Name := "conf"; MountPath := "/usr/local/etc/istgt" |};
    {| vm_Name := "storagepath"; MountPath := "/var/openebs/cstor-target" |} ].

Definition no_execute (key : string) : Toleration :=
  {| tol_key := key; tol_operator := "Exists"; tol_value := ""; tol_effect := "NoExecute";
     tol_seconds := Some tolerationSeconds |}.

Definition defaulTolerations : list Toleration :=
  [ no_execute "node.alpha.kubernetes.io/notReady";
    no_execute "node.alpha.kubernetes.io/unreachable";
    no_execute "node.kubernetes.io/not-ready";
    no_execute "node.kubernetes.io/unreachable" ].

Definition getDeployTolerations (policySpec : CStorVolumePolicySpec) : list Toleration :=
  match tgt_Tolerations (pol_Target policySpec) with
  | [] => defaulTolerations
  | l => l
  end.

Definition getTargetTemplateAffinity (policySpec : CStorVolumePolicySpec) : Affinity :=
  match tgt_PodAffinity (pol_Target policySpec) with
  | None => {| af_PodAffinity := None |}
  | Some a => {| af_PodAffinity := Some a |}
  end.

Definition getMonitorMounts : list VolumeMount := defaultMounts.
Definition getTargetMgmtMounts : list VolumeMount := defaultMounts.

Definition setIstgtEnvs (policySpec : CStorVolumePolicySpec) : list EnvVar :=
  [ EnvValue "QueueDepth" (tgt_QueueDepth (pol_Target policySpec));
    EnvValue "Luworkers" (pretty (tgt_IOWorkers (pol_Target policySpec))) ].

Definition getDeployTemplateEnvs (cstorid : string) : list EnvVar :=
  [ EnvValue "OPENEBS_IO_CSTOR_VOLUME_ID" cstorid;
    EnvValue "RESYNC_INTERVAL" resyncInterval;
    EnvFieldRef "NODE_NAME" "spec.nodeName";
    EnvFieldRef "POD_NAME" "metadata.name";
    EnvFieldRef "OPENEBS_NAMESPACE" "metadata.namespace" ].

Definition getContainerPort (port : Z) : list ContainerPort :=
  [{| cp_ContainerPort := port; cp_Protocol := "" |}].

Definition getResourceRequirementForCStorTarget (policySpec : CStorVolumePolicySpec)
  : ResourceRequirements :=
  match tgt_Resources (pol_Target policySpec) with
  | None => {| rr_limits := ∅; rr_requests := ∅ |}
  | Some r => r
  end.

Definition getAuxResourceRequirement (policySpec : CStorVolumePolicySpec) : ResourceRequirements :=
  match tgt_AuxResources (pol_Target policySpec) with
  | None => {| rr_limits := ∅; rr_requests := ∅ |}
  | Some r => r
  end.

Definition getPriorityClass (policySpec : CStorVolumePolicySpec) : string :=
  tgt_PriorityClassName (pol_Target policySpec).

Section target.
Context `{OpenebsApi} `{VolumeApi} `{BuildInfo} `{PodEnv}.
Context {W : Type} `{!ResourceClient W Deployment} (openebsNamespace : string).

Definition getDeployLabels (pvName pvcName : string) : gmap string string :=
  list_to_map [("app", "cstor-volume-manager");
               ("openebs.io/target", "cstor-target");
               ("openebs.io/storage-engine-type", "cstor");
               ("openebs.io/cas-type", "cstor");
               ("openebs.io/persistent-volume", pvName);
               (openebsPVC, pvcName);
               ("openebs.io/version", GetVersion)].

Definition getDeployAnnotation : gmap string string :=
  list_to_map [("openebs.io/volume-monitor", "true"); ("openebs.io/volume-type", "cstor")].

Definition getDeployMatchLabels (pvName : string) : gmap string string :=
  list_to_map [("app", "cstor-volume-manager");
               ("openebs.io/target", "cstor-target");
               ("openebs.io/persistent-volume", pvName)].

Definition getDeployTemplateLabels (pvName pvcName : string) : gmap string string :=
  list_to_map [("monitoring", "volume_exporter_prometheus");
               ("app", "cstor-volume-manager");
               ("openebs.io/target", "cstor-target");
               ("openebs.io/persistent-volume", pvName);
               (openebsPVC, pvcName);
               ("openebs.io/version", GetVersion)].

Definition getDeployTemplateAnnotations : gmap string string :=
  list_to_map [("prometheus.io/path", "/metrics"); ("prometheus.io/port", "9500");
               ("prometheus.io/scrape", "true")].

Definition getDeployOwnerReference (volume : CStorVolume) : list OwnerReference :=
  [cv_ControllerRef volume].

Definition getVolumeTargetImage : string :=
  default "openebs/cstor-istgt:ci" (os_LookupEnv "OPENEBS_IO_CSTOR_TARGET_IMAGE").

Definition getVolumeMonitorImage : string :=
  default "openebs/m-exporter:ci" (os_LookupEnv "OPENEBS_IO_VOLUME_MONITOR_IMAGE").

Definition getVolumeMgmtImage : string :=
  default "openebs/cstor-volume-manager-amd64:ci" (os_LookupEnv "OPENEBS_IO_CSTOR_VOLUME_MGMT_IMAGE").

Definition target_containers (vol : CStorVolume) (policySpec : CStorVolumePolicySpec)
  : list Container :=
  [ {| ctr_Image := getVolumeTargetImage; ctr_Name := TargetContainerName;
       ctr_ImagePullPolicy := "IfNotPresent"; ctr_Privileged := true;
       ctr_EnvsNew := setIstgtEnvs policySpec; ctr_Envs := [];
       ctr_Resources := Some (getResourceRequirementForCStorTarget policySpec);
       ctr_VolumeMounts := getTargetMgmtMounts; ctr_Ports := getContainerPort 3260;
       ctr_LivenessProbe := None; ctr_PostStart := None; ctr_Command := []; ctr_Args := [] |};
    {| ctr_Image := getVolumeMonitorImage; ctr_Name := MonitorContainerName;
       ctr_ImagePullPolicy := ""; ctr_Privileged := false; ctr_EnvsNew := []; ctr_Envs := [];
       ctr_Resources := Some (getAuxResourceRequirement policySpec);
       ctr_VolumeMounts := getMonitorMounts; ctr_Ports := getContainerPort 9500;
       ctr_LivenessProbe := None; ctr_PostStart := None; ctr_Command := ["maya-exporter"];
       ctr_Args := ["-e=cstor"] |};
    {| ctr_Image := getVolumeMgmtImage; ctr_Name := MgmtContainerName;
       ctr_ImagePullPolicy := "IfNotPresent"; ctr_Privileged := true;
       ctr_EnvsNew := getDeployTemplateEnvs (uid vol); ctr_Envs := [];
       ctr_Resources := Some (getAuxResourceRequirement policySpec);
       ctr_VolumeMounts := getTargetMgmtMounts; ctr_Ports := getContainerPort 80;
       ctr_LivenessProbe := None; ctr_PostStart := None; ctr_Command := []; ctr_Args := [] |} ].

Definition target_volumes (vol : CStorVolume) : list Volume :=
  [ {| vol_Name := "sockfile"; vol_Source := EmptyDir |};
    {| vol_Name := "conf"; vol_Source := EmptyDir |};
    {| vol_Name := "storagepath";
       vol_Source := HostPath (GetOpenebsBaseDirPath +:+ "/cstor-target/" +:+ name vol)
                       "DirectoryOrCreate" |} ].

(** The arguments of the builder chain of BuildTargetDeployment; no call sets the
    namespace. *)
Definition target_deploy_args (vol : CStorVolume) (policySpec : CStorVolumePolicySpec)
  : deploy_args :=
  {| da_name := name vol +:+ "-target"; da_namespace := "";
     da_annotations := getDeployAnnotation;
     da_labels := getDeployLabels (name vol) (label (labels vol) openebsPVC);
     da_owners := getDeployOwnerReference vol;
     da_spec :=
       {| dep_Replicas := deployreplicas; dep_StrategyType := "Recreate";
          dep_MatchLabels := getDeployMatchLabels (name vol);
          dep_Template :=
            {| pod_Labels := getDeployTemplateLabels (name vol) (label (labels vol) openebsPVC);
               pod_Annotations := getDeployTemplateAnnotations;
               pod_PriorityClassName := getPriorityClass policySpec;
               pod_NodeSelector := tgt_NodeSelector (pol_Target policySpec);
               pod_ServiceAccountName := GetServiceAccountName;
               pod_Affinity := Some (getTargetTemplateAffinity policySpec);
               pod_Tolerations := getDeployTolerations policySpec;
               pod_ImagePullSecrets := GetImagePullSecrets GetOpenEBSImagePullSecrets;
               pod_Containers := target_containers vol policySpec;
               pod_Volumes := target_volumes vol |} |} |}.

Definition BuildTargetDeployment (vol : CStorVolume) (policySpec : CStorVolumePolicySpec)
  : result Deployment :=
  OK (build_deployment (target_deploy_args vol policySpec)).

Definition getOrCreateCStorTargetDeployment (vol : CStorVolume)
  (policySpec : CStorVolumePolicySpec) : M W (result Deployment) :=
  let* g := reads (λ w, rGet (Obj:=Deployment) w openebsNamespace (name vol +:+ "-target")) in
  match g with
  | OK deployObj => mret (OK deployObj)
  | Err err =>
      if negb (IsNotFound err) then
        mret (Err (Wrapf err "failed to get cstorvolume target {%v}" [""]))
      else
        match BuildTargetDeployment vol policySpec with
        | Err err => mret (Err (Wrapf err "failed to build deployment object" []))
        | OK deployObj =>
            let* c := call (rCreate openebsNamespace deployObj) in
            match c with
            | Err err => mret (Err (Wrapf err "failed to create deployment object" []))
            | OK deployObj => mret (OK deployObj)
            end
        end
  end.
End target.
