(* ===== verification/VolumeOps.v ===== *)
(** * VolumeOps: replicas, scaling and disruption budgets of a volume
      (pkg/controllers/cstorvolumeconfig/volume_operations.go and pdb.go, pkg/util/hash)

    Provisioning a volume creates its service, its CStorVolume and one replica on each
    of the chosen pools; scaling adds replicas on new pools or removes one.  The
    functions that change the configuration through its pointer return it: the first
    component of their value is what Go returns, the last the object that the
    caller's pointer shows afterwards.  [openebsNamespace] is the global variable of
    that name. *)

From stdpp Require Import base gmap strings list sets pretty.
From Stdlib Require Import Ascii ZArith Lia.
From S2P Require Import Prelude Api VolumeApi Version Webhook PoolOps TargetDeploy.

(** ** pkg/util/hash/hash.go *)

Definition TemplateHashLabelName : string := "cstor.openebs.io/template-hash".

Section hash.
Context `{VolumeApi}.

(** Hash, for the strings it is called with. *)
Definition Hash (obj : string) : result string :=
  match json_Marshal_string obj with
  | Err err => Err (Wrapf err "failed to convert the object to json encoded format" [])
  | OK jsonEncodedValues => OK (pretty (xxhash_Sum64 jsonEncodedValues))
  end.

(** HashObject, for the policies it is called with. *)
Definition HashObject (object : CStorVolumePolicySpec) : string :=
  pretty (fnv_Sum32 (spew_policy object)).

Definition setHashLabel (labelName : string) (labels : gmap string string)
  (template : CStorVolumePolicySpec) : gmap string string :=
  <[labelName := HashObject template]> labels.

Definition SetTemplateHashLabel (labels : gmap string string) (template : CStorVolumePolicySpec)
  : gmap string string :=
  setHashLabel TemplateHashLabelName labels template.

Definition GetTemplateHashLabel (labels : gmap string string) : string :=
  label labels TemplateHashLabelName.
End hash.

(** ** Constants *)

Definition ReplicaCount : string := "replicaCount".
Definition pvSelector : string := "openebs.io/persistent-volume".
Definition minHAReplicaCount : Z := 3.
Definition volumeID : string := "openebs.io/volumeID".
Definition pvCreatedByKey : string := "openebs.io/created-through".
Definition createdThroughRestore : string := "restore".
(** volumereplica.IsRestoreVol *)
Definition IsRestoreVol : string := "isRestoreVol".
Definition Provisioning : string := "Provisioning".

Definition service_port (n : string) (p : Z) : ServicePort :=
  {| sp_Name := n; sp_Port := p; sp_Protocol := "TCP"; sp_TargetPort := p |}.
Definition cvPorts : list ServicePort :=
  [service_port "cstor-iscsi" 3260; service_port "cstor-grpc" 7777; service_port "mgmt" 6060;
   service_port "exporter" 9500].

(** What a replica is created with. *)
Record replicaInfo := { replicaID : string; phase : string; ioWorkers : string }.

(** ** Functions that do not read the cluster *)

Definition isHAVolume (cvcObj : CStorVolumeConfig) : bool :=
  match cvc_Status_PoolInfo cvcObj with
  | [] => (minHAReplicaCount <=? cvc_Provision_ReplicaCount cvcObj)%Z
  | l => (minHAReplicaCount <=? Z.of_nat (length l))%Z
  end.

(** [volSrc[1]] panics on a source without "@"; the list is never empty. *)
Definition getSrcDetails (cstorVolumeSrc : string) : outcome (result (string * string)) :=
  match split_on "@"%char cstorVolumeSrc with
  | [] => Ret (Err (Errorf "failed to get volumeSource" []))
  | [_] => Panic "index out of range"
  | v :: snap :: _ => Ret (OK (v, snap))
  end.

Definition getPolicyBasedPoolList (poolList : list CStorPoolInstance) (poolInfo : list string)
  : list CStorPoolInstance :=
  omap (λ info, first_such (λ pool, bool_decide (name pool = info)) poolList) poolInfo.

(** The exchange of the first matching pool with the first pool of the list. *)
Definition prioritizedPoolList (nodeName : string) (l : list CStorPoolInstance)
  : list CStorPoolInstance :=
  match list_find (λ pool, cspi_HostName (cspi_Spec pool) = nodeName) l with
  | None => l
  | Some (i, pool) =>
      match l with
      | [] => l
      | first :: _ => <[0 := pool]> (<[i := first]> l)
      end
  end.

(** [l.Items[idx]] for each index of a permutation of the indices. *)
Definition randomizePoolList (perm : list nat) (l : list CStorPoolInstance)
  : outcome (list CStorPoolInstance) :=
  foldO (λ res idx,
    match l !! idx with
    | Some pool => Ret (res ++ [pool])
    | None => Panic "index out of range"
    end) [] perm.

Section volume_helpers.
Context `{OpenebsApi} `{VolumeApi} `{BuildInfo} `{PodEnv} `{GoRuntime}.

Definition getTargetServiceLabels (claim : CStorVolumeConfig) : gmap string string :=
  list_to_map [("openebs.io/target-service", "cstor-target-svc");
               ("openebs.io/storage-engine-type", "cstor");
               ("openebs.io/cas-type", "cstor");
               ("openebs.io/persistent-volume", name claim);
               ("openebs.io/version", GetVersion)].

Definition getTargetServiceSelectors (claim : CStorVolumeConfig) : gmap string string :=
  list_to_map [("app", "cstor-volume-manager");
               ("openebs.io/target", "cstor-target");
               ("openebs.io/persistent-volume", name claim)].

Definition getTargetServiceOwnerReference (claim : CStorVolumeConfig) : list OwnerReference :=
  [cvc_ControllerRef claim].

Definition getCVRLabels (pool : CStorPoolInstance) (volumeName : string) : gmap string string :=
  list_to_map [("cstorpoolinstance.openebs.io/name", name pool);
               ("cstorpoolinstance.openebs.io/uid", uid pool);
               ("cstorvolume.openebs.io/name", volumeName);
               ("openebs.io/persistent-volume", volumeName);
               ("openebs.io/version", GetVersion)].

Definition getCVRAnnotations (pool : CStorPoolInstance) : gmap string string :=
  {["cstorpoolinstance.openebs.io/hostname" := label (labels pool) "kubernetes.io/hostname"]}.

Definition getCVRFinalizer : string := CStorVolumeReplicaFinalizer.

Definition getCVROwnerReference (cv : CStorVolume) : list OwnerReference := [cv_ControllerRef cv].

Definition getCVLabels (claim : CStorVolumeConfig) : gmap string string :=
  list_to_map [("openebs.io/persistent-volume", name claim);
               ("openebs.io/version", GetVersion);
               (openebsPVC, label (annotations claim) openebsPVC)].

Definition getCVOwnerReference (cvc : CStorVolumeConfig) : list OwnerReference :=
  [cvc_ControllerRef cvc].

Definition getCSPC (claim : CStorVolumeConfig) : string :=
  label (labels claim) CStorPoolClusterLabelKey.

Definition getPDBName (claim : CStorVolumeConfig) : string :=
  label (labels claim) PodDisruptionBudgetKey.

Definition sanitizePoolList (l : list CStorPoolInstance) : list CStorPoolInstance :=
  filter (λ pool, ¬ (cspi_Phase pool = CStorPoolStatusOffline ∨ cspi_ReadOnly pool = true)) l.

Definition getPoolMapFromCVRList (cvrList : list CStorVolumeReplica) : gset string :=
  foldl (λ poolMap cvr,
    let poolName := label (labels cvr) CStorPoolInstanceNameLabelKey in
    if negb (bool_decide (poolName = "")) then {[poolName]} ∪ poolMap else poolMap) ∅ cvrList.

(** The loops of addReplicaPoolInfo, first over the names, then over the
    specification. *)
Definition addReplicaPoolInfo (cvcObj : CStorVolumeConfig) (poolNames : list string)
  : CStorVolumeConfig :=
  let desired := foldl (λ infos poolName,
    if existsb (λ info, bool_decide (info = poolName)) infos then infos else infos ++ [poolName])
    (cvc_Policy_ReplicaPoolInfo cvcObj) poolNames in
  let current := foldl (λ pools info,
    if negb (ContainsString pools info) then pools ++ [info] else pools)
    (cvc_Status_PoolInfo cvcObj) desired in
  cvc_with_pools current (cvc_with_desired desired cvcObj).

Definition addPDBLabelOnCVC (cvcObj : CStorVolumeConfig) (pdbObj : PodDisruptionBudget)
  : CStorVolumeConfig :=
  cvc_with_labels (<[PodDisruptionBudgetKey := name pdbObj]> (labels cvcObj)) cvcObj.

Definition isCVCScalePending (cvc : CStorVolumeConfig) : bool :=
  IsChangeInLists (GetDesiredReplicaPoolNames cvc) (cvc_Status_PoolInfo cvc).

(** ** pdb.go *)

Definition GetPDBPoolLabels (poolNames : list string) : gmap string string :=
  foldl (λ pdbLabels poolName, <["openebs.io/" +:+ poolName := "true"]> pdbLabels) ∅ poolNames.

Definition GetPDBLabels (poolNames : list string) (cspcName : string) : gmap string string :=
  <[CStorPoolClusterLabelKey := cspcName]> (GetPDBPoolLabels poolNames).

Definition GetPDBLabelSelector (poolNames : list string) : outcome string :=
  let labelSelector :=
    foldl (λ acc '(key, value), acc +:+ key +:+ "=" +:+ value +:+ ",") ""
      (go_range "GetPDBLabelSelector" (GetPDBPoolLabels poolNames)) in
  slice_upto labelSelector (Z.of_nat (String.length labelSelector) - 1)%Z.

Definition getPDBSelector (pools : list string)
  : gmap string string * list LabelSelectorRequirement :=
  ({["app" := "cstor-pool"]},
   [{| lsr_Key := CStorPoolInstanceLabelKey; lsr_Operator := "In"; lsr_Values := pools |}]).

Definition pdb_for (poolNames : list string) (cspcName : string) : PodDisruptionBudget :=
  let sel := getPDBSelector poolNames in
  {| pdb_meta := meta_with_labels (GetPDBLabels poolNames cspcName) meta_empty;
     pdb_GenerateName := cspcName; pdb_MaxUnavailable := 1;
     pdb_MatchLabels := sel.1; pdb_MatchExpressions := sel.2 |}.
End volume_helpers.

(** ** Functions that read and write the cluster *)

Section volume_ops.
Context {W : Type} `{OpenebsApi} `{VolumeApi} `{BuildInfo} `{PodEnv} `{GoRuntime} `{!Env W}.
Context `{!ResourceClient W CStorVolumeConfig} `{!ResourceClient W CStorVolume}
  `{!ResourceClient W CStorVolumeReplica} `{!ResourceClient W CStorPoolInstance}
  `{!ResourceClient W Service} `{!ResourceClient W PodDisruptionBudget}.
Context (openebsNamespace : string).

Definition cvc_event (cvc : CStorVolumeConfig) (ty reason message : string) (args : list string)
  : event :=
  {| ev_object := name cvc; ev_type := ty; ev_reason := reason; ev_message := message;
     ev_args := args |}.

Definition listCStorPools (w : W) (cspcName : string) : result (list CStorPoolInstance) :=
  if bool_decide (cspcName = "") then
    Err (Errorf "failed to list cstorpool: cspc name missing" [])
  else
    match rList (Obj:=CStorPoolInstance) w openebsNamespace
            (CStorPoolClusterLabelKey +:+ "=" +:+ cspcName) with
    | Err err => Err (Wrapf err "failed to list cstorpool for cspc {%s}" [cspcName])
    | OK cstorPoolList => OK cstorPoolList
    end.

Definition getOrCreateTargetService (claim : CStorVolumeConfig) : M W (result Service) :=
  let* g := reads (λ w, rGet (Obj:=Service) w openebsNamespace (name claim)) in
  match g with
  | OK svcObj => mret (OK svcObj)
  | Err err =>
      if negb (IsNotFound err) then
        mret (Err (Wrapf err "failed to get cstorvolume service {%v}" [""]))
      else
        let svcObj := build_service
          {| sa_name := name claim; sa_labels := getTargetServiceLabels claim;
             sa_owners := getTargetServiceOwnerReference claim;
             sa_selectors := getTargetServiceSelectors claim; sa_ports := cvPorts |} in
        call (rCreate openebsNamespace svcObj)
  end.

(** The CStorVolume that is created for a claim. *)
Definition volume_for (service : Service) (claim : CStorVolumeConfig)
  (volLabels : gmap string string) : CStorVolume :=
  let rfactor := cvc_Provision_ReplicaCount claim in
  let desiredRF := cvc_Provision_ReplicaCount claim in
  let cfactor := (Z.quot rfactor 2 + 1)%Z in
  build_cv
    {| va_name := name claim; va_labels := volLabels; va_owners := getCVOwnerReference claim;
       va_targetIP := svc_ClusterIP service; va_capacity := Quantity_String (cvc_Capacity claim);
       va_iqn := name claim; va_portal := svc_ClusterIP service +:+ ":" +:+ TargetPort;
       va_port := TargetPort; va_replicationFactor := rfactor;
       va_desiredReplicationFactor := desiredRF; va_consistencyFactor := cfactor;
       va_version := GetVersion |}.

Definition getOrCreateCStorVolumeResource (service : Service) (claim : CStorVolumeConfig)
  : M W (result CStorVolume) :=
  let volLabels := getCVLabels claim in
  let* src :=
    if negb (bool_decide (cvc_CStorVolumeSource claim = "")) then
      lift (λ _, getSrcDetails (cvc_CStorVolumeSource claim))
    else mret (OK ("", "")) in
  match src with
  | Err err => mret (Err err)
  | OK (srcVolume, _) =>
      let volLabels :=
        if negb (bool_decide (cvc_CStorVolumeSource claim = ""))
        then <[SourceVolumeKey := srcVolume]> volLabels else volLabels in
      let* g := reads (λ w, rGet (Obj:=CStorVolume) w openebsNamespace (name claim)) in
      match g with
      | OK cvObj => mret (OK cvObj)
      | Err err =>
          if negb (IsNotFound err) then
            mret (Err (Wrapf err "failed to get cstorvolume {%v}" [""]))
          else call (rCreate openebsNamespace (volume_for service claim volLabels))
      end
  end.

(** ** Replicas *)

(** The CStorVolumeReplica that is created on a pool. *)
Definition replica_for (service : Service) (volume : CStorVolume) (claim : CStorVolumeConfig)
  (pool : CStorPoolInstance) (rInfo : replicaInfo) (lbls anns : gmap string string)
  : CStorVolumeReplica :=
  build_cvr
    {| ra_name := name volume +:+ "-" +:+ name pool; ra_labels := lbls; ra_annotations := anns;
       ra_owners := getCVROwnerReference volume; ra_finalizer := getCVRFinalizer;
       ra_targetIP := svc_ClusterIP service; ra_replicaID := replicaID rInfo;
       ra_capacity := Quantity_String (cvc_Provision_Capacity claim);
       ra_workers := ioWorkers rInfo; ra_version := GetVersion; ra_phase := phase rInfo |}.

Definition createCVR (service : Service) (volume : CStorVolume) (claim : CStorVolumeConfig)
  (pool : CStorPoolInstance) (rInfo : replicaInfo) : M W (result CStorVolumeReplica) :=
  let anns := getCVRAnnotations pool in
  let lbls := getCVRLabels pool (name volume) in
  let isClone := negb (bool_decide (cvc_CStorVolumeSource claim = "")) in
  let* src :=
    if isClone then lift (λ _, getSrcDetails (cvc_CStorVolumeSource claim))
    else mret (OK ("", "")) in
  match src with
  | Err err => mret (Err err)
  | OK (srcVolume, snapName) =>
      let anns := if isClone
        then <[SnapshotNameKey := snapName]> (<[SourceVolumeKey := srcVolume]> anns) else anns in
      let lbls := if isClone then <[CloneEnableKEY := "true"]> lbls else lbls in
      let anns :=
        if bool_decide (label (annotations claim) pvCreatedByKey = createdThroughRestore)
        then <[IsRestoreVol := "true"]> anns else anns in
      let* g := reads (λ w, rGet (Obj:=CStorVolumeReplica) w openebsNamespace
                              (name volume +:+ "-" +:+ name pool)) in
      match g with
      | OK cvrObj => mret (OK cvrObj)
      | Err err =>
          if negb (IsNotFound err) then
            mret (Err (Wrapf err "failed to get cstorvolumereplica {%v}" [""]))
          else
            let* c := call (rCreate openebsNamespace
                              (replica_for service volume claim pool rInfo lbls anns)) in
            match c with
            | Err err => mret (Err (Wrapf err "failed to create cstorvolumereplica {%v}" [""]))
            | OK cvrObj => mret (OK cvrObj)
            end
      end
  end.

(** A failed list gives the nil list. *)
Definition getUsablePoolList (w : W) (pvName : string) (poolList : list CStorPoolInstance)
  : option (list CStorPoolInstance) :=
  match rList (Obj:=CStorVolumeReplica) w openebsNamespace (pvSelector +:+ "=" +:+ pvName) with
  | Err _ => None
  | OK cvrList =>
      let usedPoolMap := getPoolMapFromCVRList cvrList in
      Some (filter (λ pool, name pool ∉ usedPoolMap) poolList)
  end.

Definition getUsablePoolListForClone (w : W) (pvName srcPVName : string)
  (poolList : list CStorPoolInstance) : option (list CStorPoolInstance) :=
  match rList (Obj:=CStorVolumeReplica) w openebsNamespace (pvSelector +:+ "=" +:+ pvName) with
  | Err _ => None
  | OK cvrList =>
      match rList (Obj:=CStorVolumeReplica) w openebsNamespace
              (pvSelector +:+ "=" +:+ srcPVName) with
      | Err _ => None
      | OK srcCVRList =>
          let srcVolPoolMap := getPoolMapFromCVRList srcCVRList in
          let usedPoolMap := getPoolMapFromCVRList cvrList in
          Some (filter (λ pool, name pool ∉ usedPoolMap ∧ name pool ∈ srcVolPoolMap) poolList)
      end
  end.

(** The loop over the usable pools. *)
Fixpoint create_replicas (pendingReplicaCount count : Z) (service : Service)
  (volume : CStorVolume) (claim : CStorVolumeConfig) (rInfo : replicaInfo)
  (pools : list CStorPoolInstance) : M W (result unit) :=
  match pools with
  | [] => mret (OK tt)
  | pool :: pools' =>
      if (count <? pendingReplicaCount)%Z then
        let* r := createCVR service volume claim pool rInfo in
        match r with
        | Err err => mret (Err err)
        | OK _ => create_replicas pendingReplicaCount (count + 1) service volume claim rInfo pools'
        end
      else mret (OK tt)
  end.

(** isReplicaAffinityEnabled of controller.go *)
Definition isReplicaAffinityEnabled (policy : CStorVolumePolicy) : bool :=
  pol_ReplicaAffinity (policy_Spec policy).

(** The part of distributeCVRs that follows the choice of the list of pools; a nil
    list panics in sanitizePoolList. *)
Definition distribute_over (pendingReplicaCount : Z) (claim : CStorVolumeConfig)
  (service : Service) (volume : CStorVolume) (policy : CStorVolumePolicy)
  (rInfo : replicaInfo) (cspcName : string) (usablePoolList : option (list CStorPoolInstance))
  : M W (result unit) :=
  match usablePoolList with
  | None => panic "invalid memory address or nil pointer dereference"
  | Some usablePoolList =>
      let usablePoolList := sanitizePoolList usablePoolList in
      let* usablePoolList := lift (λ w,
        randomizePoolList (rand_Perm (Now w) (length usablePoolList)) usablePoolList) in
      let* usablePoolList :=
        if isReplicaAffinityEnabled policy then
          let* _ := emit (cvc_event claim "Normal" Provisioning
                            "replica affinity is enabled, nodeID is %s" [cvc_Publish_NodeID claim]) in
          mret (prioritizedPoolList (cvc_Publish_NodeID claim) usablePoolList)
        else mret usablePoolList in
      if (Z.of_nat (length usablePoolList) <? pendingReplicaCount)%Z then
        mret (Err (Errorf "not enough pools are available of provided CSPC: %q, usable pool count: %d pending replica count: %d"
                     [cspcName]))
      else create_replicas pendingReplicaCount 0 service volume claim rInfo usablePoolList
  end.

Definition distributeCVRs (pendingReplicaCount : Z) (claim : CStorVolumeConfig)
  (service : Service) (volume : CStorVolume) (policy : CStorVolumePolicy) : M W (result unit) :=
  let rInfo := {| replicaID := ""; phase := CVRStatusEmpty;
                  ioWorkers := pol_Replica_IOWorkers (policy_Spec policy) |} in
  let cspcName := getCSPC claim in
  if bool_decide (cspcName = "") then
    mret (Err (Errorf "failed to get cspc name from cstorvolumeclaim" []))
  else
    let* l := reads (λ w, listCStorPools w cspcName) in
    match l with
    | Err err => mret (Err err)
    | OK poolList =>
        let infos := pol_ReplicaPoolInfo (policy_Spec policy) in
        if negb (bool_decide (infos = [])) &&
           negb (Z.of_nat (length infos) =? cvc_Provision_ReplicaCount claim)%Z
        then mret (Err (Errorf "failed to distribute cvrs: incorrect number of pool names in cvc policy: expected %d got %d" []))
        else
          let poolList := if bool_decide (infos = []) then poolList
                          else getPolicyBasedPoolList poolList infos in
          if negb (bool_decide (cvc_CStorVolumeSource claim = "")) then
            let* src := lift (λ _, getSrcDetails (cvc_CStorVolumeSource claim)) in
            match src with
            | Err err => mret (Err err)
            | OK (srcVolName, _) =>
                let* u := reads (λ w, getUsablePoolListForClone w (name volume) srcVolName poolList) in
                distribute_over pendingReplicaCount claim service volume policy rInfo cspcName u
            end
          else
            let* u := reads (λ w, getUsablePoolList w (name volume) poolList) in
            distribute_over pendingReplicaCount claim service volume policy rInfo cspcName u
    end.

Definition GetCVRList (w : W) (pvName ns : string) : result (list CStorVolumeReplica) :=
  rList w ns (PersistentVolumeLabelKey +:+ "=" +:+ pvName).

Definition GetVolumeReplicaPoolNames (w : W) (pvName ns : string) : result (list string) :=
  match GetCVRList w pvName ns with
  | Err err => Err (Wrapf err "failed to list cStorVolumeReplicas related to volume %s" [pvName])
  | OK cvrList => OK (GetPoolNames cvrList)
  end.

(** ** Disruption budgets *)

Definition createPDB (poolNames : list string) (cspcName : string)
  : M W (result PodDisruptionBudget) :=
  call (rCreate openebsNamespace (pdb_for poolNames cspcName)).

(** The loop over the budgets with the labels of the pools. *)
Fixpoint find_pdb (poolNames : list string) (pdbs : list PodDisruptionBudget)
  : outcome (option PodDisruptionBudget) :=
  match pdbs with
  | [] => Ret None
  | pdbObj :: pdbs' =>
      match pdb_MatchExpressions pdbObj with
      | [] => Panic "index out of range"
      | e :: _ =>
          if negb (IsChangeInLists (lsr_Values e) poolNames) then Ret (Some pdbObj)
          else find_pdb poolNames pdbs'
      end
  end.

Definition getOrCreatePodDisruptionBudget (cspcName : string) (poolNames : list string)
  : M W (result PodDisruptionBudget) :=
  let* pdblabelSelector := lift (λ _, GetPDBLabelSelector poolNames) in
  let* l := reads (λ w, rList (Obj:=PodDisruptionBudget) w openebsNamespace pdblabelSelector) in
  match l with
  | Err err => mret (Err (Wrapf err "failed to list PDB belongs to pools with selector %v"
                            [pdblabelSelector]))
  | OK pdbList =>
      let* f := lift (λ _, find_pdb poolNames pdbList) in
      match f with
      | Some pdbObj => mret (OK pdbObj)
      | None => createPDB poolNames cspcName
      end
  end.

(** deletePDBIfNotInUse of controller.go *)
Definition deletePDBIfNotInUse (cvc : CStorVolumeConfig) : M W (result unit) :=
  let pdbName := getPDBName cvc in
  let* l := reads (λ w, rList (Obj:=CStorVolumeConfig) w openebsNamespace
                          (PodDisruptionBudgetKey +:+ "=" +:+ pdbName)) in
  match l with
  | Err err => mret (Err (Wrapf err "failed to list volumes refering to PDB %s" [pdbName]))
  | OK cvcList =>
      if bool_decide (length cvcList = 1) then
        let* d := call (rDelete (Obj:=PodDisruptionBudget) openebsNamespace pdbName) in
        match d with
        | Err err => if IsNotFound err then mret (OK tt) else mret (Err err)
        | OK _ => mret (OK tt)
        end
      else mret (OK tt)
  end.

Definition getUpdatePDBForVolume (cvcObj : CStorVolumeConfig) : M W (result string) :=
  let* r :=
    match labels cvcObj !! PodDisruptionBudgetKey with
    | Some _ => deletePDBIfNotInUse cvcObj
    | None => mret (OK tt)
    end in
  match r with
  | Err err => mret (Err err)
  | OK _ =>
      if negb (isHAVolume cvcObj) then mret (OK "")
      else
        let* p := getOrCreatePodDisruptionBudget (getCSPC cvcObj) (cvc_Status_PoolInfo cvcObj) in
        match p with
        | Err err => mret (Err err)
        | OK pdbObj => mret (OK (name pdbObj))
        end
  end.

(** ** Scaling *)

(** The values that Go returns, and what the pointer of the caller shows. *)
Definition scaled : Type := (CStorVolumeConfig * option error) * CStorVolumeConfig.

(** [delete(cvc.Labels, key)], then an assignment, which panics on a nil map. *)
Definition relabel (pdbName : string) (cvc : CStorVolumeConfig) : outcome CStorVolumeConfig :=
  let l := delete PodDisruptionBudgetKey (labels cvc) in
  if bool_decide (pdbName = "") then Ret (cvc_with_labels l cvc)
  else if bool_decide (labels cvc = ∅) then Panic "assignment to entry in nil map"
  else Ret (cvc_with_labels (<[PodDisruptionBudgetKey := pdbName]> l) cvc).

Definition updatePDBForScaledVolume (cvc : CStorVolumeConfig) : M W scaled :=
  let cvcCopy := cvc in
  let* p := getUpdatePDBForVolume cvc in
  match p with
  | Err err =>
      mret ((cvcCopy, Some (Wrapf err "failed to handle PDB for scaled volume %s" [name cvc])), cvc)
  | OK pdbName =>
      let* cvc := lift (λ _, relabel pdbName cvc) in
      let* u := call (rUpdate openebsNamespace cvc) in
      match u with
      | Err err =>
          mret ((cvcCopy, Some (Wrapf err "failed to update %s CVC status with scaledup replica pool names"
                                  [name cvc])), cvc)
      | OK newCVCObj => mret ((newCVCObj, None), cvc)
      end
  end.

Definition updateCVCWithScaledUpInfo (cvc : CStorVolumeConfig) (cvObj : CStorVolume) : M W scaled :=
  let pvName := label (annotations cvc) volumeID in
  let desiredPoolNames := GetDesiredReplicaPoolNames cvc in
  let newPoolNames := ListDiff desiredPoolNames (cvc_Status_PoolInfo cvc) in
  let* r := reads (λ w, GetVolumeReplicaPoolNames w pvName openebsNamespace) in
  match r with
  | Err err =>
      mret ((cvc, Some (Wrapf err "failed to get current replica pool information" [])), cvc)
  | OK replicaPoolNames =>
      let replicaPoolMap := names replicaPoolNames in
      if existsb (λ poolName, negb (has replicaPoolMap poolName)) newPoolNames then
        mret ((cvc, Some (Errorf "scaling replicas from %d to %d in progress" [])), cvc)
      else
        let cvcCopy := cvc in
        let cvc := cvc_with_pools (cvc_Status_PoolInfo cvc ++ newPoolNames) cvc in
        let* (u, cvc) := updatePDBForScaledVolume cvc in
        match u with
        | (_, Some err) =>
            mret ((cvcCopy, Some (Wrapf err "failed to handle post volume replicas scale up process" [])),
                  cvc)
        | (newCVC, None) => mret ((newCVC, None), cvc)
        end
  end.

(** [removedPoolNames[0]] panics when no pool was removed. *)
Definition getScaleDownCVR (w : W) (cvc : CStorVolumeConfig) : outcome (result CStorVolumeReplica) :=
  let pvName := label (annotations cvc) volumeID in
  match ListDiff (cvc_Status_PoolInfo cvc) (GetDesiredReplicaPoolNames cvc) with
  | [] => Panic "index out of range"
  | removed :: _ => Ret (rGet w openebsNamespace (pvName +:+ "-" +:+ removed))
  end.

(** The body of the loop of handleVolumeReplicaCreation. *)
Definition create_on_pool (cvc : CStorVolumeConfig) (cvObj : CStorVolume) (svcObj : Service)
  (errs : list error) (poolName : string) : M W (list error) :=
  let pvName := label (annotations cvc) volumeID in
  let* g := reads (λ w, rGet (Obj:=CStorPoolInstance) w openebsNamespace poolName) in
  match g with
  | Err err =>
      mret (errs ++ [Wrapf err "failed to get cstorpoolinstance %s error: %v" [poolName]])
  | OK cspiObj =>
      match Hash (pvName +:+ "-" +:+ poolName) with
      | Err err =>
          mret (errs ++ [Wrapf err "failed to calculate of hash for new volume replica error: %v" []])
      | OK hashVal =>
          let rInfo := {| replicaID := hashVal; phase := CVRStatusRecreate;
                          ioWorkers := pol_Replica_IOWorkers (cvc_Policy cvc) |} in
          let* c := createCVR svcObj cvObj cvc cspiObj rInfo in
          match c with
          | Err err =>
              mret (errs ++ [Wrapf err "failed to create new replica on pool %s error: %v" [poolName]])
          | OK _ => mret errs
          end
      end
  end.

Definition handleVolumeReplicaCreation (cvc : CStorVolumeConfig) (cvObj : CStorVolume)
  : M W (result unit) :=
  let newPoolNames := ListDiff (GetDesiredReplicaPoolNames cvc) (cvc_Status_PoolInfo cvc) in
  let* s := reads (λ w, rGet (Obj:=Service) w openebsNamespace (name cvc)) in
  match s with
  | Err err => mret (Err (Wrapf err "failed to get service object %s" [name cvc]))
  | OK svcObj =>
      let* errs := foldM (create_on_pool cvc cvObj svcObj) [] newPoolNames in
      if bool_decide (0 < length errs) then mret (Err (Errorf "%+v" []))
      else mret (OK tt)
  end.

Definition updateCStorVolumeInfo (cvObj : CStorVolume) : M W (result CStorVolume) :=
  call (rUpdate openebsNamespace cvObj).

Definition scaleUpVolumeReplicas (cvc : CStorVolumeConfig) : M W scaled :=
  let drCount := Z.of_nat (length (cvc_Policy_ReplicaPoolInfo cvc)) in
  let* g := reads (λ w, rGet (Obj:=CStorVolume) w openebsNamespace (name cvc)) in
  match g with
  | Err err => mret ((cvc, Some (Wrapf err "failed to get cstorvolumes object %s" [name cvc])), cvc)
  | OK cvObj =>
      let* u :=
        if (cv_DesiredReplicationFactor cvObj <? drCount)%Z then
          updateCStorVolumeInfo (cv_with_desired drCount (cv_KnownReplicas cvObj) cvObj)
        else mret (OK cvObj) in
      match u with
      | Err err => mret ((cvc, Some err), cvc)
      | OK cvObj =>
          let* h := handleVolumeReplicaCreation cvc cvObj in
          match h with
          | Err err => mret ((cvc, Some err), cvc)
          | OK _ => updateCVCWithScaledUpInfo cvc cvObj
          end
      end
  end.

(** The last part of scaleDownVolumeReplicas: [cvrObj] is never nil, and has an empty
    name when the replica was not found. *)
Definition finish_scale_down (cvc : CStorVolumeConfig) (cvrObj : CStorVolumeReplica) : M W scaled :=
  let* d := call (rDelete (Obj:=CStorVolumeReplica) openebsNamespace (name cvrObj)) in
  match d with
  | Err err =>
      mret ((cvc, Some (Wrapf err "failed to delete cstorvolumereplica %s" [name cvrObj])), cvc)
  | OK _ =>
      let desiredPoolNames := GetDesiredReplicaPoolNames cvc in
      let cvcCopy := cvc in
      let cvc := cvc_with_pools desiredPoolNames cvc in
      let* (u, cvc) := updatePDBForScaledVolume cvc in
      match u with
      | (_, Some err) =>
          mret ((cvcCopy, Some (Wrapf err "failed to handle post volume replicas scale down process" [])),
                cvc)
      | (newCVC, None) => mret ((newCVC, None), cvc)
      end
  end.

Definition scaleDownVolumeReplicas (cvc : CStorVolumeConfig) : M W scaled :=
  let drCount := Z.of_nat (length (cvc_Policy_ReplicaPoolInfo cvc)) in
  let* g := reads (λ w, rGet (Obj:=CStorVolume) w openebsNamespace (name cvc)) in
  match g with
  | Err err => mret ((cvc, Some (Wrapf err "failed to get cstorvolumes object %s" [name cvc])), cvc)
  | OK cvObj =>
      let* s := lift (λ w, getScaleDownCVR w cvc) in
      let found := match s with
                   | OK cvrObj => OK cvrObj
                   | Err err => if IsNotFound err then OK cvr_zero else Err err
                   end in
      match found with
      | Err err =>
          mret ((cvc, Some (Wrapf err "failed to get CVR requested for scale down operation" [])), cvc)
      | OK cvrObj =>
          let* u :=
            if (drCount <? cv_DesiredReplicationFactor cvObj)%Z then
              updateCStorVolumeInfo
                (cv_with_desired drCount
                   (delete (cvr_ReplicaID cvrObj) (cv_KnownReplicas cvObj)) cvObj)
            else mret (OK cvObj) in
          match u with
          | Err err => mret ((cvc, Some err), cvc)
          | OK cvObj =>
              if negb (IsScaleDownInProgress cvObj) then finish_scale_down cvc cvrObj
              else mret ((cvc, Some (Errorf "Scaling down volume replicas from %d to %d is in progress" [])),
                         cvc)
          end
      end
  end.
End volume_ops.

(** ** Lists of pools *)

Lemma foldO_lookup {A} (l : list A) perm acc :
  Forall (λ i, i < length l) perm →
  foldO (λ res idx, match l !! idx with
                    | Some pool => Ret (res ++ [pool])
                    | None => Panic "index out of range"
                    end) acc perm = Ret (acc ++ omap (λ i, l !! i) perm).
Proof.
  revert acc. induction perm as [|i perm IH]; intros acc Hf; cbn.
  { by rewrite app_nil_r. }
  apply Forall_cons in Hf as [Hi Hf].
  destruct (l !! i) as [x|] eqn:Hl; [|by apply lookup_ge_None in Hl; lia].
  cbn. rewrite (IH _ Hf). f_equal. by rewrite <-app_assoc.
Qed.

Lemma omap_seq_lookup {A} (l : list A) : omap (λ i, l !! i) (seq 0 (length l)) = l.
Proof.
  assert (∀ (k : list A), omap (λ i, (k ++ l) !! i) (seq (length k) (length l)) = l) as Hk.
  { induction l as [|x l IH]; intros k; [done|]. cbn.
    rewrite lookup_app_r, Nat.sub_diag by done. cbn. f_equal.
    specialize (IH (k ++ [x])). rewrite length_app, Nat.add_1_r in IH.
    rewrite <-app_assoc in IH. exact IH. }
  exact (Hk []).
Qed.

Lemma randomize_permutation perm l :
  perm ≡ₚ seq 0 (length l) → ∃ l', randomizePoolList perm l = Ret l' ∧ l' ≡ₚ l.
Proof.
  intros Hp. unfold randomizePoolList. rewrite foldO_lookup.
  - eexists. split; [done|]. cbn. rewrite Hp. by rewrite omap_seq_lookup.
  - apply Forall_forall. intros i Hi. rewrite Hp in Hi. apply elem_of_seq in Hi. lia.
Qed.

Lemma prioritized_permutation n l : prioritizedPoolList n l ≡ₚ l.
Proof.
  unfold prioritizedPoolList. destruct (list_find _ l) as [[i pool]|] eqn:Hf; [|done].
  apply list_find_Some in Hf as (Hi & _ & _). destruct l as [|first l]; [done|].
  apply (Permutation_insert_swap (first :: l) i 0 pool first); done.
Qed.

(** The chosen pool comes first: with affinity, a usable pool on the node of the
    application gets the first replica. *)
Lemma prioritized_head n l :
  (∃ pool, pool ∈ l ∧ cspi_HostName (cspi_Spec pool) = n) →
  ∃ pool, head (prioritizedPoolList n l) = Some pool ∧ cspi_HostName (cspi_Spec pool) = n.
Proof.
  intros (pool & Hin & Hn). unfold prioritizedPoolList.
  destruct (list_find _ l) as [[i p]|] eqn:Hf.
  - apply list_find_Some in Hf as (Hi & Hp & _). exists p. split; [|done].
    destruct l as [|first l]; [done|]. by destruct i.
  - exfalso. apply list_find_None in Hf. rewrite Forall_forall in Hf. by eapply Hf.
Qed.

Lemma policy_based_subset l infos : getPolicyBasedPoolList l infos ⊆ l.
Proof.
  intros p Hp. unfold getPolicyBasedPoolList in Hp. apply list_elem_of_omap in Hp as (n & _ & Hf).
  by apply first_such_Some in Hf as [? _].
Qed.

Lemma policy_based_names l infos :
  ∃ infos', infos' `sublist_of` infos ∧ name <$> getPolicyBasedPoolList l infos = infos'.
Proof.
  eexists. split; [|done]. induction infos as [|n infos IH]; [done|]. cbn.
  destruct (first_such _ l) as [p|] eqn:Hf; cbn; [|by constructor].
  apply first_such_Some in Hf as [_ Hn]. apply bool_decide_eq_true in Hn. rewrite Hn.
  by constructor.
Qed.

(** ** Distribution of the replicas *)

Section distribution.
Context {W : Type} `{OpenebsApi} `{VolumeApiLaws} `{BuildInfo} `{PodEnv} `{GoRuntime} `{!Env W}.
Context `{!ResourceClient W CStorVolumeConfig} `{!ResourceClient W CStorVolume}
  `{!ResourceClient W CStorVolumeReplica} `{!ResourceClient W CStorPoolInstance}
  `{!ResourceClient W Service} `{!ResourceClient W PodDisruptionBudget}.
Context (openebsNamespace : string).
Implicit Types (w : W) (service : Service) (volume : CStorVolume) (claim : CStorVolumeConfig).

Lemma pool_map_spec cvrs x :
  x ∈ getPoolMapFromCVRList cvrs ↔
  x ≠ "" ∧ ∃ r, r ∈ cvrs ∧ label (labels r) CStorPoolInstanceNameLabelKey = x.
Proof.
  unfold getPoolMapFromCVRList. set (f := λ _ _, _).
  assert (∀ acc, x ∈ foldl f acc cvrs ↔ x ∈ acc ∨
    x ≠ "" ∧ ∃ r, r ∈ cvrs ∧ label (labels r) CStorPoolInstanceNameLabelKey = x) as Hf.
  { induction cvrs as [|r cvrs IH]; intros acc; cbn; [set_solver|].
    rewrite IH. subst f. cbn. case_bool_decide as He; cbn; set_solver. }
  rewrite Hf. set_solver.
Qed.

(** A replica of the volume of that name is listed on the pool of that name. *)
Definition holds_replica w (volume pool : string) : Prop :=
  pool ≠ "" ∧ ∃ cvrs r,
    rList (Obj:=CStorVolumeReplica) w openebsNamespace (pvSelector +:+ "=" +:+ volume) = OK cvrs ∧
    r ∈ cvrs ∧ label (labels r) CStorPoolInstanceNameLabelKey = pool.

(** A pool that may get a replica of a new volume. *)
Record eligible w claim volume (policy : CStorVolumePolicy) (pool : CStorPoolInstance) : Prop := {
  el_listed : ∃ l, listCStorPools openebsNamespace w (getCSPC claim) = OK l ∧ pool ∈ l;
  el_online : cspi_Phase pool ≠ CStorPoolStatusOffline ∧ cspi_ReadOnly pool = false;
  el_free : ¬ holds_replica w (name volume) (name pool);
  el_policy : pol_ReplicaPoolInfo (policy_Spec policy) ≠ [] →
    name pool ∈ pol_ReplicaPoolInfo (policy_Spec policy);
  el_clone : cvc_CStorVolumeSource claim ≠ "" → ∃ src snap,
    getSrcDetails (cvc_CStorVolumeSource claim) = Ret (OK (src, snap)) ∧
    holds_replica w src (name pool);
}.

(** The replica of a volume on a pool. *)
Definition replica_on volume (pool : CStorPoolInstance) (rInfo : replicaInfo)
  (cvr : CStorVolumeReplica) : Prop :=
  name cvr = name volume +:+ "-" +:+ name pool ∧
  labels cvr !! "cstorpoolinstance.openebs.io/name" = Some (name pool) ∧
  labels cvr !! pvSelector = Some (name volume) ∧
  cvr_ReplicaID cvr = replicaID rInfo ∧ cvr_Phase cvr = phase rInfo.

(** The replica on the pool exists, or it did not and is created. *)
Inductive placed volume (rInfo : replicaInfo) (pool : CStorPoolInstance) : W → W → Prop :=
| placed_before w cvr :
    rGet (Obj:=CStorVolumeReplica) w openebsNamespace (name volume +:+ "-" +:+ name pool) = OK cvr →
    placed volume rInfo pool w w
| placed_now w w' cvr cvr' err :
    rGet (Obj:=CStorVolumeReplica) w openebsNamespace (name volume +:+ "-" +:+ name pool) = Err err →
    IsNotFound err = true → replica_on volume pool rInfo cvr →
    rCreate openebsNamespace cvr w = (OK cvr', w') → placed volume rInfo pool w w'.

Inductive all_placed volume (rInfo : replicaInfo) : list CStorPoolInstance → W → W → Prop :=
| all_placed_nil w : all_placed volume rInfo [] w w
| all_placed_cons pool pools w w1 w' :
    placed volume rInfo pool w w1 → all_placed volume rInfo pools w1 w' →
    all_placed volume rInfo (pool :: pools) w w'.

Lemma replica_for_on service volume claim pool rInfo lbls anns :
  lbls = getCVRLabels pool (name volume) ∨
  lbls = <[CloneEnableKEY := "true"]> (getCVRLabels pool (name volume)) →
  replica_on volume pool rInfo (replica_for service volume claim pool rInfo lbls anns).
Proof.
  intros Hl. unfold replica_for, replica_on.
  rewrite build_cvr_name, build_cvr_labels. set (a := Build_cvr_args _ _ _ _ _ _ _ _ _ _ _).
  destruct (build_cvr_fields a) as [-> ->]. split; [done|].
  destruct CloneEnableKEY_fresh as [Hf1 Hf2].
  split_and!; [..|done|done]; cbn; destruct Hl as [->| ->];
    rewrite ?lookup_insert_ne by (unfold pvSelector; congruence); reflexivity.
Qed.

Lemma createCVR_OK service volume claim pool rInfo w cvr w' :
  createCVR openebsNamespace service volume claim pool rInfo w = (Ret (OK cvr), w') →
  placed volume rInfo pool w w'.
Proof.
  unfold createCVR. intros (src & w1 & Hs & Hr)%M_bind_Ret.
  assert (w1 = w) as ->.
  { case_bool_decide; cbn in Hs; [by apply mret_run in Hs as [_ ->]|].
    unfold lift in Hs. by injection Hs. }
  clear Hs. destruct src as [[srcVolume snapName]|e]; [|by apply mret_run in Hr as [[=] _]].
  unfold mbind at 1, M_bind at 1, reads in Hr.
  destruct (rGet w _ _) as [c|err] eqn:Hg.
  { apply mret_run in Hr as [_ ->]. by eapply placed_before. }
  destruct (IsNotFound err) eqn:Hn; cbn [negb] in Hr; [|by apply mret_run in Hr as [[=] _]].
  unfold mbind, M_bind, call in Hr.
  destruct (rCreate _ _ w) as [c w2] eqn:Hc.
  destruct c as [c'|e]; apply mret_run in Hr as [[=] ->].
  eapply placed_now; [exact Hg|done| |exact Hc]. apply replica_for_on.
  case_bool_decide; cbn; [by left|by right].
Qed.

Lemma create_replicas_OK pending count service volume claim rInfo pools w w' :
  create_replicas openebsNamespace pending count service volume claim rInfo pools w =
    (Ret (OK tt), w') →
  all_placed volume rInfo (take (Z.to_nat (pending - count)) pools) w w'.
Proof.
  revert count w. induction pools as [|pool pools IH]; intros count w; cbn [create_replicas].
  { intros [_ ->]%mret_run. rewrite take_nil. constructor. }
  destruct (Z.ltb_spec count pending) as [Hlt|Hge].
  - intros (r & w1 & Hc & Hr)%M_bind_Ret. destruct r as [cvr|e]; [|by apply mret_run in Hr as [[=] _]].
    apply createCVR_OK in Hc. apply IH in Hr.
    replace (Z.to_nat (pending - count)) with (S (Z.to_nat (pending - (count + 1)))) by lia.
    by econstructor.
  - intros [_ ->]%mret_run. replace (Z.to_nat (pending - count)) with 0 by lia. constructor.
Qed.

(** The list of usable pools, before the offline and read-only ones are dropped. *)
Definition usable_list w claim volume (poolList usable : list CStorPoolInstance) : Prop :=
  if bool_decide (cvc_CStorVolumeSource claim = "") then
    getUsablePoolList openebsNamespace w (name volume) poolList = Some usable
  else ∃ src snap, getSrcDetails (cvc_CStorVolumeSource claim) = Ret (OK (src, snap)) ∧
    getUsablePoolListForClone openebsNamespace w (name volume) src poolList = Some usable.

Lemma usable_list_spec w claim volume poolList usable :
  usable_list w claim volume poolList usable → usable `sublist_of` poolList ∧
  ∀ pool, pool ∈ usable → ¬ holds_replica w (name volume) (name pool) ∧
    (cvc_CStorVolumeSource claim ≠ "" → ∃ src snap,
      getSrcDetails (cvc_CStorVolumeSource claim) = Ret (OK (src, snap)) ∧
      holds_replica w src (name pool)).
Proof.
  unfold usable_list, getUsablePoolList, getUsablePoolListForClone, holds_replica.
  case_bool_decide as Hs.
  - destruct (rList w _ _) as [cvrs|e] eqn:Hl; [|done]. intros [= <-].
    split; [apply sublist_filter|]. intros pool [Hn Hin]%list_elem_of_filter.
    rewrite pool_map_spec in Hn. naive_solver.
  - intros (src & snap & Hsrc & Hu). destruct (rList w _ _) as [cvrs|e] eqn:Hl; [|done].
    destruct (rList w _ (_ +:+ _ +:+ src)) as [scvrs|e] eqn:Hl2; [|done]. injection Hu as <-.
    split; [apply sublist_filter|]. intros pool [[Hn Hm] Hin]%list_elem_of_filter.
    rewrite pool_map_spec in Hn, Hm. naive_solver.
Qed.

Lemma distribute_over_OK pending claim service volume policy rInfo cspc u w w' :
  distribute_over openebsNamespace pending claim service volume policy rInfo cspc u w =
    (Ret (OK tt), w') →
  ∃ usable chosen rest w0, u = Some usable ∧ chosen ++ rest ≡ₚ sanitizePoolList usable ∧
    length chosen = Z.to_nat pending ∧ (w0 = w ∨ ∃ e, w0 = Event e w) ∧
    all_placed volume rInfo chosen w0 w'.
Proof.
  unfold distribute_over. destruct u as [usable|]; [|done].
  intros (l1 & w1 & Hp & Hr)%M_bind_Ret. unfold lift in Hp. injection Hp as Hp <-.
  destruct (randomize_permutation (rand_Perm (Now w) (length (sanitizePoolList usable)))
    (sanitizePoolList usable)) as (l1' & Hl & Hperm); [apply rand_Perm_spec|].
  rewrite Hl in Hp. injection Hp as <-.
  apply M_bind_Ret in Hr as (l2 & w2 & Ha & Hr).
  assert (l2 ≡ₚ sanitizePoolList usable ∧ (w2 = w ∨ ∃ e, w2 = Event e w)) as [Hl2 Hw2].
  { destruct (isReplicaAffinityEnabled _).
    - apply M_bind_Ret in Ha as (? & w3 & He & [[= ->] ->]%mret_run).
      unfold emit in He. injection He as <-. split; [by rewrite prioritized_permutation|eauto].
    - apply mret_run in Ha as [[= ->] ->]. auto. }
  destruct (Z.ltb_spec (Z.of_nat (length l2)) pending) as [|Hge];
    [by apply mret_run in Hr as [[=] _]|].
  apply create_replicas_OK in Hr. rewrite Z.sub_0_r in Hr.
  exists usable, (take (Z.to_nat pending) l2), (drop (Z.to_nat pending) l2), w2.
  split_and!; try done; [by rewrite take_drop|]. rewrite length_take. lia.
Qed.

(** The pools that the distribution may choose from, before sanitizing. *)
Definition candidates w claim (policy : CStorVolumePolicy) (l : list CStorPoolInstance) : Prop :=
  ∃ l0, listCStorPools openebsNamespace w (getCSPC claim) = OK l0 ∧
    l = if bool_decide (pol_ReplicaPoolInfo (policy_Spec policy) = []) then l0
        else getPolicyBasedPoolList l0 (pol_ReplicaPoolInfo (policy_Spec policy)).

Lemma distributeCVRs_OK pending claim service volume policy w w' :
  distributeCVRs openebsNamespace pending claim service volume policy w = (Ret (OK tt), w') →
  ∃ l usable chosen rest w0 rInfo, candidates w claim policy l ∧
    usable_list w claim volume l usable ∧ chosen ++ rest ≡ₚ sanitizePoolList usable ∧
    length chosen = Z.to_nat pending ∧ (w0 = w ∨ ∃ e, w0 = Event e w) ∧
    phase rInfo = CVRStatusEmpty ∧ all_placed volume rInfo chosen w0 w'.
Proof.
  unfold distributeCVRs. case_bool_decide as Hc; [by intros [[=] _]%mret_run|].
  set (rInfo := Build_replicaInfo _ _ _).
  unfold mbind at 1, M_bind at 1, reads.
  destruct (listCStorPools _ w _) as [l0|e] eqn:Hl; [|by intros [[=] _]%mret_run].
  destruct (_ && _); [by intros [[=] _]%mret_run|]. set (l := if bool_decide _ then l0 else _).
  assert (candidates w claim policy l) as Hcand by (by exists l0).
  destruct (bool_decide_reflect (cvc_CStorVolumeSource claim = "")) as [Hs|Hs]; cbn [negb].
  - unfold mbind, M_bind, reads. intros Hd.
    apply distribute_over_OK in Hd as (usable & chosen & rest & w0 & Hu & ? & ? & ? & ?).
    exists l, usable, chosen, rest, w0, rInfo. split_and!; try done.
    unfold usable_list. by rewrite bool_decide_true.
  - intros (src & w1 & Hsrc & Hr)%M_bind_Ret. unfold lift in Hsrc. injection Hsrc as Hsrc <-.
    destruct src as [[src snap]|e]; [|by apply mret_run in Hr as [[=] _]].
    unfold mbind, M_bind, reads in Hr.
    apply distribute_over_OK in Hr as (usable & chosen & rest & w0 & Hu & ? & ? & ? & ?).
    exists l, usable, chosen, rest, w0, rInfo. split_and!; try done.
    unfold usable_list. rewrite bool_decide_false by done. eauto.
Qed.

Lemma candidates_spec w claim policy l :
  candidates w claim policy l → ∃ l0, listCStorPools openebsNamespace w (getCSPC claim) = OK l0 ∧
    l ⊆ l0 ∧ (NoDup (name <$> l0) → NoDup (pol_ReplicaPoolInfo (policy_Spec policy)) →
              NoDup (name <$> l)) ∧
    (pol_ReplicaPoolInfo (policy_Spec policy) ≠ [] → ∀ pool, pool ∈ l →
     name pool ∈ pol_ReplicaPoolInfo (policy_Spec policy)).
Proof.
  intros (l0 & Hl & ->). exists l0. split; [done|]. case_bool_decide as Hi; [done|].
  destruct (policy_based_names l0 (pol_ReplicaPoolInfo (policy_Spec policy))) as (ns & Hsub & Hns).
  split; [apply policy_based_subset|]. split.
  - intros _ Hnd. rewrite Hns. by eapply sublist_NoDup.
  - intros _ pool Hin. eapply elem_of_sublist; [|exact Hsub]. rewrite <-Hns.
    by apply list_elem_of_fmap_2.
Qed.

(** All chosen pools are eligible, and distinct when the listed ones are. *)
Lemma distribute_spec pending claim service volume policy w w' :
  distributeCVRs openebsNamespace pending claim service volume policy w = (Ret (OK tt), w') →
  ∃ chosen w0 rInfo, length chosen = Z.to_nat pending ∧
    Forall (eligible w claim volume policy) chosen ∧
    (∀ l0, listCStorPools openebsNamespace w (getCSPC claim) = OK l0 → NoDup (name <$> l0) →
     NoDup (pol_ReplicaPoolInfo (policy_Spec policy)) → NoDup (name <$> chosen)) ∧
    (w0 = w ∨ ∃ e, w0 = Event e w) ∧ phase rInfo = CVRStatusEmpty ∧
    all_placed volume rInfo chosen w0 w'.
Proof.
  intros (l & usable & chosen & rest & w0 & rInfo & Hc & Hu & Hp & Hlen & Hw & Hph & Hall)%distributeCVRs_OK.
  apply candidates_spec in Hc as (l0 & Hl0 & Hsub & Hnd & Hpol).
  apply usable_list_spec in Hu as [Hul Huse].
  exists chosen, w0, rInfo. split_and!; try done.
  - apply Forall_forall. intros pool Hin.
    assert (pool ∈ sanitizePoolList usable) as [Hs Hin']%list_elem_of_filter
      by (rewrite <-Hp; set_solver).
    destruct (Huse pool Hin') as [Hfree Hclone].
    assert (pool ∈ l) as Hpl by by eapply elem_of_sublist.
    split; [eauto|destruct (cspi_ReadOnly pool); naive_solver|done|naive_solver|done].
  - intros l1 Hl1 Hnl Hni. rewrite Hl0 in Hl1. injection Hl1 as <-.
    assert (NoDup (name <$> (chosen ++ rest))) as Hca.
    { rewrite Hp. eapply sublist_NoDup; [apply (Hnd Hnl Hni)|].
      apply fmap_sublist. etrans; [apply sublist_filter|done]. }
    rewrite fmap_app in Hca. by apply NoDup_app in Hca as [? _].
Qed.

(** ** The volume object *)

(** The volume that is created: its consistency factor is a majority of its replicas,
    so that any two sets of that many replicas share one. *)
Record quorum_volume claim (cv : CStorVolume) : Prop := {
  qv_name : name cv = name claim;
  qv_replicas : cv_ReplicationFactor cv = cvc_Provision_ReplicaCount claim;
  qv_desired : cv_DesiredReplicationFactor cv = cvc_Provision_ReplicaCount claim;
  qv_majority : (cv_ReplicationFactor cv < 2 * cv_ConsistencyFactor cv)%Z;
  qv_reachable : (1 ≤ cv_ReplicationFactor cv → cv_ConsistencyFactor cv ≤ cv_ReplicationFactor cv)%Z;
}.

Lemma volume_for_quorum service claim lbls : quorum_volume claim (volume_for service claim lbls).
Proof.
  unfold volume_for. set (a := Build_cv_args _ _ _ _ _ _ _ _ _ _ _ _).
  destruct (build_cv_factors a) as (Hr & Hd & Hc).
  split; rewrite ?build_cv_name, ?Hr, ?Hd, ?Hc; subst a;
    cbn [va_name va_replicationFactor va_desiredReplicationFactor va_consistencyFactor]; try done;
    generalize (cvc_Provision_ReplicaCount claim); intros n;
    pose proof (Z.quot_rem' n 2) as Hq; pose proof (Z.rem_bound_abs n 2 ltac:(done)) as Hb.
  - lia.
  - intros Hn. pose proof (Z.rem_nonneg n 2 ltac:(done) ltac:(lia)). lia.
Qed.

Lemma volume_resource_run service claim w r w' :
  getOrCreateCStorVolumeResource openebsNamespace service claim w = (Ret r, w') →
  (w' = w ∧ ∀ cv, r = OK cv → rGet w openebsNamespace (name claim) = OK cv) ∨
  (∃ err cv, rGet (Obj:=CStorVolume) w openebsNamespace (name claim) = Err err ∧
    IsNotFound err = true ∧ quorum_volume claim cv ∧ rCreate openebsNamespace cv w = (r, w')).
Proof.
  unfold getOrCreateCStorVolumeResource. intros (src & w1 & Hs & Hr)%M_bind_Ret.
  assert (w1 = w) as ->.
  { case_bool_decide; cbn in Hs; [by apply mret_run in Hs as [_ ->]|].
    unfold lift in Hs. by injection Hs. }
  destruct src as [[srcVolume snap]|e]; [|apply mret_run in Hr as [[= ->] ->]; by left].
  unfold mbind, M_bind, reads in Hr. destruct (rGet w _ _) as [cv|err] eqn:Hg.
  { apply mret_run in Hr as [[= ->] ->]. left. split; [done|]. by intros ? [= <-]. }
  destruct (IsNotFound err) eqn:Hn; cbn [negb] in Hr;
    [|apply mret_run in Hr as [[= ->] ->]; by left].
  right. unfold call in Hr. destruct (rCreate _ _ w) as [c w2] eqn:Hc. injection Hr as <- <-.
  exists err. eexists. split_and!; [done..|apply volume_for_quorum|exact Hc].
Qed.

(** ** Disruption budgets and the status of a scaled volume *)

(** A budget is deleted when one configuration refers to it, and created for the pools
    of a highly available volume. *)
Inductive pdb_step (cvc : CStorVolumeConfig) : W → W → Prop :=
| pdb_delete w l :
    rList (Obj:=CStorVolumeConfig) w openebsNamespace
      (PodDisruptionBudgetKey +:+ "=" +:+ getPDBName cvc) = OK l → length l = 1 →
    pdb_step cvc w (rDelete (Obj:=PodDisruptionBudget) openebsNamespace (getPDBName cvc) w).2
| pdb_create w pools :
    isHAVolume cvc = true →
    pdb_step cvc w (rCreate openebsNamespace (pdb_for pools (getCSPC cvc)) w).2.

Lemma deletePDB_steps cvc w r w' :
  deletePDBIfNotInUse openebsNamespace cvc w = (Ret r, w') → rtc (pdb_step cvc) w w'.
Proof.
  unfold deletePDBIfNotInUse. unfold mbind at 1, M_bind at 1, reads.
  destruct (rList w _ _) as [l|e] eqn:Hl; [|by intros [_ ->]%mret_run].
  case_bool_decide as Hone; [|by intros [_ ->]%mret_run].
  unfold mbind, M_bind, call. pose proof (pdb_delete cvc w l Hl Hone) as Hd.
  destruct (rDelete _ _ w) as [d w1]. intros Hr. apply rtc_once.
  destruct d as [|e]; [|destruct (IsNotFound e)]; by apply mret_run in Hr as [_ ->].
Qed.

Lemma createPDB_steps cvc pools w r w' :
  isHAVolume cvc = true →
  getOrCreatePodDisruptionBudget openebsNamespace (getCSPC cvc) pools w = (Ret r, w') →
  rtc (pdb_step cvc) w w'.
Proof.
  intros Hha. unfold getOrCreatePodDisruptionBudget.
  intros (sel & w1 & Hs & Hr)%M_bind_Ret. unfold lift in Hs. injection Hs as _ <-.
  unfold mbind at 1, M_bind at 1, reads in Hr.
  destruct (rList w _ _) as [l|e]; [|by apply mret_run in Hr as [_ ->]].
  apply M_bind_Ret in Hr as (f & w1 & Hf & Hr). unfold lift in Hf. injection Hf as _ <-.
  destruct f as [p|]; [by apply mret_run in Hr as [_ ->]|].
  unfold createPDB, call in Hr. pose proof (pdb_create cvc w pools Hha) as Hc.
  destruct (rCreate _ _ w) as [c w2]. injection Hr as <- <-. by apply rtc_once.
Qed.

Lemma getUpdatePDB_steps cvc w r w' :
  getUpdatePDBForVolume openebsNamespace cvc w = (Ret r, w') → rtc (pdb_step cvc) w w'.
Proof.
  unfold getUpdatePDBForVolume. intros (d & w1 & Hd & Hr)%M_bind_Ret.
  assert (rtc (pdb_step cvc) w w1) as Hdel.
  { destruct (labels cvc !! _); [by eapply deletePDB_steps|by apply mret_run in Hd as [_ ->]]. }
  destruct d as [u|e]; [|by apply mret_run in Hr as [_ ->]].
  destruct (isHAVolume cvc) eqn:Hha; cbn [negb] in Hr; [|by apply mret_run in Hr as [_ ->]].
  apply M_bind_Ret in Hr as (b & w2 & Hb & Hr). apply createPDB_steps in Hb; [|done].
  destruct b; apply mret_run in Hr as [_ ->]; by etrans.
Qed.

(** The configuration is written, with other labels, after the budgets were settled;
    without an error it was stored. *)
Definition config_written (cvc : CStorVolumeConfig) w (err : option error) w' : Prop :=
  ∃ w1, rtc (pdb_step cvc) w w1 ∧
    ((w' = w1 ∧ err ≠ None) ∨
     ∃ l u, rUpdate openebsNamespace (cvc_with_labels l cvc) w1 = (u, w') ∧
       (err = None → ∃ o, u = OK o)).

Lemma config_written_error cvc w e e' w' :
  config_written cvc w (Some e) w' → config_written cvc w (Some e') w'.
Proof.
  intros (w1 & Hs & [[-> _]|(l & u & Hu & _)]); exists w1; (split; [done|]).
  - by left.
  - right. exists l, u. by split.
Qed.

Lemma updatePDB_written cvc w c err p w' :
  updatePDBForScaledVolume openebsNamespace cvc w = (Ret ((c, err), p), w') →
  config_written cvc w err w'.
Proof.
  unfold updatePDBForScaledVolume. intros (b & w1 & Hb & Hr)%M_bind_Ret.
  apply getUpdatePDB_steps in Hb. exists w1. split; [done|].
  destruct b as [pdbName|e]; [|apply mret_run in Hr as [[= -> -> ->] ->]; by left]. right.
  apply M_bind_Ret in Hr as (cvc1 & w2 & Hl & Hr). unfold lift in Hl. injection Hl as Hl <-.
  assert (∃ l, cvc1 = cvc_with_labels l cvc) as [l ->].
  { unfold relabel in Hl. repeat case_bool_decide; simplify_eq; eauto. }
  unfold mbind, M_bind, call in Hr. destruct (rUpdate _ _ w1) as [u w2] eqn:Hu.
  exists l, u. destruct u as [o|e]; apply mret_run in Hr as [[= -> -> ->] ->];
    (split; [done|]); [by eauto|done].
Qed.

(** ** Scale down *)

(** The pools that hold a replica and are no longer desired. *)
Definition removed_pools_of (cvc : CStorVolumeConfig) : list string :=
  filter (λ x, x ∉ cvc_Policy_ReplicaPoolInfo cvc) (cvc_Status_PoolInfo cvc).

(** The replica that a scale down removes: the one on the first removed pool; the
    empty object stands for a replica that was not found. *)
Definition removed_replica (cvc : CStorVolumeConfig) w (cvr : CStorVolumeReplica) : Prop :=
  ∃ pool rest, removed_pools_of cvc = pool :: rest ∧
    (rGet w openebsNamespace (label (annotations cvc) volumeID +:+ "-" +:+ pool) = OK cvr ∨
     cvr = cvr_zero).

(** The stored volume asks for no more replicas than the configuration has pools:
    it did so before, or it is updated, without the removed replica. *)
Inductive shrunk (cvc : CStorVolumeConfig) (cvr : CStorVolumeReplica) : W → CStorVolume → W → Prop :=
| shrunk_before w cv :
    rGet w openebsNamespace (name cvc) = OK cv →
    (cv_DesiredReplicationFactor cv ≤ Z.of_nat (length (cvc_Policy_ReplicaPoolInfo cvc)))%Z →
    shrunk cvc cvr w cv w
| shrunk_now w cv0 cv w' :
    rGet w openebsNamespace (name cvc) = OK cv0 →
    rUpdate openebsNamespace
      (cv_with_desired (Z.of_nat (length (cvc_Policy_ReplicaPoolInfo cvc)))
         (delete (cvr_ReplicaID cvr) (cv_KnownReplicas cv0)) cv0) w = (OK cv, w') →
    shrunk cvc cvr w cv w'.

(** The order of a scale down: the volume is shrunk, the replica is deleted only when
    the volume reports that its scale down is over, and the configuration is written
    with the desired pools as its current ones only after that deletion succeeded. *)
Inductive scale_down_run (cvc : CStorVolumeConfig) : W → option error → W → Prop :=
| sd_refused w e : scale_down_run cvc w (Some e) w
| sd_not_shrunk w known (cv : CStorVolume) w' e e' :
    rGet w openebsNamespace (name cvc) = OK cv →
    rUpdate openebsNamespace
      (cv_with_desired (Z.of_nat (length (cvc_Policy_ReplicaPoolInfo cvc))) known cv) w =
      (Err e', w') → scale_down_run cvc w (Some e) w'
| sd_waiting w cvr cv w' e :
    shrunk cvc cvr w cv w' → IsScaleDownInProgress cv = true → scale_down_run cvc w (Some e) w'
| sd_not_deleted w cvr cv w1 w' e e' :
    shrunk cvc cvr w cv w1 → IsScaleDownInProgress cv = false → removed_replica cvc w cvr →
    rDelete (Obj:=CStorVolumeReplica) openebsNamespace (name cvr) w1 = (Err e', w') →
    scale_down_run cvc w (Some e) w'
| sd_done w cvr cv w1 w2 err w' :
    shrunk cvc cvr w cv w1 → IsScaleDownInProgress cv = false → removed_replica cvc w cvr →
    rDelete (Obj:=CStorVolumeReplica) openebsNamespace (name cvr) w1 = (OK tt, w2) →
    config_written (cvc_with_pools (cvc_Policy_ReplicaPoolInfo cvc) cvc) w2 err w' →
    scale_down_run cvc w err w'.

Lemma finish_scale_down_run cvc cvr cv w w1 c err p w' :
  shrunk cvc cvr w cv w1 → IsScaleDownInProgress cv = false → removed_replica cvc w cvr →
  finish_scale_down openebsNamespace cvc cvr w1 = (Ret ((c, err), p), w') →
  scale_down_run cvc w err w'.
Proof.
  intros Hs Hp Hrm. unfold finish_scale_down. unfold mbind at 1, M_bind at 1, call.
  destruct (rDelete _ _ w1) as [[[]|e] w2] eqn:Hd.
  - intros (((c1 & err1) & p1) & w3 & Hu & Hr)%M_bind_Ret. apply updatePDB_written in Hu.
    rewrite desired_pool_names in Hu. eapply sd_done; [done..|].
    destruct err1; apply mret_run in Hr as [[= -> -> ->] ->]; [|done].
    by eapply config_written_error.
  - intros [[= -> -> ->] ->]%mret_run. by eapply sd_not_deleted.
Qed.

Lemma scale_down_order cvc w c err p w' :
  scaleDownVolumeReplicas openebsNamespace cvc w = (Ret ((c, err), p), w') →
  scale_down_run cvc w err w'.
Proof.
  unfold scaleDownVolumeReplicas. unfold mbind at 1, M_bind at 1, reads.
  destruct (rGet w _ _) as [cv|e] eqn:Hcv; [|intros [[= -> -> ->] ->]%mret_run; constructor].
  intros (g & w1 & Hg & Hr)%M_bind_Ret. unfold lift, getScaleDownCVR in Hg.
  rewrite desired_pool_names, ListDiff_spec in Hg. injection Hg as Hg <-.
  fold (removed_pools_of cvc) in Hg. destruct (removed_pools_of cvc) as [|pool rest] eqn:Hpools; [done|].
  injection Hg as <-. set (found := match rGet w _ _ with OK c => OK c | Err _ => _ end) in Hr.
  destruct found as [cvr|e] eqn:Hf; [|apply mret_run in Hr as [[= -> -> ->] ->]; constructor].
  assert (removed_replica cvc w cvr) as Hrm.
  { exists pool, rest. split; [done|]. subst found. destruct (rGet w _ (_ +:+ _)) as [c0|e0];
      [injection Hf as <-; by left|]. destruct (IsNotFound e0); [|done]. injection Hf as <-. by right. }
  apply M_bind_Ret in Hr as (u & w1 & Hu & Hr).
  assert (∀ cv', u = OK cv' → shrunk cvc cvr w cv' w1) as Hshrunk.
  { intros cv' ->. destruct (Z.ltb_spec (Z.of_nat (length (cvc_Policy_ReplicaPoolInfo cvc)))
      (cv_DesiredReplicationFactor cv)).
    - unfold updateCStorVolumeInfo, call in Hu. destruct (rUpdate _ _ w) as [u' w2] eqn:Hup.
      injection Hu as -> ->. by eapply shrunk_now.
    - apply mret_run in Hu as [[= ->] ->]. by apply shrunk_before. }
  destruct u as [cv'|e].
  - specialize (Hshrunk cv' eq_refl). destruct (IsScaleDownInProgress cv') eqn:Hp; cbn [negb] in Hr.
    + apply mret_run in Hr as [[= -> -> ->] ->]. by eapply sd_waiting.
    + by eapply finish_scale_down_run.
  - apply mret_run in Hr as [[= -> -> ->] ->].
    destruct (_ <? _)%Z; [|by apply mret_run in Hu as [[=] _]].
    unfold updateCStorVolumeInfo, call in Hu. destruct (rUpdate _ _ w) as [u' w2] eqn:Hup.
    injection Hu as -> ->. by eapply sd_not_shrunk.
Qed.

(** When the replica is gone, the scale down asks for the deletion of a replica without a
    name, which the client refuses: it reports an error and never writes the
    configuration. *)
Lemma scale_down_stuck cvc pool rest e w c err p w' :
  (∀ w, ∃ e, rDelete (Obj:=CStorVolumeReplica) openebsNamespace "" w = (Err e, w)) →
  removed_pools_of cvc = pool :: rest →
  rGet (Obj:=CStorVolumeReplica) w openebsNamespace
    (label (annotations cvc) volumeID +:+ "-" +:+ pool) = Err e → IsNotFound e = true →
  scaleDownVolumeReplicas openebsNamespace cvc w = (Ret ((c, err), p), w') →
  err ≠ None ∧ p = cvc ∧
  (w' = w ∨ ∃ cv : CStorVolume, rGet w openebsNamespace (name cvc) = OK cv ∧
     w' = (rUpdate openebsNamespace
             (cv_with_desired (Z.of_nat (length (cvc_Policy_ReplicaPoolInfo cvc)))
                (delete "" (cv_KnownReplicas cv)) cv) w).2).
Proof.
  intros Hdel Hpools Hg Hn. unfold scaleDownVolumeReplicas. unfold mbind at 1, M_bind at 1, reads.
  destruct (rGet (Obj:=CStorVolume) w openebsNamespace (name cvc)) as [cv|e1] eqn:Hcv; [|intros [[= -> -> ->] ->]%mret_run; eauto].
  unfold mbind at 1, M_bind at 1, lift, getScaleDownCVR.
  rewrite desired_pool_names, ListDiff_spec. fold (removed_pools_of cvc). rewrite Hpools, Hg, Hn.
  intros (u & w1 & Hu & Hr)%M_bind_Ret.
  assert (w1 = w ∨ ∃ cv0 : CStorVolume, OK cv = OK cv0 ∧ w1 = (rUpdate openebsNamespace
    (cv_with_desired (Z.of_nat (length (cvc_Policy_ReplicaPoolInfo cvc)))
       (delete "" (cv_KnownReplicas cv0)) cv0) w).2) as Hw.
  { destruct (_ <? _)%Z; [|apply mret_run in Hu as [_ ->]; by left]. right. exists cv. split; [done|].
    unfold updateCStorVolumeInfo, call in Hu. cbn in Hu. destruct (rUpdate _ _ w) as [u' w2].
    by injection Hu as _ <-. }
  destruct u as [cv'|e']; [|apply mret_run in Hr as [[= -> -> ->] ->]; done].
  destruct (IsScaleDownInProgress cv'); cbn [negb] in Hr;
    [apply mret_run in Hr as [[= -> -> ->] ->]; done|].
  destruct (Hdel w1) as [e' He']. unfold finish_scale_down in Hr.
  unfold mbind at 1, M_bind at 1, call in Hr. cbn in Hr. rewrite He' in Hr.
  apply mret_run in Hr as [[= -> -> ->] ->]. done.
Qed.

(** ** Scale up *)

(** The desired pools that hold no replica yet. *)
Definition added_pools_of (cvc : CStorVolumeConfig) : list string :=
  filter (λ x, x ∉ cvc_Status_PoolInfo cvc) (cvc_Policy_ReplicaPoolInfo cvc).

(** The writes that prepare a scale up: the volume asks for more replicas, and a
    replica that is to be rebuilt is created on an added pool, with an identity that
    is the hash of the names of the volume and the pool. *)
Inductive scale_up_step (cvc : CStorVolumeConfig) : W → W → Prop :=
| su_factor w cv :
    rGet w openebsNamespace (name cvc) = OK cv →
    (cv_DesiredReplicationFactor cv < Z.of_nat (length (cvc_Policy_ReplicaPoolInfo cvc)))%Z →
    scale_up_step cvc w (rUpdate openebsNamespace
      (cv_with_desired (Z.of_nat (length (cvc_Policy_ReplicaPoolInfo cvc)))
         (cv_KnownReplicas cv) cv) w).2
| su_replica w cv poolName pool rInfo cvr :
    poolName ∈ added_pools_of cvc → rGet w openebsNamespace poolName = OK pool →
    Hash (label (annotations cvc) volumeID +:+ "-" +:+ poolName) = OK (replicaID rInfo) →
    phase rInfo = CVRStatusRecreate → replica_on cv pool rInfo cvr →
    scale_up_step cvc w (rCreate openebsNamespace cvr w).2.

(** The configuration is written with the added pools among its current ones only when
    a replica of the volume is listed on each of them. *)
Inductive scale_up_run (cvc : CStorVolumeConfig) : W → option error → W → Prop :=
| su_pending w e w' : rtc (scale_up_step cvc) w w' → scale_up_run cvc w (Some e) w'
| su_done w w1 cvrs err w' :
    rtc (scale_up_step cvc) w w1 →
    GetCVRList w1 (label (annotations cvc) volumeID) openebsNamespace = OK cvrs →
    (∀ p, p ∈ added_pools_of cvc → p ∈ GetPoolNames cvrs) →
    config_written (cvc_with_pools (cvc_Status_PoolInfo cvc ++ added_pools_of cvc) cvc) w1 err w' →
    scale_up_run cvc w err w'.

Lemma createCVR_run service volume claim pool rInfo w r w' :
  createCVR openebsNamespace service volume claim pool rInfo w = (Ret r, w') →
  w' = w ∨ ∃ cvr, replica_on volume pool rInfo cvr ∧ w' = (rCreate openebsNamespace cvr w).2.
Proof.
  unfold createCVR. intros (src & w1 & Hs & Hr)%M_bind_Ret.
  assert (w1 = w) as ->.
  { case_bool_decide; cbn in Hs; [by apply mret_run in Hs as [_ ->]|].
    unfold lift in Hs. by injection Hs. }
  destruct src as [[srcVolume snapName]|e]; [|apply mret_run in Hr as [_ ->]; by left].
  unfold mbind at 1, M_bind at 1, reads in Hr.
  destruct (rGet w _ _) as [c|err]; [apply mret_run in Hr as [_ ->]; by left|].
  destruct (IsNotFound err); cbn [negb] in Hr; [|apply mret_run in Hr as [_ ->]; by left].
  unfold mbind, M_bind, call in Hr. right. set (cvr := replica_for _ _ _ _ _ _ _) in Hr.
  exists cvr. split; [apply replica_for_on; case_bool_decide; cbn; auto|].
  destruct (rCreate _ cvr w) as [c w2]. destruct c; by apply mret_run in Hr as [_ ->].
Qed.

Lemma create_on_pool_steps cvc cv svc poolName errs w errs' w' :
  poolName ∈ added_pools_of cvc →
  create_on_pool openebsNamespace cvc cv svc errs poolName w = (Ret errs', w') →
  rtc (scale_up_step cvc) w w'.
Proof.
  intros Hin. unfold create_on_pool. unfold mbind at 1, M_bind at 1, reads.
  destruct (rGet w _ _) as [pool|e] eqn:Hg; [|by intros [_ ->]%mret_run].
  destruct (Hash _) as [h|e] eqn:Hh; [|by intros [_ ->]%mret_run].
  intros (c & w1 & Hc & Hr)%M_bind_Ret.
  assert (w' = w1) as -> by (destruct c; by apply mret_run in Hr as [_ ->]).
  apply createCVR_run in Hc as [->|(cvr & Hon & ->)]; [done|]. apply rtc_once.
  eapply su_replica; [exact Hin|exact Hg| | |exact Hon]; done.
Qed.

Lemma replica_creation_steps cvc cv w r w' :
  handleVolumeReplicaCreation openebsNamespace cvc cv w = (Ret r, w') →
  rtc (scale_up_step cvc) w w'.
Proof.
  unfold handleVolumeReplicaCreation. rewrite desired_pool_names, ListDiff_spec.
  fold (added_pools_of cvc). unfold mbind at 1, M_bind at 1, reads.
  destruct (rGet w _ _) as [svc|e]; [|by intros [_ ->]%mret_run].
  intros (errs & w1 & Hf & Hr)%M_bind_Ret.
  assert (w' = w1) as -> by (case_bool_decide; by apply mret_run in Hr as [_ ->]).
  apply (foldM_steps (λ x y, scale_up_step cvc x.1 y.1 ∨ x.1 = y.1)) in Hf.
  - change w with (w, @nil error).1. change w1 with (w1, errs).1.
    clear Hr. induction Hf as [|x y z [Hs|Hs] _ IH]; [done|by eapply rtc_l|by rewrite Hs].
  - intros p b w2 b' w3 Hin Hp. apply create_on_pool_steps in Hp; [|done].
    clear -Hp. revert b. induction Hp as [w|w w2 w3 Hs _ IH]; intros b.
    + apply rtc_once. by right.
    + eapply rtc_l; [|apply (IH b)]. by left.
Qed.

Lemma scaled_up_info_run cvc cv w w1 c err p w' :
  rtc (scale_up_step cvc) w w1 →
  updateCVCWithScaledUpInfo openebsNamespace cvc cv w1 = (Ret ((c, err), p), w') →
  scale_up_run cvc w err w'.
Proof.
  intros Hs. unfold updateCVCWithScaledUpInfo, GetVolumeReplicaPoolNames.
  rewrite desired_pool_names, ListDiff_spec. fold (added_pools_of cvc).
  unfold mbind at 1, M_bind at 1, reads.
  destruct (GetCVRList w1 _ _) as [cvrs|e] eqn:Hl;
    [|intros [[= -> -> ->] ->]%mret_run; by apply su_pending].
  destruct (existsb _ _) eqn:He; [intros [[= -> -> ->] ->]%mret_run; by apply su_pending|].
  intros (((c1 & err1) & p1) & w2 & Hu & Hr)%M_bind_Ret. apply updatePDB_written in Hu.
  eapply su_done; [done..| |].
  - intros q Hq. rewrite existsb_false in He. specialize (He q Hq).
    apply negb_false_iff, has_true, elem_of_names in He. done.
  - destruct err1; apply mret_run in Hr as [[= -> -> ->] ->]; [|done].
    by eapply config_written_error.
Qed.

Lemma scale_up_order cvc w c err p w' :
  scaleUpVolumeReplicas openebsNamespace cvc w = (Ret ((c, err), p), w') →
  scale_up_run cvc w err w'.
Proof.
  unfold scaleUpVolumeReplicas. unfold mbind at 1, M_bind at 1, reads.
  destruct (rGet w _ _) as [cv|e] eqn:Hcv;
    [|intros [[= -> -> ->] ->]%mret_run; by apply su_pending].
  intros (u & w1 & Hu & Hr)%M_bind_Ret.
  assert (rtc (scale_up_step cvc) w w1) as Hstep.
  { destruct (Z.ltb_spec (cv_DesiredReplicationFactor cv)
      (Z.of_nat (length (cvc_Policy_ReplicaPoolInfo cvc)))) as [Hlt|];
      [|by apply mret_run in Hu as [_ ->]].
    pose proof (su_factor cvc w cv Hcv Hlt) as Hf. unfold updateCStorVolumeInfo, call in Hu.
    destruct (rUpdate _ _ w) as [u' w2]. injection Hu as _ <-. by apply rtc_once. }
  destruct u as [cv'|e]; [|apply mret_run in Hr as [[= -> -> ->] ->]; by apply su_pending].
  apply M_bind_Ret in Hr as (h & w2 & Hh & Hr). apply replica_creation_steps in Hh.
  assert (rtc (scale_up_step cvc) w w2) by by etrans.
  destruct h as [x|e]; [by eapply scaled_up_info_run|].
  apply mret_run in Hr as [[= -> -> ->] ->]. by apply su_pending.
Qed.

(** ** Runs of the distribution that may fail *)

(** One write of a distribution: a replica of the volume, or an event. *)
Inductive replica_step volume : W → W → Prop :=
| rep_create w pool rInfo cvr :
    replica_on volume pool rInfo cvr → replica_step volume w (rCreate openebsNamespace cvr w).2
| rep_event w e : replica_step volume w (Event e w).

Lemma create_replicas_steps pending count service volume claim rInfo pools w r w' :
  create_replicas openebsNamespace pending count service volume claim rInfo pools w = (Ret r, w') →
  rtc (replica_step volume) w w'.
Proof.
  revert count w. induction pools as [|pool pools IH]; intros count w; cbn [create_replicas];
    [by intros [_ ->]%mret_run|].
  destruct (_ <? _)%Z; [|by intros [_ ->]%mret_run].
  intros (c & w1 & Hc & Hr)%M_bind_Ret.
  assert (rtc (replica_step volume) w w1) as H1w.
  { apply createCVR_run in Hc as [->|(cvr & ? & ->)]; [done|]. apply rtc_once. by econstructor. }
  etrans; [exact H1w|]. destruct c; [by eapply IH|by apply mret_run in Hr as [_ ->]].
Qed.

Lemma distribute_over_steps pending claim service volume policy rInfo cspc u w r w' :
  distribute_over openebsNamespace pending claim service volume policy rInfo cspc u w = (Ret r, w') →
  rtc (replica_step volume) w w'.
Proof.
  unfold distribute_over. destruct u as [usable|]; [|done].
  intros (l1 & w1 & Hp & Hr)%M_bind_Ret. unfold lift in Hp. injection Hp as _ <-.
  apply M_bind_Ret in Hr as (l2 & w2 & Ha & Hr).
  assert (rtc (replica_step volume) w w2) as H2w.
  { destruct (isReplicaAffinityEnabled _); [|by apply mret_run in Ha as [_ ->]].
    apply M_bind_Ret in Ha as (? & w3 & He & [_ ->]%mret_run).
    unfold emit in He. injection He as _ <-. apply rtc_once. constructor. }
  etrans; [exact H2w|]. destruct (_ <? _)%Z; [by apply mret_run in Hr as [_ ->]|].
  by eapply create_replicas_steps.
Qed.

Lemma distributeCVRs_steps pending claim service volume policy w r w' :
  distributeCVRs openebsNamespace pending claim service volume policy w = (Ret r, w') →
  rtc (replica_step volume) w w'.
Proof.
  unfold distributeCVRs. case_bool_decide; [by intros [_ ->]%mret_run|].
  unfold mbind at 1, M_bind at 1, reads.
  destruct (listCStorPools _ w _) as [l0|e]; [|by intros [_ ->]%mret_run].
  destruct (_ && _); [by intros [_ ->]%mret_run|].
  destruct (negb _).
  - intros (src & w1 & Hsrc & Hr)%M_bind_Ret. unfold lift in Hsrc. injection Hsrc as _ <-.
    destruct src as [[src snap]|e]; [|by apply mret_run in Hr as [_ ->]].
    by eapply distribute_over_steps.
  - intros Hd. by eapply distribute_over_steps.
Qed.

(** ** The pools of a bound volume *)

Lemma add_missing_spec (mem : list string → string → bool) (acc l : list string) :
  (∀ l x, mem l x = true ↔ x ∈ l) →
  let l' := foldl (λ acc x, if mem acc x then acc else acc ++ [x]) acc l in
  (∀ x, x ∈ l' ↔ x ∈ acc ∨ x ∈ l) ∧ (NoDup acc → NoDup l').
Proof.
  intros Hmem. revert acc. induction l as [|y l IH]; intros acc; cbn; [set_solver|].
  destruct (mem acc y) eqn:Hy.
  - apply Hmem in Hy. destruct (IH acc) as [Hin Hnd]. split; [|done]. intros x. rewrite Hin. set_solver.
  - rewrite <-not_true_iff_false, Hmem in Hy. destruct (IH (acc ++ [y])) as [Hin Hnd].
    split; [intros x; rewrite Hin; set_solver|]. intros Ha. apply Hnd. apply NoDup_app.
    split_and!; [done|set_solver|apply NoDup_singleton].
Qed.

Lemma addReplicaPoolInfo_spec `{!OpenebsApiLaws} cvc poolNames :
  let cvc' := addReplicaPoolInfo cvc poolNames in
  (∀ x, x ∈ cvc_Policy_ReplicaPoolInfo cvc' ↔ x ∈ cvc_Policy_ReplicaPoolInfo cvc ∨ x ∈ poolNames) ∧
  (∀ x, x ∈ cvc_Status_PoolInfo cvc' ↔
     x ∈ cvc_Status_PoolInfo cvc ∨ x ∈ cvc_Policy_ReplicaPoolInfo cvc') ∧
  (NoDup (cvc_Policy_ReplicaPoolInfo cvc) → NoDup (cvc_Policy_ReplicaPoolInfo cvc')) ∧
  (NoDup (cvc_Status_PoolInfo cvc) → NoDup (cvc_Status_PoolInfo cvc')).
Proof.
  cbn. unfold addReplicaPoolInfo. set (desired := foldl _ (cvc_Policy_ReplicaPoolInfo cvc) _).
  set (current := foldl _ (cvc_Status_PoolInfo cvc) _).
  destruct (add_missing_spec (λ l x, existsb (λ y, bool_decide (y = x)) l)
    (cvc_Policy_ReplicaPoolInfo cvc) poolNames) as [Hd Hnd].
  { intros l x. rewrite existsb_true. setoid_rewrite bool_decide_eq_true. naive_solver. }
  destruct (add_missing_spec ContainsString (cvc_Status_PoolInfo cvc) desired) as [Hc Hnc];
    [apply ContainsString_spec|].
  assert (current = foldl (λ acc x, if ContainsString acc x then acc else acc ++ [x])
    (cvc_Status_PoolInfo cvc) desired) as Heq.
  { subst current. apply foldl_ext_in. intros b a _. by destruct (ContainsString b a). }
  rewrite <-Heq in Hc, Hnc. split_and!; done.
Qed.
End distribution.
