(* ===== verification/VolumeSync.v ===== *)
(** * VolumeSync: one reconciliation of a CStorVolumeConfig
      (pkg/controllers/cstorvolumeconfig/controller.go)

    The controller settles the version of a volume configuration, removes its finalizer
    when it is deleted, provisions a pending volume, resizes and scales a bound one and
    propagates its policy to the deployment of the target. *)

From stdpp Require Import base gmap strings list sets pretty.
From Stdlib Require Import Ascii ZArith Lia.
From S2P Require Import Prelude Api VolumeApi Version Webhook PoolOps TargetDeploy VolumeOps.

Definition SuccessSynced : string := "Synced".
Definition MessageResourceCreated : string := "cstorvolumeconfig created successfully".
Definition CStorVolumeConfigFinalizer : string := "cvc.openebs.io/finalizer".
Definition DeProvisioning : string := "DeProvisioning".
Definition MergePatchType : string := "application/merge-patch+json".
Definition JSONPatchType : string := "application/json-patch+json".

Definition cvc_current_version (cvc : CStorVolumeConfig) : string :=
  Current (vd_Status (cvc_VersionDetails cvc)).
Definition cvc_desired_version (cvc : CStorVolumeConfig) : string :=
  Desired (cvc_VersionDetails cvc).

(** ** Conditions *)

Section conditions.
Context `{VolumeApi} `{GoRuntime}.

Definition knownResizeConditions : gset string :=
  {[CStorVolumeConfigResizing; CStorVolumeConfigResizePending]}.

(** The loop over the old conditions: the conditions collected so far and the types
    marked as processed. *)
Definition merge_step (resizeConditionMap : gmap string CStorVolumeConfigCondition)
  (acc : list CStorVolumeConfigCondition * gset string) (condition : CStorVolumeConfigCondition)
  : list CStorVolumeConfigCondition * gset string :=
  let '(newConditions, processed) := acc in
  if negb (has knownResizeConditions (cvcc_Type condition)) then
    (newConditions ++ [condition], processed)
  else
    match resizeConditionMap !! cvcc_Type condition with
    | Some newCondition => (newConditions ++ [newCondition], {[cvcc_Type condition]} ∪ processed)
    | None => (newConditions, processed)
    end.

Definition MergeResizeConditionsOfCVC (oldConditions resizeConditions : list CStorVolumeConfigCondition)
  : list CStorVolumeConfigCondition :=
  let resizeConditionMap : gmap string CStorVolumeConfigCondition :=
    foldl (λ m condition, <[cvcc_Type condition := condition]> m) ∅ resizeConditions in
  let '(newConditions, processed) := foldl (merge_step resizeConditionMap) ([], ∅) oldConditions in
  foldl (λ l '(ty, newCondition), if has processed ty then l else l ++ [newCondition])
    newConditions (go_range "MergeResizeConditionsOfCVC" resizeConditionMap).
End conditions.

Section volume_sync.
Context {W : Type} `{OpenebsApi} `{VolumeApi} `{BuildInfo} `{PodEnv} `{GoRuntime} `{!Env W}.
Context `{!ResourceClient W CStorVolumeConfig} `{!ResourceClient W CStorVolume}
  `{!ResourceClient W CStorVolumeReplica} `{!ResourceClient W CStorPoolInstance}
  `{!ResourceClient W Service} `{!ResourceClient W PodDisruptionBudget}
  `{!ResourceClient W Deployment} `{!ResourceClient W CStorVolumePolicy}
  `{!PatchClient W CStorVolumeConfig} `{!PatchClient W CStorVolume}.
Context (openebsNamespace : string).

(** ** Patches *)

Definition getPatchData (marshal_old marshal_new : result string) : result string :=
  match marshal_old with
  | Err err => Err (Wrapf err "marshal old object failed: %v" [])
  | OK oldData =>
      match marshal_new with
      | Err err => Err (Wrapf err "mashal new object failed: %v" [])
      | OK newData =>
          match CreateMergePatch oldData newData with
          | Err err => Err (Wrapf err "CreateTwoWayMergePatch failed: %v" [])
          | OK patchBytes => OK patchBytes
          end
      end
  end.

Definition PatchCVCStatus (oldCVC newCVC : CStorVolumeConfig) : M W (result CStorVolumeConfig) :=
  match getPatchData (json_Marshal_cvc oldCVC) (json_Marshal_cvc newCVC) with
  | Err err => mret (Err (Wrapf err "can't patch status of CVC %s as generate path data failed: %v"
                            [name oldCVC]))
  | OK patchBytes =>
      let* p := call (rPatchObject (Obj:=CStorVolumeConfig) (namespace oldCVC) (name oldCVC)
                        MergePatchType patchBytes) in
      match p with
      | Err updateErr => mret (Err (Wrapf updateErr "can't patch status of CVC %s with %v" [name oldCVC]))
      | OK updatedClaim => mret (OK updatedClaim)
      end
  end.

(** ** Resize *)

Definition cvcNeedResize (cvc : CStorVolumeConfig) : bool :=
  (cvc_Status_Capacity cvc <? cvc_Capacity cvc)%Z.

Definition resizeCV (cv : CStorVolume) (newCapacity : Z) : M W (result unit) :=
  let newCV := cv_with_capacity newCapacity cv in
  match getPatchData (json_Marshal_cv cv) (json_Marshal_cv newCV) with
  | Err err => mret (Err (Wrapf err "can't update capacity of CV %s as generate patch data failed: %v"
                            [name cv]))
  | OK patchBytes =>
      let* p := call (rPatchObject (Obj:=CStorVolume) openebsNamespace (name cv)
                        MergePatchType patchBytes) in
      match p with
      | Err updateErr => mret (Err updateErr)
      | OK _ => mret (OK tt)
      end
  end.

Definition cvc_with_conditions (conds : list CStorVolumeConfigCondition) (cvc : CStorVolumeConfig)
  : CStorVolumeConfig :=
  cvc_with_status (cvc_Status_Phase cvc) (cvc_Status_PoolInfo cvc) (cvc_Status_Capacity cvc) conds cvc.

Definition markCVCResizeInProgress (cvc : CStorVolumeConfig) : M W (result CStorVolumeConfig) :=
  let* now := reads (λ w, Now w) in
  let progressCondition :=
    {| cvcc_Type := CStorVolumeConfigResizing; cvcc_LastTransitionTime := now |} in
  let newCVC := cvc_with_conditions
    (MergeResizeConditionsOfCVC (cvc_Status_Conditions cvc) [progressCondition]) cvc in
  PatchCVCStatus cvc newCVC.

(** The configuration after a resize: its capacity is the one of the specification. *)
Definition resize_finished (cvc : CStorVolumeConfig) : CStorVolumeConfig :=
  cvc_with_status (cvc_Status_Phase cvc) (cvc_Status_PoolInfo cvc) (cvc_Capacity cvc)
    (MergeResizeConditionsOfCVC (cvc_Status_Conditions cvc) []) cvc.

Definition markCVCResizeFinished (cvc : CStorVolumeConfig) : M W (result unit) :=
  let* p := PatchCVCStatus cvc (resize_finished cvc) in
  match p with
  | Err err => mret (Err err)
  | OK _ =>
      let* _ := emit (cvc_event cvc "Normal" CStorVolumeConfigResizeSuccess
                        "Resize volume succeeded" []) in
      mret (OK tt)
  end.

Definition resizeCVC (cvc : CStorVolumeConfig) : M W (result unit) :=
  let* g := reads (λ w, rGet (Obj:=CStorVolume) w (namespace cvc) (name cvc)) in
  match g with
  | Err err => mret (Err err)
  | OK cv =>
      let desiredCVCSize := cvc_Capacity cvc in
      if (cv_Status_Capacity cv <? cv_Capacity cv)%Z then
        let* _ := emit (cvc_event cvc "Normal" CStorVolumeConfigResizing
                          "Resize already in progress %s" [name cvc]) in
        mret (OK tt)
      else if (desiredCVCSize =? cv_Status_Capacity cv)%Z then markCVCResizeFinished cvc
      else
        let* u := markCVCResizeInProgress cvc in
        match u with
        | Err err => mret (Err err)
        | OK cvc =>
            let* _ := emit (cvc_event cvc "Normal" CStorVolumeConfigResizing
                              "CVCController is resizing volume %s" [name cvc]) in
            let* r := resizeCV cv desiredCVCSize in
            match r with
            | Err err =>
                let* _ := emit (cvc_event cvc "Warning" CStorVolumeConfigResizeFailed "%v" []) in
                mret (Err err)
            | OK _ => mret (OK tt)
            end
        end
  end.

(** ** Provisioning *)

Definition getCurrentReplicaCount (w : W) (cvc : CStorVolumeConfig) : result Z :=
  match rList (Obj:=CStorVolumeReplica) w (namespace cvc) (pvSelector +:+ "=" +:+ name cvc) with
  | Err err => Err (Wrapf err "unable to get current replica count: %v" [])
  | OK cvrList => OK (Z.of_nat (length cvrList))
  end.

Definition BaseLabels (cvc : CStorVolumeConfig) : gmap string string := {[pvSelector := name cvc]}.

(** IsCVRPending; the lister is the client and the selector that of a set of labels. *)
Definition IsCVRPending (w : W) (cvc : CStorVolumeConfig) : result bool :=
  match rList (Obj:=CStorVolumeReplica) w (namespace cvc) (labels_Set_String (BaseLabels cvc)) with
  | Err err => Err (Wrapf err "failed to list cvr : %v" [])
  | OK CVRs => OK (negb (cvc_Provision_ReplicaCount cvc =? Z.of_nat (length CVRs))%Z)
  end.

Definition getPendingCVRCount (w : W) (cvc : CStorVolumeConfig) : result Z :=
  match getCurrentReplicaCount w cvc with
  | Err err => Err err
  | OK currentReplicaCount => OK (cvc_Provision_ReplicaCount cvc - currentReplicaCount)%Z
  end.

Definition distributePendingCVRs (cvc : CStorVolumeConfig) (cv : CStorVolume) (service : Service)
  (policy : CStorVolumePolicy) : M W (result unit) :=
  let* p := reads (λ w, getPendingCVRCount w cvc) in
  match p with
  | Err err => mret (Err err)
  | OK pendingReplicaCount =>
      distributeCVRs openebsNamespace pendingReplicaCount cvc service cv policy
  end.

Definition getVolumePolicy (w : W) (policyName : string) (cvc : CStorVolumeConfig)
  : result CStorVolumePolicy :=
  if negb (bool_decide (policyName = "")) then
    match rGet (Obj:=CStorVolumePolicy) w openebsNamespace policyName with
    | Err err => Err (Wrapf err "failed to get volume policy %q of volume %q" [policyName; name cvc])
    | OK volumePolicy =>
        OK {| policy_meta := policy_meta volumePolicy;
              policy_Spec := validatePolicySpec (policy_Spec volumePolicy) |}
    end
  else OK {| policy_meta := meta_empty; policy_Spec := getDefaultPolicySpec |}.

Definition addPolicySpecHash (cvc : CStorVolumeConfig) : CStorVolumeConfig :=
  cvc_WithLabels (SetTemplateHashLabel (labels cvc) (cvc_Policy cvc)) cvc.

Definition updateCVCObj (cvc : CStorVolumeConfig) (cv : CStorVolume) : M W (result unit) :=
  if negb (bool_decide (name cvc = name cv)) then
    mret (Err (Errorf "could not bind cstorvolumeconfig %s and cstorvolume %s, name does not match"
                 [name cvc; name cv]))
  else
    let* u := call (rUpdate (namespace cvc) cvc) in
    match u with
    | Err err => mret (Err err)
    | OK _ =>
        let* _ := emit (cvc_event cvc "Normal" SuccessSynced MessageResourceCreated []) in
        mret (OK tt)
    end.

(** The configuration that createVolumeOperation writes: bound to the volume. *)
Definition bound_config (cvc : CStorVolumeConfig) (volumeRef : string)
  (volumePolicy : CStorVolumePolicy) (poolNames : list string) : CStorVolumeConfig :=
  let cvc := cvc_with_spec (Some volumeRef) (policy_Spec volumePolicy) cvc in
  let cvc := cvc_with_status CStorVolumeConfigPhaseBound (cvc_Status_PoolInfo cvc)
    (cvc_Capacity cvc) (cvc_Status_Conditions cvc) cvc in
  addPolicySpecHash (addReplicaPoolInfo cvc poolNames).

(** The part of createVolumeOperation that follows the creation of the replicas. *)
Definition bind_volume (cvc : CStorVolumeConfig) (cvObj : CStorVolume)
  (volumePolicy : CStorVolumePolicy) : M W (result CStorVolumeConfig) :=
  let* p := reads (λ w, GetVolumeReplicaPoolNames w (name cvc) openebsNamespace) in
  match p with
  | Err err => mret (Err (Wrapf err "failed to get volume replica pool names of volume %s" [name cvObj]))
  | OK poolNames =>
      let* h :=
        if isHAVolume cvc then
          let* b := getOrCreatePodDisruptionBudget openebsNamespace (getCSPC cvc) poolNames in
          match b with
          | Err err => mret (Err (Wrapf err "failed to create PDB for volume: %s" [name cvc]))
          | OK pdbObj => mret (OK (addPDBLabelOnCVC cvc pdbObj))
          end
        else mret (OK cvc) in
      match h with
      | Err err => mret (Err err)
      | OK cvc =>
          match GetReference cvObj with
          | Err err => mret (Err err)
          | OK volumeRef =>
              let cvc := bound_config cvc volumeRef volumePolicy poolNames in
              let* u := updateCVCObj cvc cvObj in
              match u with
              | Err err => mret (Err err)
              | OK _ => mret (OK cvc)
              end
          end
      end
  end.

Definition createVolumeOperation (cvc : CStorVolumeConfig) : M W (result CStorVolumeConfig) :=
  let policyName := label (annotations cvc) VolumePolicyKey in
  let* v := reads (λ w, getVolumePolicy w policyName cvc) in
  match v with
  | Err err => mret (Err err)
  | OK volumePolicy =>
      let* s := getOrCreateTargetService openebsNamespace cvc in
      match s with
      | Err err => mret (Err err)
      | OK svcObj =>
          let* c := getOrCreateCStorVolumeResource openebsNamespace svcObj cvc in
          match c with
          | Err err => mret (Err err)
          | OK cvObj =>
              let* d := getOrCreateCStorTargetDeployment openebsNamespace cvObj
                          (policy_Spec volumePolicy) in
              match d with
              | Err err => mret (Err err)
              | OK _ =>
                  let* r := distributePendingCVRs cvc cvObj svcObj volumePolicy in
                  match r with
                  | Err err => mret (Err err)
                  | OK _ => bind_volume cvc cvObj volumePolicy
                  end
              end
          end
      end
  end.

(** ** Policies of the target *)

Definition patchTargetDeploymentSpec (cvc : CStorVolumeConfig) : M W (result unit) :=
  let* g := reads (λ w, rGet (Obj:=Deployment) w (namespace cvc) (name cvc +:+ "-target")) in
  match g with
  | Err err => mret (Err (Wrapf err "failed to get target deployment for volume %s in namespace %s"
                            [name cvc; namespace cvc]))
  | OK orignalDeployObj =>
      let* v := reads (λ w, rGet (Obj:=CStorVolume) w (namespace cvc) (name cvc)) in
      match v with
      | Err err => mret (Err (Wrapf err "failed to get cstorvolume {%v}" [name cvc]))
      | OK vol =>
          match BuildTargetDeployment vol (cvc_Policy cvc) with
          | Err err => mret (Err (Wrapf err "failed to build target deployment {%v}" [name vol]))
          | OK newDeployObj =>
              match json_Marshal orignalDeployObj with
              | Err err => mret (Err (Wrapf err "failed to marshal original deployment %s"
                                        [name orignalDeployObj]))
              | OK oldData =>
                  match json_Marshal newDeployObj with
                  | Err err => mret (Err (Wrapf err "failed to marshal updated deployment %s"
                                            [name newDeployObj]))
                  | OK newData =>
                      match CreateTwoWayMergePatch oldData newData with
                      | Err err => mret (Err (Wrapf err "failed to create strategic merge patch data" []))
                      | OK patchBytes =>
                          let* p := call (rPatch (namespace cvc) (name orignalDeployObj) patchBytes) in
                          match p with
                          | Err err => mret (Err (Wrapf err "failed to patch volume target deployment" []))
                          | OK _ => mret (OK tt)
                          end
                      end
                  end
              end
          end
      end
  end.

Definition syncPolicySpec (cvc : CStorVolumeConfig) : M W (result unit) :=
  let cvcCopy := cvc in
  if bool_decide (label (labels cvcCopy) TemplateHashLabelName = HashObject (cvc_Policy cvcCopy))
  then mret (OK tt)
  else
    let* p := patchTargetDeploymentSpec cvcCopy in
    match p with
    | Err err =>
        let* _ := emit (cvc_event cvcCopy "Warning" "PolicySync"
                          "failed to patch target deployment for cvc %s, err %s " [name cvcCopy]) in
        mret (Err err)
    | OK _ =>
        let cvcCopy := addPolicySpecHash cvcCopy in
        let* u := call (rUpdate (namespace cvc) cvcCopy) in
        match u with
        | Err err =>
            let* _ := emit (cvc_event cvcCopy "Warning" "PolicySync"
                              "failed to update hash label in cvc %q, err %s" [name cvcCopy]) in
            mret (Err err)
        | OK _ =>
            let* _ := emit (cvc_event cvcCopy "Normal" "PolicySync"
                              "successfully sync policy for cvc %s" [name cvcCopy]) in
            mret (OK tt)
        end
    end.

(** ** Deletion *)

Definition isClaimDeletionCandidate (cvc : CStorVolumeConfig) : bool :=
  match om_deletion (meta cvc) with
  | None => false
  | Some _ => ContainsString (finalizers cvc) CStorVolumeConfigFinalizer
  end.

Definition removeClaimFinalizer (cvc : CStorVolumeConfig) : M W (result unit) :=
  let* d := if isHAVolume cvc then deletePDBIfNotInUse openebsNamespace cvc else mret (OK tt) in
  match d with
  | Err err =>
      mret (Err (Wrapf err "failed to verify whether PDB %s is in use by other volumes"
                   [getPDBName cvc]))
  | OK _ =>
      let cvcPatch := [{| Op := "remove"; Path := "/metadata/finalizers"; Value := "" |}] in
      match json_Marshal_patch cvcPatch with
      | Err err =>
          mret (Err (Wrapf err "failed to remove finalizers from cstorvolumeconfig {%s}" [name cvc]))
      | OK cvcPatchBytes =>
          let* p := call (rPatchObject (Obj:=CStorVolumeConfig) (namespace cvc) (name cvc)
                            JSONPatchType cvcPatchBytes) in
          match p with
          | Err err =>
              mret (Err (Wrapf err "failed to remove finalizers from cstorvolumeconfig {%s}" [name cvc]))
          | OK _ => mret (OK tt)
          end
      end
  end.

(** ** Scaling *)

(** The value is what the pointer of the caller shows; the error is dropped there. *)
Definition scaleVolumeReplicas (cvc : CStorVolumeConfig) : M W CStorVolumeConfig :=
  let desired := length (cvc_Policy_ReplicaPoolInfo cvc) in
  let current := length (cvc_Status_PoolInfo cvc) in
  if bool_decide (desired = current) then
    let* _ := emit (cvc_event cvc "Warning" "Migration"
                      "Migration of volume replicas is not yet supported" []) in
    mret cvc
  else
    let* (r, pointed) :=
      if bool_decide (current < desired) then scaleUpVolumeReplicas openebsNamespace cvc
      else scaleDownVolumeReplicas openebsNamespace cvc in
    match r with
    | (cvc, Some err) =>
        let* _ := emit (cvc_event cvc "Warning" "ScalingVolumeReplicas" "%v" []) in
        mret pointed
    | (cvc, None) =>
        let* _ := emit (cvc_event cvc "Normal" "ScalingVolumeReplicas"
                          "successfully scaled volume replicas to %d"
                          [pretty (N.of_nat (length (cvc_Status_PoolInfo cvc)))]) in
        mret pointed
    end.

(** ** Versions *)

Definition cvc_ShouldReconcile (cvc : CStorVolumeConfig) : verdict :=
  let cvcOperatorVersion := current_version in
  let cvcVersion := cvc_current_version cvc in
  if bool_decide (cvcVersion = "") then Valid
  else if negb (bool_decide (cvcVersion = cvcOperatorVersion)) then
    Invalid (Errorf "cvc operator version is %s but cvc version is %s"
               [cvcOperatorVersion; cvcVersion])
  else Valid.

Definition cvc_populateVersion (cvc : CStorVolumeConfig) : M W (result CStorVolumeConfig) :=
  if bool_decide (cvc_current_version cvc = "") then
    let version := current_version in
    let cvc := cvc_with_version (version_populated version (cvc_VersionDetails cvc)) cvc in
    let* u := call (rUpdate (namespace cvc) cvc) in
    match u with
    | Err err => mret (Err (Wrapf err "failed to update cvc %s while adding versiondetails" [name cvc]))
    | OK obj => mret (OK obj)
    end
  else mret (OK cvc).

(** No release needs an upgrade function yet. *)
Definition cvc_upgradeMap
  : gmap string (CStorVolumeConfig → M W (CStorVolumeConfig * option error)) := ∅.

(** The second part of reconcileVersion: the upgrade and the success status. *)
Definition cvc_finish_upgrade (cvcObj : CStorVolumeConfig)
  : M W (CStorVolumeConfig * option error) :=
  let path := before_dash (cvc_current_version cvcObj) in
  let* (cvcObj, err) :=
    match cvc_upgradeMap !! path with
    | Some funcValue => funcValue cvcObj
    | None => mret (cvcObj, None)
    end in
  match err with
  | Some err => mret (cvcObj, Some err)
  | None =>
      let cvc := cvcObj in
      let cvcObj := cvc_with_version (SetSuccessStatus (cvc_VersionDetails cvcObj)) cvcObj in
      let* u := call (rUpdate (namespace cvcObj) cvcObj) in
      match u with
      | Err err => mret (cvc, Some (Wrapf err "failed to update cvc" []))
      | OK cvcObj => mret (cvcObj, None)
      end
  end.

Definition cvc_reconcileVersion (cvc : CStorVolumeConfig)
  : M W (CStorVolumeConfig * option error) :=
  if bool_decide (cvc_current_version cvc = cvc_desired_version cvc) then mret (cvc, None)
  else
    let* valid := lift (λ _, IsCurrentVersionValid (cvc_current_version cvc)) in
    if negb valid then
      mret (cvc, Some (Errorf "invalid current version %s" [cvc_current_version cvc]))
    else if negb (IsDesiredVersionValid (cvc_desired_version cvc)) then
      mret (cvc, Some (Errorf "invalid desired version %s" [cvc_desired_version cvc]))
    else if negb (bool_decide (State (vd_Status (cvc_VersionDetails cvc)) = ReconcileInProgress))
    then
      let v := cvc_VersionDetails cvc in
      let cvcObj := cvc_with_version (version_with_status (SetInProgressStatus (vd_Status v)) v) cvc in
      let* u := call (rUpdate (namespace cvcObj) cvcObj) in
      match u with
      | Err err => mret (cvc, Some err)
      | OK cvcObj => cvc_finish_upgrade cvcObj
      end
    else cvc_finish_upgrade cvc.

(** ** The reconciliation *)

(** The steps of syncCVC for a configuration of the version of the operator. *)
Definition sync_volume (cvc : CStorVolumeConfig) : M W (result unit) :=
  if bool_decide (name cvc = "") then mret (OK tt)
  else
    let* p :=
      if bool_decide (cvc_Status_Phase cvc = CStorVolumeConfigPhasePending) then
        let* c := createVolumeOperation cvc in
        match c with
        | Err err =>
            let* _ := emit (cvc_event cvc "Warning" Provisioning "%v" []) in
            mret (Err err)
        | OK cvc => mret (OK cvc)
        end
      else mret (OK cvc) in
    match p with
    | Err err => mret (Err err)
    | OK cvc =>
        let* r := if cvcNeedResize cvc then resizeCVC cvc else mret (OK tt) in
        match r with
        | Err err => mret (Err err)
        | OK _ =>
            let* cvc := if isCVCScalePending cvc then scaleVolumeReplicas cvc else mret cvc in
            syncPolicySpec cvc
        end
    end.

Definition syncCVC (cvc : CStorVolumeConfig) : M W (result unit) :=
  let* p := cvc_populateVersion cvc in
  match p with
  | Err _ => mret (OK tt)
  | OK updatedCVC =>
      let* (cvc, err) := cvc_reconcileVersion updatedCVC in
      match err with
      | Some err =>
          let* _ := emit (cvc_event cvc "Warning" "FailedUpgrade"
                            "Failed to upgrade cvc to %s version: %s" [cvc_desired_version cvc]) in
          let v := cvc_VersionDetails cvc in
          let cvc := cvc_with_version
            (version_with_status
               (SetErrorStatus "Failed to reconcile cvc version" err (vd_Status v)) v) cvc in
          let* _ := call (rUpdate (namespace cvc) cvc) in
          mret (OK tt)
      | None =>
          if isClaimDeletionCandidate cvc then
            let* r := removeClaimFinalizer cvc in
            match r with
            | Err _ =>
                let* _ := emit (cvc_event cvc "Warning" DeProvisioning "%v" []) in mret (OK tt)
            | OK _ => mret (OK tt)
            end
          else
            match cvc_ShouldReconcile cvc with
            | Invalid _ =>
                let* _ := emit (cvc_event cvc "Warning" "CVC Reconcile"
                                  "can not reconcile CVC %s as %s" [name cvc]) in
                mret (OK tt)
            | Valid => sync_volume cvc
            end
      end
  end.

(** syncHandler, from the parts of the key; the lister is the client. *)
Definition cvc_syncHandler (key : result (string * string)) : M W (result unit) :=
  match key with
  | Err _ => mret (OK tt)
  | OK (ns, n) =>
      let* g := reads (λ w, rGet (Obj:=CStorVolumeConfig) w ns n) in
      match g with
      | Err err => if IsNotFound err then mret (OK tt) else mret (Err err)
      | OK cvc => syncCVC cvc
      end
  end.
End volume_sync.

(** ** The conditions after a merge *)

Section conditions_facts.
Context `{VolumeApi} `{GoRuntime}.
Implicit Types (old rs : list CStorVolumeConfigCondition).

(** The conditions of a resize by their type; of two with one type the last counts. *)
Definition by_type rs : gmap string CStorVolumeConfigCondition :=
  foldl (λ m condition, <[cvcc_Type condition := condition]> m) ∅ rs.

(** Whether a condition is about a resize. *)
Definition resize_condition (c : CStorVolumeConfigCondition) : Prop :=
  cvcc_Type c ∈ knownResizeConditions.
#[export] Instance resize_condition_dec c : Decision (resize_condition c).
Proof. unfold resize_condition. apply _. Defined.

Lemma by_type_lookup rs t c : by_type rs !! t = Some c → cvcc_Type c = t ∧ c ∈ rs.
Proof.
  unfold by_type. set (f := λ m _, _).
  assert (∀ m, foldl f m rs !! t = Some c → m !! t = Some c ∨ (cvcc_Type c = t ∧ c ∈ rs)) as Hf.
  { induction rs as [|r rs IH]; intros m; cbn; [by left|]. intros [Hm|?]%IH; [|set_solver].
    subst f. cbn in Hm. apply lookup_insert_Some in Hm as [[<- <-]|[_ ?]]; [|by left].
    right. set_solver. }
  intros Hl. apply Hf in Hl as [Hl|?]; [by rewrite lookup_empty in Hl|done].
Qed.

(** What the loop over the old conditions collects. *)
Lemma merge_steps m old acc p :
  (∀ t c, m !! t = Some c → cvcc_Type c = t) →
  let '(l, q) := foldl (merge_step m) (acc, p) old in
  filter (λ c, ¬ resize_condition c) l =
    filter (λ c, ¬ resize_condition c) acc ++ filter (λ c, ¬ resize_condition c) old ∧
  (∀ c, c ∈ l → c ∈ acc ∨ c ∈ old ∧ ¬ resize_condition c ∨ m !! cvcc_Type c = Some c) ∧
  (∀ t, t ∈ q ↔ t ∈ p ∨ t ∈ knownResizeConditions ∧ is_Some (m !! t) ∧ t ∈ (cvcc_Type <$> old)) ∧
  (∀ t c, t ∈ q → t ∉ p → m !! t = Some c → c ∈ l) ∧ acc ⊆ l.
Proof.
  intros Hm. revert acc p. induction old as [|c old IH]; intros acc p; cbn [foldl].
  { rewrite app_nil_r. set_solver. }
  destruct (merge_step m (acc, p) c) as [acc1 p1] eqn:Hs. specialize (IH acc1 p1).
  destruct (foldl (merge_step m) (acc1, p1) old) as [l q].
  destruct IH as (Hf & Hin & Hq & Hres & Hsub). unfold merge_step in Hs.
  destruct (has knownResizeConditions (cvcc_Type c)) eqn:Hk; cbn [negb] in Hs.
  - apply has_true in Hk. destruct (m !! cvcc_Type c) as [c'|] eqn:Hmc; injection Hs as <- <-.
    + pose proof (Hm _ _ Hmc) as Hty.
      rewrite filter_app, filter_cons_False, app_nil_r in Hf
        by (unfold resize_condition; rewrite Hty; tauto).
      rewrite (filter_cons_False _ c) by (unfold resize_condition; tauto).
      split_and!; [done| | | |set_solver].
      * intros d Hd. destruct (Hin d Hd) as [Ha|[?|?]]; [|set_solver..].
        apply elem_of_app in Ha as [?| ->%list_elem_of_singleton]; [set_solver|].
        right. right. by rewrite Hty.
      * intros t. rewrite Hq. rewrite fmap_cons. set_solver.
      * intros t d Ht Hp Hd. destruct (decide (t = cvcc_Type c)) as [->|Hne]; [|set_solver].
        rewrite Hmc in Hd. injection Hd as <-. set_solver.
    + rewrite (filter_cons_False _ c) by (unfold resize_condition; tauto).
      split_and!; [done|set_solver| |set_solver|done].
      intros t. rewrite Hq. rewrite fmap_cons.
      destruct (decide (t = cvcc_Type c)) as [->|Hne]; [|set_solver]. rewrite Hmc.
      rewrite is_Some_alt. set_solver.
  - apply has_false in Hk. injection Hs as <- <-.
    rewrite filter_app, (filter_cons_True _ c) in Hf by done. cbn in Hf.
    rewrite (filter_cons_True _ c) by done. rewrite <-app_assoc in Hf.
    split_and!; [done|set_solver| |set_solver|set_solver].
    intros t. rewrite Hq. rewrite fmap_cons. set_solver.
Qed.

Lemma unprocessed_appended q acc (es : list (string * CStorVolumeConfigCondition)) :
  foldl (λ l '(ty, c), if has q ty then l else l ++ [c]) acc es =
  acc ++ (filter (λ e, e.1 ∉ q) es).*2.
Proof.
  revert acc. induction es as [|[ty c] es IH]; intros acc; cbn [foldl]; [by rewrite app_nil_r|].
  rewrite IH. destruct (has q ty) eqn:Hq.
  - apply has_true in Hq. by rewrite filter_cons_False by (cbn; tauto).
  - apply has_false in Hq. rewrite filter_cons_True by done. cbn. by rewrite <-app_assoc.
Qed.

(** The merge keeps the other conditions in their order, and its conditions about a
    resize are exactly the given ones. *)
Lemma merge_conditions old rs :
  Forall resize_condition rs →
  let l := MergeResizeConditionsOfCVC old rs in
  filter (λ c, ¬ resize_condition c) l = filter (λ c, ¬ resize_condition c) old ∧
  ∀ c, resize_condition c → c ∈ l ↔ by_type rs !! cvcc_Type c = Some c.
Proof.
  intros Hrs. cbn. unfold MergeResizeConditionsOfCVC. fold (by_type rs).
  pose proof (merge_steps (by_type rs) old [] ∅) as Hm.
  destruct (foldl (merge_step (by_type rs)) ([], ∅) old) as [l q].
  destruct Hm as (Hf & Hin & Hq & Hres & _); [by intros t c [? _]%by_type_lookup|].
  rewrite unprocessed_appended. set (es := filter _ (go_range _ _)).
  assert (∀ t c, (t, c) ∈ es ↔ by_type rs !! t = Some c ∧ t ∉ q) as Hes.
  { intros t c. subst es. rewrite list_elem_of_filter, go_range_lookup. cbn. tauto. }
  split.
  - rewrite filter_app, Hf. cbn. rewrite (filter_none _ es.*2); [by rewrite app_nil_r|].
    intros c ([t c0] & -> & [Hl _]%Hes)%list_elem_of_fmap. apply by_type_lookup in Hl as [_ Hc].
    rewrite Forall_forall in Hrs. naive_solver.
  - intros c Hc. rewrite elem_of_app. split.
    + intros [Hl|([t c0] & -> & [Hl _]%Hes)%list_elem_of_fmap]; [set_solver|].
      apply by_type_lookup in Hl as Hty. cbn. by destruct Hty as [-> _].
    + intros Hl. destruct (decide (cvcc_Type c ∈ q)) as [Hin'|Hn].
      * left. apply (Hres (cvcc_Type c)); [done|set_solver|done].
      * right. apply list_elem_of_fmap. exists (cvcc_Type c, c). split; [done|]. by apply Hes.
Qed.
End conditions_facts.

(** ** Resize, provisioning and policies *)

Section volume_sync_facts.
Context {W : Type} `{OpenebsApi} `{VolumeApiLaws} `{BuildInfo} `{PodEnv} `{GoRuntime} `{!Env W}.
Context `{!ResourceClient W CStorVolumeConfig} `{!ResourceClient W CStorVolume}
  `{!ResourceClient W CStorVolumeReplica} `{!ResourceClient W CStorPoolInstance}
  `{!ResourceClient W Service} `{!ResourceClient W PodDisruptionBudget}
  `{!ResourceClient W Deployment} `{!ResourceClient W CStorVolumePolicy}
  `{!PatchClient W CStorVolumeConfig} `{!PatchClient W CStorVolume}.
Context (openebsNamespace : string).
Implicit Types (w : W) (cvc : CStorVolumeConfig) (cv : CStorVolume).

(** A merge patch from one configuration, or one volume, to another. *)
Definition cvc_patched cvc cvc' w (r : result CStorVolumeConfig) w' : Prop :=
  ∃ bytes, getPatchData (json_Marshal_cvc cvc) (json_Marshal_cvc cvc') = OK bytes ∧
    rPatchObject (namespace cvc) (name cvc) MergePatchType bytes w = (r, w').
Definition cv_patched cv cv' w (r : result CStorVolume) w' : Prop :=
  ∃ bytes, getPatchData (json_Marshal_cv cv) (json_Marshal_cv cv') = OK bytes ∧
    rPatchObject openebsNamespace (name cv) MergePatchType bytes w = (r, w').

(** The writes of a resize, with the volume as it was read.  The capacity of the
    configuration is reported only when the volume has it; the volume is given a new
    capacity only when no resize of it is in progress, and it is always the one of the
    configuration. *)
Inductive resize_step cvc cv : W → W → Prop :=
| rz_event w e : resize_step cvc cv w (Event e w)
| rz_finish w r w' :
    (cv_Capacity cv ≤ cv_Status_Capacity cv)%Z → cv_Status_Capacity cv = cvc_Capacity cvc →
    cvc_patched cvc (resize_finished cvc) w r w' → resize_step cvc cv w w'
| rz_mark w r w' conds :
    (cv_Capacity cv ≤ cv_Status_Capacity cv)%Z → cv_Status_Capacity cv ≠ cvc_Capacity cvc →
    cvc_patched cvc (cvc_with_conditions conds cvc) w r w' → resize_step cvc cv w w'
| rz_grow w r w' :
    (cv_Capacity cv ≤ cv_Status_Capacity cv)%Z → cv_Status_Capacity cv ≠ cvc_Capacity cvc →
    cv_patched cv (cv_with_capacity (cvc_Capacity cvc) cv) w r w' → resize_step cvc cv w w'.

Lemma PatchCVCStatus_run cvc cvc' w r w' :
  PatchCVCStatus cvc cvc' w = (Ret r, w') →
  (w' = w ∧ ∃ e, r = Err e) ∨ ∃ r', cvc_patched cvc cvc' w r' w' ∧ (∀ o, r = OK o → r' = OK o).
Proof.
  unfold PatchCVCStatus. destruct (getPatchData _ _) as [bytes|e] eqn:Hp;
    [|intros [[= ->] ->]%mret_run; eauto].
  unfold mbind, M_bind, call. destruct (rPatchObject _ _ _ _ w) as [p w2] eqn:Hpo.
  intros Hr. right. exists p. destruct p; apply mret_run in Hr as [[= ->] ->];
    (split; [by exists bytes|naive_solver]).
Qed.

Lemma resizeCV_run cv cap w r w' :
  resizeCV openebsNamespace cv cap w = (Ret r, w') →
  w' = w ∨ ∃ r', cv_patched cv (cv_with_capacity cap cv) w r' w'.
Proof.
  unfold resizeCV. destruct (getPatchData _ _) as [bytes|e] eqn:Hp;
    [|intros [_ ->]%mret_run; by left].
  unfold mbind, M_bind, call. destruct (rPatchObject _ _ _ _ w) as [p w2] eqn:Hpo.
  intros Hr. right. exists p, bytes. destruct p; by apply mret_run in Hr as [_ ->].
Qed.

Lemma emit_run e w (r : outcome unit) w' : emit e w = (r, w') → r = Ret tt ∧ w' = Event e w.
Proof. unfold emit. by intros [= <- <-]. Qed.

Lemma resize_steps cvc w r w' :
  resizeCVC openebsNamespace cvc w = (Ret r, w') →
  (w' = w ∧ ∃ e, rGet (Obj:=CStorVolume) w (namespace cvc) (name cvc) = Err e) ∨
  ∃ cv, rGet w (namespace cvc) (name cvc) = OK cv ∧ rtc (resize_step cvc cv) w w'.
Proof.
  unfold resizeCVC. unfold mbind at 1, M_bind at 1, reads.
  destruct (rGet w _ _) as [cv|e]; [|intros [_ ->]%mret_run; eauto]. intros Hr. right.
  exists cv. split; [done|].
  destruct (Z.ltb_spec (cv_Status_Capacity cv) (cv_Capacity cv)) as [|Hcap].
  { apply M_bind_Ret in Hr as (u & w1 & [_ ->]%emit_run & [_ ->]%mret_run).
    apply rtc_once. constructor. }
  destruct (Z.eqb_spec (cvc_Capacity cvc) (cv_Status_Capacity cv)) as [Heq|Hne].
  - unfold markCVCResizeFinished in Hr. apply M_bind_Ret in Hr as (p & w1 & Hp & Hr).
    assert (rtc (resize_step cvc cv) w w1) as H1w.
    { apply PatchCVCStatus_run in Hp as [[-> _]|(r' & Hp & _)]; [done|].
      apply rtc_once. by eapply rz_finish. }
    destruct p as [o|e]; [|by apply mret_run in Hr as [_ ->]].
    apply M_bind_Ret in Hr as (u & w2 & [_ ->]%emit_run & [_ ->]%mret_run).
    eapply rtc_r; [exact H1w|constructor].
  - apply M_bind_Ret in Hr as (p & w1 & Hp & Hr).
    assert (rtc (resize_step cvc cv) w w1) as H1w.
    { unfold markCVCResizeInProgress, mbind, M_bind, reads in Hp.
      apply PatchCVCStatus_run in Hp as [[-> _]|(r' & Hp & _)]; [done|].
      apply rtc_once. by eapply rz_mark. }
    destruct p as [cvc1|e]; [|by apply mret_run in Hr as [_ ->]].
    apply M_bind_Ret in Hr as (u & w2 & [_ ->]%emit_run & Hr).
    apply M_bind_Ret in Hr as (g & w3 & Hg & Hr).
    assert (rtc (resize_step cvc cv) w w3) as H3w.
    { etrans; [eapply rtc_r; [exact H1w|apply rz_event]|].
      apply resizeCV_run in Hg as [->|(r' & Hg)]; [done|]. apply rtc_once. by eapply rz_grow. }
    destruct g as [x|e]; [by apply mret_run in Hr as [_ ->]|].
    apply M_bind_Ret in Hr as (y & w4 & [_ ->]%emit_run & [_ ->]%mret_run).
    eapply rtc_r; [exact H3w|constructor].
Qed.

(** A resize to a capacity below the one that the volume has is not refused: the volume
    is patched with the smaller capacity. *)
Lemma resize_shrinks cvc cv c1 bytes w w1 :
  rGet w (namespace cvc) (name cvc) = OK cv → (cv_Capacity cv ≤ cv_Status_Capacity cv)%Z →
  (cvc_Capacity cvc < cv_Status_Capacity cv)%Z →
  markCVCResizeInProgress cvc w = (Ret (OK c1), w1) →
  getPatchData (json_Marshal_cv cv) (json_Marshal_cv (cv_with_capacity (cvc_Capacity cvc) cv)) =
    OK bytes →
  ∃ e u w2,
    rPatchObject (Obj:=CStorVolume) openebsNamespace (name cv) MergePatchType bytes (Event e w1) =
      (u, w2) ∧
    ∀ o, u = OK o → resizeCVC openebsNamespace cvc w = (Ret (OK tt), w2).
Proof.
  intros Hcv Hle Hlt Hm Hb. unfold resizeCVC. unfold mbind at 1, M_bind at 1, reads. rewrite Hcv.
  rewrite (proj2 (Z.ltb_ge _ _)), (proj2 (Z.eqb_neq _ _)) by lia.
  unfold mbind at 1, M_bind at 1. rewrite Hm. unfold mbind at 1, M_bind at 1, emit at 1.
  set (e := cvc_event c1 "Normal" _ _ _). exists e.
  destruct (rPatchObject openebsNamespace (name cv) MergePatchType bytes (Event e w1)) as [u w2] eqn:Hp.
  exists u, w2. split; [done|]. intros o ->. unfold resizeCV. rewrite Hb.
  unfold mbind, M_bind, call. by rewrite Hp.
Qed.

(** ** Provisioning *)

(** The writes of the provisioning of a volume before its configuration is bound. *)
Inductive provision_step cvc : W → W → Prop :=
| pv_service w svc err :
    rGet (Obj:=Service) w openebsNamespace (name cvc) = Err err → IsNotFound err = true →
    provision_step cvc w (rCreate openebsNamespace (svc : Service) w).2
| pv_volume w cv err :
    rGet (Obj:=CStorVolume) w openebsNamespace (name cvc) = Err err → IsNotFound err = true →
    quorum_volume cvc cv → provision_step cvc w (rCreate openebsNamespace cv w).2
| pv_target w cv policySpec d err :
    rGet (Obj:=Deployment) w openebsNamespace (name cv +:+ "-target") = Err err →
    IsNotFound err = true → BuildTargetDeployment cv policySpec = OK d →
    provision_step cvc w (rCreate openebsNamespace d w).2
| pv_replica cv w w' : replica_step openebsNamespace cv w w' → provision_step cvc w w'
| pv_budget w w' : pdb_step openebsNamespace cvc w w' → provision_step cvc w w'.

Lemma replicas_provision cvc cv w w' :
  rtc (replica_step openebsNamespace cv) w w' → rtc (provision_step cvc) w w'.
Proof. induction 1 as [|x y z Hs _ IH]; [done|]. eapply rtc_l; [by eapply pv_replica|exact IH]. Qed.

Lemma budgets_provision cvc w w' :
  rtc (pdb_step openebsNamespace cvc) w w' → rtc (provision_step cvc) w w'.
Proof. induction 1 as [|x y z Hs _ IH]; [done|]. eapply rtc_l; [by apply pv_budget|exact IH]. Qed.

Lemma target_service_steps cvc w r w' :
  getOrCreateTargetService openebsNamespace cvc w = (Ret r, w') → rtc (provision_step cvc) w w'.
Proof.
  unfold getOrCreateTargetService, mbind, M_bind, reads.
  destruct (rGet w _ _) as [svc|err] eqn:Hg; [by intros [_ ->]%mret_run|].
  destruct (IsNotFound err) eqn:Hn; cbn [negb]; [|by intros [_ ->]%mret_run].
  set (svc := build_service _). unfold call. pose proof (pv_service cvc w svc err Hg Hn) as Hs.
  destruct (rCreate _ svc w) as [c w2]. intros [= _ <-]. by apply rtc_once.
Qed.

Lemma volume_resource_steps cvc svc w r w' :
  getOrCreateCStorVolumeResource openebsNamespace svc cvc w = (Ret r, w') →
  rtc (provision_step cvc) w w'.
Proof.
  intros [[-> _]|(err & cv & Hg & Hn & Hq & Hc)]%volume_resource_run; [done|].
  pose proof (pv_volume cvc w cv err Hg Hn Hq) as Hs. rewrite Hc in Hs. by apply rtc_once.
Qed.

Lemma target_deployment_steps cvc cv policySpec w r w' :
  getOrCreateCStorTargetDeployment openebsNamespace cv policySpec w = (Ret r, w') →
  rtc (provision_step cvc) w w'.
Proof.
  unfold getOrCreateCStorTargetDeployment. unfold mbind at 1, M_bind at 1, reads.
  destruct (rGet w _ _) as [d|err] eqn:Hg; [by intros [_ ->]%mret_run|].
  destruct (IsNotFound err) eqn:Hn; cbn [negb]; [|by intros [_ ->]%mret_run].
  destruct (BuildTargetDeployment cv policySpec) as [d|e] eqn:Hb; [|by intros [_ ->]%mret_run].
  unfold mbind, M_bind, call. pose proof (pv_target cvc w cv policySpec d err Hg Hn Hb) as Hs.
  destruct (rCreate _ d w) as [c w2]. intros Hr. apply rtc_once.
  destruct c; by apply mret_run in Hr as [_ ->].
Qed.

(** The configuration that reports a provisioned volume. *)
Record reports_bound cvc (pools : list string) (c : CStorVolumeConfig) : Prop := {
  rb_name : name c = name cvc;
  rb_phase : cvc_Status_Phase c = CStorVolumeConfigPhaseBound;
  rb_capacity : cvc_Status_Capacity c = cvc_Capacity cvc;
  rb_ref : is_Some (cvc_CStorVolumeRef c);
  rb_desired : ∀ p, p ∈ pools → p ∈ cvc_Policy_ReplicaPoolInfo c;
  rb_current : ∀ p, p ∈ cvc_Policy_ReplicaPoolInfo c → p ∈ cvc_Status_PoolInfo c;
  rb_synced : label (labels c) TemplateHashLabelName = HashObject (cvc_Policy c);
}.

Lemma bound_config_reports `{!OpenebsApiLaws} cvc c0 ref policy pools :
  name c0 = name cvc → cvc_Capacity c0 = cvc_Capacity cvc →
  reports_bound cvc pools (bound_config c0 ref policy pools).
Proof.
  intros Hn Hc. unfold bound_config, addPolicySpecHash. set (c1 := addReplicaPoolInfo _ pools).
  rewrite cvc_WithLabels_spec.
  pose proof (addReplicaPoolInfo_spec
    (cvc_with_status CStorVolumeConfigPhaseBound
       (cvc_Status_PoolInfo (cvc_with_spec (Some ref) (policy_Spec policy) c0))
       (cvc_Capacity (cvc_with_spec (Some ref) (policy_Spec policy) c0))
       (cvc_Status_Conditions (cvc_with_spec (Some ref) (policy_Spec policy) c0))
       (cvc_with_spec (Some ref) (policy_Spec policy) c0)) pools) as (Hd & Hcur & _).
  fold c1 in Hd, Hcur. split.
  - exact Hn.
  - reflexivity.
  - exact Hc.
  - by eexists.
  - intros p Hp. apply Hd. by right.
  - intros p Hp. apply Hcur. by right.
  - unfold label, labels, cvc_with_labels, SetTemplateHashLabel, setHashLabel. cbn.
    by erewrite lookup_union_Some_l by apply lookup_insert_eq.
Qed.

(** The replicas that were missing are placed: as many as the claim asks for beyond
    those that are listed, each on an eligible pool. *)
Definition replicas_placed cvc cv (policy : CStorVolumePolicy) w w' : Prop :=
  ∃ n chosen w0 rInfo, getCurrentReplicaCount w cvc = OK n ∧
    length chosen = Z.to_nat (cvc_Provision_ReplicaCount cvc - n) ∧
    Forall (eligible openebsNamespace w cvc cv policy) chosen ∧
    (w0 = w ∨ ∃ e, w0 = Event e w) ∧ all_placed openebsNamespace cv rInfo chosen w0 w'.

Lemma pending_run cvc cv svc policy w r w' :
  distributePendingCVRs openebsNamespace cvc cv svc policy w = (Ret r, w') →
  rtc (replica_step openebsNamespace cv) w w' ∧ (r = OK tt → replicas_placed cvc cv policy w w').
Proof.
  unfold distributePendingCVRs, mbind, M_bind, reads, getPendingCVRCount, replicas_placed.
  destruct (getCurrentReplicaCount w cvc) as [n|e]; [|intros [[= ->] ->]%mret_run; done].
  intros Hd. split; [by eapply distributeCVRs_steps|]. intros ->.
  apply distribute_spec in Hd as (chosen & w0 & rInfo & Hlen & Hel & _ & Hw & _ & Hall).
  exists n, chosen, w0, rInfo. split_and!; done.
Qed.

(** A run of createVolumeOperation: the configuration is written last, bound, and only
    when the missing replicas were placed and the pools of the listed replicas were
    recorded. *)
Inductive provision_run cvc : W → result CStorVolumeConfig → W → Prop :=
| pr_failed w e w' : rtc (provision_step cvc) w w' → provision_run cvc w (Err e) w'
| pr_written w w1 w2 w3 cv policy pools c u e w' r :
    rtc (provision_step cvc) w w1 → replicas_placed cvc cv policy w1 w2 →
    GetVolumeReplicaPoolNames w2 (name cvc) openebsNamespace = OK pools →
    rtc (pdb_step openebsNamespace cvc) w2 w3 → name cv = name cvc → reports_bound cvc pools c →
    rUpdate (namespace c) c w3 = (u, w') →
    match u with OK _ => r = OK c | Err _ => r = Err e end →
    provision_run cvc w r (if u is OK _ then Event (cvc_event c "Normal" SuccessSynced
      MessageResourceCreated []) w' else w').

Lemma updateCVCObj_run c cv w r w' :
  updateCVCObj c cv w = (Ret r, w') →
  (w' = w ∧ ∃ e, r = Err e) ∨
  ∃ u w1, name cv = name c ∧ rUpdate (namespace c) c w = (u, w1) ∧
    match u with
    | OK _ => r = OK tt ∧
        w' = Event (cvc_event c "Normal" SuccessSynced MessageResourceCreated []) w1
    | Err e => r = Err e ∧ w' = w1
    end.
Proof.
  unfold updateCVCObj. case_bool_decide as Hn; cbn [negb];
    [|intros [[= ->] ->]%mret_run; eauto].
  unfold mbind at 1, M_bind at 1, call. destruct (rUpdate _ c w) as [u w1] eqn:Hu. intros Hr.
  right. exists u, w1. split_and!; [done..|]. destruct u as [o|e].
  - by apply M_bind_Ret in Hr as (x & w2 & [_ ->]%emit_run & [[= ->] ->]%mret_run).
  - by apply mret_run in Hr as [[= ->] ->].
Qed.

Lemma bind_volume_run `{!OpenebsApiLaws} cvc cv policy w w1 w2 r w' :
  rtc (provision_step cvc) w w1 → replicas_placed cvc cv policy w1 w2 →
  rtc (provision_step cvc) w w2 →
  bind_volume openebsNamespace cvc cv policy w2 = (Ret r, w') → provision_run cvc w r w'.
Proof.
  intros H1w Hpl H2w. unfold bind_volume. unfold mbind at 1, M_bind at 1, reads.
  destruct (GetVolumeReplicaPoolNames w2 _ _) as [pools|e] eqn:Hg;
    [|intros [[= ->] ->]%mret_run; by apply pr_failed].
  intros (h & w3 & Hh & Hr)%M_bind_Ret.
  assert (rtc (pdb_step openebsNamespace cvc) w2 w3 ∧
    ∀ c0, h = OK c0 → name c0 = name cvc ∧ cvc_Capacity c0 = cvc_Capacity cvc) as [H3w Hc0].
  { destruct (isHAVolume cvc) eqn:Hha; [|apply mret_run in Hh as [[= ->] ->]; naive_solver].
    apply M_bind_Ret in Hh as (b & w4 & Hb & Hh). apply createPDB_steps in Hb; [|done].
    destruct b; apply mret_run in Hh as [[= ->] ->]; (split; [done|]); by intros ? [= <-]. }
  assert (rtc (provision_step cvc) w w3) by (etrans; [exact H2w|by apply budgets_provision]).
  destruct h as [c0|e]; [|apply mret_run in Hr as [[= ->] ->]; by apply pr_failed].
  destruct (Hc0 c0 eq_refl) as [Hn0 Hcap0].
  destruct (GetReference cv) as [ref|e]; [|apply mret_run in Hr as [[= ->] ->]; by apply pr_failed].
  pose proof (bound_config_reports cvc c0 ref policy pools Hn0 Hcap0) as Hb.
  apply M_bind_Ret in Hr as (u & w4 & [[-> [e ->]]|(u' & w5 & Hn & Hu & Hu')]%updateCVCObj_run & Hr);
    [apply mret_run in Hr as [[= ->] ->]; by apply pr_failed|].
  rewrite (rb_name _ _ _ Hb) in Hn.
  destruct u' as [o|e]; destruct Hu' as [-> ->]; apply mret_run in Hr as [[= ->] ->].
  - by apply (pr_written _ _ _ _ _ _ _ _ _ _ (Errorf "" []) _ _ H1w Hpl Hg H3w Hn Hb Hu).
  - by apply (pr_written _ _ _ _ _ _ _ _ _ _ e _ _ H1w Hpl Hg H3w Hn Hb Hu).
Qed.

Lemma provision_order `{!OpenebsApiLaws} cvc w r w' :
  createVolumeOperation openebsNamespace cvc w = (Ret r, w') → provision_run cvc w r w'.
Proof.
  unfold createVolumeOperation. unfold mbind at 1, M_bind at 1, reads.
  destruct (getVolumePolicy _ w _ cvc) as [policy|e];
    [|intros [[= ->] ->]%mret_run; by apply pr_failed].
  intros (svc & w1 & Hs%target_service_steps & Hr)%M_bind_Ret.
  destruct svc as [svc|e]; [|apply mret_run in Hr as [[= ->] ->]; by apply pr_failed].
  apply M_bind_Ret in Hr as (cv & w2 & Hv%volume_resource_steps & Hr).
  assert (rtc (provision_step cvc) w w2) by by etrans.
  destruct cv as [cv|e]; [|apply mret_run in Hr as [[= ->] ->]; by apply pr_failed].
  apply M_bind_Ret in Hr as (d & w3 & Hd%(target_deployment_steps cvc) & Hr).
  assert (rtc (provision_step cvc) w w3) by by etrans.
  destruct d as [d|e]; [|apply mret_run in Hr as [[= ->] ->]; by apply pr_failed].
  apply M_bind_Ret in Hr as (p & w4 & [Hst Hpl]%pending_run & Hr).
  apply (replicas_provision cvc) in Hst.
  assert (rtc (provision_step cvc) w w4) by by etrans.
  destruct p as [[]|e]; [|apply mret_run in Hr as [[= ->] ->]; by apply pr_failed].
  eapply bind_volume_run; [|by apply Hpl|done|exact Hr]. done.
Qed.

(** ** Policies *)

(** A configuration whose hash label was set is not patched again. *)
Lemma policy_synced cvc w :
  syncPolicySpec (addPolicySpecHash cvc) w = (Ret (OK tt), w).
Proof.
  unfold syncPolicySpec. rewrite bool_decide_true; [done|].
  unfold addPolicySpecHash. rewrite cvc_WithLabels_spec.
  unfold label, labels, cvc_with_labels, SetTemplateHashLabel, setHashLabel. cbn.
  by erewrite lookup_union_Some_l by apply lookup_insert_eq.
Qed.

(** The deployment of the target is patched to the one of the policy. *)
Definition target_patched cvc w w' : Prop :=
  ∃ (cv : CStorVolume) old new oldData newData bytes o,
    rGet w (namespace cvc) (name cvc +:+ "-target") = OK old ∧
    rGet w (namespace cvc) (name cvc) = OK cv ∧
    BuildTargetDeployment cv (cvc_Policy cvc) = OK new ∧
    json_Marshal old = OK oldData ∧ json_Marshal new = OK newData ∧
    CreateTwoWayMergePatch oldData newData = OK bytes ∧
    rPatch (namespace cvc) (name old) bytes w = (OK o, w').

Lemma target_patch_run cvc w r w' :
  patchTargetDeploymentSpec cvc w = (Ret r, w') →
  ((∃ e, r = Err e) ∧
   (w' = w ∨ (∃ n bytes e', rPatch (namespace cvc) n bytes w = (Err e', w')))) ∨
  (r = OK tt ∧ target_patched cvc w w').
Proof.
  unfold patchTargetDeploymentSpec. unfold mbind at 1, M_bind at 1, reads.
  destruct (rGet w _ _) as [old|e] eqn:Hold; [|intros [[= ->] ->]%mret_run; by left; eauto].
  unfold mbind at 1, M_bind at 1, reads.
  destruct (rGet w _ (name cvc)) as [cv|e] eqn:Hcv; [|intros [[= ->] ->]%mret_run; by left; eauto].
  destruct (BuildTargetDeployment cv _) as [new|e] eqn:Hnew;
    [|intros [[= ->] ->]%mret_run; by left; eauto].
  destruct (json_Marshal old) as [oldData|e] eqn:Ho; [|intros [[= ->] ->]%mret_run; by left; eauto].
  destruct (json_Marshal new) as [newData|e] eqn:Hn; [|intros [[= ->] ->]%mret_run; by left; eauto].
  destruct (CreateTwoWayMergePatch _ _) as [bytes|e] eqn:Hb;
    [|intros [[= ->] ->]%mret_run; by left; eauto].
  unfold mbind, M_bind, call. destruct (rPatch _ _ bytes w) as [[o|e] w1] eqn:Hp;
    intros [[= ->] ->]%mret_run; [right|left; eauto 10].
  split; [done|]. by exists cv, old, new, oldData, newData, bytes, o.
Qed.

(** The label is written only after the deployment of the target was patched with the
    policy of the configuration. *)
Inductive policy_run cvc : W → result unit → W → Prop :=
| po_synced w :
    label (labels cvc) TemplateHashLabelName = HashObject (cvc_Policy cvc) →
    policy_run cvc w (OK tt) w
| po_not_patched w w1 ev e :
    w1 = w ∨ (∃ n bytes e', rPatch (namespace cvc) n bytes w = (Err e', w1)) →
    policy_run cvc w (Err e) (Event ev w1)
| po_patched w w1 u w2 ev r :
    target_patched cvc w w1 → rUpdate (namespace cvc) (addPolicySpecHash cvc) w1 = (u, w2) →
    (r = OK tt → ∃ c, u = OK c) → policy_run cvc w r (Event ev w2).

Lemma policy_order cvc w r w' : syncPolicySpec cvc w = (Ret r, w') → policy_run cvc w r w'.
Proof.
  unfold syncPolicySpec. case_bool_decide as Hh; [intros [[= ->] ->]%mret_run; by apply po_synced|].
  intros (p & w1 & [[[e ->] Hw]|[-> Hp]]%target_patch_run & Hr)%M_bind_Ret.
  - apply M_bind_Ret in Hr as (x & w2 & [_ ->]%emit_run & [[= ->] ->]%mret_run).
    by apply po_not_patched.
  - unfold mbind at 1, M_bind at 1, call in Hr. destruct (rUpdate _ _ w1) as [u w2] eqn:Hu.
    destruct u; apply M_bind_Ret in Hr as (x & w3 & [_ ->]%emit_run & [[= ->] ->]%mret_run);
      (eapply po_patched; [exact Hp|exact Hu|naive_solver]).
Qed.
End volume_sync_facts.
