(* ===== verification/CspcStatus.v ===== *)
(** * CspcStatus: the status of a CStorPoolCluster (pkg/controllers/cspc-controller)

    status.go counts the pool instances of a cluster and reports whether their
    pool managers run; util/cspc_util.go keeps the list of conditions.  Reads of
    the clock give the time of the world. *)

From stdpp Require Import base gmap strings list sets relations.
From Stdlib Require Import Ascii ZArith Lia.
From S2P Require Import Prelude Api.

(** ** Conditions (util/cspc_util.go) *)

Definition MinimumPoolManagersAvailable : string := "MinimumPoolManagersAvailable".
Definition MinimumPoolManagersUnAvailable : string := "MinimumPoolManagersUnAvailable".
Definition PoolManagerAvailable : string := "PoolManagerAvailable".

Definition NewCSPCCondition (now : Z) (condType : string) (status : condition_status)
  (reason message : string) : CStorPoolClusterCondition :=
  {| cond_Type := condType; cond_Status := status; cond_LastUpdateTime := now;
     cond_LastTransitionTime := now; cond_Reason := reason; cond_Message := message |}.

Definition GetCSPCCondition (status : CStorPoolClusterStatus) (condType : string)
  : option CStorPoolClusterCondition :=
  first_such (λ c, bool_decide (cond_Type c = condType)) (Conditions status).

Definition filterOutCondition (conditions : list CStorPoolClusterCondition) (condType : string)
  : list CStorPoolClusterCondition :=
  foldl (λ newConditions c,
           if bool_decide (cond_Type c = condType) then newConditions else newConditions ++ [c])
    [] conditions.

Definition with_conditions (l : list CStorPoolClusterCondition) (s : CStorPoolClusterStatus)
  : CStorPoolClusterStatus :=
  {| ProvisionedInstances := ProvisionedInstances s; DesiredInstances := DesiredInstances s;
     HealthyInstances := HealthyInstances s; Conditions := l |}.

Definition with_transition_time (t : Z) (c : CStorPoolClusterCondition)
  : CStorPoolClusterCondition :=
  {| cond_Type := cond_Type c; cond_Status := cond_Status c;
     cond_LastUpdateTime := cond_LastUpdateTime c; cond_LastTransitionTime := t;
     cond_Reason := cond_Reason c; cond_Message := cond_Message c |}.

Definition SetCSPCCondition (status : CStorPoolClusterStatus) (condition : CStorPoolClusterCondition)
  : CStorPoolClusterStatus :=
  match GetCSPCCondition status (cond_Type condition) with
  | Some currentCond =>
      if bool_decide (cond_Status currentCond = cond_Status condition) &&
         bool_decide (cond_Reason currentCond = cond_Reason condition) then status
      else
        let condition :=
          if bool_decide (cond_Status currentCond = cond_Status condition)
          then with_transition_time (cond_LastTransitionTime currentCond) condition
          else condition in
        with_conditions
          (filterOutCondition (Conditions status) (cond_Type condition) ++ [condition]) status
  | None =>
      with_conditions
        (filterOutCondition (Conditions status) (cond_Type condition) ++ [condition]) status
  end.

Definition RemoveCSPCCondition (status : CStorPoolClusterStatus) (condType : string)
  : CStorPoolClusterStatus :=
  with_conditions (filterOutCondition (Conditions status) condType) status.

(** ** Counting pools (status.go) *)

Definition IsPoolMangerAvailable (pm : Deployment) : bool := (1 <=? dep_ReadyReplicas pm)%Z.

(** The state of the loop over the pool instances. *)
Record status_scan := {
  healthyCSPIs : Z;
  isPoolManagerUnavailable : bool;
  unavailablePoolManagers : string;
}.

Section status.
Context {W : Type} `{OpenebsApi} `{!Env W}.
Context `{!ResourceClient W CStorPoolInstance} `{!ResourceClient W CStorPoolCluster}
  `{!ResourceClient W Deployment}.

Definition GetCSPIListForCSPC (w : W) (cspc : CStorPoolCluster)
  : result (list CStorPoolInstance) :=
  rList w (namespace cspc) (CStorPoolClusterLabelKey +:+ "=" +:+ name cspc).

Definition scan_step (cspiNameToPoolManager : gmap string Deployment) (st : status_scan)
  (cspi : CStorPoolInstance) : status_scan :=
  if IsPoolMangerAvailable (default dep_zero (cspiNameToPoolManager !! name cspi)) then
    if bool_decide (cspi_Phase cspi = CStorPoolStatusOnline) then
      {| healthyCSPIs := int32 (healthyCSPIs st + 1);
         isPoolManagerUnavailable := isPoolManagerUnavailable st;
         unavailablePoolManagers := unavailablePoolManagers st |}
    else st
  else
    {| healthyCSPIs := healthyCSPIs st;
       isPoolManagerUnavailable := true;
       unavailablePoolManagers := unavailablePoolManagers st +:+ name cspi +:+ " " |}.

Definition calculateStatus (w : W) (cspc : CStorPoolCluster) : result CStorPoolClusterStatus :=
  match GetCSPIListForCSPC w cspc with
  | Err err => Err (Wrapf err "failed to list cspi(s) for cspc %s in namespace %s"
                      [name cspc; namespace cspc])
  | OK cspiList =>
      match rList (Obj:=Deployment) w (namespace cspc)
              (CStorPoolClusterLabelKey +:+ "=" +:+ name cspc) with
      | Err err => Err (Wrapf err "failed to list pool-manager deployments for cspc %s in namespace %s"
                          [name cspc; namespace cspc])
      | OK poolManagerList =>
          let cspiNameToPoolManager : gmap string Deployment :=
            foldl (λ m poolmanager, <[name poolmanager := poolmanager]> m) ∅ poolManagerList in
          let scan :=
            foldl (scan_step cspiNameToPoolManager)
              {| healthyCSPIs := 0; isPoolManagerUnavailable := false;
                 unavailablePoolManagers := "" |} cspiList in
          let status :=
            {| ProvisionedInstances := int32 (Z.of_nat (length cspiList));
               DesiredInstances := int32 (Z.of_nat (length (Pools (cspc_Spec cspc))));
               HealthyInstances := healthyCSPIs scan;
               Conditions := Conditions (cspc_Status cspc) |} in
          if isPoolManagerUnavailable scan then
            OK (SetCSPCCondition status
                  (NewCSPCCondition (Now w) PoolManagerAvailable ConditionFalse
                     MinimumPoolManagersUnAvailable
                     ("Pool manager(s): " +:+ unavailablePoolManagers scan +:+
                      ":does not have minimum available pod")))
          else
            OK (SetCSPCCondition status
                  (NewCSPCCondition (Now w) PoolManagerAvailable ConditionTrue
                     MinimumPoolManagersAvailable "Pool manager(s) have minimum available pod"))
      end
  end.

(** The status is assigned to the object the caller holds. *)
Definition UpdateStatus (cspc : CStorPoolCluster) : M W (result unit * CStorPoolCluster) :=
  let* s := reads (λ w, calculateStatus w cspc) in
  match s with
  | Err err => mret (Err (Wrapf err "failed to calculate cspc %s status" [name cspc]), cspc)
  | OK status =>
      let cspc := cspc_with_status status cspc in
      let* r := call (rUpdate (namespace cspc) cspc) in
      match r with
      | Err err => mret (Err (Wrapf err "failed to update cspc %s in namespace %s"
                                [name cspc; namespace cspc]), cspc)
      | OK _ => mret (OK tt, cspc)
      end
  end.

(** The retry loop; [err] is the error of the first attempt, which the inner
    declarations of the loop shadow. *)
Fixpoint retry_status (maxRetry : nat) (cspc : CStorPoolCluster) (err : error)
  : M W (result unit) :=
  match maxRetry with
  | O => mret (Err err)
  | S maxRetry =>
      let* g := reads (λ w, rGet (Obj:=CStorPoolCluster) w (namespace cspc) (name cspc)) in
      match g with
      | Err e => mret (Err (Wrapf e "failed to update cspc status" []))
      | OK cspcNew =>
          let* (r, _) := UpdateStatus cspcNew in
          match r with
          | Err _ => retry_status maxRetry cspc err
          | OK _ => mret (OK tt)
          end
      end
  end.

Definition UpdateStatusEventually (cspc : CStorPoolCluster)
  : M W (result unit * CStorPoolCluster) :=
  let* (r, cspc) := UpdateStatus cspc in
  match r with
  | OK _ => mret (OK tt, cspc)
  | Err err =>
      let* r := retry_status 3 cspc err in
      mret (r, cspc)
  end.
End status.

(** ** Conditions are kept one per type *)

Lemma filterOut_filter l t : filterOutCondition l t = filter (λ c, cond_Type c ≠ t) l.
Proof.
  unfold filterOutCondition.
  assert (∀ acc, foldl (λ newConditions c, if bool_decide (cond_Type c = t) then newConditions
    else newConditions ++ [c]) acc l = acc ++ filter (λ c, cond_Type c ≠ t) l) as H; [|by rewrite H].
  induction l as [|c l IH]; intros acc; cbn [foldl]; [by rewrite filter_nil, app_nil_r|].
  rewrite filter_cons, IH. case_bool_decide; case_decide; try done. by rewrite <- app_assoc.
Qed.

(** What SetCSPCCondition appends in place of the conditions of that type. *)
Lemma set_condition_cases st c :
  (∃ old, GetCSPCCondition st (cond_Type c) = Some old ∧ cond_Status old = cond_Status c ∧
     cond_Reason old = cond_Reason c ∧ SetCSPCCondition st c = st) ∨
  (∃ t, SetCSPCCondition st c =
       with_conditions (filter (λ c', cond_Type c' ≠ cond_Type c) (Conditions st) ++
                        [with_transition_time t c]) st ∧
     ∀ old, GetCSPCCondition st (cond_Type c) = Some old → cond_Status old = cond_Status c →
       t = cond_LastTransitionTime old).
Proof.
  unfold SetCSPCCondition. rewrite filterOut_filter.
  destruct (GetCSPCCondition st (cond_Type c)) as [old|] eqn:Hg.
  - repeat case_bool_decide; cbn; try naive_solver; right.
    + exists (cond_LastTransitionTime old). rewrite filterOut_filter. naive_solver.
    + exists (cond_LastTransitionTime c). rewrite filterOut_filter. split; [by destruct c|naive_solver].
    + exists (cond_LastTransitionTime c). rewrite filterOut_filter. split; [by destruct c|naive_solver].
  - right. exists (cond_LastTransitionTime c). split; [by destruct c|done].
Qed.

Lemma condition_type_absent st t :
  first_such (λ c, bool_decide (cond_Type c = t)) (filter (λ c, cond_Type c ≠ t) (Conditions st)) = None.
Proof. apply first_such_None. intros c [Hne _]%list_elem_of_filter. by apply bool_decide_eq_false. Qed.

Lemma get_after_set st c :
  ∃ c', GetCSPCCondition (SetCSPCCondition st c) (cond_Type c) = Some c' ∧
    cond_Status c' = cond_Status c ∧ cond_Reason c' = cond_Reason c ∧
    ∀ old, GetCSPCCondition st (cond_Type c) = Some old → cond_Status old = cond_Status c →
      cond_LastTransitionTime c' = cond_LastTransitionTime old.
Proof.
  destruct (set_condition_cases st c) as [(old & Hg & Hs & Hr & ->)|(t & -> & Ht)].
  - exists old. split_and!; try done. intros. by simplify_eq.
  - exists (with_transition_time t c). split_and!; [|done..|done].
    unfold GetCSPCCondition. cbn. rewrite first_such_app, condition_type_absent. cbn.
    by rewrite bool_decide_eq_true_2.
Qed.

Lemma get_other_after_set st c t :
  t ≠ cond_Type c → GetCSPCCondition (SetCSPCCondition st c) t = GetCSPCCondition st t.
Proof.
  intros Hne. destruct (set_condition_cases st c) as [(old & _ & _ & _ & ->)|(t' & -> & _)]; [done|].
  unfold GetCSPCCondition. cbn. rewrite first_such_app, first_such_filter.
  - cbn. rewrite bool_decide_eq_false_2 by done. by destruct (first_such _ _).
  - intros x Hx%bool_decide_eq_true. congruence.
Qed.

Lemma set_condition_NoDup st c :
  NoDup (cond_Type <$> Conditions st) → NoDup (cond_Type <$> Conditions (SetCSPCCondition st c)).
Proof.
  intros Hn. destruct (set_condition_cases st c) as [(old & _ & _ & _ & ->)|(t' & -> & _)]; [done|].
  cbn. rewrite fmap_app. apply NoDup_app. split_and!.
  - eapply sublist_NoDup; [exact Hn|]. apply fmap_sublist, sublist_filter.
  - intros x (c' & -> & [Hne _]%list_elem_of_filter)%list_elem_of_fmap. set_solver.
  - apply NoDup_singleton.
Qed.

(** ** The counters *)

Section status_facts.
Context {W : Type} `{OpenebsApi} `{!Env W}.
Context `{!ResourceClient W CStorPoolInstance} `{!ResourceClient W CStorPoolCluster}
  `{!ResourceClient W Deployment}.
Implicit Types (w : W) (cspc : CStorPoolCluster).

(** The deployment of that name among the listed ones (the last one listed), ready. *)
Definition manager_ready (pms : list Deployment) (n : string) : bool :=
  match last (filter (λ d, name d = n) pms) with
  | Some d => (1 <=? dep_ReadyReplicas d)%Z
  | None => false
  end.

Lemma managers_lookup (pms : list Deployment) (m : gmap string Deployment) n :
  foldl (λ m d, <[name d := d]> m) m pms !! n =
  match last (filter (λ d, name d = n) pms) with Some d => Some d | None => m !! n end.
Proof.
  induction pms as [|d pms IH] using rev_ind; [done|].
  rewrite foldl_app, filter_app. cbn [foldl]. rewrite filter_cons, filter_nil.
  case_decide as Hd.
  - rewrite last_snoc, Hd. by simplify_map_eq.
  - by rewrite app_nil_r, lookup_insert_ne.
Qed.

Lemma manager_available (pms : list Deployment) n :
  IsPoolMangerAvailable
    (default dep_zero (foldl (λ m d, <[name d := d]> m) (∅ : gmap string Deployment) pms !! n)) =
  manager_ready pms n.
Proof.
  rewrite managers_lookup. unfold manager_ready.
  destruct (last (filter (λ d, name d = n) pms)); cbn; [done|]. by rewrite lookup_empty.
Qed.

Definition healthy (pms : list Deployment) (c : CStorPoolInstance) : bool :=
  manager_ready pms (name c) && bool_decide (cspi_Phase c = CStorPoolStatusOnline).

Lemma scan_spec (pms : list Deployment) cspis st :
  let m := foldl (λ m d, <[name d := d]> m) (∅ : gmap string Deployment) pms in
  let st' := foldl (scan_step m) st cspis in
  int32 (healthyCSPIs st') =
    int32 (healthyCSPIs st + Z.of_nat (length (filter (λ c, healthy pms c = true) cspis))) ∧
  isPoolManagerUnavailable st' =
    isPoolManagerUnavailable st || existsb (λ c, negb (manager_ready pms (name c))) cspis.
Proof.
  cbn zeta. set (m := foldl _ _ pms). revert st.
  induction cspis as [|c cspis IH]; intros st; cbn [foldl existsb].
  { cbn. by rewrite Z.add_0_r, orb_false_r. }
  destruct (IH (scan_step m st c)) as [-> ->]. rewrite filter_cons.
  unfold scan_step. subst m. rewrite manager_available.
  assert (healthy pms c = manager_ready pms (name c) && bool_decide (cspi_Phase c = CStorPoolStatusOnline))
    as Hh by done.
  destruct (manager_ready pms (name c)); cbn.
  - split; [|by case_bool_decide]. case_bool_decide; case_decide; cbn in *; try congruence.
    rewrite int32_add_l. f_equal. lia.
  - cbn in Hh. split; [by rewrite decide_False by congruence|]. by rewrite orb_true_r.
Qed.

Lemma scan_int32 m cspis st :
  int32 (healthyCSPIs st) = healthyCSPIs st →
  int32 (healthyCSPIs (foldl (scan_step m) st cspis)) = healthyCSPIs (foldl (scan_step m) st cspis).
Proof.
  revert st. induction cspis as [|c cspis IH]; intros st Hst; [done|]. apply IH.
  unfold scan_step. repeat case_match; try done. apply int32_idem.
Qed.

(** What calculateStatus reports about the listed pool instances and managers. *)
Definition status_reports (cspc : CStorPoolCluster) (cspis : list CStorPoolInstance)
  (pms : list Deployment) (st : CStorPoolClusterStatus) : Prop :=
  ProvisionedInstances st = int32 (Z.of_nat (length cspis)) ∧
  DesiredInstances st = int32 (Z.of_nat (length (Pools (cspc_Spec cspc)))) ∧
  HealthyInstances st = int32 (Z.of_nat (length (filter (λ c, healthy pms c = true) cspis))) ∧
  ∃ c, GetCSPCCondition st PoolManagerAvailable = Some c ∧
    cond_Status c = (if forallb (λ c, manager_ready pms (name c)) cspis
                     then ConditionTrue else ConditionFalse).

Lemma set_condition_counters st c :
  ProvisionedInstances (SetCSPCCondition st c) = ProvisionedInstances st ∧
  DesiredInstances (SetCSPCCondition st c) = DesiredInstances st ∧
  HealthyInstances (SetCSPCCondition st c) = HealthyInstances st.
Proof. destruct (set_condition_cases st c) as [(? & _ & _ & _ & ->)|(? & -> & _)]; done. Qed.

Lemma calculateStatus_OK w cspc st :
  calculateStatus w cspc = OK st →
  ∃ cspis pms, GetCSPIListForCSPC w cspc = OK cspis ∧
    rList w (namespace cspc) (CStorPoolClusterLabelKey +:+ "=" +:+ name cspc) = OK pms ∧
    status_reports cspc cspis pms st.
Proof.
  unfold calculateStatus. intros Hs. destruct (GetCSPIListForCSPC w cspc) as [cspis|]; [|done].
  destruct (rList w _ _) as [pms|]; [|done]. exists cspis, pms. split_and!; [done..|].
  set (st0 := {| healthyCSPIs := 0 |}) in Hs.
  destruct (scan_spec pms cspis st0) as [Hh Hu]. cbn zeta in Hh, Hu.
  set (m := foldl _ _ pms) in *. rewrite scan_int32 in Hh by done. cbn in Hh, Hu.
  rewrite Hu in Hs.
  assert (existsb (λ c, negb (manager_ready pms (name c))) cspis =
          negb (forallb (λ c, manager_ready pms (name c)) cspis)) as Hex.
  { clear. induction cspis as [|c cspis IH]; [done|]. cbn. rewrite IH. by destruct (manager_ready _ _). }
  rewrite Hex in Hs. unfold status_reports.
  destruct (forallb _ cspis); cbn in Hs; injection Hs as <-;
    match goal with |- context [SetCSPCCondition ?s ?c] =>
      destruct (set_condition_counters s c) as (-> & -> & ->);
      destruct (get_after_set s c) as (c' & Hc & Hst & _) end;
    (split_and!; [done..|by rewrite Hh|]); exists c'; done.
Qed.

(** *** Writing the status *)

(** One write: the status computed in the world it is written to. *)
Inductive status_write : W → W → Prop :=
| write_status w o st :
    calculateStatus w o = OK st →
    status_write w (rUpdate (namespace o) (cspc_with_status st o) w).2.

(** The last write was accepted by the API server. *)
Definition status_stored (w' : W) : Prop :=
  ∃ w0 o st x, calculateStatus w0 o = OK st ∧
    rUpdate (namespace o) (cspc_with_status st o) w0 = (OK x, w').

Lemma UpdateStatus_run cspc w :
  ∃ r cspc' w' n, UpdateStatus cspc w = (Ret (r, cspc'), w') ∧ n ≤ 1 ∧
    nsteps status_write n w w' ∧ (r = OK tt → status_stored w').
Proof.
  unfold UpdateStatus, mbind, M_bind, reads, call.
  destruct (calculateStatus w cspc) as [st|e] eqn:Hs.
  - pose proof (write_status _ _ _ Hs) as Hw.
    change (namespace (cspc_with_status st cspc)) with (namespace cspc).
    destruct (rUpdate (namespace cspc) (cspc_with_status st cspc) w) as [[x|e] w1] eqn:Hu;
      eexists _, _, w1, 1; (split; [reflexivity|]); (split_and!; [done|by apply nsteps_once|]).
    + intros _. by exists w, cspc, st, x.
    + done.
  - eexists _, _, w, 0. split; [reflexivity|]. split_and!; [lia|constructor|done].
Qed.

Lemma retry_status_run k cspc err w :
  ∃ r w' n, retry_status k cspc err w = (Ret r, w') ∧ n ≤ k ∧
    nsteps status_write n w w' ∧ (r = OK tt → status_stored w').
Proof.
  revert w. induction k as [|k IH]; intros w; cbn [retry_status].
  { eexists _, w, 0. split; [reflexivity|]. split_and!; [lia|constructor|done]. }
  unfold mbind, M_bind, reads. destruct (rGet w _ _) as [o|e].
  - destruct (UpdateStatus_run o w) as (r & o' & w1 & n & -> & Hn & Hst & Hok).
    destruct r as [[]|e].
    + eexists _, w1, n. split; [reflexivity|]. split_and!; [lia|done|done].
    + destruct (IH w1) as (r & w2 & n' & -> & Hn' & Hst' & Hok').
      eexists _, w2, (n + n'). split; [reflexivity|]. split_and!; [lia| |done].
      by eapply nsteps_trans.
  - eexists _, w, 0. split; [reflexivity|]. split_and!; [lia|constructor|done].
Qed.

Lemma UpdateStatusEventually_run cspc w :
  ∃ r cspc' w' n, UpdateStatusEventually cspc w = (Ret (r, cspc'), w') ∧ n ≤ 4 ∧
    nsteps status_write n w w' ∧ (r = OK tt → status_stored w').
Proof.
  unfold UpdateStatusEventually. unfold mbind at 1, M_bind at 1.
  destruct (UpdateStatus_run cspc w) as (r & c' & w1 & n & -> & Hn & Hst & Hok).
  destruct r as [[]|e].
  - eexists _, _, w1, n. split; [reflexivity|]. split_and!; [lia|done|done].
  - unfold mbind, M_bind.
    destruct (retry_status_run 3 c' e w1) as (r & w2 & n' & -> & Hn' & Hst' & Hok').
    eexists _, _, w2, (n + n'). split; [reflexivity|]. split_and!; [lia| |done].
    by eapply nsteps_trans.
Qed.
End status_facts.
