(* ===== verification/CspcCleanup.v ===== *)
(** * CspcCleanup: releasing what a deleted pool or cluster holds
      (pkg/controllers/cspc-controller/cleanup.go, deletion part of sync.go)

    A deleted pool instance keeps its finalizer until its block device claims are
    released; a deleted cluster keeps its finalizer until its pool instances are
    gone.  The theorems describe the writes of these operations as steps. *)

From stdpp Require Import base gmap strings list sets relations.
From Stdlib Require Import Ascii ZArith Lia.
From S2P Require Import Prelude Api CspcStatus.

Definition with_finalizers {Obj} `{HasMeta Obj} (f : list string) (o : Obj) : Obj :=
  with_meta (meta_with_finalizers f (meta o)) o.

Section cleanup.
Context {W : Type} `{OpenebsApi}.
Context `{!ResourceClient W CStorPoolInstance} `{!ResourceClient W CStorPoolCluster}
  `{!ResourceClient W BlockDeviceClaim}.

(** ** Predicates *)

Definition isDestroyed (cspiObj : CStorPoolInstance) : bool :=
  negb (bool_decide (om_deletion (meta cspiObj) = None)).

Definition hasCSPCFinalizer (cspiObj : CStorPoolInstance) : bool :=
  ContainsString (finalizers cspiObj) CSPCFinalizer.

Definition hasNoPoolProtectionFinalizer (cspiObj : CStorPoolInstance) : bool :=
  negb (ContainsString (finalizers cspiObj) PoolProtectionFinalizer).

Definition canPerformCSPICleanup (cspiObj : CStorPoolInstance) : bool :=
  forallb (λ p, p cspiObj) [isDestroyed; hasCSPCFinalizer; hasNoPoolProtectionFinalizer].

(** [o.Finalizers = util.RemoveString(o.Finalizers, types.CSPCFinalizer)] *)
Definition drop_finalizer {Obj} `{HasMeta Obj} (o : Obj) : Obj :=
  with_finalizers (RemoveString (finalizers o) CSPCFinalizer) o.

(** ** Claims of one pool instance *)

(** The body of the loop of cleanupBDC. *)
Definition release_bdc (ns : string) (bdcItem : BlockDeviceClaim) : M W (result unit) :=
  let* r := call (rUpdate ns (drop_finalizer bdcItem)) in
  match r with
  | Err err => mret (Err (Wrapf err "failed to remove finalizers from bdc %s" [name bdcItem]))
  | OK bdcObj =>
      let* d := call (rDelete (Obj:=BlockDeviceClaim) ns (name bdcObj)) in
      match d with
      | Err err => mret (Err (Wrapf err "failed to delete bdc %s" [name bdcObj]))
      | OK _ => mret (OK tt)
      end
  end.

Definition cleanupBDC (cspiObj : CStorPoolInstance) : M W (result unit) :=
  let* l := reads (λ w, rList (Obj:=BlockDeviceClaim) w (namespace cspiObj)
              (CStorPoolClusterLabelKey +:+ "=" +:+
               label (labels cspiObj) CStorPoolClusterLabelKey)) in
  match l with
  | Err err => mret (Err err)
  | OK bdcList =>
      let cspiBDMap := names (rgs_bds (cspi_DataRaidGroups (cspi_Spec cspiObj))) in
      forE (λ bdcItem,
              if has cspiBDMap (bdc_BlockDeviceName bdcItem)
              then release_bdc (namespace cspiObj) bdcItem
              else mret (OK tt)) bdcList
  end.

(** ** All pool instances of a list *)

(** The loop of cleanupCSPIResources; [cspiCleanUpError] are the errors so far. *)
Fixpoint cleanup_cspis (items : list CStorPoolInstance) (cspiCleanUpError : list error)
  : M W (result unit) :=
  match items with
  | [] =>
      if bool_decide (0 < length cspiCleanUpError)
      then mret (Err (Errorf "failure in cspi cleanup: {%v}" []))
      else mret (OK tt)
  | cspiItem :: items' =>
      if canPerformCSPICleanup cspiItem then
        let* r := cleanupBDC cspiItem in
        match r with
        | Err err => mret (Err (Wrapf err "failed to cleanup cspi %s" [name cspiItem]))
        | OK _ =>
            let* u := call (rUpdate (namespace cspiItem) (drop_finalizer cspiItem)) in
            match u with
            | Err err => mret (Err (Wrapf err "failed to remove finalizer from cspi %s"
                                      [name cspiItem]))
            | OK _ => cleanup_cspis items' cspiCleanUpError
            end
        end
      else if isDestroyed cspiItem then
        cleanup_cspis items' (cspiCleanUpError ++
          [Errorf "failed to cleanup cspi %s: waiting for pool to get destroyed or there is no CSPC label on CSPI"
             [name cspiItem]])
      else cleanup_cspis items' cspiCleanUpError
  end.

Definition cleanupCSPIResources (cspiList : list CStorPoolInstance) : M W (result unit) :=
  cleanup_cspis cspiList [].

(** ** Deletion of a cluster (sync.go) *)

Definition deleteAssociatedCSPI (cspc : CStorPoolCluster) : M W (result unit) :=
  let* r := call (rDeleteCollection (Obj:=CStorPoolInstance) (namespace cspc)
              (CStorPoolClusterLabelKey +:+ "=" +:+ name cspc)) in
  match r with
  | OK _ => mret (OK tt)
  | Err err =>
      if IsNotFound err then mret (OK tt)
      else mret (Err (Wrapf err "failed to delete associated CSPI(s):%s" []))
  end.

(** The body of the last loop of removeCSPCFinalizer. *)
Definition unfinalize_bdc (ns : string) (bdcItem : BlockDeviceClaim) : M W (result unit) :=
  let* r := call (rUpdate ns (drop_finalizer bdcItem)) in
  match r with
  | Err err => mret (Err (Wrapf err "failed to remove finalizers from bdc %s" [name bdcItem]))
  | OK _ => mret (OK tt)
  end.

(** When pool instances remain, the nil error of the list call is wrapped: the
    result is nil again. *)
Definition removeCSPCFinalizer (cspc : CStorPoolCluster) : M W (result unit) :=
  let* l := reads (λ w, GetCSPIListForCSPC w cspc) in
  match l with
  | Err err => mret (Err (Wrapf err "could not list cspi(s)" []))
  | OK cspiList =>
      let* r := cleanupCSPIResources cspiList in
      match r with
      | Err err => mret (Err (Wrapf err "failed to cleanup cspc" []))
      | OK _ =>
          let* l := reads (λ w, GetCSPIListForCSPC w cspc) in
          match l with
          | Err err => mret (Err (Wrapf err "could not list cspi(s)" []))
          | OK cspList =>
              if bool_decide (0 < length cspList) then mret (OK tt)
              else
                let* b := reads (λ w, rList (Obj:=BlockDeviceClaim) w (namespace cspc)
                            (CStorPoolClusterLabelKey +:+ "=" +:+ name cspc)) in
                match b with
                | Err err => mret (Err err)
                | OK bdcList =>
                    let* r := forE (unfinalize_bdc (namespace cspc)) bdcList in
                    match r with
                    | Err err => mret (Err err)
                    | OK _ =>
                        let* u := call (rUpdate (namespace cspc)
                                    (RemoveFinalizer CSPCFinalizer cspc)) in
                        match u with
                        | Err err =>
                            mret (Err (Wrapf err "failed to remove CSPC finalizer on cspc resource" []))
                        | OK _ => mret (OK tt)
                        end
                    end
                end
          end
      end
  end.

Definition handleCSPCDeletion (cspc : CStorPoolCluster) : M W (result unit) :=
  let* r := deleteAssociatedCSPI cspc in
  match r with
  | Err err => mret (Err (Wrapf err "failed to delete associated cspi(s)" []))
  | OK _ =>
      if HasFinalizer CSPCFinalizer cspc then
        let* r := removeCSPCFinalizer cspc in
        match r with
        | Err err => mret (Err (Wrapf err "failed to remove cspc finalizers on cspi objects" []))
        | OK _ => mret (OK tt)
        end
      else mret (OK tt)
  end.
End cleanup.

(** ** The writes of a cleanup *)

Section cleanup_facts.
Context {W : Type} `{OpenebsApi}.
Context `{!ResourceClient W CStorPoolInstance} `{!ResourceClient W CStorPoolCluster}
  `{!ResourceClient W BlockDeviceClaim}.
Implicit Types (w : W) (cspi : CStorPoolInstance).

(** The data devices of a pool instance. *)
Definition data_bds cspi : list string := rgs_bds (cspi_DataRaidGroups (cspi_Spec cspi)).

(** A pool instance is released when it is deleted, still has the finalizer of the
    cluster and its pool is destroyed. *)
Definition releasable cspi : Prop :=
  om_deletion (meta cspi) ≠ None ∧ CSPCFinalizer ∈ finalizers cspi ∧
  PoolProtectionFinalizer ∉ finalizers cspi.

Lemma canPerform_spec `{!OpenebsApiLaws} cspi :
  canPerformCSPICleanup cspi = true ↔ releasable cspi.
Proof.
  unfold canPerformCSPICleanup, releasable, isDestroyed, hasCSPCFinalizer,
    hasNoPoolProtectionFinalizer. cbn.
  rewrite !andb_true_iff, ContainsString_spec, !negb_true_iff, bool_decide_eq_false.
  rewrite <- (ContainsString_spec (finalizers cspi) PoolProtectionFinalizer), not_true_iff_false.
  tauto.
Qed.

(** One write of the cleanup of the pool instances [cspis]. *)
Inductive cleanup_step (cspis : list CStorPoolInstance) : W → W → Prop :=
| step_unfinalize_claim w cspi (bdc : BlockDeviceClaim) :
    cspi ∈ cspis → releasable cspi → bdc_BlockDeviceName bdc ∈ data_bds cspi →
    cleanup_step cspis w (rUpdate (namespace cspi) (drop_finalizer bdc) w).2
| step_delete_claim w0 w cspi (bdc obj : BlockDeviceClaim) :
    cspi ∈ cspis → releasable cspi → bdc_BlockDeviceName bdc ∈ data_bds cspi →
    rUpdate (namespace cspi) (drop_finalizer bdc) w0 = (OK obj, w) →
    cleanup_step cspis w (rDelete (Obj:=BlockDeviceClaim) (namespace cspi) (name obj) w).2
| step_unfinalize_pool w cspi :
    cspi ∈ cspis → releasable cspi →
    cleanup_step cspis w (rUpdate (namespace cspi) (drop_finalizer cspi) w).2.

Lemma release_bdc_steps cspis cspi (bdc : BlockDeviceClaim) w r w' :
  cspi ∈ cspis → releasable cspi → bdc_BlockDeviceName bdc ∈ data_bds cspi →
  release_bdc (namespace cspi) bdc w = (r, w') → rtc (cleanup_step cspis) w w'.
Proof.
  intros Hin Hrel Hbd. unfold release_bdc, mbind, M_bind, call.
  pose proof (step_unfinalize_claim cspis w cspi bdc Hin Hrel Hbd) as H1.
  destruct (rUpdate (namespace cspi) (drop_finalizer bdc) w) as [[obj|e] w1] eqn:Hu; cbn in H1.
  - pose proof (step_delete_claim cspis w w1 cspi bdc obj Hin Hrel Hbd Hu) as H2.
    destruct (rDelete (namespace cspi) (name obj) w1) as [[x|e] w2]; cbn in H2;
      intros [-> ->]%mret_run; eapply rtc_l; [done|by apply rtc_once|done|by apply rtc_once].
  - intros [-> ->]%mret_run. by apply rtc_once.
Qed.

Lemma cleanupBDC_steps cspis cspi w r w' :
  cspi ∈ cspis → releasable cspi → cleanupBDC cspi w = (r, w') → rtc (cleanup_step cspis) w w'.
Proof.
  intros Hin Hrel. unfold cleanupBDC. unfold mbind at 1, M_bind at 1, reads.
  destruct (rList w _ _) as [l|e]; [|by intros [-> ->]%mret_run].
  apply forE_steps. intros bdc w1 r1 w2 _.
  destruct (has _ _) eqn:Hh; [|by intros [-> ->]%mret_run].
  apply has_true, elem_of_names in Hh. by apply release_bdc_steps.
Qed.

Lemma cleanup_cspis_steps `{!OpenebsApiLaws} cspis items es w r w' :
  (∀ c, c ∈ items → c ∈ cspis) → cleanup_cspis items es w = (r, w') →
  rtc (cleanup_step cspis) w w'.
Proof.
  revert es w. induction items as [|c items IH]; intros es w Hsub; cbn [cleanup_cspis].
  { case_bool_decide; by intros [-> ->]%mret_run. }
  assert (∀ c', c' ∈ items → c' ∈ cspis) as Hsub' by set_solver.
  destruct (canPerformCSPICleanup c) eqn:Hc; [|destruct (isDestroyed c); by apply IH].
  apply canPerform_spec in Hc. assert (c ∈ cspis) as Hin by set_solver.
  unfold mbind, M_bind, call. destruct (cleanupBDC c w) as [o w1] eqn:Hb.
  apply (cleanupBDC_steps cspis) in Hb; [|done..].
  destruct o as [[u|e]|s]; [|by intros [-> ->]%mret_run|intros; by simplify_eq].
  pose proof (step_unfinalize_pool cspis w1 c Hin Hc) as Hs.
  destruct (rUpdate (namespace c) (drop_finalizer c) w1) as [[x|e] w2]; cbn in Hs.
  - intros Hr%IH; [|done]. etrans; [done|]. by eapply rtc_l.
  - intros [-> ->]%mret_run. by eapply rtc_r.
Qed.

(** An accepted cleanup leaves no pool instance that waits for its pool. *)
Lemma cleanup_cspis_OK `{!OpenebsApiLaws} items es w w' :
  cleanup_cspis items es w = (Ret (OK tt), w') →
  es = [] ∧ ∀ c, c ∈ items → om_deletion (meta c) ≠ None → releasable c.
Proof.
  revert es w. induction items as [|c items IH]; intros es w; cbn [cleanup_cspis].
  { destruct es; cbn; [split; [done|set_solver]|by intros [? _]%mret_run]. }
  destruct (canPerformCSPICleanup c) eqn:Hc.
  - apply canPerform_spec in Hc. unfold mbind, M_bind, call.
    destruct (cleanupBDC c w) as [[[u|e]|s] w1]; [|by intros [? _]%mret_run|done].
    destruct (rUpdate _ _ w1) as [[x|e] w2]; [|by intros [? _]%mret_run].
    intros [-> Hall]%IH. split; [done|]. set_solver.
  - destruct (isDestroyed c) eqn:Hd; intros [Hes Hall]%IH; [by apply app_nil in Hes as [_ ?]|].
    split; [done|]. intros c' [->|Hin]%elem_of_cons Hdel; [|by apply Hall].
    unfold isDestroyed in Hd. rewrite negb_false_iff, bool_decide_eq_true in Hd. done.
Qed.

(** *** Deletion of a cluster *)

(** A claim of the list [bdcs] loses the finalizer of the cluster. *)
Inductive unfinalize_step ns (bdcs : list BlockDeviceClaim) : W → W → Prop :=
| step_unfinalize w bdc :
    bdc ∈ bdcs → unfinalize_step ns bdcs w (rUpdate ns (drop_finalizer bdc) w).2.

Lemma unfinalize_steps ns bdcs w r w' :
  forE (unfinalize_bdc ns) bdcs w = (r, w') → rtc (unfinalize_step ns bdcs) w w'.
Proof.
  apply forE_steps. intros bdc w1 r1 w2 Hin. unfold unfinalize_bdc, mbind, M_bind, call.
  pose proof (step_unfinalize ns bdcs w1 bdc Hin) as Hs.
  destruct (rUpdate ns (drop_finalizer bdc) w1) as [[x|e] w3]; cbn in Hs;
    intros [-> ->]%mret_run; by apply rtc_once.
Qed.

(** Only pool instances and claims were written. *)
Definition cluster_kept (cspc : CStorPoolCluster) w w' : Prop :=
  w' = w ∨ ∃ cspis bdcs w1, GetCSPIListForCSPC w cspc = OK cspis ∧
    rtc (cleanup_step cspis) w w1 ∧ rtc (unfinalize_step (namespace cspc) bdcs) w1 w'.

(** The finalizer was removed after the pool instances were gone and the claims of
    the cluster were released. *)
Definition cluster_released (cspc : CStorPoolCluster) w w' : Prop :=
  ∃ cspis bdcs w1 w2, GetCSPIListForCSPC w cspc = OK cspis ∧
    (∀ c, c ∈ cspis → om_deletion (meta c) ≠ None → releasable c) ∧
    rtc (cleanup_step cspis) w w1 ∧ GetCSPIListForCSPC w1 cspc = OK [] ∧
    rList w1 (namespace cspc) (CStorPoolClusterLabelKey +:+ "=" +:+ name cspc) = OK bdcs ∧
    rtc (unfinalize_step (namespace cspc) bdcs) w1 w2 ∧
    w' = (rUpdate (namespace cspc) (RemoveFinalizer CSPCFinalizer cspc) w2).2.

Lemma removeCSPCFinalizer_run `{!OpenebsApiLaws} cspc w r w' :
  removeCSPCFinalizer cspc w = (r, w') → cluster_kept cspc w w' ∨ cluster_released cspc w w'.
Proof.
  unfold removeCSPCFinalizer, mbind, M_bind, reads, call.
  destruct (GetCSPIListForCSPC w cspc) as [cspis|] eqn:Hl; [|intros [-> ->]%mret_run; by left; left].
  destruct (cleanupCSPIResources cspis w) as [o w1] eqn:Hc.
  pose proof Hc as Hst. apply (cleanup_cspis_steps cspis) in Hst; [|done].
  assert (cluster_kept cspc w w1) as Hk by (right; by exists cspis, [], w1).
  destruct o as [[[]|e]|s]; [|intros [-> ->]%mret_run; by left|intros; simplify_eq; by left].
  apply cleanup_cspis_OK in Hc as [_ Hrel].
  destruct (GetCSPIListForCSPC w1 cspc) as [left_|] eqn:Hl1; [|intros [-> ->]%mret_run; by left].
  case_bool_decide as Hlen; [intros [-> ->]%mret_run; by left|].
  assert (left_ = []) as -> by (destruct left_; [done|cbn in Hlen; lia]).
  destruct (rList w1 _ _) as [bdcs|] eqn:Hb; [|intros [-> ->]%mret_run; by left].
  destruct (forE _ bdcs w1) as [o w2] eqn:Hf. apply unfinalize_steps in Hf.
  assert (cluster_kept cspc w w2) as Hk2 by (right; by exists cspis, bdcs, w1).
  destruct o as [[u|e]|s]; [|intros [-> ->]%mret_run; by left|intros; simplify_eq; by left].
  intros Hr. right. exists cspis, bdcs, w1, w2. split_and!; try done.
  destruct (rUpdate (namespace cspc) (RemoveFinalizer CSPCFinalizer cspc) w2) as [[x|e] w3];
    by apply mret_run in Hr as [_ ->].
Qed.

(** Pool instances that are not deleted are left alone. *)
Lemma cleanup_cspis_alive items w :
  Forall (λ c, om_deletion (meta c) = None) items →
  cleanup_cspis items [] w = (Ret (OK tt), w).
Proof.
  induction 1 as [|c items Hc _ IH]; [done|]. cbn [cleanup_cspis].
  assert (isDestroyed c = false) as Hd by (unfold isDestroyed; by rewrite Hc).
  unfold canPerformCSPICleanup. cbn [forallb]. by rewrite Hd.
Qed.

(** With pool instances left and none of them deleted, the finalizer stays and no
    error is reported. *)
Lemma removeCSPCFinalizer_silent cspc cspis w :
  GetCSPIListForCSPC w cspc = OK cspis → cspis ≠ [] →
  Forall (λ c, om_deletion (meta c) = None) cspis →
  removeCSPCFinalizer cspc w = (Ret (OK tt), w).
Proof.
  intros Hl Hne Ha. unfold removeCSPCFinalizer, mbind, M_bind, reads. rewrite Hl.
  unfold cleanupCSPIResources. rewrite cleanup_cspis_alive by done. rewrite Hl.
  rewrite bool_decide_eq_true_2; [done|]. destruct cspis; [done|cbn; lia].
Qed.

Lemma deleteAssociatedCSPI_world cspc w o w1 :
  deleteAssociatedCSPI cspc w = (o, w1) →
  w1 = (rDeleteCollection (Obj:=CStorPoolInstance) (namespace cspc)
          (CStorPoolClusterLabelKey +:+ "=" +:+ name cspc) w).2.
Proof.
  unfold deleteAssociatedCSPI, mbind, M_bind, call.
  destruct (rDeleteCollection _ _ w) as [[u|e] w2]; [|destruct (IsNotFound e)];
    by intros [_ ->]%mret_run.
Qed.

Lemma handleCSPCDeletion_run `{!OpenebsApiLaws} cspc w r w' :
  handleCSPCDeletion cspc w = (r, w') →
  let w1 := (rDeleteCollection (Obj:=CStorPoolInstance) (namespace cspc)
               (CStorPoolClusterLabelKey +:+ "=" +:+ name cspc) w).2 in
  cluster_kept cspc w1 w' ∨
  (CSPCFinalizer ∈ finalizers cspc ∧ cluster_released cspc w1 w').
Proof.
  unfold handleCSPCDeletion, mbind, M_bind. cbn zeta.
  destruct (deleteAssociatedCSPI cspc w) as [o w1] eqn:Hd.
  apply deleteAssociatedCSPI_world in Hd as <-.
  destruct o as [[u|e]|s]; [|intros [_ ->]%mret_run; by left; left|intros; simplify_eq; by left; left].
  destruct (HasFinalizer CSPCFinalizer cspc) eqn:Hf; [|intros [_ ->]%mret_run; by left; left].
  apply HasFinalizer_spec in Hf. destruct (removeCSPCFinalizer cspc w1) as [o w2] eqn:Hr.
  apply removeCSPCFinalizer_run in Hr. intros Heq.
  assert (w' = w2) as ->
    by (destruct o as [[?|?]|?]; [by apply mret_run in Heq as [_ ->]..|by simplify_eq]).
  naive_solver.
Qed.
End cleanup_facts.
