(* ===== verification/CspcOps.v ===== *)
(** * CspcOps: scaling, expansion and replacement of pools
      (pkg/controllers/cspc-controller/scale.go and operations.go)

    The operator creates missing pool instances, deletes the ones whose pool left
    the specification, adds new raid groups and stripe devices to pool instances and
    replaces block devices in them.  A pool instance that the code updates through a
    pointer is passed and returned; the raid group that getReplacedCSPIRaidGroup
    points into is given by its index, so that the assignment to its device list is
    seen in the pool instance. *)

From stdpp Require Import base gmap strings list sets relations.
From Stdlib Require Import Ascii ZArith Lia.
From S2P Require Import Prelude Api Version Webhook PoolOps Algorithm PoolDeploy CspcStatus.

(** ** Raid groups of a pool instance *)

Definition data_groups (cspi : CStorPoolInstance) : list RaidGroup :=
  cspi_DataRaidGroups (cspi_Spec cspi).

Definition isRaidGroupPresentOnCSPI (group : RaidGroup) (cspi : CStorPoolInstance) : bool :=
  let blockDeviceMap := names (rg_bds group) in
  existsb (λ cspiRaidGroup, existsb (has blockDeviceMap) (rg_bds cspiRaidGroup)) (data_groups cspi).

Definition getAddedBlockDevicesInGroup (groupOnCSPC groupOnCSPI : RaidGroup) : list string :=
  let bdPresentOnCSPI := names (rg_bds groupOnCSPI) in
  foldl (λ added bd, if negb (has bdPresentOnCSPI bd) then added ++ [bd] else added)
    [] (rg_bds groupOnCSPC).

Definition getBlockDeviceMapFromRaidGroups (raidGroups : list RaidGroup) : gset string :=
  names (rgs_bds raidGroups).

Definition isPoolSpecBlockDevicesGotReplaced (cspcPoolSpec : PoolSpec) (cspi : CStorPoolInstance)
  : bool :=
  let cspcBlockDeviceMap := getBlockDeviceMapFromRaidGroups (DataRaidGroups cspcPoolSpec) in
  existsb (λ rg, existsb (λ bd, negb (has cspcBlockDeviceMap bd)) (rg_bds rg)) (data_groups cspi).

(** The number of devices of a group that are not in the map. *)
Definition misMatchedBDCount (blockDeviceMap : gset string) (rg : RaidGroup) : nat :=
  foldl (λ n bd, if negb (has blockDeviceMap bd) then S n else n) 0 (rg_bds rg).

(** The index of the raid group the code returns a pointer to. *)
Definition getReplacedCSPIRaidGroup (cspcRaidGroup : RaidGroup) (cspi : CStorPoolInstance)
  : option nat :=
  let blockDeviceMap := names (rg_bds cspcRaidGroup) in
  first_such (λ i, match data_groups cspi !! i with
                   | Some rg => bool_decide (misMatchedBDCount blockDeviceMap rg = 1)
                   | None => false
                   end) (seq 0 (length (data_groups cspi))).

Definition new_device (bdName : string) : CStorPoolInstanceBlockDevice :=
  {| BlockDeviceName := bdName; bd_Capacity := 0; DevLink := "" |}.

(** [cspi.Spec.DataRaidGroups[i].CStorPoolInstanceBlockDevices = append(.., bd)] *)
Definition add_device (i : nat) (bdName : string) (cspi : CStorPoolInstance) : CStorPoolInstance :=
  with_data_groups
    (alter (λ rg, {| CStorPoolInstanceBlockDevices :=
                       CStorPoolInstanceBlockDevices rg ++ [new_device bdName] |}) i
       (data_groups cspi)) cspi.

Definition rename_device (newName : string) (bd : CStorPoolInstanceBlockDevice)
  : CStorPoolInstanceBlockDevice :=
  {| BlockDeviceName := newName; bd_Capacity := bd_Capacity bd; DevLink := DevLink bd |}.

(** The last loop of replaceExistingBlockDevice: the first device with the old name
    is renamed. *)
Fixpoint rename_first (oldName newName : string) (l : list CStorPoolInstanceBlockDevice)
  : list CStorPoolInstanceBlockDevice :=
  match l with
  | [] => []
  | bd :: l' =>
      if bool_decide (BlockDeviceName bd = oldName) then rename_device newName bd :: l'
      else bd :: rename_first oldName newName l'
  end.

Definition replace_device (i : nat) (oldName newName : string) (cspi : CStorPoolInstance)
  : CStorPoolInstance :=
  with_data_groups
    (alter (λ rg, {| CStorPoolInstanceBlockDevices :=
                       rename_first oldName newName (CStorPoolInstanceBlockDevices rg) |}) i
       (data_groups cspi)) cspi.

Definition isCSPISpecExist (cspcPoolSpecs : list PoolSpec) (cspiPoolSpec : CStorPoolInstanceSpec)
  : bool :=
  let bdMap := names (cspcPoolSpecs ≫= λ p, rgs_bds (DataRaidGroups p)) in
  existsb (λ raidGroup, existsb (has bdMap) (rg_bds raidGroup)) (cspi_DataRaidGroups cspiPoolSpec).

Section operations.
Context {W : Type} `{GoRuntime} `{OpenebsApi} `{BuildInfo} `{PodEnv} `{!Env W}.
Context `{!ResourceClient W Node} `{!ResourceClient W BlockDevice}
  `{!ResourceClient W BlockDeviceClaim} `{!ResourceClient W CStorPoolInstance}
  `{!ResourceClient W CStorPoolCluster} `{!ResourceClient W Deployment}.

(** ** Devices (operations.go) *)

Definition getCSPIWithNodeName (w : W) (ac : Config) (nodeName : string)
  : result CStorPoolInstance :=
  let cspiList := items_or_empty (list_cspis w ac) in
  match filter (λ c, HasNodeName nodeName c = true) cspiList with
  | [cspi] => OK cspi
  | _ => Err (Errorf "No CSPI(s) found" [])
  end.

(** The error of the Get call is overwritten: a failed Get leaves an empty device. *)
Definition isBDUsable (w : W) (ac : Config) (bdName : string) : result unit :=
  let bdObj := match rGet (Obj:=BlockDevice) w (ac_Namespace ac) bdName with
               | OK o => o
               | Err _ => bd_empty
               end in
  match IsClaimedBDUsable w ac bdObj with
  | Err err => Err (Wrapf err "bd %s cannot be used as could not get claim status" [bdName])
  | OK false => Err (Errorf "BD %s cannot be used as it is already claimed but not by cspc" [bdName])
  | OK true => OK tt
  end.

Definition ClaimBD (ac : Config) (bdName : string) : M W (result unit) :=
  let* r := reads (λ w, rGet (Obj:=BlockDevice) w (ac_Namespace ac) bdName) in
  match r with
  | Err err => mret (Err (Wrapf err "could not get bd object %s" [bdName]))
  | OK bdObj =>
      if bool_decide (bd_ClaimState bdObj = BlockDeviceClaimed) then mret (OK tt)
      else
        let* r := Algorithm.ClaimBD ac bdObj in
        match r with
        | Err err => mret (Err (Wrapf err "failed to claim bd %s" [bdName]))
        | OK _ => mret (OK tt)
        end
  end.

Definition ClaimBDList (ac : Config) (bdList : list string) : M W unit :=
  forM (λ bdName, let* _ := ClaimBD ac bdName in mret tt) bdList.

(** ** Expansion *)

(** The devices are added one by one, up to the first one that cannot be used. *)
Fixpoint add_usable (w : W) (ac : Config) (i : nat) (bds : list string)
  (cspi : CStorPoolInstance) : CStorPoolInstance :=
  match bds with
  | [] => cspi
  | bdName :: bds' =>
      match isBDUsable w ac bdName with
      | Err _ => cspi
      | OK _ => add_usable w ac i bds' (add_device i bdName cspi)
      end
  end.

Definition addBlockDeviceToGroup (ac : Config) (group : RaidGroup) (cspi : CStorPoolInstance)
  : M W CStorPoolInstance :=
  foldM (λ cspi i,
    match data_groups cspi !! i with
    | None => mret cspi
    | Some groupOnCSPI =>
        if isRaidGroupPresentOnCSPI group cspi &&
           bool_decide (length (rg_bds groupOnCSPI) < length (rg_bds group)) then
          let newBDs := getAddedBlockDevicesInGroup group groupOnCSPI in
          let* _ := ClaimBDList ac newBDs in
          reads (λ w, add_usable w ac i newBDs cspi)
        else mret cspi
    end) cspi (seq 0 (length (data_groups cspi))).

Definition expandExistingStripedGroup (ac : Config) (cspcPoolSpec : PoolSpec)
  (cspi : CStorPoolInstance) : M W CStorPoolInstance :=
  foldM (λ cspi cspcGroup,
    if negb (bool_decide (DataRaidGroupType (ps_PoolConfig cspcPoolSpec) = PoolStriped)) ||
       negb (isRaidGroupPresentOnCSPI cspcGroup cspi)
    then mret cspi
    else addBlockDeviceToGroup ac cspcGroup cspi) cspi (DataRaidGroups cspcPoolSpec).

(** The second loop over the devices of a new group. *)
Definition validGroup (w : W) (ac : Config) (rg : RaidGroup) : bool :=
  forallb (λ bd, match isBDUsable w ac bd with OK _ => true | Err _ => false end) (rg_bds rg).

Definition addGroupToPool (ac : Config) (cspcPoolSpec : PoolSpec) (cspi : CStorPoolInstance)
  : M W CStorPoolInstance :=
  foldM (λ cspi cspcRaidGroup,
    if negb (isRaidGroupPresentOnCSPI cspcRaidGroup cspi) then
      let* _ := forM (λ bdName, let* _ := ClaimBD ac bdName in mret tt) (rg_bds cspcRaidGroup) in
      reads (λ w, if validGroup w ac cspcRaidGroup
                  then with_data_groups (data_groups cspi ++ [cspcRaidGroup]) cspi
                  else cspi)
    else mret cspi) cspi (DataRaidGroups cspcPoolSpec).

(** The body of the loop of expandPool. *)
Definition expand_one (ac : Config) (pool : PoolSpec) : M W (result unit) :=
  let* r := lift (λ w, GetNodeFromLabelSelector w (NodeSelector pool)) in
  match r with
  | Err err => mret (Err (Wrapf err "could not get node name for node selector {%v} from cspc %s"
                            [name (ac_CSPC ac)]))
  | OK nodeName =>
      let* g := reads (λ w, getCSPIWithNodeName w ac nodeName) in
      match g with
      | Err err => mret (Err (Wrapf err "failed to get cspi with node name %s" [nodeName]))
      | OK cspiObj =>
          let* cspiObj :=
            if bool_decide (length (data_groups cspiObj) < length (DataRaidGroups pool))
            then addGroupToPool ac pool cspiObj else mret cspiObj in
          let* cspiObj := expandExistingStripedGroup ac pool cspiObj in
          let* _ := call (rUpdate (ac_Namespace ac) cspiObj) in
          mret (OK tt)
      end
  end.

Definition expandPool (ac : Config) : M W (result unit) :=
  forE (expand_one ac) (Pools (cspc_Spec (ac_CSPC ac))).

(** ** Replacement *)

Definition replaceExistingBlockDevice (w : W) (ac : Config) (cspcRaidGroup : RaidGroup)
  (cspiRaidGroup : RaidGroup) (i : nat) (cspi : CStorPoolInstance) : result CStorPoolInstance :=
  let cspiBlockDeviceMap := names (rg_bds cspiRaidGroup) in
  let cspcBlockDeviceMap := names (rg_bds cspcRaidGroup) in
  let oldBlockDeviceName :=
    default "" (first_such (λ bdName, negb (has cspcBlockDeviceMap bdName))
      ((go_range "oldBlockDevice" (gset_to_gmap true cspiBlockDeviceMap)).*1)) in
  let newBlockDeviceName :=
    default "" (first_such (λ bdName, negb (has cspiBlockDeviceMap bdName))
      ((go_range "newBlockDevice" (gset_to_gmap true cspcBlockDeviceMap)).*1)) in
  if bool_decide (oldBlockDeviceName = "") || bool_decide (newBlockDeviceName = "") then
    Err (Errorf "failed to find new block device {%s} or old block device {%s}"
           [oldBlockDeviceName; newBlockDeviceName])
  else
    match isBDUsable w ac newBlockDeviceName with
    | Err err => Err (Wrapf err "could not use bd %s for replacement" [newBlockDeviceName])
    | OK _ => OK (replace_device i oldBlockDeviceName newBlockDeviceName cspi)
    end.

Definition updateExistingCSPI (w : W) (ac : Config) (cspcPoolSpec : PoolSpec)
  (cspi : CStorPoolInstance) : CStorPoolInstance :=
  foldl (λ cspi cspcRaidGroup,
    match getReplacedCSPIRaidGroup cspcRaidGroup cspi with
    | None => cspi
    | Some i =>
        match data_groups cspi !! i with
        | None => cspi
        | Some cspiRaidGroup =>
            match replaceExistingBlockDevice w ac cspcRaidGroup cspiRaidGroup i cspi with
            | OK cspi' => cspi'
            | Err _ => cspi
            end
        end
    end) cspi (DataRaidGroups cspcPoolSpec).

(** The body of the loop of replaceBlockDevice. *)
Definition replace_one (ac : Config) (pool : PoolSpec) : M W (result unit) :=
  let* r := lift (λ w, GetNodeFromLabelSelector w (NodeSelector pool)) in
  match r with
  | Err err => mret (Err (Wrapf err "could not get node name for node selector {%v} from cspc %s"
                            [name (ac_CSPC ac)]))
  | OK nodeName =>
      let* g := reads (λ w, getCSPIWithNodeName w ac nodeName) in
      match g with
      | Err err => mret (Err (Wrapf err "failed to get cspi with node name %s" [nodeName]))
      | OK cspiObj =>
          if isPoolSpecBlockDevicesGotReplaced pool cspiObj then
            let* cspiObj := reads (λ w, updateExistingCSPI w ac pool cspiObj) in
            let* _ := call (rUpdate (ac_Namespace ac) cspiObj) in
            mret (OK tt)
          else mret (OK tt)
      end
  end.

Definition replaceBlockDevice (ac : Config) : M W (result unit) :=
  forE (replace_one ac) (Pools (cspc_Spec (ac_CSPC ac))).

Definition handleOperations (ac : Config) : M W unit :=
  let* _ := expandPool ac in
  let* _ := replaceBlockDevice ac in
  mret tt.

(** ** Scaling (scale.go) *)

Definition CreateCSPIDeployment (ac : Config) (cspi : CStorPoolInstance) : M W (result unit) :=
  let* r := call (rCreate (namespace cspi) (GetPoolDeploySpec ac cspi)) in
  match r with OK _ => mret (OK tt) | Err err => mret (Err err) end.

Definition CreateCSPI (ac : Config) (cspc : CStorPoolCluster) : M W (result unit * Config) :=
  let* (r, ac) := GetCSPISpec ac in
  match r with
  | Err err => mret (Err err, ac)
  | OK cspi =>
      let* c := call (rCreate (namespace cspc) cspi) in
      match c with
      | Err err => mret (Err err, ac)
      | OK cspi =>
          let* d := CreateCSPIDeployment ac cspi in
          mret (d, ac)
      end
  end.

Definition cspc_event (cspc : CStorPoolCluster) (ty reason message : string) (args : list string)
  : event :=
  {| ev_object := name cspc; ev_type := ty; ev_reason := reason; ev_message := message;
     ev_args := args |}.

(** The loop of ScaleUp, for the [pending] calls that are left. *)
Fixpoint scale_up_loop (ac : Config) (cspc : CStorPoolCluster) (pending : nat)
  (needsStatusUpdate : bool) : M W (bool * Config) :=
  match pending with
  | O => mret (needsStatusUpdate, ac)
  | S pending =>
      let* (r, ac) := CreateCSPI ac cspc in
      match r with
      | Err _ =>
          let* _ := emit (cspc_event cspc "Warning" "Create" "Pool provisioning failed for %d/%d " []) in
          scale_up_loop ac cspc pending needsStatusUpdate
      | OK _ =>
          let* _ := emit (cspc_event cspc "Normal" "Create" "Pool Provisioned %d/%d " []) in
          scale_up_loop ac cspc pending true
      end
  end.

Definition ScaleUp (ac : Config) (cspc : CStorPoolCluster) (pendingPoolCount : nat)
  : M W (Config * CStorPoolCluster) :=
  let* (needsStatusUpdate, ac) := scale_up_loop ac cspc pendingPoolCount false in
  match needsStatusUpdate with
  | true =>
      let* (_, cspc) := UpdateStatusEventually cspc in
      mret (ac, cspc)
  | false => mret (ac, cspc)
  end.

Definition createDeployForCSPList (ac : Config) (cspc : CStorPoolCluster)
  (cspList : list CStorPoolInstance) : M W unit :=
  forM (λ cspObj,
    let* r := CreateCSPIDeployment ac cspObj in
    match r with
    | OK _ => mret tt
    | Err _ => emit (cspc_event cspc "Warning" "PoolDeploymentCreate"
                       "Failed to create pool deployment for CSP %s: %s" [name cspObj])
    end) cspList.

(** The loop of getNodePresentOnCSPC. *)
Fixpoint nodes_present (w : W) (cspcName : string) (pools : list PoolSpec) (nodeMap : gset string)
  : outcome (result (gset string)) :=
  match pools with
  | [] => Ret (OK nodeMap)
  | pool :: pools' =>
      let* r := GetNodeFromLabelSelector w (NodeSelector pool) in
      match r with
      | Err err => Ret (Err (Wrapf err "could not get node name for node selector {%v} from cspc %s"
                               [cspcName]))
      | OK nodeName => nodes_present w cspcName pools' ({[nodeName]} ∪ nodeMap)
      end
  end.

Definition getNodePresentOnCSPC (w : W) (cspc : CStorPoolCluster)
  : outcome (result (gset string)) :=
  nodes_present w (name cspc) (Pools (cspc_Spec cspc)) ∅.

Definition getOrphanedCStorPools (w : W) (ac : Config) (cspc : CStorPoolCluster)
  : outcome (result (list string)) :=
  let* r := getNodePresentOnCSPC w cspc in
  match r with
  | Err err => Ret (Err (Wrapf err "could not get node names of pool config present on CSPC" []))
  | OK nodePresentOnCSPC =>
      match rList (Obj:=CStorPoolInstance) w (namespace cspc)
              (CStorPoolClusterLabelKey +:+ "=" +:+ name cspc) with
      | Err err => Ret (Err (Wrapf err "could not list CSP(s)" []))
      | OK cspList =>
          Ret (OK (foldl (λ orphanedCSPI cspiObj,
            if has nodePresentOnCSPC (cspi_HostName (cspi_Spec cspiObj)) ||
               isCSPISpecExist (Pools (cspc_Spec (ac_CSPC ac))) (cspi_Spec cspiObj)
            then orphanedCSPI
            else orphanedCSPI ++ [name cspiObj]) [] cspList))
      end
  end.

(** The body of the loop of ScaleDown. *)
Definition delete_orphan (cspc : CStorPoolCluster) (cspiName : string) : M W unit :=
  let* _ := emit (cspc_event cspc "Normal" "ScaleDown" ("De-provisioning pool " +:+ cspiName) []) in
  let* r := call (rDelete (Obj:=CStorPoolInstance) (namespace cspc) cspiName) in
  match r with
  | OK _ => mret tt
  | Err _ => emit (cspc_event cspc "Warning" "DownScale"
                     ("De-provisioning pool " +:+ cspiName +:+ "failed") [])
  end.

Definition ScaleDown (ac : Config) (cspc : CStorPoolCluster) : M W CStorPoolCluster :=
  let* r := lift (λ w, getOrphanedCStorPools w ac cspc) in
  match r with
  | Err _ =>
      let* _ := emit (cspc_event cspc "Warning" "DownScale" "Pool downscale failed " []) in
      mret cspc
  | OK orphanedCSPI =>
      let* _ := forM (delete_orphan cspc) orphanedCSPI in
      match orphanedCSPI with
      | [] => mret cspc
      | _ =>
          let* (_, cspc) := UpdateStatusEventually cspc in
          mret cspc
      end
  end.
End operations.

(** ** Orphaned pool instances *)

Lemma foldl_collect {A} (p : A → bool) (f : A → string) (l : list A) acc :
  foldl (λ acc x, if p x then acc else acc ++ [f x]) acc l =
  acc ++ (f <$> filter (λ x, p x = false) l).
Proof.
  revert acc. induction l as [|x l IH]; intros acc; cbn [foldl].
  { by rewrite filter_nil, app_nil_r. }
  rewrite IH, filter_cons. destruct (p x) eqn:Hp.
  - by rewrite decide_False by congruence.
  - rewrite decide_True by done. cbn. by rewrite <- app_assoc.
Qed.

Lemma has_group_device (s : gset string) (rgs : list RaidGroup) :
  existsb (λ rg, existsb (has s) (rg_bds rg)) rgs = true ↔ ∃ bd, bd ∈ rgs_bds rgs ∧ bd ∈ s.
Proof.
  rewrite existsb_true. setoid_rewrite existsb_true. setoid_rewrite has_true.
  setoid_rewrite elem_of_rgs_bds. naive_solver.
Qed.

Lemma isCSPISpecExist_spec pools spec :
  isCSPISpecExist pools spec = true ↔
  ∃ p bd, p ∈ pools ∧ bd ∈ rgs_bds (DataRaidGroups p) ∧ bd ∈ rgs_bds (cspi_DataRaidGroups spec).
Proof.
  unfold isCSPISpecExist. rewrite has_group_device. setoid_rewrite elem_of_names.
  split.
  - intros (bd & Hs & (p & Hbd & Hp)%list_elem_of_bind). by exists p, bd.
  - intros (p & bd & Hp & Hbd & Hs). exists bd. split; [done|]. apply list_elem_of_bind. by exists p.
Qed.

Lemma present_on_spec group cspi :
  isRaidGroupPresentOnCSPI group cspi = true ↔
  ∃ bd, bd ∈ rg_bds group ∧ bd ∈ rgs_bds (data_groups cspi).
Proof.
  unfold isRaidGroupPresentOnCSPI. rewrite has_group_device. setoid_rewrite elem_of_names.
  naive_solver.
Qed.

Section scale_facts.
Context {W : Type} `{GoRuntime} `{OpenebsApi} `{BuildInfo} `{PodEnv} `{!Env W}.
Context `{!ResourceClient W Node} `{!ResourceClient W BlockDevice}
  `{!ResourceClient W BlockDeviceClaim} `{!ResourceClient W CStorPoolInstance}
  `{!ResourceClient W CStorPoolCluster} `{!ResourceClient W Deployment}.
Implicit Types (w : W) (ac : Config) (cspc : CStorPoolCluster).

Lemma nodes_present_OK w n pools acc s :
  nodes_present w n pools acc = Ret (OK s) →
  ∀ x, x ∈ s ↔ x ∈ acc ∨ ∃ p, p ∈ pools ∧ selects w (NodeSelector p) x.
Proof.
  revert acc. induction pools as [|p pools IH]; intros acc Hr x; cbn in Hr; [set_solver|].
  apply outcome_bind_Ret in Hr as (v & Hv & Hr). destruct v as [node|]; [|done].
  rewrite (IH _ Hr), elem_of_union, elem_of_singleton. setoid_rewrite elem_of_cons.
  assert (selects w (NodeSelector p) x ↔ x = node) as Hp.
  { rewrite <- GetNode_OK, Hv. split; [by intros [= ->]|by intros ->]. }
  split; [intros [[->|?]|(p' & ? & ?)]|intros [?|(p' & [->|?] & Hx)]]; eauto 10.
  - right. exists p. split; [by left|by apply Hp].
  - left; left. by apply Hp.
Qed.

(** The pool instance belongs to no pool of the specification: neither its host
    nor one of its data devices is in it. *)
Definition orphan w ac cspc (c : CStorPoolInstance) : Prop :=
  (∀ p, p ∈ Pools (cspc_Spec cspc) → ¬ selects w (NodeSelector p) (cspi_HostName (cspi_Spec c))) ∧
  (∀ p bd, p ∈ Pools (cspc_Spec (ac_CSPC ac)) → bd ∈ rgs_bds (DataRaidGroups p) →
     bd ∉ rgs_bds (cspi_DataRaidGroups (cspi_Spec c))).

Lemma orphans_OK w ac cspc l :
  getOrphanedCStorPools w ac cspc = Ret (OK l) →
  ∃ cspis, GetCSPIListForCSPC w cspc = OK cspis ∧
    ∀ n, n ∈ l ↔ ∃ c, c ∈ cspis ∧ orphan w ac cspc c ∧ name c = n.
Proof.
  unfold getOrphanedCStorPools. intros Hr. apply outcome_bind_Ret in Hr as (v & Hv & Hr).
  destruct v as [nodes|]; [|done]. unfold GetCSPIListForCSPC.
  destruct (rList w _ _) as [cspis|]; [|done]. exists cspis. split; [done|].
  injection Hr as <-. intros n. rewrite foldl_collect. cbn. rewrite list_elem_of_fmap.
  setoid_rewrite list_elem_of_filter. setoid_rewrite orb_false_iff. setoid_rewrite has_false.
  setoid_rewrite (nodes_present_OK _ _ _ _ _ Hv). setoid_rewrite <- not_true_iff_false.
  setoid_rewrite isCSPISpecExist_spec. unfold orphan.
  split; [intros (c & -> & [Hh Hb] & Hin)|intros (c & Hin & [Hh Hb] & <-)]; exists c;
    split_and!; try done.
  - intros p Hp Hs. apply Hh. right. by exists p.
  - intros p bd Hp Hbd Hc. apply Hb. by exists p, bd.
  - intros [Hn|(p & Hp & Hs)]; [set_solver|]. by apply (Hh p).
  - intros (p & bd & Hp & Hbd & Hc). by apply (Hb p bd).
Qed.

(** One write of ScaleDown: the deletion of an orphan, or an event. *)
Inductive scale_down_step cspc (l : list string) : W → W → Prop :=
| step_event w e : scale_down_step cspc l w (Event e w)
| step_delete w n : n ∈ l →
    scale_down_step cspc l w (rDelete (Obj:=CStorPoolInstance) (namespace cspc) n w).2.

Lemma delete_orphan_steps cspc l n w r w' :
  n ∈ l → delete_orphan cspc n w = (r, w') → rtc (scale_down_step cspc l) w w'.
Proof.
  intros Hin. unfold delete_orphan, mbind, M_bind, emit, call.
  set (w1 := Event _ w). pose proof (step_delete cspc l w1 n Hin) as Hd.
  assert (rtc (scale_down_step cspc l) w w1) by (apply rtc_once; constructor).
  destruct (rDelete (namespace cspc) n w1) as [[u|e] w2]; cbn in Hd.
  - intros [_ ->]%mret_run. by eapply rtc_r.
  - intros Hr. simplify_eq. etrans; [by eapply rtc_r|]. apply rtc_once. constructor.
Qed.

Lemma ScaleDown_run ac cspc w r w' :
  ScaleDown ac cspc w = (Ret r, w') →
  ∃ l w1 k, rtc (scale_down_step cspc l) w w1 ∧ k ≤ 4 ∧ nsteps status_write k w1 w' ∧
    (l = [] ∨ getOrphanedCStorPools w ac cspc = Ret (OK l)).
Proof.
  unfold ScaleDown. unfold mbind at 1, M_bind at 1, lift.
  destruct (getOrphanedCStorPools w ac cspc) as [[l|e]|s] eqn:Ho; [| |done].
  - unfold mbind at 1, M_bind at 1. destruct (forM (delete_orphan cspc) l w) as [o w1] eqn:Hf.
    apply (forM_steps (scale_down_step cspc l)) in Hf;
      [|intros; by eapply delete_orphan_steps].
    destruct o as [u|s]; [|done]. destruct l as [|n l].
    { intros [_ ->]%mret_run. exists [], w1, 0. split_and!; [done|lia|constructor|by left]. }
    unfold mbind, M_bind.
    destruct (UpdateStatusEventually_run cspc w1) as (r' & c' & w2 & k & -> & Hk & Hs & _).
    intros [_ ->]%mret_run. exists (n :: l), w1, k. split_and!; [done..|by right].
  - unfold mbind, M_bind, emit. intros [_ ->]%mret_run. eexists [], _, 0.
    split_and!; [apply rtc_once; constructor|lia|constructor|by left].
Qed.

(** *** Provisioning *)

(** The pool instances created by a run, with the hosts they were created for. *)
Inductive provisions cspc : Config → W → list string → Config → W → Prop :=
| prov_done ac w : provisions cspc ac w [] ac w
| prov_event ac w e hs ac' w' :
    provisions cspc ac (Event e w) hs ac' w' → provisions cspc ac w hs ac' w'
| prov_claims ac w ac1 w1 hs ac' w' :
    advanced ac ac1 → w1 = w ∨ rtc (claim_step ac) (rand_String 4 w).2 w1 →
    provisions cspc ac1 w1 hs ac' w' → provisions cspc ac w hs ac' w'
| prov_pool ac w p n c ac1 x w2 w3 hs ac' w' :
    SelectNode w ac = Ret (OK (p, n), ac1) →
    Forall (claimed_by (rand_String 4 w).2 ac) (pool_bds p) → instance_of ac p n c →
    rCreate (namespace cspc) c (rand_String 4 w).2 = (x, w2) →
    w3 = w2 ∨ (∃ c', x = OK c' ∧ w3 = (rCreate (namespace c') (GetPoolDeploySpec ac1 c') w2).2) →
    provisions cspc ac1 w3 hs ac' w' →
    provisions cspc ac w (n :: hs) ac' w'.

Lemma GetCSPISpec_advanced ac w r ac1 w1 :
  GetCSPISpec ac w = (Ret (r, ac1), w1) → advanced ac ac1.
Proof.
  unfold GetCSPISpec, mbind, M_bind, lift, rand_string, call.
  destruct (SelectNode w ac) as [[[[p n]|e] ac2]|s] eqn:Hsel; [| |done];
    apply SelectNode_advanced in Hsel; [|by intros [[= _ ->] _]%mret_run].
  case_bool_decide; [by intros [[= _ ->] _]%mret_run|].
  destruct (rand_String 4 w) as [s w2].
  destruct (ClaimBDsForNode _ _ w2) as [[[u|e]|why] w3]; [by intros [[= _ ->] _]%mret_run..|done].
Qed.

Lemma CreateCSPI_provisions `{!OpenebsApiLaws} ac cspc w r ac1 w1 :
  CreateCSPI ac cspc w = (Ret (r, ac1), w1) →
  ∀ hs ac' w', provisions cspc ac1 w1 hs ac' w' →
  ∃ hs', length hs' ≤ S (length hs) ∧ provisions cspc ac w hs' ac' w'.
Proof.
  unfold CreateCSPI, mbind, M_bind, call. intros Hr hs ac' w' Hp.
  destruct (GetCSPISpec ac w) as [[[[c|e] ac2]|s] w2] eqn:Hg; [| |done];
    pose proof (GetCSPISpec_advanced _ _ _ _ _ Hg) as Hadv.
  - apply GetCSPISpec_OK in Hg as (p & n & Hsel & -> & Hcl & Hi).
    destruct (rCreate (namespace cspc) c (rand_String 4 w).2) as [x w3] eqn:Hc.
    exists (n :: hs). split; [done|]. destruct x as [c'|e].
    + unfold CreateCSPIDeployment, mbind, M_bind, call in Hr.
      destruct (rCreate (namespace c') (GetPoolDeploySpec ac2 c') w3) as [[d|d] w4] eqn:Hd;
        apply mret_run in Hr as [[= _ ->] ->];
        (eapply prov_pool; [exact Hsel|done|exact Hi|exact Hc| |exact Hp]);
        right; exists c'; by rewrite Hd.
    + apply mret_run in Hr as [[= _ ->] ->]. eapply prov_pool; try done. by left.
  - apply GetCSPISpec_steps in Hg. apply mret_run in Hr as [[= _ ->] ->].
    exists hs. split; [lia|]. by eapply prov_claims.
Qed.

Lemma scale_up_provisions `{!OpenebsApiLaws} ac cspc k b w b' ac' w' :
  scale_up_loop ac cspc k b w = (Ret (b', ac'), w') →
  ∃ hs, length hs ≤ k ∧ provisions cspc ac w hs ac' w'.
Proof.
  revert ac b w. induction k as [|k IH]; intros ac b w; cbn [scale_up_loop].
  { intros [[= _ ->] ->]%mret_run. exists []. split; [done|constructor]. }
  unfold mbind, M_bind, emit. destruct (CreateCSPI ac cspc w) as [[[r ac1]|s] w1] eqn:Hc; [|done].
  intros Hr. destruct r as [u|e]; apply IH in Hr as (hs & Hlen & Hp);
    destruct (CreateCSPI_provisions _ _ _ _ _ _ Hc _ _ _ (prov_event _ _ _ _ _ _ _ Hp))
      as (hs' & Hlen' & Hp'); exists hs'; (split; [lia|done]).
Qed.

(** No node is provisioned twice, nor one that was visited before. *)
Lemma provisions_distinct cspc ac w hs ac' w' :
  provisions cspc ac w hs ac' w' →
  NoDup hs ∧ advanced ac ac' ∧ ∀ n, n ∈ hs → n ∉ VisitedNodes ac ∧ n ∈ VisitedNodes ac'.
Proof.
  induction 1 as [ac w|ac w e hs ac' w' _ IH|ac w ac1 w1 hs ac' w' Hadv _ _ IH|
                  ac w p n c ac1 x w2 w3 hs ac' w' Hsel _ _ _ _ _ IH].
  - split_and!; [constructor|done..|set_solver].
  - done.
  - destruct IH as (Hn & Ha & Hv). destruct Hadv as (E1 & E2 & Hsub).
    split_and!; [done| |set_solver]. destruct Ha as (E3 & E4 & Hsub').
    split_and!; [congruence..|set_solver].
  - destruct IH as (Hn & (E3 & E4 & Hsub') & Hv).
    apply SelectNode_OK in Hsel as (_ & _ & _ & Hnv & Hv1 & (E1 & E2 & Hsub) & _).
    split_and!; [constructor; [|done]; naive_solver|split_and!; [congruence..|set_solver]|].
    intros m [->|Hm]%elem_of_cons; [set_solver|]. destruct (Hv m Hm). set_solver.
Qed.
End scale_facts.

(** ** Expansion only adds, replacement only exchanges *)

Section operations_facts.
Context {W : Type} `{GoRuntime} `{OpenebsApi} `{BuildInfo} `{PodEnv} `{!Env W}.
Context `{!ResourceClient W Node} `{!ResourceClient W BlockDevice}
  `{!ResourceClient W BlockDeviceClaim} `{!ResourceClient W CStorPoolInstance}
  `{!ResourceClient W CStorPoolCluster} `{!ResourceClient W Deployment}.
Implicit Types (w : W) (ac : Config) (cspi : CStorPoolInstance).

Lemma isBDUsable_claimed w ac bd : isBDUsable w ac bd = OK tt → claimed_by w ac bd.
Proof.
  unfold isBDUsable. destruct (rGet w (ac_Namespace ac) bd) as [o|e] eqn:Hg.
  - destruct (IsClaimedBDUsable w ac o) as [[]|] eqn:Hu; [|done..]. intros _.
    apply IsClaimedBDUsable_true in Hu as (Hs & c & bdc & ?). by exists o, c, bdc.
  - unfold IsClaimedBDUsable, IsBlockDeviceClaimed. cbn. by case_bool_decide.
Qed.

Lemma ClaimBD_claims `{!OpenebsApiLaws} ac bd w r w' :
  ClaimBD ac bd w = (r, w') → rtc (claim_step ac) w w'.
Proof.
  unfold ClaimBD, mbind, M_bind, reads.
  destruct (rGet w (ac_Namespace ac) bd) as [o|e] eqn:Hg; [|by intros [_ ->]%mret_run].
  case_bool_decide as Hc; [by intros [_ ->]%mret_run|].
  destruct (Algorithm.ClaimBD ac o w) as [c w1] eqn:Hcl. apply (ClaimBD_step _ bd) in Hcl; [|done..].
  destruct c as [[u|e]|s]; [by intros [_ ->]%mret_run..|intros; by simplify_eq].
Qed.

Lemma ClaimBDList_claims `{!OpenebsApiLaws} ac bds w r w' :
  ClaimBDList ac bds w = (r, w') → rtc (claim_step ac) w w'.
Proof.
  apply forM_steps. intros bd w1 r1 w2 _. unfold mbind, M_bind.
  destruct (ClaimBD ac bd w1) as [o w3] eqn:Hc. apply ClaimBD_claims in Hc.
  destruct o; [by intros [_ ->]%mret_run|intros; by simplify_eq].
Qed.

(** One step of the expansion of a pool instance. *)
Inductive grow_step ac (pool : PoolSpec) : W * CStorPoolInstance → W * CStorPoolInstance → Prop :=
| grow_claim w w' c : claim_step ac w w' → grow_step ac pool (w, c) (w', c)
| grow_group w c rg :
    rg ∈ DataRaidGroups pool → (∀ bd, bd ∈ rg_bds rg → bd ∉ rgs_bds (data_groups c)) →
    Forall (claimed_by w ac) (rg_bds rg) →
    grow_step ac pool (w, c) (w, with_data_groups (data_groups c ++ [rg]) c)
| grow_device w c i bd rg :
    rg ∈ DataRaidGroups pool → bd ∈ rg_bds rg → claimed_by w ac bd →
    grow_step ac pool (w, c) (w, add_device i bd c).

Lemma claims_grow ac pool w w' c :
  rtc (claim_step ac) w w' → rtc (grow_step ac pool) (w, c) (w', c).
Proof. induction 1; [done|]. eapply rtc_l; [by constructor|done]. Qed.

Lemma added_devices group onCSPI bd :
  bd ∈ getAddedBlockDevicesInGroup group onCSPI → bd ∈ rg_bds group.
Proof.
  unfold getAddedBlockDevicesInGroup.
  assert (∀ l acc, bd ∈ foldl (λ added bd, if negb (has (names (rg_bds onCSPI)) bd)
    then added ++ [bd] else added) acc l → bd ∈ acc ∨ bd ∈ l) as Hg.
  { induction l as [|x l IH]; intros acc; cbn; [by left|].
    intros [Hi|Hi]%IH; [|set_solver]. destruct (has _ x); cbn in Hi; set_solver. }
  intros [?|?]%Hg; [set_solver|done].
Qed.

Lemma add_usable_grows ac pool rg i bds w c :
  rg ∈ DataRaidGroups pool → (∀ bd, bd ∈ bds → bd ∈ rg_bds rg) →
  rtc (grow_step ac pool) (w, c) (w, add_usable w ac i bds c).
Proof.
  intros Hrg. revert c. induction bds as [|bd bds IH]; intros c Hin; cbn [add_usable]; [done|].
  destruct (isBDUsable w ac bd) as [[]|e] eqn:Hu; [|done]. apply isBDUsable_claimed in Hu.
  eapply rtc_l; [|apply IH; set_solver]. eapply grow_device; [done|set_solver|done].
Qed.

Lemma addBlockDeviceToGroup_grows `{!OpenebsApiLaws} ac pool rg c w c' w' :
  rg ∈ DataRaidGroups pool → addBlockDeviceToGroup ac rg c w = (Ret c', w') →
  rtc (grow_step ac pool) (w, c) (w', c').
Proof.
  intros Hrg. unfold addBlockDeviceToGroup. apply foldM_steps. intros i b w1 b' w2 _.
  destruct (data_groups b !! i) as [g|]; [|by intros [[= ->] ->]%mret_run].
  destruct (_ && _); [|by intros [[= ->] ->]%mret_run].
  unfold mbind, M_bind, reads. destruct (ClaimBDList ac _ w1) as [o w3] eqn:Hc.
  apply ClaimBDList_claims in Hc. destruct o as [u|s]; [|done]. intros [= <- <-].
  etrans; [by apply claims_grow|]. eapply add_usable_grows; [done|]. apply added_devices.
Qed.

Lemma expandExisting_grows `{!OpenebsApiLaws} ac pool c w c' w' :
  expandExistingStripedGroup ac pool c w = (Ret c', w') →
  rtc (grow_step ac pool) (w, c) (w', c').
Proof.
  unfold expandExistingStripedGroup. apply foldM_steps. intros rg b w1 b' w2 Hin.
  destruct (_ || _); [by intros [[= ->] ->]%mret_run|by apply addBlockDeviceToGroup_grows].
Qed.

Lemma validGroup_claimed w ac rg : validGroup w ac rg = true → Forall (claimed_by w ac) (rg_bds rg).
Proof.
  unfold validGroup. rewrite forallb_forall. intros Hv. apply Forall_forall. intros bd Hin.
  specialize (Hv bd). rewrite <- list_elem_of_In in Hv. apply Hv in Hin.
  destruct (isBDUsable w ac bd) as [[]|] eqn:Hu; [|done]. by apply isBDUsable_claimed.
Qed.

Lemma addGroupToPool_grows `{!OpenebsApiLaws} ac pool c w c' w' :
  addGroupToPool ac pool c w = (Ret c', w') → rtc (grow_step ac pool) (w, c) (w', c').
Proof.
  unfold addGroupToPool. apply foldM_steps. intros rg b w1 b' w2 Hin.
  destruct (isRaidGroupPresentOnCSPI rg b) eqn:Hp; cbn [negb]; [by intros [[= ->] ->]%mret_run|].
  unfold mbind at 1, M_bind at 1, reads.
  destruct (forM _ (rg_bds rg) w1) as [o w3] eqn:Hc.
  apply (ClaimBDList_claims ac) in Hc. destruct o as [u|s]; [|done]. intros [= <- <-].
  etrans; [by apply claims_grow|]. destruct (validGroup w3 ac rg) eqn:Hv; [|done].
  apply rtc_once. apply grow_group; [done| |by apply validGroup_claimed].
  rewrite <- not_true_iff_false, present_on_spec in Hp. intros bd Hbd Hd. apply Hp. eauto.
Qed.

(** Everything a pool instance has is kept in place; groups and devices are only
    appended. *)
Definition grown cspi cspi' : Prop :=
  cspi_meta cspi' = cspi_meta cspi ∧
  with_data_groups [] cspi' = with_data_groups [] cspi ∧
  ∀ i rg, data_groups cspi !! i = Some rg → ∃ rg' more, data_groups cspi' !! i = Some rg' ∧
    CStorPoolInstanceBlockDevices rg' = CStorPoolInstanceBlockDevices rg ++ more.

#[local] Instance grown_preorder : PreOrder grown.
Proof.
  split.
  - intros c. split_and!; try done. intros i rg Hi. exists rg, []. by rewrite app_nil_r.
  - intros c1 c2 c3 (E1 & E2 & H12) (E3 & E4 & H23). split_and!; [congruence..|].
    intros i rg (rg2 & m & Hi2 & Em)%H12. apply H23 in Hi2 as (rg3 & m' & Hi3 & Em').
    exists rg3, (m ++ m'). split; [done|]. by rewrite Em', Em, app_assoc.
Qed.

Lemma grow_step_grown ac pool x y : grow_step ac pool x y → grown x.2 y.2.
Proof.
  intros [w w' c Hc|w c rg Hrg Hnew Hcl|w c i bd rg Hrg Hbd Hcl]; cbn; [done|..].
  - split_and!; [done..|]. intros i rg0 Hi. exists rg0, []. rewrite app_nil_r. split; [|done].
    unfold data_groups at 1. cbn. by apply lookup_app_l_Some.
  - split_and!; [done..|]. intros j rg0 Hj. unfold add_device, data_groups at 1. cbn.
    destruct (decide (i = j)) as [->|Hne].
    + rewrite list_lookup_alter_eq, Hj. cbn. by eexists _, _.
    + rewrite list_lookup_alter_ne by done. exists rg0, []. by rewrite app_nil_r.
Qed.

Lemma grows_grown ac pool x y : rtc (grow_step ac pool) x y → grown x.2 y.2.
Proof. induction 1; [done|]. etrans; [by eapply grow_step_grown|done]. Qed.

(** *** Replacement *)

(** One device of one group gives way to a device of the group of the
    specification, which the cluster has claimed. *)
Inductive replace_step w ac (pool : PoolSpec) : CStorPoolInstance → CStorPoolInstance → Prop :=
| replace_device_step c i rg0 rg old new :
    rg0 ∈ DataRaidGroups pool → data_groups c !! i = Some rg →
    old ∈ rg_bds rg → old ∉ rg_bds rg0 → new ∈ rg_bds rg0 → new ∉ rg_bds rg →
    claimed_by w ac new →
    replace_step w ac pool c (replace_device i old new c).

Lemma range_name site s n :
  n ∈ (go_range site (gset_to_gmap true s)).*1 → n ∈ s.
Proof.
  intros ([k v] & -> & Hin)%list_elem_of_fmap. apply go_range_lookup in Hin.
  by apply lookup_gset_to_gmap_Some in Hin as [? _].
Qed.

Lemma default_found site (s t : gset string) n :
  default "" (first_such (λ bd, negb (has t bd)) ((go_range site (gset_to_gmap true s)).*1)) = n →
  n ≠ "" → n ∈ s ∧ n ∉ t.
Proof.
  destruct (first_such _ _) as [x|] eqn:Hf; cbn; [intros -> _|by intros <-].
  apply first_such_Some in Hf as [Hin Hn]. apply range_name in Hin.
  by rewrite negb_true_iff, has_false in Hn.
Qed.

Lemma replaceExisting_step w ac pool rg0 rg i c c' :
  rg0 ∈ DataRaidGroups pool → data_groups c !! i = Some rg →
  replaceExistingBlockDevice w ac rg0 rg i c = OK c' → replace_step w ac pool c c'.
Proof.
  intros Hin Hi. unfold replaceExistingBlockDevice.
  destruct (default "" (first_such _ ((go_range "oldBlockDevice" _).*1))) as [|] eqn:Ho; [done|].
  destruct (default "" (first_such _ ((go_range "newBlockDevice" _).*1))) as [|] eqn:Hn; [done|].
  rewrite !bool_decide_eq_false_2 by done. cbn.
  apply default_found in Ho as [Ho Ho']; [|done]. apply default_found in Hn as [Hn Hn']; [|done].
  rewrite elem_of_names in *.
  destruct (isBDUsable w ac _) as [[]|] eqn:Hu; [|done]. intros [= <-].
  apply isBDUsable_claimed in Hu. by econstructor.
Qed.

Lemma updateExisting_steps w ac pool c :
  rtc (replace_step w ac pool) c (updateExistingCSPI w ac pool c).
Proof.
  unfold updateExistingCSPI. set (f := λ c rg0, _).
  assert (∀ c rg0, rg0 ∈ DataRaidGroups pool → rtc (replace_step w ac pool) c (f c rg0)) as Hf.
  { intros c0 rg0 Hin. subst f. cbn.
    destruct (getReplacedCSPIRaidGroup rg0 c0) as [i|]; [|done].
    destruct (data_groups c0 !! i) as [rg|] eqn:Hi; [|done].
    destruct (replaceExistingBlockDevice w ac rg0 rg i c0) as [c1|] eqn:Hr; [|done].
    apply rtc_once. by eapply replaceExisting_step. }
  clearbody f. revert c. induction (DataRaidGroups pool) as [|rg l IH] in Hf |- *; intros c; [done|].
  cbn [foldl]. etrans; [apply (Hf c rg); set_solver|]. apply IH. intros c0 rg0 ?. apply Hf. set_solver.
Qed.

Lemma rename_first_names old new l :
  old ∈ (BlockDeviceName <$> l) →
  ∃ j, (BlockDeviceName <$> l) !! j = Some old ∧
    BlockDeviceName <$> rename_first old new l = <[j := new]> (BlockDeviceName <$> l).
Proof.
  induction l as [|bd l IH]; [set_solver|]. cbn. case_bool_decide as Hb.
  - intros _. exists 0. by rewrite Hb.
  - intros [->|Hin]%elem_of_cons; [done|]. destruct (IH Hin) as (j & Hj & Heq).
    exists (S j). cbn. by rewrite Heq.
Qed.

(** A replacement exchanges one name in one group and leaves the rest alone. *)
Definition exchanged cspi cspi' : Prop :=
  with_data_groups [] cspi' = with_data_groups [] cspi ∧
  ∃ i rg rg' j new, data_groups cspi !! i = Some rg ∧
    data_groups cspi' = <[i := rg']> (data_groups cspi) ∧ is_Some (rg_bds rg !! j) ∧
    rg_bds rg' = <[j := new]> (rg_bds rg).

Lemma replace_step_exchanged w ac pool c c' : replace_step w ac pool c c' → exchanged c c'.
Proof.
  intros [c0 i rg0 rg old new Hrg0 Hi Hold _ Hnew _ Hcl]. split; [done|].
  destruct (rename_first_names old new (CStorPoolInstanceBlockDevices rg) Hold) as (j & Hj & Heq).
  exists i, rg, {| CStorPoolInstanceBlockDevices :=
    rename_first old new (CStorPoolInstanceBlockDevices rg) |}, j, new.
  split; [done|]. split; [|split; [by eexists|exact Heq]].
  unfold replace_device, data_groups at 1. cbn. exact (list_alter_at _ _ _ _ Hi).
Qed.

(** *** All the writes of handleOperations *)

Inductive ops_step ac : W → W → Prop :=
| op_claim w w' : claim_step ac w w' → ops_step ac w w'
| op_expand w0 w pool n c c' :
    pool ∈ Pools (cspc_Spec (ac_CSPC ac)) → selects w0 (NodeSelector pool) n →
    getCSPIWithNodeName w0 ac n = OK c → rtc (grow_step ac pool) (w0, c) (w, c') →
    ops_step ac w (rUpdate (ac_Namespace ac) c' w).2
| op_replace w pool n c c' :
    pool ∈ Pools (cspc_Spec (ac_CSPC ac)) → selects w (NodeSelector pool) n →
    getCSPIWithNodeName w ac n = OK c → rtc (replace_step w ac pool) c c' →
    ops_step ac w (rUpdate (ac_Namespace ac) c' w).2.

(** The worlds of a growth are reached by claims. *)
Lemma grows_claims ac pool x y :
  rtc (grow_step ac pool) x y → rtc (ops_step ac) x.1 y.1.
Proof.
  induction 1 as [|x y z Hs _ IH]; [done|]. etrans; [|exact IH].
  destruct Hs; cbn; [apply rtc_once; by constructor|done..].
Qed.

Lemma expand_run_grows `{!OpenebsApiLaws} ac pool c w c' w' :
  (let* c := if bool_decide (length (data_groups c) < length (DataRaidGroups pool))
             then addGroupToPool ac pool c else mret c in
   expandExistingStripedGroup ac pool c) w = (Ret c', w') →
  rtc (grow_step ac pool) (w, c) (w', c').
Proof.
  intros (c1 & w1 & Hadd & Hex)%M_bind_Ret. apply expandExisting_grows in Hex.
  etrans; [|exact Hex]. case_bool_decide; [by apply addGroupToPool_grows|].
  by apply mret_run in Hadd as [[= ->] ->].
Qed.

Lemma expand_one_steps `{!OpenebsApiLaws} ac pool w r w' :
  pool ∈ Pools (cspc_Spec (ac_CSPC ac)) → expand_one ac pool w = (Ret r, w') →
  rtc (ops_step ac) w w'.
Proof.
  intros Hin. unfold expand_one. unfold mbind at 1, M_bind at 1, lift.
  destruct (GetNodeFromLabelSelector w (NodeSelector pool)) as [[n|e]|s] eqn:Hs;
    [|by intros [_ ->]%mret_run|done].
  apply GetNode_OK in Hs. unfold mbind at 1, M_bind at 1, reads.
  destruct (getCSPIWithNodeName w ac n) as [c|e] eqn:Hg; [|by intros [_ ->]%mret_run].
  intros (c1 & w1 & Hr1 & (c2 & w2 & Hr2 & Hr3)%M_bind_Ret)%M_bind_Ret.
  assert (rtc (grow_step ac pool) (w, c) (w2, c2)) as Hgr
    by (apply expand_run_grows, M_bind_Ret; eauto).
  unfold mbind, M_bind, call in Hr3.
  pose proof (op_expand ac w w2 pool n c c2 Hin Hs Hg Hgr) as Hop.
  destruct (rUpdate (ac_Namespace ac) c2 w2) as [u w3]. apply mret_run in Hr3 as [_ ->].
  eapply rtc_r; [|exact Hop]. by apply grows_claims in Hgr.
Qed.

Lemma replace_one_steps ac pool w r w' :
  pool ∈ Pools (cspc_Spec (ac_CSPC ac)) → replace_one ac pool w = (Ret r, w') →
  rtc (ops_step ac) w w'.
Proof.
  intros Hin. unfold replace_one. unfold mbind at 1, M_bind at 1, lift.
  destruct (GetNodeFromLabelSelector w (NodeSelector pool)) as [[n|e]|s] eqn:Hs;
    [|by intros [_ ->]%mret_run|done].
  apply GetNode_OK in Hs. unfold mbind at 1, M_bind at 1, reads.
  destruct (getCSPIWithNodeName w ac n) as [c|e] eqn:Hg; [|by intros [_ ->]%mret_run].
  destruct (isPoolSpecBlockDevicesGotReplaced pool c); [|by intros [_ ->]%mret_run].
  unfold mbind, M_bind, call.
  pose proof (op_replace ac w pool n c _ Hin Hs Hg (updateExisting_steps w ac pool c)) as Hop.
  destruct (rUpdate _ _ w) as [u w3]. intros [_ ->]%mret_run. by apply rtc_once.
Qed.

Lemma handleOperations_steps `{!OpenebsApiLaws} ac w w' :
  handleOperations ac w = (Ret tt, w') → rtc (ops_step ac) w w'.
Proof.
  unfold handleOperations. intros (r1 & w1 & Hr1 & (r2 & w2 & Hr2 & Hr3)%M_bind_Ret)%M_bind_Ret.
  apply mret_run in Hr3 as [_ ->]. etrans.
  - eapply forE_returns; [|exact Hr1]. intros p ????. by eapply expand_one_steps.
  - eapply forE_returns; [|exact Hr2]. intros p ????. by eapply replace_one_steps.
Qed.
End operations_facts.
