(* ===== verification/CspcSync.v ===== *)
(** * CspcSync: one reconciliation of a CStorPoolCluster
      (pkg/controllers/cspc-controller/sync.go and handler.go)

    The loop cleans up deleted pools, settles the version of the cluster, scales,
    propagates tunables, runs the operations on pools and writes the status.  Logging
    is left out; events are written to the world. *)

From stdpp Require Import base gmap strings list sets relations.
From Stdlib Require Import Ascii ZArith Lia.
From S2P Require Import Prelude Api Version Webhook PoolOps Algorithm PoolDeploy CspcStatus CspcCleanup CspcOps.

(** ** Assignments to the status of a cluster *)

Definition status_with_desired (n : Z) (s : CStorPoolClusterStatus) : CStorPoolClusterStatus :=
  {| ProvisionedInstances := ProvisionedInstances s; DesiredInstances := n;
     HealthyInstances := HealthyInstances s; Conditions := Conditions s |}.

Definition current_version_of (cspc : CStorPoolCluster) : string :=
  Current (vd_Status (cspc_VersionDetails cspc)).
Definition desired_version_of (cspc : CStorPoolCluster) : string :=
  Desired (cspc_VersionDetails cspc).

(** ** Defaults of the pool configuration *)

Definition defaultROThresholdLimit : Z := 85.

Definition defaultPoolConfig (cspi : CStorPoolInstance) (cspc : CStorPoolCluster)
  : CStorPoolInstance :=
  let pc := cspi_PoolConfig (cspi_Spec cspi) in
  let spec := cspc_Spec cspc in
  let pc' :=
    {| DataRaidGroupType := DataRaidGroupType pc;
       WriteCacheGroupType := WriteCacheGroupType pc;
       ThickProvision := ThickProvision pc;
       Compression := Compression pc;
       Resources := match Resources pc with None => DefaultResources spec | r => r end;
       AuxResources := match AuxResources pc with None => DefaultAuxResources spec | r => r end;
       Tolerations := match Tolerations pc with None => spec_Tolerations spec | t => t end;
       PriorityClassName := match PriorityClassName pc with
                            | None => Some (DefaultPriorityClassName spec)
                            | p => p
                            end;
       ROThresholdLimit := match ROThresholdLimit pc with
                           | None => Some defaultROThresholdLimit
                           | l => l
                           end |} in
  cspi_with_spec (spec_with_config pc' (cspi_Spec cspi)) cspi.

(** The lister of the controller and the key functions of client-go. *)
Class ControllerCache (W : Type) := {
  lister_Get : W → string → string → result CStorPoolCluster;
  SplitMetaNamespaceKey : string → result (string * string);
}.

Section sync.
Context {W : Type} `{GoRuntime} `{OpenebsApi} `{BuildInfo} `{PodEnv} `{!Env W}.
Context `{!ResourceClient W Node} `{!ResourceClient W BlockDevice}
  `{!ResourceClient W BlockDeviceClaim} `{!ResourceClient W CStorPoolInstance}
  `{!ResourceClient W CStorPoolCluster} `{!ResourceClient W Deployment}.

(** ** Versions *)

Definition EstimateCSPCVersion (w : W) (cspc : CStorPoolCluster) : result string :=
  match rList (Obj:=CStorPoolInstance) w (namespace cspc)
          (CStorPoolClusterLabelKey +:+ "=" +:+ name cspc) with
  | Err err => Err (Wrapf err "failed to get the cstorpool instance list related to cspc : %s"
                      [name cspc])
  | OK [] => OK current_version
  | OK (cspi :: _) => OK (label (labels cspi) OpenEBSVersionLabelKey)
  end.

(** The second component is the object the caller holds, which is assigned to. *)
Definition populateVersion (cspc : CStorPoolCluster)
  : M W (result CStorPoolCluster * CStorPoolCluster) :=
  if bool_decide (current_version_of cspc = "") then
    let* v := reads (λ w, EstimateCSPCVersion w cspc) in
    match v with
    | Err err => mret (Err err, cspc)
    | OK v =>
        let cspc := cspc_with_version (version_populated v (cspc_VersionDetails cspc)) cspc in
        let* r := call (rUpdate (namespace cspc) cspc) in
        match r with
        | Err err => mret (Err (Wrapf err "failed to update cspc %s while adding versiondetails"
                                  [name cspc]), cspc)
        | OK obj => mret (OK obj, cspc)
        end
    end
  else mret (OK cspc, cspc).

(** No release needs an upgrade function yet. *)
Definition upgradeMap : gmap string (CStorPoolCluster → M W (CStorPoolCluster * option error)) := ∅.

(** The second part of reconcileVersion: the upgrade and the success status. *)
Definition finish_upgrade (cspcObj : CStorPoolCluster) : M W (CStorPoolCluster * option error) :=
  let path := before_dash (current_version_of cspcObj) in
  let* (cspcObj, err) :=
    match upgradeMap !! path with
    | Some funcValue => funcValue cspcObj
    | None => mret (cspcObj, None)
    end in
  match err with
  | Some err => mret (cspcObj, Some err)
  | None =>
      let cspc := cspcObj in
      let cspcObj := cspc_with_version (SetSuccessStatus (cspc_VersionDetails cspcObj)) cspcObj in
      let* r := call (rUpdate (namespace cspcObj) cspcObj) in
      match r with
      | Err err => mret (cspc, Some (Wrapf err "failed to update CSPC" []))
      | OK cspcObj => mret (cspcObj, None)
      end
  end.

Definition reconcileVersion (cspc : CStorPoolCluster) : M W (CStorPoolCluster * option error) :=
  if bool_decide (current_version_of cspc = desired_version_of cspc) then mret (cspc, None)
  else
    let* valid := lift (λ _, IsCurrentVersionValid (current_version_of cspc)) in
    if negb valid then
      mret (cspc, Some (Errorf "invalid current version %s" [current_version_of cspc]))
    else if negb (IsDesiredVersionValid (desired_version_of cspc)) then
      mret (cspc, Some (Errorf "invalid desired version %s" [desired_version_of cspc]))
    else if negb (bool_decide (State (vd_Status (cspc_VersionDetails cspc)) = ReconcileInProgress))
    then
      let v := cspc_VersionDetails cspc in
      let cspcObj :=
        cspc_with_version (version_with_status (SetInProgressStatus (vd_Status v)) v) cspc in
      let* r := call (rUpdate (namespace cspcObj) cspcObj) in
      match r with
      | Err err => mret (cspc, Some err)
      | OK cspcObj => finish_upgrade cspcObj
      end
    else finish_upgrade cspc.

Definition ShouldReconcile (cspc : CStorPoolCluster) : verdict :=
  let cspcOperatorVersion := current_version in
  let cspcVersion := current_version_of cspc in
  if bool_decide (cspcVersion = "") then Valid
  else if negb (bool_decide (cspcVersion = cspcOperatorVersion)) then
    Invalid (Errorf "cspc operator version is %s but cspc version is %s"
               [cspcOperatorVersion; cspcVersion])
  else Valid.

Definition populateDesiredInstances (cspc : CStorPoolCluster) : M W (result CStorPoolCluster) :=
  let cspc := cspc_with_status
    (status_with_desired (int32 (Z.of_nat (length (Pools (cspc_Spec cspc))))) (cspc_Status cspc))
    cspc in
  let* r := call (rUpdate (namespace cspc) cspc) in
  match r with
  | Err err => mret (Err (Wrapf err "failed to update cspc %s while adding desired instances number in spec" [""]))
  | OK cspc => mret (OK cspc)
  end.

(** ** Propagating the specification to pool instances and deployments *)

Definition GetCSPIWithoutDeployment (w : W) (cspc : CStorPoolCluster)
  : result (list CStorPoolInstance) :=
  match rList (Obj:=CStorPoolInstance) w (namespace cspc)
          (CStorPoolClusterLabelKey +:+ "=" +:+ name cspc) with
  | Err err => Err (Wrapf err "could not list cspi for cspc {%s}" [name cspc])
  | OK cspiGotList =>
      OK (foldl (λ cspiList cspObj,
            match rGet (Obj:=Deployment) w (namespace cspc) (name cspObj) with
            | Err err => if IsNotFound err then cspiList ++ [cspObj] else cspiList
            | OK _ => cspiList
            end) [] cspiGotList)
  end.

Definition patchPoolDeploymentSpec (ac : Config) (cspi : CStorPoolInstance) : M W (result unit) :=
  let* g := reads (λ w, rGet (Obj:=Deployment) w (namespace cspi) (name cspi)) in
  match g with
  | Err err =>
      mret (Err (Wrapf err "failed to get corresponding pool manager deployment for cspi %s in namespace %s"
                   [name cspi; name cspi]))
  | OK existingDeployObj =>
      let newDeployObj := GetPoolDeploySpec ac cspi in
      match json_Marshal existingDeployObj with
      | Err err => mret (Err (Wrapf err "failed to marshal existing deployment object %s"
                                [name existingDeployObj]))
      | OK existingBytes =>
          match json_Marshal newDeployObj with
          | Err err =>
              mret (Err (Wrapf err "failed to marshal new deployment object for existing deployment %s"
                           [name existingDeployObj]))
          | OK newBytes =>
              match CreateTwoWayMergePatch existingBytes newBytes with
              | Err err => mret (Err (Wrapf err "could not compute two way patch data" []))
              | OK twoWayPatchData =>
                  match StrategicMergePatch existingBytes twoWayPatchData with
                  | Err err => mret (Err (Wrapf err "could not compute strategic patch data" []))
                  | OK strategicPatchData =>
                      let* r := call (rPatch (namespace cspi) (name existingDeployObj)
                                        strategicPatchData) in
                      match r with
                      | Err err => mret (Err (Wrapf err "failed to patch pool manager" []))
                      | OK _ => mret (OK tt)
                      end
                  end
              end
          end
      end
  end.

(** The pool specification of the pool instance: the first one with its node
    selector or with one of its data devices. *)
Definition pool_of (cspc : CStorPoolCluster) (cspi : CStorPoolInstance) : option PoolSpec :=
  first_such (λ poolSpec,
    bool_decide (NodeSelector poolSpec = cspi_NodeSelector (cspi_Spec cspi)) ||
    isCSPISpecExist [poolSpec] (cspi_Spec cspi)) (Pools (cspc_Spec cspc)).

Definition syncCSPIWithCSPC (ac : Config) (cspc : CStorPoolCluster) (cspi : CStorPoolInstance)
  : M W (result unit) :=
  let* r :=
    match pool_of cspc cspi with
    | None => mret (OK cspi)
    | Some poolSpec =>
        let cspiCopy := cspi_WithNodeSelector (NodeSelector poolSpec)
                          (cspi_WithPoolConfig (ps_PoolConfig poolSpec) cspi) in
        let cspiCopy := defaultPoolConfig cspiCopy cspc in
        let* h := lift (λ w, GetNodeFromLabelSelector w (cspi_NodeSelector (cspi_Spec cspiCopy))) in
        match h with
        | Err _ => mret (Err (Errorf "could not use node for selectors {%v}: {%s}" []))
        | OK hostName =>
            if bool_decide (hostName = "")
            then panic "invalid memory address or nil pointer dereference"
            else mret (OK (cspi_with_spec (spec_with_hostName hostName (cspi_Spec cspiCopy)) cspiCopy))
        end
    end in
  match r with
  | Err err => mret (Err err)
  | OK cspiCopy =>
      let* u := call (rUpdate (namespace cspiCopy) cspiCopy) in
      match u with
      | Err err => mret (Err err)
      | OK gotCSPI => patchPoolDeploymentSpec ac gotCSPI
      end
  end.

(** With no pool instance the nil error of the list call is wrapped: nil again. *)
Definition syncCSPI (ac : Config) (cspc : CStorPoolCluster) : M W (result unit) :=
  let* l := reads (λ w, GetCSPIListForCSPC w cspc) in
  match l with
  | Err err => mret (Err (Wrapf err "failed to sync cspi(s) from its parent cspc %s" [name cspc]))
  | OK cspiList =>
      let* _ := forM (λ cspi, let* _ := syncCSPIWithCSPC ac cspc cspi in mret tt) cspiList in
      mret (OK tt)
  end.

(** ** The reconciliation *)

(** The cleanup of the second part of sync; [false] ends the reconciliation. *)
Definition cleanup_pools (cspc : CStorPoolCluster) : M W bool :=
  let* l := reads (λ w, GetCSPIListForCSPC w cspc) in
  match l with
  | Err _ =>
      let* _ := emit (cspc_event cspc "Warning" "Pool Cleanup" "Could not sync CSPC: {%s}" []) in
      mret false
  | OK cspiList =>
      let* r := cleanupCSPIResources cspiList in
      match r with
      | Err _ =>
          let* _ := emit (cspc_event cspc "Warning" "Pool Cleanup" "Could not sync CSPC: {%s}" []) in
          mret false
      | OK _ => mret true
      end
  end.

(** The part of sync after the version and the desired number are settled. *)
Definition sync_pools (cspc cspcGot : CStorPoolCluster) (cspiList : list CStorPoolInstance)
  : M W (result unit) :=
  match Build (WithNameSpace (namespace cspcGot) (WithCSPC (Some cspcGot) NewBuilder)) with
  | Err err => mret (Err (Wrapf err "failed to build pool config for cspc :%s in namespace %s"
                            [name cspc; namespace cspc]))
  | OK ac =>
      let* (ac, cspcGot) :=
        if length cspiList <? length (Pools (cspc_Spec cspcGot)) then
          ScaleUp ac cspcGot (length (Pools (cspc_Spec cspcGot)) - length cspiList)
        else if length (Pools (cspc_Spec cspcGot)) <? length cspiList then
          let* cspcGot := ScaleDown ac cspcGot in mret (ac, cspcGot)
        else mret (ac, cspcGot) in
      let* r := reads (λ w, GetCSPIWithoutDeployment w cspcGot) in
      let* cspisWithoutDeployment :=
        match r with
        | Err _ =>
            let* _ := emit (cspc_event cspcGot "Warning" "Pool Create"
                              "Error in getting orphaned CSP :{%s}" []) in
            mret []
        | OK l => mret l
        end in
      let* _ := createDeployForCSPList ac cspcGot cspisWithoutDeployment in
      let* _ := syncCSPI ac cspcGot in
      let* _ := handleOperations ac in
      let* (r, cspcGot) := UpdateStatusEventually cspcGot in
      match r with
      | Err _ =>
          let* _ := emit (cspc_event cspcGot "Warning" "Status Update"
                            "Error in updating status:{%s}" []) in
          mret (OK tt)
      | OK _ => mret (OK tt)
      end
  end.

(** The part of sync after the cleanup. *)
Definition sync_versioned (cspc : CStorPoolCluster) (cspiList : list CStorPoolInstance)
  : M W (result unit) :=
  let* (r, cspc) := populateVersion cspc in
  match r with
  | Err _ => mret (OK tt)
  | OK cspcGot =>
      let* (cspcGot, err) := reconcileVersion cspcGot in
      match err with
      | Some err =>
          let* _ := emit (cspc_event cspc "Warning" "FailedUpgrade"
                            "Failed to upgrade cspc to %s version: %s" [desired_version_of cspcGot]) in
          let v := cspc_VersionDetails cspcGot in
          let cspcGot := cspc_with_version
            (version_with_status
               (SetErrorStatus "Failed to reconcile cspc version" err (vd_Status v)) v) cspcGot in
          let* _ := call (rUpdate (namespace cspcGot) cspcGot) in
          mret (OK tt)
      | None =>
          match ShouldReconcile cspc with
          | Invalid _ =>
              let* _ := emit (cspc_event cspc "Warning" "CSPC Reconcile"
                                "Can not reconcile CSPC %s as %s" [name cspc]) in
              mret (OK tt)
          | Valid =>
              let* d := populateDesiredInstances cspcGot in
              match d with
              | Err _ => mret (OK tt)
              | OK cspcGot =>
                  if HasFinalizer CSPCFinalizer cspcGot then sync_pools cspc cspcGot cspiList
                  else
                    let cspcGot := WithFinalizer CSPCFinalizer cspcGot in
                    let* u := call (rUpdate (namespace cspcGot) cspcGot) in
                    match u with
                    | Err _ => mret (OK tt)
                    | OK cspcGot => sync_pools cspc cspcGot cspiList
                    end
              end
          end
      end
  end.

Definition sync (cspc : CStorPoolCluster) (cspiList : list CStorPoolInstance)
  : M W (result unit) :=
  if negb (bool_decide (om_deletion (meta cspc) = None)) then
    let* r := handleCSPCDeletion cspc in
    match r with
    | Err _ =>
        let* _ := emit (cspc_event cspc "Warning" "CSPC Cleanup"
                          "Could not sync for CSPC:{%s} deletion" []) in
        mret (OK tt)
    | OK _ => mret (OK tt)
    end
  else
    let* go := cleanup_pools cspc in
    match go with
    | false => mret (OK tt)
    | true => sync_versioned cspc cspiList
    end.

(** handler.go: the error of the list call is not looked at. *)
Definition syncCSPC `{!ControllerCache W} (key : string) : M W (result unit) :=
  match SplitMetaNamespaceKey (W:=W) key with
  | Err _ => mret (OK tt)
  | OK (ns, n) =>
      let* g := reads (λ w, lister_Get w ns n) in
      match g with
      | Err err => if IsNotFound err then mret (OK tt) else mret (Err err)
      | OK cspc =>
          let* cspiList := reads (λ w, items_or_empty (GetCSPIListForCSPC w cspc)) in
          sync cspc cspiList
      end
  end.
End sync.

(** ** Defaults *)

(** The defaults used when a pool instance is created and when it is synced give the
    same configuration, unless a pool asks for no tolerations at all. *)
Lemma defaults_agree cspi cspc pc :
  let synced := defaultPoolConfig (cspi_with_spec (spec_with_config pc (cspi_Spec cspi)) cspi) cspc in
  cspi_PoolConfig (cspi_Spec synced) = creation_defaults (cspc_Spec cspc) pc ↔
  (Tolerations pc = Some [] → spec_Tolerations (cspc_Spec cspc) = Some []).
Proof.
  cbn. unfold creation_defaults. destruct pc as [rt wt th co rs ax tl pn ro]; cbn.
  split.
  - intros [=] ->. congruence.
  - intros Ht. f_equal. destruct tl as [[|t l]|]; [|done..]. symmetry. by apply Ht.
Qed.

(** Defaulting fills every tunable in, and a second time changes nothing. *)
Lemma defaults_idempotent cspi cspc :
  defaultPoolConfig (defaultPoolConfig cspi cspc) cspc = defaultPoolConfig cspi cspc.
Proof.
  unfold defaultPoolConfig, cspi_with_spec, spec_with_config. cbn.
  destruct (cspi_PoolConfig (cspi_Spec cspi)) as [rt wt th co rs ax tl pn ro]; cbn.
  do 2 f_equal. f_equal; by repeat case_match.
Qed.

Section sync_facts.
Context {W : Type} `{GoRuntime} `{OpenebsApi} `{BuildInfo} `{PodEnv} `{!Env W}.
Context `{!ResourceClient W Node} `{!ResourceClient W BlockDevice}
  `{!ResourceClient W BlockDeviceClaim} `{!ResourceClient W CStorPoolInstance}
  `{!ResourceClient W CStorPoolCluster} `{!ResourceClient W Deployment}.
Implicit Types (w : W) (cspc : CStorPoolCluster).

(** *** Versions *)

(** A version that may not be upgraded, or not to the desired one, is refused before
    anything is written. *)
Lemma reconcileVersion_refused cspc w :
  current_version_of cspc ≠ desired_version_of cspc →
  IsCurrentVersionValid (current_version_of cspc) = Ret false ∨
  (IsCurrentVersionValid (current_version_of cspc) = Ret true ∧
   IsDesiredVersionValid (desired_version_of cspc) = false) →
  ∃ e, reconcileVersion cspc w = (Ret (cspc, Some e), w).
Proof.
  intros Hne Hv. unfold reconcileVersion. rewrite bool_decide_eq_false_2 by done.
  unfold mbind, M_bind, lift. destruct Hv as [-> | [-> ->]]; by eexists.
Qed.

(** *** Deletion *)

Lemma sync_deleted `{!OpenebsApiLaws} cspc l w r w' :
  om_deletion (meta cspc) ≠ None → sync cspc l w = (Ret r, w') →
  r = OK tt ∧
  let w1 := (rDeleteCollection (Obj:=CStorPoolInstance) (namespace cspc)
               (CStorPoolClusterLabelKey +:+ "=" +:+ name cspc) w).2 in
  ∃ w2, (cluster_kept cspc w1 w2 ∨ (CSPCFinalizer ∈ finalizers cspc ∧ cluster_released cspc w1 w2)) ∧
    (w' = w2 ∨ ∃ e, w' = Event e w2).
Proof.
  intros Hd. unfold sync. rewrite bool_decide_eq_false_2 by done. cbn [negb].
  unfold mbind, M_bind. destruct (handleCSPCDeletion cspc w) as [o w2] eqn:Hh.
  apply handleCSPCDeletion_run in Hh. destruct o as [[u|e]|s]; [| |done].
  - intros [[= ->] ->]%mret_run. split; [done|]. exists w2. auto.
  - unfold emit. intros [[= ->] ->]%mret_run. split; [done|]. exists w2. split; [done|].
    right. by eexists.
Qed.

(** *** Clusters of another version *)

(** The world was only cleaned up, and events were recorded. *)
Inductive tidy_step cspc : W → W → Prop :=
| tidy_cleanup w w' cspis : cleanup_step cspis w w' → tidy_step cspc w w'
| tidy_event w e : tidy_step cspc w (Event e w).

Lemma cleanup_tidy cspc cspis w w' : rtc (cleanup_step cspis) w w' → rtc (tidy_step cspc) w w'.
Proof. induction 1; [done|]. eapply rtc_l; [by econstructor|done]. Qed.

Lemma cleanup_pools_tidy `{!OpenebsApiLaws} cspc w r w' :
  cleanup_pools cspc w = (r, w') → rtc (tidy_step cspc) w w'.
Proof.
  unfold cleanup_pools, mbind, M_bind, reads, emit.
  destruct (GetCSPIListForCSPC w cspc) as [cspis|e];
    [|intros [_ ->]%mret_run; apply rtc_once; constructor].
  destruct (cleanupCSPIResources cspis w) as [o w1] eqn:Hc.
  apply (cleanup_cspis_steps cspis) in Hc; [|done]. apply (cleanup_tidy cspc) in Hc.
  destruct o as [[u|e]|s]; [by intros [_ ->]%mret_run| |intros; by simplify_eq].
  intros [_ ->]%mret_run. eapply rtc_r; [done|]. constructor.
Qed.

(** A cluster of another version, settled at it, is neither scaled nor changed. *)
Lemma sync_foreign_version `{!OpenebsApiLaws} cspc l w r w' :
  om_deletion (meta cspc) = None → current_version_of cspc ≠ "" →
  current_version_of cspc = desired_version_of cspc →
  current_version_of cspc ≠ current_version →
  sync cspc l w = (Ret r, w') → r = OK tt ∧ rtc (tidy_step cspc) w w'.
Proof.
  intros Hd Hne Heq Hcur. unfold sync. rewrite bool_decide_eq_true_2 by done. cbn [negb].
  unfold mbind at 1, M_bind at 1. destruct (cleanup_pools cspc w) as [o w1] eqn:Hc.
  apply cleanup_pools_tidy in Hc. destruct o as [[]|s]; [| |done].
  - unfold sync_versioned, populateVersion. rewrite bool_decide_eq_false_2 by done.
    unfold mbind at 1, M_bind at 1, mret at 1, M_ret at 1.
    unfold reconcileVersion. rewrite bool_decide_eq_true_2 by done.
    unfold mbind at 1, M_bind at 1, mret at 1, M_ret at 1.
    unfold ShouldReconcile. rewrite bool_decide_eq_false_2 by done.
    rewrite bool_decide_eq_false_2 by done. cbn [negb]. unfold mbind, M_bind, emit.
    intros [[= ->] ->]%mret_run. split; [done|]. eapply rtc_r; [done|]. constructor.
  - intros [[= ->] ->]%mret_run. done.
Qed.

(** *** Propagation *)

(** The written pool instance keeps its identity and its raid groups; its
    configuration is that of its pool, with the defaults. *)
Definition propagated cspc (c c' : CStorPoolInstance) : Prop :=
  cspi_meta c' = cspi_meta c ∧
  cspi_DataRaidGroups (cspi_Spec c') = cspi_DataRaidGroups (cspi_Spec c) ∧
  cspi_WriteCacheRaidGroups (cspi_Spec c') = cspi_WriteCacheRaidGroups (cspi_Spec c) ∧
  match pool_of cspc c with
  | None => c' = c
  | Some p =>
      cspi_NodeSelector (cspi_Spec c') = NodeSelector p ∧
      cspi_PoolConfig (cspi_Spec c') = cspi_PoolConfig (cspi_Spec (defaultPoolConfig
        (cspi_with_spec (spec_with_config (ps_PoolConfig p) (cspi_Spec c)) c) cspc))
  end.

Lemma syncCSPIWithCSPC_writes `{!OpenebsApiLaws} ac cspc c w r w' :
  syncCSPIWithCSPC ac cspc c w = (r, w') →
  w' = w ∨ ∃ c' x w1, propagated cspc c c' ∧ rUpdate (namespace c) c' w = (x, w1) ∧
    (w' = w1 ∨ ∃ c2, x = OK c2 ∧ patchPoolDeploymentSpec ac c2 w1 = (r, w')).
Proof.
  assert (∀ c', propagated cspc c c' →
    (let* u := call (rUpdate (namespace c') c') in
     match u with Err err => mret (Err err) | OK got => patchPoolDeploymentSpec ac got end) w
      = (r, w') →
    ∃ c' x w1, propagated cspc c c' ∧ rUpdate (namespace c) c' w = (x, w1) ∧
      (w' = w1 ∨ ∃ c2, x = OK c2 ∧ patchPoolDeploymentSpec ac c2 w1 = (r, w'))) as Hup.
  { intros c' Hp. pose proof Hp as [Hm _]. unfold mbind, M_bind, call.
    assert (namespace c' = namespace c) as Hns by (unfold namespace; cbn; by rewrite Hm).
    destruct (rUpdate (namespace c') c' w) as [x w1] eqn:Hu. rewrite Hns in Hu.
    intros Hr. exists c', x, w1. split_and!; [done..|]. destruct x as [c2|e]; [by eauto|].
    apply mret_run in Hr as [_ ->]. by left. }
  unfold syncCSPIWithCSPC. destruct (pool_of cspc c) as [p|] eqn:Hpool.
  - intros Hr. unfold mbind at 1, M_bind at 1 in Hr. unfold mbind at 1, M_bind at 1, lift in Hr.
    destruct (GetNodeFromLabelSelector w _) as [[h|e]|s] in Hr; cbn in Hr;
      [|left; by apply mret_run in Hr as [_ ->]|left; by simplify_eq].
    case_bool_decide; cbn in Hr; [left; by simplify_eq|]. right.
    eapply Hup; [|exact Hr]. unfold propagated. rewrite Hpool.
    rewrite cspi_WithNodeSelector_spec, cspi_WithPoolConfig_spec. by split_and!.
  - intros Hr. right. apply (Hup c); [|exact Hr]. unfold propagated. by rewrite Hpool.
Qed.
End sync_facts.
