(* ===== verification/VolumeReplica.v ===== *)
(** * VolumeReplica: the replicas of volumes in zfs (pkg/volumereplica/volumereplica.go)

    The commands that create, inspect and delete the dataset of a volume replica, the mapping
    of their outputs to the status of a CStorVolumeReplica, and the lists of snapshots.  The
    errors that a debug build injects (pkg/debug) do not occur in a release build and are not
    part of the model; nor are the log messages. *)

From stdpp Require Import base gmap strings list sets pretty.
From Stdlib Require Import Ascii ZArith Lia.
From coqutil Require Import Datatypes.RecordSetters.
From S2P Require Import Prelude Api VolumeApi Zcmd Zpool Zfs PoolApi VolumeOps.
Import DoubleBraceUpdate.

Definition VolumeReplicaOperator : string := "zfs".
Definition ExecuteScript : string := "/usr/local/bin/execute.sh".
Definition BinaryCapacityUnitSuffix : string := "i".
Definition CreateCmd : string := "create".
Definition CloneCmd : string := "clone".
Definition BackupCmd : string := "send".
Definition RestoreCmd : string := "recv".
Definition ZfsStatusDegraded : string := "Degraded".
Definition ZfsStatusOffline : string := "Offline".
Definition ZfsStatusHealthy : string := "Healthy".
Definition ZfsStatusRebuilding : string := "Rebuilding".
Definition MaxBackupRetryCount : nat := 10.
Definition MaxRestoreRetryCount : nat := 10.
Definition IsRestoreVol : string := "isRestoreVol".
Definition PvNameKey : string := "cstorvolume.openebs.io/name".
Definition PoolPrefix : string := "cstor-".
Definition rebuildCloneSuffix : string := "_rebuild_clone".

(** Assignments to a replica. *)
Definition cvr_with_status (s : CStorVolumeReplicaStatus) (r : CStorVolumeReplica) : CStorVolumeReplica :=
  r {{ cvr_Status := s }}.
Definition cvr_with_phase (p : string) (r : CStorVolumeReplica) : CStorVolumeReplica :=
  cvr_with_status ((cvr_Status r) {{ rs_Phase := p }}) r.
Definition cvr_with_snapshots (m : gmap string CStorSnapshotInfo) (r : CStorVolumeReplica)
  : CStorVolumeReplica := cvr_with_status ((cvr_Status r) {{ rs_Snapshots := m }}) r.
Definition cvr_with_pending (m : gmap string CStorSnapshotInfo) (r : CStorVolumeReplica)
  : CStorVolumeReplica := cvr_with_status ((cvr_Status r) {{ rs_PendingSnapshots := m }}) r.

Section replica.
Context {W : Type} `{OpenebsApi} `{VolumeApi} `{PoolApi} `{PodEnv} `{GoRuntime} `{ZJson}.
Context `{!Shell W} `{!Runner W} `{!Env W} `{!ResourceClient W CStorVolumeReplica}.

(** ** Reading properties and statistics *)

Definition GetListOfPropertyValues (dataSetName : string) (propertyList : list string)
  (executor : option executor) : M W (result (list string)) :=
  let* (ret, err) :=
    vget.Execute (vget.WithExecutor executor (vget.WithDataset dataSetName
      (vget.WithPropertyList propertyList (vget.WithField "value"
        (vget.WithScriptedMode true vget.NewVolumeGetProperty))))) in
  match err with
  | Some err => mret (Err err)
  | None => mret (OK (lines ret))
  end.

Definition GetStats (executor : option executor) : M W (result ZFSStats) :=
  let* r := vstats.Execute (vstats.WithExecutor executor vstats.NewVolumeStats) in
  mret (wrap_result r "failed to execute zfs stats" []).

(** The pool itself and the clones of zrepl are no replicas. *)
Definition is_replica (dataSetName : string) : bool :=
  strings_Contains dataSetName "/" && negb (strings_Contains dataSetName rebuildCloneSuffix).

Definition getReplicaDataSets (executor : option executor) : M W (result (list string)) :=
  let* (ret, err) :=
    vlist.Execute (vlist.WithExecutor executor (vlist.WithProperty "name"
      (vlist.WithScriptedMode true vlist.NewVolumeList))) in
  match err with
  | Some err => mret (Err (Wrapf err "failed to get replicas present in the pool" []))
  | None => mret (OK (filter (λ d, is_replica d = true) (lines ret)))
  end.

Definition count_healthy (l : list Stats) : Z :=
  foldl (λ cnt s, if bool_decide (stats_Status s = ZfsStatusHealthy) then int32 (cnt + 1) else cnt)
    0%Z l.

Definition GetProvisionedAndHealthyReplicaCount (executor : option executor)
  : M W (result (Z * Z)) :=
  let* r := getReplicaDataSets executor in
  match r with
  | Err err => mret (Err (Wrapf err "unable to get replicas in pool" []))
  | OK replicaList =>
      let* s := GetStats executor in
      match s with
      | Err err => mret (Err (Wrapf err "Unable to get stats of volume replicas" []))
      | OK st =>
          mret (OK (int32 (Z.of_nat (length replicaList)), count_healthy (zfs_Stats st)))
      end
  end.

Definition ZfsToCvrStatusMapper (zfsstatus : string) (quorum : Z) : string :=
  if bool_decide (zfsstatus = ZfsStatusHealthy) then CVRStatusOnline
  else if bool_decide (zfsstatus = ZfsStatusOffline) then CVRStatusOffline
  else if bool_decide (zfsstatus = ZfsStatusDegraded) then
    if (quorum =? 1)%Z then CVRStatusDegraded else CVRStatusNewReplicaDegraded
  else if bool_decide (zfsstatus = ZfsStatusRebuilding) then
    if (quorum =? 1)%Z then CVRStatusRebuilding else CVRStatusReconstructingNewReplica
  else CVRStatusError.

(** The quorum is read from the first statistics even when there are none. *)
Definition Status (volumeName : string) : M W (result string) :=
  let* r := vstats.Execute (vstats.WithDataset volumeName vstats.NewVolumeStats) in
  match r with
  | Err _ => mret (Err (Errorf "Unable to get volume stats for volume %s : %s" [volumeName]))
  | OK volumeStats =>
      let volumeStatus :=
        match zfs_Stats volumeStats with s :: _ => stats_Status s | [] => "" end in
      let* s := lift (λ _, slice_at (zfs_Stats volumeStats) 0) in
      mret (OK (ZfsToCvrStatusMapper volumeStatus (Quorum s)))
  end.

(** ** Creating a replica *)

Definition GetPoolName : string :=
  let poolname := os_Getenv "OPENEBS_IO_POOL_NAME" in
  if bool_decide (TrimSpace poolname = "") then "" else PoolPrefix +:+ poolname.

Definition empty (s : string) : bool := bool_decide (s = "").

Definition CheckValidVolumeReplica (cVR : CStorVolumeReplica) : option error :=
  let pool := label (labels cVR) "cstorpool.openebs.io/uid" in
  let instance := label (labels cVR) "cstorpoolinstance.openebs.io/uid" in
  if empty (label (labels cVR) "cstorvolume.openebs.io/name") then
    Some (Errorf "Volume Name/UID cannot be empty" [])
  else if empty (cvr_TargetIP cVR) then Some (Errorf "TargetIP cannot be empty" [])
  else if empty (cvr_Capacity cVR) then Some (Errorf "Capacity cannot be empty" [])
  else if empty pool && empty instance then Some (Errorf "Pool cannot be empty" [])
  else if negb (empty pool) && negb (empty instance) then
    Some (Errorf "Both pool types related labels are available" [])
  else None.

(** strings.TrimSuffix of the unit suffix *)
Definition drop_last (s : string) : string := String.substring 0 (String.length s - 1) s.
Definition parseCapacityUnit (capacity : string) : string :=
  if strings_HasSuffix capacity BinaryCapacityUnitSuffix then drop_last capacity else capacity.

Definition buildVolumeCreateCommand (cvr : CStorVolumeReplica) (fullVolName : string)
  (quorum : bool) : list string :=
  let openebsVolname := "io.openebs:volname=" +:+ name cvr in
  let openebsTargetIP := "io.openebs:targetip=" +:+ cvr_TargetIP cvr in
  let openebsZvolWorkers := "io.openebs:zvol_workers=" +:+ cvr_ZvolWorkers cvr in
  let openebsZvolID := "io.openebs:zvol_replica_id=" +:+ cvr_ReplicaID cvr in
  let quorumValue := if quorum then "quorum=on" else "quorum=off" in
  [CreateCmd; "-b"; "4K"; "-s"; "-o"; "compression=on"; "-o"; quorumValue; "-o"; openebsZvolID;
   "-o"; openebsVolname] ++
  (if empty (cvr_ZvolWorkers cvr) then [] else ["-o"; openebsZvolWorkers]) ++
  (if bool_decide (label (annotations cvr) IsRestoreVol = "true") then []
   else ["-o"; openebsTargetIP]) ++
  ["-V"; cvr_Capacity cvr; fullVolName].

Definition buildVolumeCloneCommand (cvr : CStorVolumeReplica) (snapName fullVolName : string)
  : list string :=
  let openebsVolname := "io.openebs:volname=" +:+ name cvr in
  let openebsTargetIP := "io.openebs:targetip=" +:+ cvr_TargetIP cvr in
  let openebsZvolWorkers := "io.openebs:zvol_workers=" +:+ cvr_ZvolWorkers cvr in
  let openebsZvolID := "io.openebs:zvol_replica_id=" +:+ cvr_ReplicaID cvr in
  if negb (empty (cvr_ZvolWorkers cvr)) then
    [CloneCmd; "-o"; "compression=on"; "-o"; openebsTargetIP; "-o"; "quorum=on"; "-o";
     openebsZvolWorkers; "-o"; openebsVolname; "-o"; openebsZvolID; snapName; fullVolName]
  else
    [CloneCmd; "-o"; "compression=on"; "-o"; openebsTargetIP; "-o"; "quorum=on"; "-o";
     openebsZvolID; "-o"; openebsVolname; snapName; fullVolName].

Definition is_clone (cvr : CStorVolumeReplica) : bool :=
  bool_decide (label (labels cvr) CloneEnableKEY = "true").

(** The arguments of zfs and the replica, whose capacity loses its unit suffix unless it is a
    clone. *)
Definition creation (cvr : CStorVolumeReplica) (fullVolName : string) (quorum : bool)
  : list string * CStorVolumeReplica :=
  if is_clone cvr then
    let srcVolume := label (annotations cvr) SourceVolumeKey in
    let snapName := label (annotations cvr) SnapshotNameKey in
    let dataset := default "" (head (split_on "/"%char fullVolName)) in
    (buildVolumeCloneCommand cvr (dataset +:+ "/" +:+ srcVolume +:+ "@" +:+ snapName) fullVolName, cvr)
  else
    let cvr := cvr {{ cvr_Capacity := parseCapacityUnit (cvr_Capacity cvr) }} in
    (buildVolumeCreateCommand cvr fullVolName quorum, cvr).

Definition CreateVolumeReplica (cvr : CStorVolumeReplica) (fullVolName : string) (quorum : bool)
  : M W (CStorVolumeReplica * option error) :=
  let '(cmd, cvr) := creation cvr fullVolName quorum in
  let* (_, err) := call (RunCombinedOutput VolumeReplicaOperator cmd) in
  match err with
  | Some err => mret (cvr, Some (Wrapf err "failed to create volume: %s" [fullVolName]))
  | None => mret (cvr, None)
  end.

Definition SetTargetIp (fullVolName targetIp : string) : M W (option error) :=
  let* (out, err) :=
    vset.Execute (vset.WithDataset fullVolName
      (vset.WithProperty "io.openebs:targetip" targetIp vset.NewVolumeSetProperty)) in
  match err with
  | Some err => mret (Some (Wrapf err "failed to set target ip to %s %s" [fullVolName; out]))
  | None => mret None
  end.

(** The first line of the value of a property. *)
Definition first_line (s : string) : string := default "" (head (lines s)).
Definition get_value (prop dataset : string) : M W output :=
  vget.Execute (vget.WithDataset dataset (vget.WithProperty prop (vget.WithField "value"
    (vget.WithParsableMode true (vget.WithScriptedMode true vget.NewVolumeGetProperty))))).

Definition GetTargetIp (fullVolName : string) : M W (result string) :=
  let* (ret, err) := get_value "io.openebs:targetip" fullVolName in
  match err with
  | Some err => mret (Err (Wrapf err "failed to get target ip: %s" [fullVolName]))
  | None => mret (OK (first_line ret))
  end.

(** ** Listing, deleting, capacity and name *)

(** An error or an empty output gives no volumes, with the error that there is. *)
Definition GetVolumes : M W (list string * option error) :=
  let* (volnameByte, err) :=
    call (RunStdoutPipe VolumeReplicaOperator ["get"; "-Hp"; "name"; "-o"; "name"]) in
  match err with
  | Some err => mret ([], Some err)
  | None =>
      if empty volnameByte then mret ([], None)
      else mret (TrimSpace <$> lines volnameByte, None)
  end.

Definition DeleteVolume (fullVolName : string) : M W (option error) :=
  let* (stdoutStderr, err) :=
    call (RunCombinedOutput VolumeReplicaOperator ["destroy"; "-R"; fullVolName]) in
  match err with
  | Some err =>
      if strings_Contains stdoutStderr "dataset does not exist" then mret None
      else mret (Some (Wrapf err "failed to delete volume.. %s" [stdoutStderr]))
  | None => mret None
  end.

(** cstor.CStorVolumeReplicaCapacityDetails, as the pair of Total and Used. *)
Definition capacityOutputParser (output : string) : string * string :=
  if bool_decide (TrimSpace output = "") then ("", "")
  else
    match lines output with
    | _ :: l1 :: l2 :: _ =>
        match strings_Fields l1, strings_Fields l2 with
        | [_; _; total; _], [_; _; used; _] => (TrimSpace total, TrimSpace used)
        | _, _ => ("", "")
        end
    | _ => ("", "")
    end.

Definition Capacity (volName : string) : M W (result (string * string)) :=
  let* (stdoutStderr, err) :=
    call (RunCombinedOutput VolumeReplicaOperator ["get"; "used,logicalreferenced"; volName]) in
  match err with
  | Some err => mret (Err err)
  | None =>
      let '(total, used) := capacityOutputParser stdoutStderr in
      if bool_decide (TrimSpace total = "") || bool_decide (TrimSpace used = "") then
        mret (Err (Errorf "unable to get volume capacity from capacity parser" []))
      else mret (OK (total, used))
  end.

(** A replica without labels has no name of its volume either: the two messages differ. *)
Definition GetVolumeName (cVR : CStorVolumeReplica) : result string :=
  if bool_decide (labels cVR = ∅) then Err (Errorf "no labels found on cvr object" [])
  else
    let pvName := label (labels cVR) PvNameKey in
    if bool_decide (TrimSpace pvName = "") then Err (Errorf "pv name not found on cvr label" [])
    else OK (GetPoolName +:+ "/" +:+ pvName).

(** ** The identifier of a replica *)

Definition GenerateReplicaID (cvr : CStorVolumeReplica) : result CStorVolumeReplica :=
  if negb (empty (cvr_ReplicaID cvr)) then
    Err (Errorf "ReplicaID for cvr(%s) is already generated" [name cvr])
  else
    match Hash (uid cvr) with
    | Err err => Err err
    | OK csum => OK (cvr {{ cvr_ReplicaID := strings_ToUpper csum }})
    end.

Definition GetReplicaIDFromZFS (volumeName : string) : M W (result string) :=
  let* (ret, err) := get_value "io.openebs:zvol_replica_id" volumeName in
  match err with
  | Some _ => mret (Err (Errorf "Failed to get replicaID %s" []))
  | None => mret (OK (first_line ret))
  end.

Definition SetReplicaID (cvr : CStorVolumeReplica) : M W (option error) :=
  match GetVolumeName cvr with
  | Err err => mret (Some err)
  | OK vol =>
      let* r := GetReplicaIDFromZFS vol in
      match r with
      | Err err => mret (Some err)
      | OK sid =>
          if empty sid then
            let* (lr, err) :=
              vset.Execute (vset.WithDataset vol
                (vset.WithProperty "io.openebs:zvol_replica_id" (cvr_ReplicaID cvr)
                   vset.NewVolumeSetProperty)) in
            match err with
            | Some _ => mret (Some (Errorf "Failed to set replicaID %s %s" [lr]))
            | None => mret None
            end
          else if negb (bool_decide (cvr_ReplicaID cvr = sid)) then
            mret (Some (Errorf "ReplicaID mismatch.. actual(%s) on-disk(%s)" [cvr_ReplicaID cvr; sid]))
          else mret None
      end
  end.

Definition GetAndUpdateReplicaID (cvr : CStorVolumeReplica)
  : M W (CStorVolumeReplica * option error) :=
  let generated := if empty (cvr_ReplicaID cvr) then GenerateReplicaID cvr else OK cvr in
  match generated with
  | Err _ => mret (cvr, Some (Errorf "CVR(%s) replicaID generation error %s" [name cvr]))
  | OK cvr =>
      let* err := SetReplicaID cvr in
      match err with
      | Some _ => mret (cvr, Some (Errorf "Failed to set ReplicaID for CVR(%s).. %s" [name cvr]))
      | None => mret (cvr, None)
      end
  end.

(** ** Snapshots *)

Definition volume_dataset (cvr : CStorVolumeReplica) : string :=
  GetPoolName +:+ "/" +:+ label (labels cvr) PersistentVolumeLabelKey.

Definition GetSnapshotList (dsName : string) : M W (result (gmap string string)) :=
  let* (snapshotList, err) :=
    vlistsnap.Execute (vlistsnap.WithDataset dsName vlistsnap.NewVolumeListSnapshot) in
  match err with
  | Some err => mret (Err err)
  | None => mret (OK (SnapList snapshotList))
  end.

(** The loop over the two values stops at the first that is no number. *)
Definition parse_values (v0 v1 : string) : result (list Z) :=
  match ParseUint v0 with
  | Err err => Err err
  | OK a => match ParseUint v1 with Err err => Err err | OK b => OK [a; b] end
  end.

Definition getSnapshotInfo (dsName snapName : string) : M W (result CStorSnapshotInfo) :=
  let* (ret, err) :=
    vget.Execute (vget.WithDataset (dsName +:+ "@" +:+ snapName) (vget.WithProperty "used"
      (vget.WithProperty "logicalreferenced" (vget.WithField "value" (vget.WithParsableMode true
        (vget.WithScriptedMode true vget.NewVolumeGetProperty)))))) in
  match err with
  | Some err => mret (Err (Wrapf err "failed to get snapshot properties" []))
  | None =>
      let valueList := lines ret in
      let* v0 := lift (λ _, slice_at valueList 0) in
      let* v1 := lift (λ _, slice_at valueList 1) in
      match parse_values v0 v1 with
      | Err err => mret (Err (Wrapf err "failed to parse the snapshot properties" []))
      | OK pUint64 =>
          let* r := lift (λ _, slice_at pUint64 0) in
          mret (OK {| LogicalReferenced := r |})
      end
  end.

(** The first loop of addOrDeleteSnapshotListInfo, over the names of the map. *)
Fixpoint add_snapshots (dsName : string) (names : list string) (cvr : CStorVolumeReplica)
  : M W (CStorVolumeReplica * option error) :=
  match names with
  | [] => mret (cvr, None)
  | snapName :: names' =>
      match rs_Snapshots (cvr_Status cvr) !! snapName with
      | Some _ => add_snapshots dsName names' cvr
      | None =>
          let* r := getSnapshotInfo dsName snapName in
          match r with
          | Err err =>
              mret (cvr, Some (Wrapf err "failed to get the properties of snapshot %s@%s"
                                 [dsName; snapName]))
          | OK snapInfo =>
              add_snapshots dsName names'
                (cvr_with_snapshots (<[snapName := snapInfo]> (rs_Snapshots (cvr_Status cvr))) cvr)
          end
      end
  end.

(** The keys of a map, in an order of the runtime. *)
Definition range_keys {A} (site : string) (m : gmap string A) : list string := (go_range site m).*1.

(** [for k := range m { if !keep(k) { delete(m, k) } }] *)
Definition delete_keys {A} (site : string) (keep : string → bool) (m : gmap string A) : gmap string A :=
  foldl (λ m' k, if keep k then m' else delete k m') m (range_keys site m).

Definition in_map {A} (m : gmap string A) (k : string) : bool :=
  match m !! k with Some _ => true | None => false end.

Definition addOrDeleteSnapshotListInfo (cvr : CStorVolumeReplica)
  (currentSnapList : gmap string string) : M W (CStorVolumeReplica * option error) :=
  let dsName := volume_dataset cvr in
  let* (cvr, err) := add_snapshots dsName (range_keys "currentSnapList" currentSnapList) cvr in
  match err with
  | Some err => mret (cvr, Some err)
  | None =>
      let cvr := cvr_with_snapshots
        (delete_keys "Snapshots" (in_map currentSnapList) (rs_Snapshots (cvr_Status cvr))) cvr in
      let cvr := cvr_with_pending
        (delete_keys "PendingSnapshots" (λ k, negb (in_map currentSnapList k))
           (rs_PendingSnapshots (cvr_Status cvr))) cvr in
      mret (cvr, None)
  end.

Definition getPeerReplicas (cvr : CStorVolumeReplica) : M W (result (list CStorVolumeReplica)) :=
  let volName := label (labels cvr) PersistentVolumeLabelKey in
  let* r := reads (λ w, rList w (namespace cvr) (PersistentVolumeLabelKey +:+ "=" +:+ volName)) in
  match r with
  | Err err => mret (Err err)
  | OK cvrList => mret (OK (filter (λ obj, name obj ≠ name cvr) cvrList))
  end.

Definition getPeerSnapshotInfoList (peers : list CStorVolumeReplica) : gmap string CStorSnapshotInfo :=
  foldl (λ acc cvrObj,
    foldl (λ acc '(snapName, snapInfo),
             if in_map acc snapName then acc else <[snapName := snapInfo]> acc)
      acc (go_range "Snapshots" (rs_Snapshots (cvr_Status cvrObj)))) ∅ peers.

Definition add_pending (cvr : CStorVolumeReplica) (peer : gmap string CStorSnapshotInfo)
  (pending : gmap string CStorSnapshotInfo) : gmap string CStorSnapshotInfo :=
  foldl (λ pending '(snapName, snapInfo),
           if in_map (rs_Snapshots (cvr_Status cvr)) snapName then pending
           else if in_map pending snapName then pending
           else <[snapName := snapInfo]> pending)
    pending (go_range "peerSnapshotList" peer).

Definition getAndAddPendingSnapshotList (cvr : CStorVolumeReplica)
  : M W (CStorVolumeReplica * option error) :=
  let* r := getPeerReplicas cvr in
  match r with
  | Err err => mret (cvr, Some (Wrapf err "failed to get peer CVRs of volume replica %s" [name cvr]))
  | OK peerCVRList =>
      let peerSnapshotList := getPeerSnapshotInfoList peerCVRList in
      let pending := delete_keys "PendingSnapshots" (in_map peerSnapshotList)
                       (rs_PendingSnapshots (cvr_Status cvr)) in
      mret (cvr_with_pending (add_pending cvr peerSnapshotList pending) cvr, None)
  end.

Definition is_rebuilding (cvr : CStorVolumeReplica) : bool :=
  bool_decide (cvr_Phase cvr = CVRStatusRebuilding) ||
  bool_decide (cvr_Phase cvr = CVRStatusReconstructingNewReplica).

Definition GetAndUpdateSnapshotInfo (cvr : CStorVolumeReplica)
  : M W (CStorVolumeReplica * option error) :=
  let* r := GetSnapshotList (volume_dataset cvr) in
  match r with
  | Err err => mret (cvr, Some (Wrapf err "failed to get the list of snapshots" []))
  | OK snapList =>
      let* (cvr, err) := addOrDeleteSnapshotListInfo cvr snapList in
      match err with
      | Some err => mret (cvr, Some (Wrapf err "failed to add snapshot list info" []))
      | None =>
          let* (cvr, err) :=
            if is_rebuilding cvr then
              let* (cvr, err) := getAndAddPendingSnapshotList cvr in
              mret (cvr, match err with
                         | Some err => Some (Wrapf err "failed to update pending snapshots" [])
                         | None => None
                         end)
            else mret (cvr, None) in
          match err with
          | Some err => mret (cvr, Some err)
          | None =>
              if bool_decide (cvr_Phase cvr = CVRStatusOnline) then
                mret (cvr_with_pending ∅ cvr, None)
              else mret (cvr, None)
          end
      end
  end.
End replica.

(** ** Facts about snapshots *)

Section snapshot_facts.
Context {W : Type} `{OpenebsApi} `{VolumeApi} `{PoolApi} `{PodEnv} `{GoRuntime} `{ZJson}.
Context `{!Shell W} `{!Runner W} `{!Env W} `{!ResourceClient W CStorVolumeReplica}.

Definition snapshots (cvr : CStorVolumeReplica) : gmap string CStorSnapshotInfo :=
  rs_Snapshots (cvr_Status cvr).
Definition pending (cvr : CStorVolumeReplica) : gmap string CStorSnapshotInfo :=
  rs_PendingSnapshots (cvr_Status cvr).

Lemma in_map_true {A} (m : gmap string A) k : in_map m k = true ↔ k ∈ dom m.
Proof. unfold in_map. rewrite elem_of_dom. unfold is_Some. destruct (m !! k); naive_solver. Qed.
Lemma in_map_false {A} (m : gmap string A) k : in_map m k = false ↔ k ∉ dom m.
Proof. rewrite <-in_map_true. by destruct (in_map m k). Qed.

Lemma elem_of_range_keys {A} site (m : gmap string A) k : k ∈ range_keys site m ↔ k ∈ dom m.
Proof.
  unfold range_keys. rewrite list_elem_of_fmap, elem_of_dom. split.
  - intros ([k' v] & -> & Hin). apply go_range_lookup in Hin. by eexists.
  - intros [v Hv]. exists (k, v). by rewrite go_range_lookup.
Qed.

Lemma lookup_delete_keys {A} site keep (m : gmap string A) k :
  delete_keys site keep m !! k = if keep k then m !! k else None.
Proof.
  unfold delete_keys.
  assert (∀ (l : list string) (m' : gmap string A),
    foldl (λ m' k, if keep k then m' else delete k m') m' l !! k =
    if keep k then m' !! k else if bool_decide (k ∈ l) then None else m' !! k) as Hl.
  { induction l as [|x l IH]; intros m'; cbn; [by destruct (keep k)|]. rewrite IH.
    destruct (keep k) eqn:Hk.
    - destruct (keep x) eqn:Hx; [done|]. by rewrite lookup_delete_ne by congruence.
    - case_bool_decide; [by rewrite bool_decide_true by set_solver|].
      destruct (decide (k = x)) as [->|Hne].
      + rewrite Hk, lookup_delete_eq, bool_decide_true by set_solver. done.
      + rewrite bool_decide_false by set_solver. destruct (keep x); [done|].
        by rewrite lookup_delete_ne. }
  rewrite Hl. destruct (keep k); [done|]. case_bool_decide as Hin; [done|].
  rewrite elem_of_range_keys, not_elem_of_dom in Hin. done.
Qed.

Lemma dom_delete_keys {A} site keep (m : gmap string A) k :
  k ∈ dom (delete_keys site keep m) ↔ k ∈ dom m ∧ keep k = true.
Proof.
  rewrite !elem_of_dom, lookup_delete_keys. destruct (keep k); [naive_solver|].
  split; [by intros []|naive_solver].
Qed.

(** The replicas that differ in their snapshots and pending snapshots only. *)
Definition with_lists (s p : gmap string CStorSnapshotInfo) (cvr : CStorVolumeReplica)
  : CStorVolumeReplica := cvr_with_pending p (cvr_with_snapshots s cvr).

Lemma with_lists_same cvr : with_lists (snapshots cvr) (pending cvr) cvr = cvr.
Proof. by destruct cvr as [????? [] ?]. Qed.
Lemma snapshots_with m cvr : snapshots (cvr_with_snapshots m cvr) = m.
Proof. done. Qed.
Lemma with_lists_twice s p s' p' cvr : with_lists s p (with_lists s' p' cvr) = with_lists s p cvr.
Proof. done. Qed.

Lemma add_snapshots_spec dsName l cvr (w : W) cvr' w' :
  add_snapshots dsName l cvr w = (Ret (cvr', None), w') →
  ∃ s, cvr' = with_lists s (pending cvr) cvr ∧ snapshots cvr ⊆ s ∧
       dom s = dom (snapshots cvr) ∪ list_to_set l.
Proof.
  revert cvr w. induction l as [|n l IH]; intros cvr w; cbn [add_snapshots].
  { intros [[= ->] _]%mret_run. exists (snapshots cvr). rewrite with_lists_same.
    split_and!; [done..|set_solver]. }
  destruct (rs_Snapshots (cvr_Status cvr) !! n) as [v|] eqn:Hn.
  - intros (s & -> & Hs & Hd)%IH. exists s. split_and!; [done..|]. rewrite Hd.
    assert (n ∈ dom (snapshots cvr)) by (by apply elem_of_dom_2 in Hn). set_solver.
  - intros (r & w1 & _ & Hr)%M_bind_Ret. destruct r as [info|e]; [|by apply mret_run in Hr as [[=] _]].
    apply IH in Hr as (s & -> & Hs & Hd). exists s. rewrite snapshots_with in Hs, Hd. split_and!; [done|..].
    + etrans; [|exact Hs]. apply insert_subseteq. exact Hn.
    + rewrite Hd, dom_insert_L. unfold snapshots. set_solver.
Qed.

Lemma addOrDelete_spec cvr cur (w : W) cvr' w' :
  addOrDeleteSnapshotListInfo cvr cur w = (Ret (cvr', None), w') →
  ∃ s p, cvr' = with_lists s p cvr ∧ dom s = dom cur ∧
    (∀ k, k ∈ dom p ↔ k ∈ dom (pending cvr) ∧ k ∉ dom cur) ∧
    (∀ k v, snapshots cvr !! k = Some v → k ∈ dom cur → s !! k = Some v).
Proof.
  unfold addOrDeleteSnapshotListInfo. intros ([c err] & w1 & Ha & Hr)%M_bind_Ret.
  destruct err as [e|]; [by apply mret_run in Hr as [[=] _]|].
  apply mret_run in Hr as [[= ->] _]. apply add_snapshots_spec in Ha as (s & -> & Hs & Hd).
  eexists (delete_keys _ _ s), (delete_keys _ _ (pending cvr)). split_and!; [done|..].
  - apply set_eq. intros k. rewrite dom_delete_keys, Hd, in_map_true, elem_of_union, elem_of_list_to_set.
    rewrite elem_of_range_keys. tauto.
  - intros k. rewrite dom_delete_keys, negb_true_iff, in_map_false. done.
  - intros k v Hk Hc. rewrite lookup_delete_keys, (proj2 (in_map_true _ _) Hc).
    eapply lookup_weaken; done.
Qed.

Lemma dom_peers peers k :
  k ∈ dom (getPeerSnapshotInfoList peers) ↔ ∃ peer, peer ∈ peers ∧ k ∈ dom (snapshots peer).
Proof.
  unfold getPeerSnapshotInfoList.
  assert (∀ (l : list (string * CStorSnapshotInfo)) acc,
    k ∈ dom (foldl (λ acc '(n, i), if in_map acc n then acc else <[n := i]> acc) acc l) ↔
    k ∈ dom acc ∨ k ∈ l.*1) as Hl.
  { induction l as [|[n i] l IH]; intros acc; cbn; [set_solver|]. rewrite IH.
    destruct (in_map acc n) eqn:Hn; [apply in_map_true in Hn|rewrite dom_insert_L]; set_solver. }
  assert (∀ (l : list CStorVolumeReplica) acc,
    k ∈ dom (foldl (λ acc c, foldl (λ acc '(n, i), if in_map acc n then acc else <[n := i]> acc) acc
               (go_range "Snapshots" (rs_Snapshots (cvr_Status c)))) acc l) ↔
    k ∈ dom acc ∨ ∃ peer, peer ∈ l ∧ k ∈ dom (snapshots peer)) as Hp.
  { induction l as [|c l IH]; intros acc; cbn; [set_solver|]. rewrite IH, Hl.
    pose proof (elem_of_range_keys "Snapshots" (snapshots c) k) as Hr.
    unfold range_keys, snapshots in Hr. rewrite Hr. unfold snapshots. set_solver. }
  rewrite Hp, dom_empty_L. set_solver.
Qed.

Lemma dom_add_pending cvr peer p k :
  k ∈ dom (add_pending cvr peer p) ↔ k ∈ dom p ∨ (k ∈ dom peer ∧ k ∉ dom (snapshots cvr)).
Proof.
  unfold add_pending.
  assert (∀ (l : list (string * CStorSnapshotInfo)) p,
    k ∈ dom (foldl (λ p '(n, i), if in_map (rs_Snapshots (cvr_Status cvr)) n then p
                     else if in_map p n then p else <[n := i]> p) p l) ↔
    k ∈ dom p ∨ (k ∈ l.*1 ∧ k ∉ dom (snapshots cvr))) as Hl.
  { induction l as [|[n i] l IH]; intros q; cbn; [set_solver|]. rewrite IH. fold (snapshots cvr).
    destruct (in_map (snapshots cvr) n) eqn:Hn; [apply in_map_true in Hn; set_solver|].
    apply in_map_false in Hn.
    destruct (in_map q n) eqn:Hq; [apply in_map_true in Hq; set_solver|rewrite dom_insert_L; set_solver]. }
  rewrite Hl. pose proof (elem_of_range_keys "peerSnapshotList" peer k) as Hr.
  unfold range_keys in Hr. by rewrite Hr.
Qed.

(** The snapshots of a replica after GetAndUpdateSnapshotInfo. *)
Record synced (snapList : gmap string string) (cvr cvr' : CStorVolumeReplica) : Prop := {
  sy_only : ∃ s p, cvr' = with_lists s p cvr;
  sy_dom : dom (snapshots cvr') = dom snapList;
  sy_kept : ∀ k v, snapshots cvr !! k = Some v → k ∈ dom snapList → snapshots cvr' !! k = Some v;
  sy_pending : dom (pending cvr') ## dom snapList;
  sy_online : cvr_Phase cvr = CVRStatusOnline → pending cvr' = ∅;
}.

Lemma GetAndUpdateSnapshotInfo_spec cvr (w : W) cvr' w' :
  GetAndUpdateSnapshotInfo cvr w = (Ret (cvr', None), w') →
  ∃ snapList w1, GetSnapshotList (volume_dataset cvr) w = (Ret (OK snapList), w1) ∧
    synced snapList cvr cvr' ∧
    (is_rebuilding cvr = true → cvr_Phase cvr ≠ CVRStatusOnline →
     ∃ peers w2, getPeerReplicas cvr w2 = (Ret (OK peers), w2) ∧
       ∀ k, k ∈ dom (pending cvr') ↔ k ∉ dom snapList ∧
              ∃ peer, peer ∈ peers ∧ k ∈ dom (snapshots peer)).
Proof.
  unfold GetAndUpdateSnapshotInfo. intros (r & w1 & Hl & Hr)%M_bind_Ret.
  destruct r as [snapList|e]; [|by apply mret_run in Hr as [[=] _]]. exists snapList, w1.
  split; [done|]. apply M_bind_Ret in Hr as ([c err] & w2 & Ha & Hr).
  destruct err as [e|]; [by apply mret_run in Hr as [[=] _]|].
  apply addOrDelete_spec in Ha as (s & p & -> & Hd & Hp & Hk).
  apply M_bind_Ret in Hr as ([c err] & w3 & Hb & Hr).
  destruct err as [e|]; [by apply mret_run in Hr as [[=] _]|].
  assert (∃ p', c = with_lists s p' cvr ∧ (is_rebuilding cvr = false → p' = p) ∧
    (is_rebuilding cvr = true → ∃ peers w4, getPeerReplicas cvr w4 = (Ret (OK peers), w4) ∧
      ∀ k, k ∈ dom p' ↔ k ∉ dom snapList ∧ ∃ peer, peer ∈ peers ∧ k ∈ dom (snapshots peer)))
    as (p' & -> & Hnot & Hre).
  { change (is_rebuilding (with_lists s p cvr)) with (is_rebuilding cvr) in Hb.
    destruct (is_rebuilding cvr) eqn:Hre.
    2:{ apply mret_run in Hb as [[= ->] _]. by exists p. }
    apply M_bind_Ret in Hb as ([c' err] & w4 & Hg & Hb).
    apply mret_run in Hb as [[= -> He] ->]. destruct err; [done|].
    unfold getAndAddPendingSnapshotList in Hg. apply M_bind_Ret in Hg as (peers & w5 & Hpe & Hg).
    destruct peers as [peers|e]; [|by apply mret_run in Hg as [[=] _]].
    apply mret_run in Hg as [Hc ->].
    exists (add_pending (with_lists s p cvr) (getPeerSnapshotInfoList peers)
              (delete_keys "PendingSnapshots" (in_map (getPeerSnapshotInfoList peers)) p)).
    split; [by injection Hc|]. split; [done|]. intros _.
    exists peers, w2. split.
    { unfold getPeerReplicas in Hpe |- *. apply M_bind_Ret in Hpe as (r & w6 & [= <- <-] & Hpe).
      unfold mbind, M_bind, reads. destruct (rList _ _ _); [|done]. by injection Hpe as <-. }
    intros k. rewrite dom_add_pending, dom_delete_keys, in_map_true, dom_peers.
    change (snapshots (with_lists s p cvr)) with s. rewrite Hp, Hd. naive_solver. }
  change (cvr_Phase (with_lists s p' cvr)) with (cvr_Phase cvr) in Hr.
  assert (dom p' ## dom snapList) as Hdisj.
  { intros k Hkp Hks. destruct (is_rebuilding cvr) eqn:Hb'.
    - destruct (Hre eq_refl) as (peers & w4 & _ & Hiff). by apply Hiff in Hkp as [Hkp _].
    - rewrite (Hnot eq_refl) in Hkp. by apply Hp in Hkp as [_ Hkp]. }
  case_bool_decide as Hon; apply mret_run in Hr as [[= ->] _].
  - split; [|done]. split; [by exists s, ∅|exact Hd|done| |done]. change (dom (∅ : gmap string CStorSnapshotInfo) ## dom snapList). set_solver.
  - split; [|intros Hb' _; by apply Hre]. split; [by exists s, p'|exact Hd|done|done|done].
Qed.
End snapshot_facts.
