(* ===== verification/PoolManager.v ===== *)
(** * PoolManager: the operations on the zpool of a pool instance (pkg/pool/operations, pkg/pool)

    Creating, importing, deleting and changing the pool, its properties and its capacity.  An
    OperationsConfig has the clients and the recorder of the controller, which are part of the
    world, and the executor of the commands, which is the argument [oc]. *)

From stdpp Require Import base gmap strings list sets pretty.
From Stdlib Require Import Ascii ZArith Lia.
From coqutil Require Import Datatypes.RecordSetters.
From S2P Require Import Prelude Api VolumeApi Zcmd Zpool Zfs PoolApi VolumeReplica.
Import DoubleBraceUpdate.

(** ** pkg/pool/operations/utils.go and pkg/pool/pool.go *)

Definition ErrorWrapf (err : option error) (format : string) (args : list string) : error :=
  match err with None => Errorf format args | Some err => Wrapf err format args end.

Definition IsEmpty (s : string) : bool := bool_decide (s = "").

(** The byte index of the last slash counts runes in the slice: the two agree on ASCII. *)
Definition GetDevPathIfNotSlashDev (devID : string) : string :=
  if IsEmpty devID then ""
  else if strings_HasPrefix devID "/dev" then ""
  else
    match last_index_byte "/"%char devID with
    | None => ""
    | Some lastindex => String.substring 0 lastindex devID
    end.

(** ** Conditions of a pool instance (cspi-controller/util/cspi_utils.go) *)

Definition NewCSPICondition {W} `{Env W} (condType : string) (status : condition_status)
  (reason message : string) : M W CStorPoolInstanceCondition :=
  let* now := reads Now in
  mret ({| cond_Type := condType; cond_Status := status; cond_LastUpdateTime := now;
           cond_LastTransitionTime := now; cond_Reason := reason; cond_Message := message |}
        : CStorPoolInstanceCondition).

Definition GetCSPICondition (status : CStorPoolInstanceStatus) (condType : string)
  : option CStorPoolInstanceCondition :=
  first_such (λ c, bool_decide (cond_Type c = condType)) (csps_Conditions status).

Definition filterOutCondition (conditions : list CStorPoolInstanceCondition) (condType : string)
  : list CStorPoolInstanceCondition :=
  filter (λ c, cond_Type c ≠ condType) conditions.

Definition SetCSPICondition (status : CStorPoolInstanceStatus) (condition : CStorPoolInstanceCondition)
  : CStorPoolInstanceStatus :=
  let condition :=
    match GetCSPICondition status (cond_Type condition) with
    | Some currentCond =>
        if bool_decide (cond_Status currentCond = cond_Status condition)
        then condition {{ cond_LastTransitionTime := cond_LastTransitionTime currentCond }}
        else condition
    | None => condition
    end in
  status {{ csps_Conditions :=
    filterOutCondition (csps_Conditions status) (cond_Type condition) ++ [condition] }}.

Definition RemoveCSPICondition (status : CStorPoolInstanceStatus) (condType : string)
  : CStorPoolInstanceStatus :=
  status {{ csps_Conditions := filterOutCondition (csps_Conditions status) condType }}.

(** ** Raid groups by device type (modify.go) *)

Definition DeviceTypeSpare : string := "spare".
Definition DeviceTypeReadCache : string := "cache".
Definition DeviceTypeWriteCache : string := "log".
Definition DeviceTypeData : string := "data".

Record raidConfiguration := { RaidGroupType : string; RaidGroups : list RaidGroup }.

Definition getRaidGroupsConfigMap (cspi : CStorPoolInstance) : gmap string raidConfiguration :=
  let spec := cspi_Spec cspi in
  <[DeviceTypeWriteCache :=
      {| RaidGroups := cspi_WriteCacheRaidGroups spec;
         RaidGroupType := WriteCacheGroupType (cspi_PoolConfig spec) |}]>
  {[DeviceTypeData :=
      {| RaidGroups := cspi_DataRaidGroups spec;
         RaidGroupType := DataRaidGroupType (cspi_PoolConfig spec) |}]}.

Definition getZFSDeviceType (dType : string) : string :=
  if bool_decide (dType = DeviceTypeData) then "" else dType.

(** The raid groups of a type share their arrays with the specification of the instance. *)
Definition share_groups (deviceType : string) (groups : list RaidGroup) (cspi : CStorPoolInstance)
  : CStorPoolInstance :=
  let spec := cspi_Spec cspi in
  cspi_with_spec (if bool_decide (deviceType = DeviceTypeData)
                  then spec {{ cspi_DataRaidGroups := groups }}
                  else spec {{ cspi_WriteCacheRaidGroups := groups }}) cspi.

(** ** Paths of devices (pool_utils.go) *)

Definition getPathForBDevFromBlockDevice (bd : BlockDevice) : list string :=
  (bd_DevLinks bd ≫= snd) ++ (if IsEmpty (bd_Path bd) then [] else [bd_Path bd]).

Section used.
Context `{OpenebsApi} `{PoolApi}.

(** A device tree is searched at its root, at its children and below these. *)
Fixpoint compare_vdev (path : list string) (v : Vdev) : option string :=
  match v with
  | mkVdev p _ _ _ children =>
      if ContainsString path p then Some p
      else
        (fix search l :=
           match l with
           | [] => None
           | mkVdev p' _ _ _ grand :: l' =>
               if ContainsString path p' then Some p'
               else
                 match (fix below g :=
                          match g with
                          | [] => None
                          | v' :: g' =>
                              match compare_vdev path v' with Some r => Some r | None => below g' end
                          end) grand with
                 | Some r => Some r
                 | None => search l'
                 end
           end) children
  end.
Fixpoint compareDisk (path : list string) (d : list Vdev) : option string :=
  match d with
  | [] => None
  | v :: d' => match compare_vdev path v with Some r => Some r | None => compareDisk path d' end
  end.

Definition checkIfDeviceUsed (path : list string) (t : Topology) : option string :=
  match compareDisk path (Topvdev (VdevTree_ t)) with
  | Some p => Some p
  | None =>
      match compareDisk path (Spares (VdevTree_ t)) with
      | Some p => Some p
      | None => compareDisk path (Readcache (VdevTree_ t))
      end
  end.

Definition getVdevFromPath (path : string) (topology : Topology) : option Vdev :=
  match GetVdevFromPath path (Topvdev (VdevTree_ topology)) with
  | Some vdev => Some vdev
  | None =>
      match GetVdevFromPath path (Spares (VdevTree_ topology)) with
      | Some vdev => Some vdev
      | None => GetVdevFromPath path (Readcache (VdevTree_ topology))
      end
  end.
End used.

Section pool.
Context {W : Type} `{OpenebsApi} `{VolumeApi} `{PoolApi} `{PodEnv} `{GoRuntime} `{ZJson}.
Context `{!Shell W} `{!Runner W} `{!Env W} `{!Process W}.
Context `{!ResourceClient W CStorPoolInstance} `{!ResourceClient W BlockDevice}
  `{!ResourceClient W BlockDeviceClaim}.

(** The operations of one OperationsConfig run their commands with [oc]. *)
Context (oc : option executor).

Definition cspi_event (cspi : CStorPoolInstance) (type reason message : string) (args : list string)
  : M W unit :=
  emit {| ev_object := name cspi; ev_type := type; ev_reason := reason; ev_message := message;
          ev_args := args |}.

(** The name of the pool is computed once. *)
Definition PoolName : M W string :=
  let* g := get_globals in
  if bool_decide (g_poolName g = "") then
    let poolName := PoolPrefix +:+ os_Getenv "OPENEBS_IO_POOL_NAME" in
    let* _ := set_globals (g_with_poolName poolName) in
    mret poolName
  else mret (g_poolName g).

Definition pool_GetPoolName : M W (list string * option error) :=
  let* (poolNameByte, err) :=
    call (RunStdoutPipe PoolOperator ["get"; "-Hp"; "name"; "-o"; "name"]) in
  match err with
  | Some err => mret ([], Some err)
  | None =>
      if IsEmpty poolNameByte then mret ([], None)
      else mret (TrimSpace <$> lines poolNameByte, None)
  end.

Definition getPathForBDev (bdev : string) : M W (result (list string)) :=
  let* r := reads (λ w, rGet w (util_GetEnv util_Namespace) bdev) in
  match r with
  | Err err => mret (Err err)
  | OK bd => mret (OK (getPathForBDevFromBlockDevice bd))
  end.

(** A device without a path makes [er.Error()] dereference a nil error. *)
Definition path_step (acc : gmap string (list string) * option error)
  (b : CStorPoolInstanceBlockDevice) : M W (gmap string (list string) * option error) :=
  let '(vdev, err) := acc in
  let* r := getPathForBDev (BlockDeviceName b) in
  match r with
  | Err er =>
      mret (vdev, Some (ErrorWrapf err "Failed to fetch path for bdev {%s} {%s}" [BlockDeviceName b]))
  | OK [] => panic "invalid memory address or nil pointer dereference"
  | OK path => mret (<[BlockDeviceName b := path]> vdev, err)
  end.
Definition getPathForBdevList (bdevs : list CStorPoolInstanceBlockDevice)
  : M W (gmap string (list string) * option error) :=
  foldM path_step (∅, None) bdevs.

(** [for _, v := range disklist { vdevlist = append(vdevlist, v[0]) }] *)
Definition first_paths (disklist : gmap string (list string)) : outcome (list string) :=
  foldO (λ l '(_, v), let* p := slice_at v 0 in Ret (l ++ [p])) [] (go_range "disklist" disklist).

Definition checkIfPoolPresent (n : string) : M W bool :=
  let* (_, err) :=
    pget.Execute (pget.WithExecutor oc (pget.WithPool n (pget.WithProperty "name"
      (pget.WithField "value" (pget.WithScriptedMode true (pget.WithParsableMode true
        pget.NewPoolGetProperty)))))) in
  mret (match err with Some _ => false | None => true end).

Definition executeZpoolDump : M W (Topology * option error) :=
  let* poolName := PoolName in
  pdump.Execute (pdump.WithExecutor oc (pdump.WithStripVdevPath (pdump.WithPool poolName
    pdump.NewPoolDump))).

(** The first device of the first data raid group. *)
Definition first_device (cspi : CStorPoolInstance) : outcome string :=
  let* rg := slice_at (cspi_DataRaidGroups (cspi_Spec cspi)) 0 in
  let* bd := slice_at (CStorPoolInstanceBlockDevices rg) 0 in
  Ret (BlockDeviceName bd).

(** The output of the command, whether it names the pool, and the error. *)
Definition checkIfPoolIsImportable (cspi : CStorPoolInstance) : M W (result (string * bool)) :=
  let* bd := lift (λ _, first_device cspi) in
  let* r := getPathForBDev bd in
  match r with
  | Err err => mret (Err err)
  | OK bdPath =>
      let* p := lift (λ _, slice_at bdPath 0) in
      let devID := GetDevPathIfNotSlashDev p in
      let list_pools (b : builder pimport.PoolImport) := pimport.Execute (pimport.WithExecutor oc b) in
      let* found :=
        if IsEmpty devID then mret None
        else
          let* (cmdOut, _) := list_pools (pimport.WithDirectory devID pimport.NewPoolImport) in
          let* poolName := PoolName in
          mret (if strings_Contains cmdOut poolName then Some cmdOut else None) in
      match found with
      | Some cmdOut => mret (OK (cmdOut, true))
      | None =>
          let* (cmdOut, err) := list_pools pimport.NewPoolImport in
          let* poolName := PoolName in
          if strings_Contains cmdOut poolName then mret (OK (cmdOut, true))
          else match err with
               | Some err => mret (Err err)
               | None => mret (OK (cmdOut, false))
               end
      end
  end.

(** ** Creating a pool (create.go) and adding raid groups (disk_operation.go) *)

Definition addRaidGroup (r : RaidGroup) (dType pType : string) : M W (option error) :=
  let deviceType := getZFSDeviceType dType in
  if IsEmpty pType then mret (Some (Errorf "type for %s raid group not found" [deviceType]))
  else
    let* (disklist, err) := getPathForBdevList (CStorPoolInstanceBlockDevices r) in
    match err with
    | Some err => mret (Some err)
    | None =>
        let* vdevlist := lift (λ _, first_paths disklist) in
        let* poolName := PoolName in
        let* (_, err) :=
          padd.Execute (padd.WithExecutor oc (padd.WithVdevList vdevlist (padd.WithPool poolName
            (padd.WithType pType (padd.WithDeviceType deviceType padd.NewPoolExpansion))))) in
        mret err
    end.

Definition createPool (cspi : CStorPoolInstance) (r : RaidGroup) : M W (option error) :=
  let ptype := DataRaidGroupType (cspi_PoolConfig (cspi_Spec cspi)) in
  if IsEmpty ptype then mret (Some (Errorf "type for data raid group not found" []))
  else
    let* (disklist, err) := getPathForBdevList (CStorPoolInstanceBlockDevices r) in
    match err with
    | Some _ => mret (Some (Errorf "Failed to get list of disk-path : %s" []))
    | None =>
        let* vdevlist := lift (λ _, first_paths disklist) in
        let compressionType := Compression (cspi_PoolConfig (cspi_Spec cspi)) in
        let compressionType := if IsEmpty compressionType then "lz4" else compressionType in
        let* poolName := PoolName in
        let* (ret, err) :=
          pcreate.Execute (pcreate.WithExecutor oc (pcreate.WithVdevList vdevlist
            (pcreate.WithPool poolName (pcreate.WithFSProperty "canmount" "off"
              (pcreate.WithFSProperty "compression" compressionType
                (pcreate.WithProperty "cachefile" (CStorPoolBasePath +:+ CacheFileName)
                  (pcreate.WithType ptype pcreate.NewPoolCreate))))))) in
        match err with
        | Some _ => mret (Some (Errorf "Failed to create pool.. %s .. %s" [ret]))
        | None => mret None
        end
    end.

(** The loop that adds the raid groups left: an error does not stop it. *)
Definition add_groups (configs : list (string * raidConfiguration)) (err : option error)
  : M W (option error) :=
  foldM (λ err '(deviceType, config),
    foldM (λ err r,
      let* e := addRaidGroup r deviceType (RaidGroupType config) in
      match e with
      | Some _ => mret (Some (ErrorWrapf err "Failed to add raidGroup{%#v}.. %s" []))
      | None => mret err
      end) err (RaidGroups config)) err configs.

Definition Create (cspi : CStorPoolInstance) : M W (option error) :=
  let* r := checkIfPoolIsImportable cspi in
  match r with
  | Err _ => mret (Some (Errorf "failed to verify if pool is importable: %s" []))
  | OK (ret, true) =>
      let* poolName := PoolName in
      mret (Some (Errorf "Pool {%s} is in faulty state.. %s" [poolName; ret]))
  | OK (_, false) =>
      let* poolName := PoolName in
      let create :=
        match cspi_DataRaidGroups (cspi_Spec cspi) with
        | [] => mret (cspi, None)
        | r :: rest =>
            let* err := createPool cspi r in
            mret (cspi_with_spec (spec_with_data rest (cspi_Spec cspi)) cspi, err)
        end in
      let* (cspiCopy, err) := create in
      match err with
      | Some _ => mret (Some (Errorf "Failed to create pool {%s} : %s" [poolName]))
      | None => add_groups (go_range "getRaidGroupsConfigMap" (getRaidGroupsConfigMap cspiCopy)) None
      end
  end.

(** ** Deleting a pool (delete.go) *)

Definition clear_label (v : list string) : M W unit :=
  let* p := lift (λ _, slice_at v 0) in
  let* _ := plabelclear.Execute (plabelclear.WithExecutor oc (plabelclear.WithVdev p
              (plabelclear.WithForceFully true plabelclear.NewPoolLabelClear))) in
  mret tt.

(** A device whose path is not found is left out: the error is only logged. *)
Definition ClearPoolLabel (raidGroups : list RaidGroup) : M W unit :=
  forM (λ r,
    let* (disklist, _) := getPathForBdevList (CStorPoolInstanceBlockDevices r) in
    forM (λ '(_, v), clear_label v) (go_range "disklist" disklist)) raidGroups.

Definition Delete (cspi : CStorPoolInstance) : M W (option error) :=
  let* zpoolName := PoolName in
  let* poolExist := checkIfPoolPresent zpoolName in
  if negb poolExist then mret None
  else
    let* (_, err) :=
      pdestroy.Execute (pdestroy.WithExecutor oc (pdestroy.WithPool zpoolName
        pdestroy.NewPoolDestroy)) in
    match err with
    | Some err => mret (Some err)
    | None => let* _ := ClearPoolLabel (GetAllRaidGroups cspi) in mret None
    end.

(** ** Importing a pool (import.go) *)

Definition forget_existing (cspi : CStorPoolInstance) : CStorPoolInstance :=
  cspi_with_meta (meta_with_annotations
    (delete OpenEBSCStorExistingPoolName (annotations cspi)) (cspi_meta cspi)) cspi.

(** The command that imports the pool under its name. *)
Definition import_pool (source : builder pimport.PoolImport → builder pimport.PoolImport)
  (existingPoolName : string) : M W output :=
  let cacheFile := CStorPoolBasePath +:+ CacheFileName in
  let* poolName := PoolName in
  pimport.Execute (pimport.WithExecutor oc (pimport.WithNewPool poolName
    (pimport.WithPool existingPoolName (pimport.WithProperty "cachefile" cacheFile
      (source pimport.NewPoolImport))))).

(** The part of Import after the annotation was looked at. *)
Definition import_as (cspi : CStorPoolInstance) (existingPoolName : string)
  : M W (CStorPoolInstance * bool * option error) :=
  let* _ := set_globals (g_with_imported false) in
  let* bd := lift (λ _, first_device cspi) in
  let* r := getPathForBDev bd in
  match r with
  | Err err => mret (cspi, false, Some err)
  | OK bdPath =>
      let* p := lift (λ _, slice_at bdPath 0) in
      let devID := GetDevPathIfNotSlashDev p in
      let cacheFile := CStorPoolBasePath +:+ CacheFileName in
      let* (_, err) := import_pool (pimport.WithCachefile cacheFile) existingPoolName in
      let* err :=
        match err with
        | None => mret None
        | Some _ =>
            let* (_, err) := import_pool (pimport.WithDirectory devID) existingPoolName in mret err
        end in
      match err with
      | Some err => mret (cspi, false, Some err)
      | None =>
          let cspi := forget_existing cspi in
          let* _ := set_globals (g_with_imported true) in
          let* poolName := PoolName in
          let* _ := cspi_event cspi "Normal" "Pool Imported" "Pool Import successful: %v" [poolName] in
          mret (cspi, true, None)
      end
  end.

Definition Import (cspi : CStorPoolInstance) : M W (CStorPoolInstance * bool * option error) :=
  let* poolName := PoolName in
  let* poolExist := checkIfPoolPresent poolName in
  if poolExist : bool then mret (forget_existing cspi, true, None)
  else
    let existingPoolName := label (annotations cspi) OpenEBSCStorExistingPoolName in
    if IsEmpty existingPoolName then import_as cspi ""
    else
      let* r := checkIfPoolIsImportable cspi in
      match r with
      | Err _ => mret (cspi, false, Some (Errorf "failed to verify if pool is importable: %s" []))
      | OK (_, true) => import_as (forget_existing cspi) ""
      | OK (_, false) => import_as cspi existingPoolName
      end.

Definition CheckImportedPoolVolume : M W unit :=
  let* g := get_globals in
  if g_IsImported g then mret tt
  else
    let* (vols, err) := GetVolumes in
    let* _ := set_globals (g_with_volumes vols) in
    match err with
    | Some _ => set_globals (g_with_imported false)
    | None => set_globals (g_with_imported (negb (bool_decide (vols = []))))
    end.

(** ** Replacing devices and expanding the pool (disk_operation.go, modify.go) *)

Definition replacePoolVdev (oldPaths npath : list string) : M W (result string) :=
  match npath with
  | [] => mret (Err (Errorf "Empty path for vdev" []))
  | newPath :: _ =>
      let* (poolTopology, err) := executeZpoolDump in
      match err with
      | Some _ => mret (Err (Errorf "Failed to fetch pool topology.. %s" []))
      | None =>
          match checkIfDeviceUsed npath poolTopology with
          | Some usedPath => mret (OK usedPath)
          | None =>
              if bool_decide (oldPaths = []) then mret (OK "")
              else
                match checkIfDeviceUsed oldPaths poolTopology with
                | None => mret (Err (Errorf "Old device links are not in use by pool" []))
                | Some usedPath =>
                    let* poolName := PoolName in
                    let* (_, err) :=
                      preplace.Execute (preplace.WithExecutor oc (preplace.WithPool poolName
                        (preplace.WithNewVdev newPath (preplace.WithOldVdev usedPath
                          preplace.NewPoolDiskReplace)))) in
                    match err with Some err => mret (Err err) | None => mret (OK newPath) end
                end
          end
      end
  end.

Definition isResilveringInProgress (path : string) : M W bool :=
  let* (poolTopology, err) := executeZpoolDump in
  match err with
  | Some _ => mret true
  | None =>
      match getVdevFromPath path poolTopology with
      | None => mret true
      | Some (mkVdev _ _ stats scan children) =>
          if bool_decide (scan = []) then mret false
          else
            let* processed := lift (λ _, slice_at stats VdevScanProcessedIndex) in
            if (processed =? 0)%Z then mret false
            else if negb (bool_decide (length children = 0)) then mret true
            else
              let* state := lift (λ _, slice_at scan VdevScanStatsStateIndex) in
              if negb (state =? PoolScanFinished)%Z then mret true
              else
                let* func := lift (λ _, slice_at scan VdevScanStatsScanFuncIndex) in
                mret (negb (func =? PoolScanFuncResilver)%Z)
      end
  end.

Definition getBlockDeviceClaimList (key value : string) : M W (result (list BlockDeviceClaim)) :=
  let* r := reads (λ w, rList w (util_GetEnv util_Namespace) (key +:+ "=" +:+ value)) in
  mret (wrap_result r "failed to list bdc related to key: %s value: %s" [key; value]).

(** The old claim is released and deleted, then the new one loses its predecessor: the
    returned claim has the annotations that the map has afterwards. *)
Definition release_claim (oldObj newObj : BlockDeviceClaim) : M W (option error) :=
  let* err :=
    if ContainsString (finalizers oldObj) CSPCFinalizer then
      let oldObj := bdc_RemoveFinalizer CSPCFinalizer oldObj in
      let* r := call (rUpdate (namespace oldObj) oldObj) in
      match r with
      | Err err =>
          mret (Some (Wrapf err "Failed to remove finalizer %s on claim %s of blockdevice %s"
                        [CSPCFinalizer; name oldObj; bdc_BlockDeviceName oldObj]))
      | OK _ => mret None
      end
    else mret None in
  match err with
  | Some err => mret (Some err)
  | None =>
      let* r := call (rDelete (Obj:=BlockDeviceClaim) (namespace newObj) (name oldObj)) in
      match r with
      | Err err =>
          mret (Some (Wrapf err "Failed to unclaim old blockdevice {%s}" [bdc_BlockDeviceName oldObj]))
      | OK _ => mret None
      end
  end.

Definition without_predecessor (c : BlockDeviceClaim) : BlockDeviceClaim :=
  bdc_with_meta (meta_with_annotations (delete PredecessorBDLabelKey (annotations c)) (bdc_meta c)) c.

Definition cleanUpReplacementMarks (oldObj : option BlockDeviceClaim) (newObj : BlockDeviceClaim)
  : M W (BlockDeviceClaim * option error) :=
  let* err := match oldObj with Some oldObj => release_claim oldObj newObj | None => mret None end in
  match err with
  | Some err => mret (newObj, Some err)
  | None =>
      let newObj := without_predecessor newObj in
      let* r := call (rUpdate (namespace newObj) newObj) in
      match r with
      | Err err =>
          mret (newObj, Some (Wrapf err "Failed to remove annotation {%s} from blockdeviceclaim {%s}"
                                [PredecessorBDLabelKey; name newObj]))
      | OK _ => mret (newObj, None)
      end
  end.

(** The variables of Update that the loops change.  The claims of the list share their
    annotations with the claim that cleanUpReplacementMarks changes. *)
Record update_state := {
  us_claims : list BlockDeviceClaim;
  us_err : option error;
  isRaidGroupChanged : bool;
  isObjChanged : bool;
  isReplacementTriggered : bool;
  replacingBlockDeviceCount : Z;
}.

Definition share_annotations (c : BlockDeviceClaim) (l : list BlockDeviceClaim) : list BlockDeviceClaim :=
  (λ x, if bool_decide (name x = name c)
        then bdc_with_meta (meta_with_annotations (annotations c) (bdc_meta x)) x else x) <$> l.

(** The end of the body of the inner loop: resilvering is over, the marks are removed. *)
Definition finish_replacement (cspi : CStorPoolInstance) (bdev : CStorPoolInstanceBlockDevice)
  (bdClaim : BlockDeviceClaim) (predecessorBDName diskPath : string) (st : update_state)
  : M W update_state :=
  if IsEmpty predecessorBDName then mret st
  else
    let* busy := isResilveringInProgress diskPath in
    if busy : bool then mret st
    else
      let oldBDClaim :=
        match GetBlockDeviceClaimFromBDName (us_claims st) predecessorBDName with
        | OK c => Some c
        | Err _ => None
        end in
      let* (bdClaim, er) := cleanUpReplacementMarks oldBDClaim bdClaim in
      let st := st {{ us_claims ::= share_annotations bdClaim }} in
      match er with
      | Some _ =>
          mret (st {{ us_err := Some (ErrorWrapf (us_err st)
            "Failed cleanup replacement marks of replaced blockdevice {%s}.. %s" [BlockDeviceName bdev]) }})
      | None =>
          let* _ := cspi_event cspi "Normal" "BlockDevice Replacement"
                      "Resilvering is successfull on BlockDevice %s" [BlockDeviceName bdev] in
          mret (st {{ isReplacementTriggered := true }}
                   {{ replacingBlockDeviceCount ::= (λ n, n - 1)%Z }})
      end.

(** The body of the inner loop from the new path on. *)
Definition replace_device (cspi : CStorPoolInstance) (bdev : CStorPoolInstanceBlockDevice)
  (bdClaim : BlockDeviceClaim) (predecessorBDName : string) (oldPath : list string)
  (st : update_state) : M W (CStorPoolInstanceBlockDevice * update_state) :=
  let replacing (newPath : list string) : M W unit :=
    if negb (bool_decide (oldPath = [])) && negb (bool_decide (newPath = [])) then
      cspi_event cspi "Normal" "BlockDevice Replacement"
        "Replacement of %s BlockDevice with %s BlockDevice is in-Progress"
        [predecessorBDName; BlockDeviceName bdev]
    else mret tt in
  let failed (f : string) : update_state :=
    st {{ us_err := Some (ErrorWrapf (us_err st) f [BlockDeviceName bdev]) }} in
  let* r := getPathForBDev (BlockDeviceName bdev) in
  match r with
  | Err _ =>
      let st := failed "Failed to check bdev change {%s}.. %s" in
      let* _ := replacing [] in
      let* st := finish_replacement cspi bdev bdClaim predecessorBDName "" st in
      mret (bdev, st)
  | OK newPath =>
      let* r := replacePoolVdev oldPath newPath in
      match r with
      | Err _ => mret (bdev, failed "Failed to replace bdev for {%s}.. %s")
      | OK diskPath =>
          let changed := negb (IsEmpty diskPath) && negb (bool_decide (diskPath = DevLink bdev)) in
          let bdev' := if changed then bdev {{ DevLink := diskPath }} else bdev in
          let st := if changed then st {{ isRaidGroupChanged := true }} else st in
          let* _ := replacing newPath in
          let* st := finish_replacement cspi bdev bdClaim predecessorBDName diskPath st in
          mret (bdev', st)
      end
  end.

Definition update_device (cspi : CStorPoolInstance) (bdev : CStorPoolInstanceBlockDevice)
  (st : update_state) : M W (CStorPoolInstanceBlockDevice * update_state) :=
  match GetBlockDeviceClaimFromBDName (us_claims st) (BlockDeviceName bdev) with
  | Err _ =>
      mret (bdev, st {{ us_err := Some (ErrorWrapf (us_err st)
        "Failed to get claim of blockdevice {%s}.. %s" [BlockDeviceName bdev]) }})
  | OK bdClaim =>
      let predecessorBDName := label (annotations bdClaim) PredecessorBDLabelKey in
      if IsEmpty predecessorBDName then replace_device cspi bdev bdClaim "" [] st
      else
        let* r := getPathForBDev predecessorBDName in
        match r with
        | Err _ =>
            mret (bdev, st {{ us_err := Some (ErrorWrapf (us_err st)
              "Failed to check bdev change {%s}.. %s" [BlockDeviceName bdev]) }})
        | OK oldPath =>
            let st := st {{ isReplacementTriggered := true }}
                         {{ replacingBlockDeviceCount ::= (λ n, n + 1)%Z }} in
            replace_device cspi bdev bdClaim predecessorBDName oldPath st
        end
  end.

Fixpoint update_devices (cspi : CStorPoolInstance) (bdevs : list CStorPoolInstanceBlockDevice)
  (st : update_state) : M W (list CStorPoolInstanceBlockDevice * update_state) :=
  match bdevs with
  | [] => mret ([], st)
  | bdev :: bdevs' =>
      let* (bdev, st) := update_device cspi bdev st in
      let* (rest, st) := update_devices cspi bdevs' st in
      mret (bdev :: rest, st)
  end.

(** One raid group.  Only a device marks its group as changed, so that the removal of a changed
    group without devices never happens. *)
Definition update_group (cspi : CStorPoolInstance) (rg : RaidGroup) (st : update_state)
  : M W (RaidGroup * update_state) :=
  let st := st {{ isRaidGroupChanged := false }} in
  let* (bdevs, st) := update_devices cspi (CStorPoolInstanceBlockDevices rg) st in
  let st := if isRaidGroupChanged st then st {{ isObjChanged := true }} else st in
  mret ({| CStorPoolInstanceBlockDevices := bdevs |}, st).

Fixpoint update_groups (cspi : CStorPoolInstance) (rgs : list RaidGroup) (st : update_state)
  : M W (list RaidGroup * update_state) :=
  match rgs with
  | [] => mret ([], st)
  | rg :: rgs' =>
      let* (rg, st) := update_group cspi rg st in
      let* (rest, st) := update_groups cspi rgs' st in
      mret (rg :: rest, st)
  end.

Definition update_types (cspi : CStorPoolInstance) (configs : list (string * raidConfiguration))
  (st : update_state) : M W (CStorPoolInstance * update_state) :=
  foldM (λ '(cspi, st) '(deviceType, config),
    let* (rgs, st) := update_groups cspi (RaidGroups config) st in
    mret (share_groups deviceType rgs cspi, st)) (cspi, st) configs.

Definition set_condition (cspi : CStorPoolInstance) (c : CStorPoolInstanceCondition) : CStorPoolInstance :=
  cspi_with_status (SetCSPICondition (cspi_Status cspi) c) cspi.

(** *** updateNewVdevFromCSPI *)

(** The devices of a raid group that the pool does not use, with their paths, and whether no
    device of the group is used. *)
Fixpoint unused_devices (t : Topology) (bdevs : list CStorPoolInstanceBlockDevice)
  : M W (result (list string * bool)) :=
  match bdevs with
  | [] => mret (OK ([], true))
  | bdev :: bdevs' =>
      let* r := getPathForBDev (BlockDeviceName bdev) in
      match r with
      | Err _ => mret (Err (Errorf "Failed get bdev {%s} path err {%s}" [BlockDeviceName bdev]))
      | OK newPath =>
          let used := match checkIfDeviceUsed newPath t with Some _ => true | None => false end in
          let* p := if used then mret "" else lift (λ _, slice_at newPath 0) in
          let* r := unused_devices t bdevs' in
          match r with
          | Err err => mret (Err err)
          | OK (devlist, wholeGroup) =>
              if used then mret (OK (devlist, false)) else mret (OK (p :: devlist, wholeGroup))
          end
      end
  end.

(** One raid group: whether an expansion was triggered, and the errors so far. *)
Definition expand_group (cspi : CStorPoolInstance) (t : Topology) (deviceType : string)
  (groupType : string) (acc : bool * option error) (rg : RaidGroup)
  : M W (result (bool * option error)) :=
  let '(triggered, err) := acc in
  let* r := unused_devices t (CStorPoolInstanceBlockDevices rg) in
  match r with
  | Err er => mret (Err er)
  | OK (devlist, true) =>
      let* er := addRaidGroup rg deviceType groupType in
      match er with
      | Some _ => mret (OK (true, Some (ErrorWrapf err "Failed to add raidGroup{%#v}.. %s" [])))
      | None =>
          let* _ := cspi_event cspi "Normal" "Pool Expansion"
            "Pool Expanded Successfully By Adding RaidGroup With BlockDevices: %v device type: %s pool type: %s"
            (rg_bds rg ++ [deviceType; groupType]) in
          mret (OK (true, err))
      end
  | OK (devlist, false) =>
      if negb (bool_decide (devlist = [])) && bool_decide (groupType = PoolStriped) then
        let* poolName := PoolName in
        let* (ret, er) :=
          padd.Execute (padd.WithExecutor oc (padd.WithPool poolName (padd.WithVdevList devlist
            (padd.WithDeviceType (getZFSDeviceType deviceType) padd.NewPoolExpansion)))) in
        match er with
        | Some _ =>
            mret (OK (true, Some (ErrorWrapf err "Failed to add devlist %v.. err {%s} {%s}" [ret])))
        | None =>
            let* _ := cspi_event cspi "Normal" "Pool Expansion"
              "Pool Expanded Successfully By Adding BlockDevices: %v device type: %s pool type: %s"
              [deviceType; groupType] in
            mret (OK (true, err))
        end
      else mret (OK (triggered, err))
  end.

(** The loops over the types and over the raid groups; an error of a path ends both. *)
Fixpoint expand_groups (cspi : CStorPoolInstance) (t : Topology)
  (groups : list (string * string * RaidGroup)) (acc : bool * option error)
  : M W (result (bool * option error)) :=
  match groups with
  | [] => mret (OK acc)
  | (deviceType, groupType, rg) :: groups' =>
      let* r := expand_group cspi t deviceType groupType acc rg in
      match r with
      | Err er => mret (Err er)
      | OK acc => expand_groups cspi t groups' acc
      end
  end.
Definition typed_groups (configs : list (string * raidConfiguration)) : list (string * string * RaidGroup) :=
  configs ≫= λ '(deviceType, config), (λ rg, (deviceType, RaidGroupType config, rg)) <$> RaidGroups config.

Definition successExpansionReason : string := "PoolExpansionSuccessful".

(** The new condition of the expansion, when it changes. *)
Definition expansion_condition (cspi : CStorPoolInstance) (triggered : bool)
  : M W (option CStorPoolInstanceCondition) :=
  let condition := GetCSPICondition (cspi_Status cspi) CSPIPoolExpansion in
  let done :=
    match condition with
    | Some c => negb triggered && negb (bool_decide (cond_Reason c = successExpansionReason))
    | None => false
    end in
  if done then
    let* c := NewCSPICondition CSPIPoolExpansion ConditionFalse successExpansionReason
                "Pool expansion was successfull by adding blockdevices/raid groups" in
    mret (Some c)
  else if triggered then
    let* c := NewCSPICondition CSPIPoolExpansion ConditionTrue "PoolExpansionInProgress"
                "Pool expansion is in progress because of blockdevice/raid group addition error: %v" in
    mret (Some c)
  else mret None.

(** The argument, which the condition is set in, the returned instance and the error: when the
    update fails the instance from before the condition is returned. *)
Definition updateNewVdevFromCSPI (cspi : CStorPoolInstance)
  : M W (CStorPoolInstance * CStorPoolInstance * option error) :=
  let* (poolTopology, err) := executeZpoolDump in
  match err with
  | Some _ => mret (cspi, cspi, Some (Errorf "Failed to fetch pool topology.. %s" []))
  | None =>
      let groups := typed_groups (go_range "updateNewVdevFromCSPI" (getRaidGroupsConfigMap cspi)) in
      let* r := expand_groups cspi poolTopology groups (false, None) in
      match r with
      | Err er => mret (cspi, cspi, Some er)
      | OK (triggered, err) =>
          let* c := expansion_condition cspi triggered in
          match c with
          | None => mret (cspi, cspi, err)
          | Some newCondition =>
              let cspiCopy := cspi in
              let cspi := set_condition cspi newCondition in
              let* r := call (rUpdate (namespace cspi) cspi) in
              match r with
              | Err updateErr =>
                  mret (cspi, cspiCopy, Some (Wrapf updateErr
                    "failed to update cspi pool expansion conditions error: %v" []))
              | OK updatedCSPI => mret (cspi, updatedCSPI, err)
              end
          end
      end
  end.

(** *** Update *)

Definition replacement_condition (st : update_state) : M W CStorPoolInstanceCondition :=
  if (0 <? replacingBlockDeviceCount st)%Z then
    NewCSPICondition CSPIDiskReplacement ConditionTrue "BlockDeviceReplacementInprogress"
      "Resilvering %d no.of blockdevices... because of blockdevice replacement error: %v"
  else
    NewCSPICondition CSPIDiskReplacement ConditionFalse "BlockDeviceReplacementSucceess"
      "Blockdevice replacement was successfully completed".

Definition update_object (cspi : CStorPoolInstance) (st : update_state)
  : M W (CStorPoolInstance * option error) :=
  let* cspi :=
    if isReplacementTriggered st then
      let* c := replacement_condition st in mret (set_condition cspi c)
    else mret cspi in
  if isReplacementTriggered st || isObjChanged st then
    let* r := call (rUpdate (namespace cspi) cspi) in
    match r with
    | Err _ => mret (cspi, Some (ErrorWrapf (us_err st) "Failed to update object.. err {%s}" []))
    | OK ncspi => mret (ncspi, us_err st)
    end
  else mret (cspi, us_err st).

Definition Update (cspi : CStorPoolInstance) : M W (CStorPoolInstance * option error) :=
  let* r := getBlockDeviceClaimList CStorPoolClusterLabelKey
              (label (labels cspi) CStorPoolClusterLabelKey) in
  match r with
  | Err err => mret (cspi, Some err)
  | OK bdClaimList =>
      let st := {| us_claims := bdClaimList; us_err := None; isRaidGroupChanged := false;
                   isObjChanged := false; isReplacementTriggered := false;
                   replacingBlockDeviceCount := 0 |} in
      let* (cspi, st) := update_types cspi (go_range "Update" (getRaidGroupsConfigMap cspi)) st in
      let* (cspi, err) := update_object cspi st in
      let* (cspi, ncspi, er) := updateNewVdevFromCSPI cspi in
      match er with
      | Some _ =>
          let* _ := cspi_event cspi "Warning" "Pool Expansion" "Failed to expand pool... Error: %s" [] in
          mret (cspi, Some (ErrorWrapf err "Pool expansion... err {%s}" []))
      | None => mret (ncspi, err)
      end
  end.

(** ** Devices that are not healthy (pool_utils.go) *)

Definition unavailable_step (cspi : CStorPoolInstance) (topology : Topology) (faulted : list string)
  (bdev : CStorPoolInstanceBlockDevice) : M W (list string) :=
  if IsEmpty (DevLink bdev) then mret faulted
  else
    match getVdevFromPath (DevLink bdev) topology with
    | None => mret faulted
    | Some vdev =>
        let* state := lift (λ _, slice_at (VdevStats vdev) VdevStateIndex) in
        if (state =? VdevStateHealthy)%Z then mret faulted
        else
          let* _ := cspi_event cspi "Warning" "DeviceState" "%s device was in %s state"
                      [BlockDeviceName bdev; GetVdevState vdev] in
          mret (faulted ++ [BlockDeviceName bdev])
    end.

Definition GetUnavailableDiskList (cspi : CStorPoolInstance) : M W (result (list string)) :=
  let* (topology, err) := executeZpoolDump in
  match err with
  | Some err => mret (Err (Wrapf err "failed to execute zpool dump" []))
  | None =>
      let groups := go_range "GetUnavailableDiskList" (getRaidGroupsConfigMap cspi) ≫= λ '(_, c), RaidGroups c in
      let* faulted := foldM (unavailable_step cspi topology) []
                        (groups ≫= CStorPoolInstanceBlockDevices) in
      mret (OK faulted)
  end.

(** ** Properties and capacity of the pool (status.go) *)

Definition pool_property (b : builder pget.PoolGProperty → builder pget.PoolGProperty)
  (poolName : string) : M W output :=
  pget.Execute (pget.WithExecutor oc (pget.WithPool poolName (b (pget.WithField "value"
    (pget.WithScriptedMode true pget.NewPoolGetProperty))))).

Definition GetPropertyValue (poolName property : string) : M W (result string) :=
  let* (ret, err) := pool_property (pget.WithProperty property) poolName in
  match err with
  | Some err => mret (Err (Wrapf err "failed to get property %s value output: %s" [property; ret]))
  | None => mret (OK (first_line ret))
  end.

Definition pool_GetListOfPropertyValues (poolName : string) (propertyList : list string)
  : M W (result (list string)) :=
  let* (ret, err) := pool_property (pget.WithPropertyList propertyList) poolName in
  match err with
  | Some err => mret (Err err)
  | None => mret (OK (lines ret))
  end.

Definition GetVolumePropertyValue (poolName property : string) : M W (result string) :=
  let* (ret, err) :=
    vget.Execute (vget.WithExecutor oc (vget.WithDataset poolName (vget.WithProperty property
      (vget.WithField "value" (vget.WithScriptedMode true vget.NewVolumeGetProperty))))) in
  match err with
  | Some err => mret (Err (Wrapf err "failed to get property %s value output: %s" [property; ret]))
  | None => mret (OK (first_line ret))
  end.

(** The index of the first "K" is the number of replacements. *)
Definition GetCapacityInBinarySi (capacity : string) : string :=
  match index_byte "K"%char capacity with
  | Some i => replace_byte "K"%char "k"%char i capacity
  | None => capacity
  end.

Definition GetCapacityFromString (capacity : string) : result Quantity :=
  resource_ParseQuantity capacity.

(** The capacity that is returned with an error is dropped by the one caller. *)
Definition capacity_of (used logicalUsed free : string) : result CStorPoolInstanceCapacity :=
  match GetCapacityFromString used with
  | Err err => Err (Wrapf err "failed to parse pool used size %s of pool %s" [used])
  | OK qu =>
      match GetCapacityFromString logicalUsed with
      | Err err => Err (Wrapf err "failed to parse pool logicalused size %s of pool %s" [logicalUsed])
      | OK ql =>
          match GetCapacityFromString free with
          | Err err => Err (Wrapf err "failed to parse pool free size %s of pool %s" [free])
          | OK qf => OK {| cap_Used := qu; cap_LogicalUsed := ql; cap_Free := qf;
                           cap_Total := Quantity_Add qf qu |}
          end
      end
  end.

Definition GetCSPICapacity (poolName : string) : M W (result CStorPoolInstanceCapacity) :=
  let* r := GetListOfPropertyValues poolName ["used"; "logicalused"; "available"] oc in
  match r with
  | Err _ => mret (Err (Errorf "failed to get pool %v properties for pool %s cmd out: %v error: %v" [poolName]))
  | OK valueList =>
      let* v0 := lift (λ _, slice_at valueList 0) in
      let* v1 := lift (λ _, slice_at valueList 1) in
      let* v2 := lift (λ _, slice_at valueList 2) in
      mret (capacity_of (GetCapacityInBinarySi v0) (GetCapacityInBinarySi v1) (GetCapacityInBinarySi v2))
  end.

Definition SetPoolRDMode (poolName : string) (isROMode : bool) : M W (option error) :=
  let mode := if isROMode then "on" else "off" in
  let* (ret, err) :=
    pset.Execute (pset.WithExecutor oc (pset.WithPool poolName
      (pset.WithProperty "io.openebs:readonly" mode pset.NewPoolSetProperty))) in
  match err with
  | Some _ => mret (Some (Errorf "Failed to update readOnly mode to %s out:%v err:%v" [mode; ret]))
  | None => mret None
  end.

(** ** Properties that were set (property.go) *)

(** [dsProperties.fsProperties[property] = value]: the map is the remembered one when there is
    one, and a new map that is stored only at the end otherwise. *)
Definition remember (datasetName property value : string) (m : gmap string string)
  : M W (gmap string string) :=
  let m := <[property := value]> m in
  let* _ := set_globals (λ g,
    match g_datasets g !! datasetName with
    | Some _ => g_with_datasets (<[datasetName := m]> (g_datasets g)) g
    | None => g
    end) in
  mret m.

(** The first loop: the remembered properties and those that must be set. *)
Fixpoint unset_properties (datasetName : string) (desired : list (string * string))
  (m unset : gmap string string) : M W (result (gmap string string * gmap string string)) :=
  match desired with
  | [] => mret (OK (m, unset))
  | (property, desiredValue) :: desired' =>
      if bool_decide (m !! property = Some desiredValue) then
        unset_properties datasetName desired' m unset
      else
        let* r := GetVolumePropertyValue datasetName property in
        match r with
        | Err err =>
            mret (Err (Wrapf err "failed to get value of filesystem property %s of pool %s"
                         [property; datasetName]))
        | OK existingPropValue =>
            if bool_decide (existingPropValue = desiredValue) then
              let* m := remember datasetName property desiredValue m in
              unset_properties datasetName desired' m unset
            else unset_properties datasetName desired' m (<[property := desiredValue]> unset)
        end
  end.

Definition store_properties (datasetName : string) (m : gmap string string) : M W unit :=
  set_globals (λ g, g_with_datasets (<[datasetName := m]> (g_datasets g)) g).

Definition SetPoolFSPropertiesIfNot (datasetName : string) (desiredFSProperties : gmap string string)
  : M W (option error) :=
  let* g := get_globals in
  let m := default ∅ (g_datasets g !! datasetName) in
  let* r := unset_properties datasetName (go_range "desiredFSProperties" desiredFSProperties) m ∅ in
  match r with
  | Err err => mret (Some err)
  | OK (m, unsetPropValues) =>
      if bool_decide (unsetPropValues = ∅) then
        let* _ := store_properties datasetName m in mret None
      else
        let zfsCommand :=
          foldl (λ b '(key, value), vset.WithProperty key value b)
            (vset.WithExecutor oc (vset.WithDataset datasetName vset.NewVolumeSetProperty))
            (go_range "unsetPropValues" unsetPropValues) in
        let* (ret, err) := vset.Execute zfsCommand in
        match err with
        | Some err =>
            mret (Some (Wrapf err "failed to set property values %v output: %s" [ret]))
        | None =>
            let* _ := store_properties datasetName
              (foldl (λ m '(key, value), <[key := value]> m) m (go_range "stored" unsetPropValues)) in
            mret None
        end
  end.

Definition SetPoolProperties (cspi : CStorPoolInstance) : M W (option error) :=
  let compression := Compression (cspi_PoolConfig (cspi_Spec cspi)) in
  let compressionType := if IsEmpty compression then "lz4" else compression in
  let* poolName := PoolName in
  SetPoolFSPropertiesIfNot poolName (<["compression" := compressionType]> {["canmount" := "off"]}).
End pool.
