(* ===== verification/CspiSync.v ===== *)
(** * CspiSync: one reconciliation of a CStorPoolInstance (pkg/controllers/cspi-controller)

    The controller of the pool manager protects the instance with a finalizer, settles its
    version, imports the pool or creates it, applies the changes of the specification and
    reports the state of the pool in the status of the instance. *)

From stdpp Require Import base gmap strings list sets pretty.
From Stdlib Require Import Ascii ZArith Lia.
From coqutil Require Import Datatypes.RecordSetters.
From S2P Require Import Prelude Api VolumeApi Version Webhook PoolOps Zcmd Zpool Zfs PoolApi VolumeReplica PoolManager CspcSync.
Import DoubleBraceUpdate.

(** ** Settling the version of an object

    The controllers of the pool manager share the steps of reconcileVersion: [version_of] and
    [set_version] read and write the version of an object, [wrap] is applied to the error of the
    last update.  Their maps of upgrade functions are empty. *)
Section versioned.
Context {W Obj : Type} `{HasMeta Obj} `{!ResourceClient W Obj} `{OpenebsApi} `{BuildInfo}.
Context (version_of : Obj → VersionDetails) (set_version : VersionDetails → Obj → Obj)
  (wrap : error → error).

Definition obj_upgradeMap : gmap string (Obj → M W (Obj * option error)) := ∅.

Definition finish_version (obj : Obj) : M W (Obj * option error) :=
  let path := before_dash (Current (vd_Status (version_of obj))) in
  let* (obj, err) :=
    match obj_upgradeMap !! path with Some f => f obj | None => mret (obj, None) end in
  match err with
  | Some err => mret (obj, Some err)
  | None =>
      let copy := obj in
      let obj := set_version (SetSuccessStatus (version_of obj)) obj in
      let* r := call (rUpdate (namespace obj) obj) in
      match r with
      | Err err => mret (copy, Some (wrap err))
      | OK obj => mret (obj, None)
      end
  end.

Definition reconcile_version (obj : Obj) : M W (Obj * option error) :=
  let v := version_of obj in
  let current := Current (vd_Status v) in
  if bool_decide (current = Desired v) then mret (obj, None)
  else
    let* valid := lift (λ _, IsCurrentVersionValid current) in
    if negb valid then mret (obj, Some (Errorf "invalid current version %s" [current]))
    else if negb (IsDesiredVersionValid (Desired v)) then
      mret (obj, Some (Errorf "invalid desired version %s" [Desired v]))
    else if bool_decide (State (vd_Status v) = ReconcileInProgress) then finish_version obj
    else
      let o := set_version (version_with_status (SetInProgressStatus (vd_Status v)) v) obj in
      let* r := call (rUpdate (namespace o) o) in
      match r with
      | Err err => mret (obj, Some err)
      | OK o => finish_version o
      end.
End versioned.

(** ** The handlers *)

Definition int64 (x : Z) : Z := ((x + 2 ^ 63) mod 2 ^ 64 - 2 ^ 63)%Z.

(** Division of int64: truncated, and a panic for zero. *)
Definition div64 (a b : Z) : outcome Z :=
  if (b =? 0)%Z then Panic "integer divide by zero" else Ret (int64 (Z.quot a b)).

Definition OpenEBSIOCSPIID : string := "OPENEBS_IO_CSPI_ID".

Definition IsStatusChange (oldStatus newStatus : CStorPoolInstanceStatus) : bool :=
  negb (bool_decide (oldStatus = newStatus)).

Definition empty_group (rg : RaidGroup) : bool := bool_decide (CStorPoolInstanceBlockDevices rg = []).

Definition validateCSPI (cspi : CStorPoolInstance) : option error :=
  let spec := cspi_Spec cspi in
  if bool_decide (cspi_DataRaidGroups spec = []) then Some (Errorf "No data RaidGroups exists" [])
  else if bool_decide (DataRaidGroupType (cspi_PoolConfig spec) = "") then
    Some (Errorf "Missing DataRaidGroupType" [])
  else if negb (bool_decide (cspi_WriteCacheRaidGroups spec = [])) &&
          bool_decide (WriteCacheGroupType (cspi_PoolConfig spec) = "") then
    Some (Errorf "Missing WriteCacheRaidGroupType" [])
  else if existsb empty_group (cspi_DataRaidGroups spec) then
    Some (Errorf "No BlockDevices exist in one of the DataRaidGroup" [])
  else if existsb empty_group (cspi_WriteCacheRaidGroups spec) then
    Some (Errorf "No BlockDevices exist in one of the WriteCache RaidGroup" [])
  else None.

Section cspi_sync.
Context {W : Type} `{OpenebsApi} `{VolumeApi} `{PoolApi} `{PodEnv} `{GoRuntime} `{ZJson} `{BuildInfo}.
Context `{!Shell W} `{!Runner W} `{!Env W} `{!Process W}.
Context `{!ResourceClient W CStorPoolInstance} `{!ResourceClient W BlockDevice}
  `{!ResourceClient W BlockDeviceClaim}.
Context (oc : option executor).

Definition IsRightCStorPoolInstanceMgmt (cspi : CStorPoolInstance) : bool :=
  bool_decide (os_Getenv OpenEBSIOCSPIID = uid cspi).

Definition IsReconcileDisabled (cspi : CStorPoolInstance) : bool :=
  cspi_HasAnnotation OpenEBSDisableReconcileLabelKey "true" cspi.

Definition getCSPIObjFromKey (key : string) : M W (result (option CStorPoolInstance)) :=
  match cache_SplitMetaNamespaceKey key with
  | Err _ => mret (OK None)
  | OK (ns, n) =>
      let* r := reads (λ w, rGet w ns n) in
      match r with
      | Err err => mret (if IsNotFound err then OK None else Err err)
      | OK cspi => mret (OK (Some cspi))
      end
  end.

Definition cspi_reconcileVersion : CStorPoolInstance → M W (CStorPoolInstance * option error) :=
  reconcile_version cspi_VersionDetails cspi_with_version (λ err, Wrapf err "failed to update CSPI" []).

(** *** Finalizers *)

Definition addPoolProtectionFinalizer (cspi : CStorPoolInstance) : M W (result CStorPoolInstance) :=
  if ContainsString (finalizers cspi) PoolProtectionFinalizer then mret (OK cspi)
  else
    let cspi := cspi_with_meta
      (meta_with_finalizers (finalizers cspi ++ [PoolProtectionFinalizer]) (cspi_meta cspi)) cspi in
    call (rUpdate (namespace cspi) cspi).

(** The instance, whose finalizers are changed also when the update fails, and the error. *)
Definition removeFinalizer (cspi : CStorPoolInstance) : M W (CStorPoolInstance * option error) :=
  if bool_decide (finalizers cspi = []) then mret (cspi, None)
  else
    let cspi := cspi_with_meta
      (meta_with_finalizers (RemoveString (finalizers cspi) PoolProtectionFinalizer) (cspi_meta cspi))
      cspi in
    let* r := call (rUpdate (namespace cspi) cspi) in
    mret (cspi, match r with Err err => Some err | OK _ => None end).

(** The label updatestatus of destroy. *)
Definition deletion_failed (cspi : CStorPoolInstance) (err : error) : M W (option error) :=
  let cspi := cspi_with_status
    ((cspi_Status cspi) {{ csps_Phase := CStorPoolStatusDeletionFailed }}) cspi in
  let* _ := call (rUpdate (namespace cspi) cspi) in
  mret (Some err).

Definition destroy (cspi : CStorPoolInstance) : M W (option error) :=
  if negb (ContainsString (finalizers cspi) PoolProtectionFinalizer) then mret None
  else
    let* err := Delete oc cspi in
    match err with
    | Some err =>
        let* _ := cspi_event cspi "Warning" "FailDestroy" "Failed to delete pool due to '%s'" [] in
        deletion_failed cspi err
    | None =>
        let* (cspi, err) := removeFinalizer cspi in
        match err with
        | Some err => deletion_failed cspi err
        | None => mret None
        end
    end.

(** *** Status *)

Definition defaultROThreshold : Z := 85.

(** The status with its read-only flag. *)
Definition updateROMode (cspiStatus : CStorPoolInstanceStatus) (cspi : CStorPoolInstance)
  : M W CStorPoolInstanceStatus :=
  let roThresholdLimit := default defaultROThreshold (ROThresholdLimit (cspi_PoolConfig (cspi_Spec cspi))) in
  let availableInBytes := Quantity_Value (cap_Free (csps_Capacity cspiStatus)) in
  let usedInBytes := Quantity_Value (cap_Used (csps_Capacity cspiStatus)) in
  let totalInBytes := int64 (availableInBytes + usedInBytes) in
  let* pool := PoolName in
  let* usedPercentage := lift (λ _, div64 (int64 (usedInBytes * 100)) totalInBytes) in
  if (roThresholdLimit <=? usedPercentage)%Z && negb (roThresholdLimit =? 100)%Z then
    if csps_ReadOnly cspiStatus then mret cspiStatus
    else
      let* err := SetPoolRDMode oc pool true in
      match err with
      | Some _ => mret cspiStatus
      | None =>
          let* _ := cspi_event cspi "Warning" "PoolReadOnlyThreshold"
            "Pool storage limit reached to read only threshold limit. Pool expansion is required to make its volume replicas RW" [] in
          mret (cspiStatus {{ csps_ReadOnly := true }})
      end
  else if csps_ReadOnly cspiStatus then
    let* err := SetPoolRDMode oc pool false in
    match err with
    | Some _ => mret cspiStatus
    | None =>
        let* _ := cspi_event cspi "Normal" "PoolReadOnlyThreshold"
          "Pool roThresholdLimit or pool got expanded due to that pool readOnly mode is unset" [] in
        mret (cspiStatus {{ csps_ReadOnly := false }})
    end
  else mret cspiStatus.

Definition addDiskUnavailableCondition (cspi : CStorPoolInstance) : M W CStorPoolInstance :=
  let diskUnavailableCondition := GetCSPICondition (cspi_Status cspi) CSPIDiskUnavailable in
  let* r := GetUnavailableDiskList oc cspi in
  match r with
  | Err _ => mret cspi
  | OK [] =>
      match diskUnavailableCondition with
      | Some _ =>
          let* c := NewCSPICondition CSPIDiskUnavailable ConditionFalse "DisksAreAvailable" "" in
          mret (set_condition cspi c)
      | None => mret cspi
      end
  | OK _ =>
      let* c := NewCSPICondition CSPIDiskUnavailable ConditionTrue "DisksAreUnavailable"
                  "Following disks %v are unavailable/faulted" in
      mret (set_condition cspi c)
  end.

(** The status that is read from the pool, before the read-only mode is settled. *)
Definition pool_status (pool : string) : M W (result CStorPoolInstanceStatus) :=
  let* r := pool_GetListOfPropertyValues oc pool ["health"; "io.openebs:readonly"] in
  match r with
  | Err _ => mret (Err (Errorf "Failed to fetch %v output: %v error: %v" []))
  | OK valueList =>
      let* health := lift (λ _, slice_at valueList 0) in
      let* readonly := lift (λ _, slice_at valueList 1) in
      let status := cspi_status_of health (bool_decide (readonly = "on")) in
      let* c := GetProvisionedAndHealthyReplicaCount oc in
      let status :=
        match c with
        | Err _ => status
        | OK (provisioned, healthy) =>
            status {{ csps_ProvisionedReplicas := provisioned }} {{ csps_HealthyReplicas := healthy }}
        end in
      let* cap := GetCSPICapacity oc pool in
      match cap with
      | Err _ => mret (Err (Errorf "Failed to sync due to %s" []))
      | OK cap => mret (OK (status {{ csps_Capacity := cap }}))
      end
  end.

Definition updateStatus (cspi : CStorPoolInstance) : M W (CStorPoolInstance * option error) :=
  let* pool := PoolName in
  let* r := pool_status pool in
  match r with
  | Err err => mret (cspi, Some err)
  | OK status =>
      let* status := updateROMode status cspi in
      let* cspi := addDiskUnavailableCondition cspi in
      let status := status {{ csps_Conditions := csps_Conditions (cspi_Status cspi) }} in
      if IsStatusChange (cspi_Status cspi) status then
        let cspi := cspi_with_status status cspi in
        let* r := call (rUpdate (namespace cspi) cspi) in
        match r with
        | Err _ => mret (cspi, Some (Errorf "Failed to updateStatus due to '%s'" []))
        | OK cspiGot => mret (cspiGot, None)
        end
      else mret (cspi, None)
  end.

Definition UpdateStatusCondition (cspi : CStorPoolInstance) (condition : CStorPoolInstanceCondition)
  : M W (result CStorPoolInstance) :=
  let cspi := set_condition cspi condition in
  let* r := call (rUpdate (namespace cspi) cspi) in
  mret (wrap_result r "failed to update cspi conditions" []).

(** The retries of UpdateStatusConditionEventually, at intervals of two seconds. *)
Fixpoint retry_condition (maxRetry : nat) (cspi : CStorPoolInstance)
  (condition : CStorPoolInstanceCondition) (first : error)
  : M W (CStorPoolInstance * option error) :=
  match maxRetry with
  | 0 => mret (cspi, Some first)
  | S maxRetry' =>
      let* g := reads (λ w, rGet w (namespace cspi) (name cspi)) in
      match g with
      | Err err => mret (cspi, Some (Wrapf err "failed to update cspi status" []))
      | OK newCSPI =>
          let* u := UpdateStatusCondition newCSPI condition in
          match u with
          | Err _ => retry_condition maxRetry' cspi condition first
          | OK updatedCSPI => mret (updatedCSPI, None)
          end
      end
  end.

Definition UpdateStatusConditionEventually (cspi : CStorPoolInstance)
  (condition : CStorPoolInstanceCondition) : M W (CStorPoolInstance * option error) :=
  let* u := UpdateStatusCondition cspi condition in
  match u with
  | Err err => retry_condition 3 cspi condition err
  | OK updatedCSPI => mret (updatedCSPI, None)
  end.

(** *** Reconciliation *)

Definition update (cspi : CStorPoolInstance) : M W (CStorPoolInstance * option error) :=
  let* (ncspi, err) := Update oc cspi in
  match err with
  | Some _ => mret (ncspi, Some (Errorf "Failed to update pool due to %s" []))
  | None => updateStatus ncspi
  end.

Definition sync_properties (cspi : CStorPoolInstance) : M W unit :=
  let* err := SetPoolProperties oc cspi in
  match err with
  | Some _ => cspi_event cspi "Warning" "Pool FailedToSetPoolProperties" "Failed to set pool properties: %v" []
  | None => mret tt
  end.

(** The pool is changed and its status is reported; an error becomes an event. *)
Definition update_pool (cspi : CStorPoolInstance) : M W CStorPoolInstance :=
  let* (cspiGot, err) := update cspi in
  match err with
  | Some _ => let* _ := cspi_event cspiGot "Warning" "FailedSync" "%s" [] in mret cspiGot
  | None => mret cspiGot
  end.

Definition reconcile_imported (cspi : CStorPoolInstance) (err : option error) : M W (option error) :=
  match err with
  | Some _ =>
      let* _ := Mux_Unlock in
      let* _ := cspi_event cspi "Warning" "Import failure" "Failed to import pool due to '%s'" [] in
      mret None
  | None =>
      let* _ := CheckImportedPoolVolume in
      let* _ := Mux_Unlock in
      let* cspiGot := update_pool cspi in
      let* _ := sync_properties cspiGot in
      mret None
  end.

Definition reconcile_new (cspi : CStorPoolInstance) : M W (option error) :=
  let* err := Create oc cspi in
  match err with
  | Some _ =>
      let* _ := cspi_event cspi "Warning" "FailCreate" "Failed to create pool due to '%s'" [] in
      let* _ := Delete oc cspi in
      let* _ := Mux_Unlock in
      mret None
  | None =>
      let* _ := Mux_Unlock in
      let* _ := cspi_event cspi "Normal" "Created" "Pool created successfully" [] in
      let* _ := update_pool cspi in
      mret None
  end.

Definition reconcile_lost (cspi : CStorPoolInstance) : M W (option error) :=
  let* _ := Mux_Unlock in
  let* _ := cspi_event cspi "Warning" "FailedSync"
    "Failed to import the pool as the underlying pool might be lost or the disk(s) has gone bad" [] in
  let* pool := PoolName in
  let* c := NewCSPICondition CSPIPoolLost ConditionTrue "PoolLost" ("failed to import" +:+ pool +:+ "pool") in
  let* _ := UpdateStatusConditionEventually cspi c in
  mret None.

Definition reconcile_pool (cspi : CStorPoolInstance) : M W (option error) :=
  let* _ := Mux_Lock in
  let* (cspi, isImported, err) := Import oc cspi in
  if isImported : bool then reconcile_imported cspi err
  else if cspi_IsEmptyStatus cspi || cspi_IsPendingStatus cspi then reconcile_new cspi
  else reconcile_lost cspi.

(** From the version on. *)
Definition reconcile_versioned (cspiObj : CStorPoolInstance) : M W (option error) :=
  let* (cspiObj, err) := cspi_reconcileVersion cspiObj in
  match err with
  | Some err =>
      let v := cspi_VersionDetails cspiObj in
      let* _ := cspi_event cspiObj "Warning" "FailedUpgrade" "Failed to upgrade cspi to %s version: %s"
                  [Desired v] in
      let cspiObj := cspi_with_version (version_with_status
        (SetErrorStatus "Failed to reconcile cspi version" err (vd_Status v)) v) cspiObj in
      let* _ := call (rUpdate (namespace cspiObj) cspiObj) in
      mret None
  | None =>
      match validateCSPI cspiObj with
      | Some _ =>
          let* _ := cspi_event cspiObj "Warning" "Validation failed" "%s" [] in mret None
      | None => reconcile_pool cspiObj
      end
  end.

Definition reconcile (key : string) : M W (option error) :=
  let* r := getCSPIObjFromKey key in
  match r with
  | Err err => mret (Some err)
  | OK None => mret None
  | OK (Some cspi) =>
      if IsReconcileDisabled cspi then
        let* _ := cspi_event cspi "Warning" "reconcile is disabled via %q annotation" "Skipping reconcile" [] in
        mret None
      else if cspi_IsDestroyed cspi then destroy cspi
      else
        let* f := addPoolProtectionFinalizer cspi in
        match f with
        | Err _ =>
            let* _ := cspi_event cspi "Warning" "Failed to add %s finalizer." "%s" [] in mret None
        | OK cspiObj => reconcile_versioned cspiObj
        end
  end.

(** The instance of this pool manager goes offline when the manager stops. *)
Definition markCSPIStatusToOffline : M W unit :=
  let* r := reads (λ w, rList w "" "") in
  match first_such IsRightCStorPoolInstanceMgmt (items_or_empty r) with
  | None => mret tt
  | Some cspi =>
      if bool_decide (cspi_Phase cspi = "") || bool_decide (cspi_Phase cspi = CStorPoolStatusPending)
      then mret tt
      else
        let cspi := cspi_with_status ((cspi_Status cspi) {{ csps_Phase := CStorPoolStatusOffline }}) cspi in
        let* _ := call (rUpdate (namespace cspi) cspi) in mret tt
  end.
End cspi_sync.
