(* ===== verification/ReplicaSync.v ===== *)
(** * ReplicaSync: one reconciliation of a CStorVolumeReplica
      (pkg/controllers/replica-controller, pkg/controllers/common)

    The informer handlers that queue a replica of this pool, and the handler that creates its
    dataset, deletes it, or reports its state. *)

From stdpp Require Import base gmap strings list sets pretty.
From Stdlib Require Import Ascii ZArith Lia.
From coqutil Require Import Datatypes.RecordSetters.
From S2P Require Import Prelude Api VolumeApi Version Webhook PoolOps Zcmd Zpool Zfs PoolApi VolumeOps VolumeReplica PoolManager VolumeSync CspiSync.
Import DoubleBraceUpdate.

(** common.QueueOperation, a string with these values. *)
Inductive QueueOperation := QOpAdd | QOpDestroy | QOpModify | QOpSync | QOpOther (s : string).

(** common.QueueLoad *)
Record QueueLoad := { Key : string; Operation : QueueOperation }.

#[export] Instance CStorSnapshotInfo_eq_dec : EqDecision CStorSnapshotInfo.
Proof. solve_decision. Defined.
#[export] Instance CStorVolumeReplicaStatus_eq_dec : EqDecision CStorVolumeReplicaStatus.
Proof. solve_decision. Defined.

(** ** pkg/controllers/common *)

Definition CheckIfPresent (arrStr : list string) (searchStr : string) : bool :=
  existsb (λ str, bool_decide (str = searchStr)) arrStr.

(** [append(l[:i], l[i+1:]...)] moves the elements after [i] one place forward in the array of
    [l]; a slice that still has the old length keeps its last element twice. *)
Definition shift_left {A} (i : nat) (l : list A) : list A :=
  take i l ++ drop (S i) l ++ match last l with Some a => [a] | None => [] end.

(** Whether the volume is in the list, and the list as the caller sees it afterwards. *)
Fixpoint position (x : string) (l : list string) : option nat :=
  match l with
  | [] => None
  | y :: l' => if bool_decide (y = x) then Some 0 else S <$> position x l'
  end.
Definition CheckForInitialImportedPoolVol (vols : list string) (fullvolname : string)
  : bool * list string :=
  match position fullvolname vols with
  | Some i => (true, shift_left i vols)
  | None => (false, vols)
  end.

Section replica_sync.
Context {W : Type} `{OpenebsApi} `{VolumeApi} `{PoolApi} `{PodEnv} `{GoRuntime} `{ZJson} `{BuildInfo}.
Context `{!Shell W} `{!Runner W} `{!Env W} `{!Process W}.
Context `{!ResourceClient W CStorVolumeReplica} `{!PatchClient W CStorVolumeReplica}.

Definition cvr_event (cvr : CStorVolumeReplica) (type reason message : string) (args : list string)
  : M W unit :=
  emit {| ev_object := name cvr; ev_type := type; ev_reason := reason; ev_message := message;
          ev_args := args |}.

(** The loop of PoolNameHandler with [left] attempts after this one, at intervals of five
    seconds. *)
Fixpoint pool_attempts (left : nat) : M W bool :=
  let* (poolname, _) := pool_GetPoolName in
  if bool_decide (poolname = []) || negb (CheckIfPresent poolname GetPoolName) then
    match left with 0 => mret false | S left' => pool_attempts left' end
  else mret true.
Definition PoolNameHandler (cnt : nat) : M W bool := pool_attempts (S cnt).

(** ** Predicates of handler.go *)

Definition IsRightCStorVolumeReplica (cVR : CStorVolumeReplica) : bool :=
  let pool := label (labels cVR) "cstorpoolinstance.openebs.io/uid" in
  negb (bool_decide (TrimSpace pool = "")) && bool_decide (os_Getenv OpenEBSIOCSPIID = pool).
Definition IsDestroyEvent (cVR : CStorVolumeReplica) : bool :=
  negb (bool_decide (om_deletion (cvr_meta cVR) = None)).
Definition same_spec (a b : CStorVolumeReplica) : bool :=
  bool_decide (cvr_TargetIP a = cvr_TargetIP b) && bool_decide (cvr_Capacity a = cvr_Capacity b) &&
  bool_decide (cvr_ZvolWorkers a = cvr_ZvolWorkers b) && bool_decide (cvr_ReplicaID a = cvr_ReplicaID b).
Definition IsOnlyStatusChange (oldCVR newCVR : CStorVolumeReplica) : bool :=
  same_spec oldCVR newCVR && negb (bool_decide (cvr_Status oldCVR = cvr_Status newCVR)).
Definition IsDeletionFailedBefore (cvr : CStorVolumeReplica) : bool :=
  bool_decide (cvr_Phase cvr = CVRStatusDeletionFailed).
Definition IsOnlineStatus (cvr : CStorVolumeReplica) : bool := bool_decide (cvr_Phase cvr = CVRStatusOnline).
Definition IsEmptyStatus (cvr : CStorVolumeReplica) : bool := bool_decide (cvr_Phase cvr = CVRStatusEmpty).
Definition IsInitStatus (cvr : CStorVolumeReplica) : bool := bool_decide (cvr_Phase cvr = CVRStatusInit).
Definition IsRecreateStatus (cvr : CStorVolumeReplica) : bool :=
  bool_decide (cvr_Phase cvr = CVRStatusRecreate).
Definition isCVRCreateStatus (cvr : CStorVolumeReplica) : bool :=
  strings_EqualFold (cvr_Phase cvr) CVRStatusEmpty ||
  strings_EqualFold (cvr_Phase cvr) CVRStatusRecreate ||
  strings_EqualFold (cvr_Phase cvr) CVRStatusInit.
Definition isEmptyReplicaID (cvr : CStorVolumeReplica) : bool := bool_decide (cvr_ReplicaID cvr = "").

(** ** The informer handlers (controller.go)

    The load that is put on the queue, if any.  When the update of an added replica fails the
    client returns an empty object, whose key is queued. *)

Definition enqueueCStorReplica (cvr : CStorVolumeReplica) (op : QueueOperation) : option QueueLoad :=
  match cache_MetaNamespaceKeyFunc (cvr_meta cvr) with
  | Err _ => None
  | OK key => Some {| Key := key; Operation := op |}
  end.

Definition AddFunc (cvrObj : CStorVolumeReplica) : M W (option QueueLoad) :=
  if negb (IsRightCStorVolumeReplica cvrObj) then mret None
  else
    let* _ := cvr_event cvrObj "Normal" "Synced" "Received Resource create event" [] in
    let phase := if IsEmptyStatus cvrObj || IsInitStatus cvrObj then CVRStatusInit else CVRStatusRecreate in
    let* r := call (rUpdate (namespace cvrObj) (cvr_with_phase phase cvrObj)) in
    let cvrObj := match r with OK cvr => cvr | Err _ => cvr_zero end in
    mret (enqueueCStorReplica cvrObj QOpAdd).

Definition UpdateFunc (oldCVR newCVR : CStorVolumeReplica) : M W (option QueueLoad) :=
  if negb (IsRightCStorVolumeReplica newCVR) then mret None
  else if IsDestroyEvent newCVR then
    let* _ := cvr_event newCVR "Normal" "Synced" "Received Resource destroy event" [] in
    mret (enqueueCStorReplica newCVR QOpDestroy)
  else if IsOnlyStatusChange oldCVR newCVR then mret None
  else mret (enqueueCStorReplica newCVR QOpSync).

(** ** The handlers *)

Definition getVolumeReplicaResource (key : string) : M W (result (option CStorVolumeReplica)) :=
  match cache_SplitMetaNamespaceKey key with
  | Err _ => mret (OK None)
  | OK (ns, n) =>
      let* r := reads (λ w, rGet w ns n) in
      match r with
      | Err err => mret (if IsNotFound err then OK None else Err err)
      | OK cvr => mret (OK (Some cvr))
      end
  end.

Definition cvr_with_version (v : VersionDetails) (cvr : CStorVolumeReplica) : CStorVolumeReplica :=
  cvr {{ cvr_VersionDetails := v }}.
Definition cvr_reconcileVersion : CStorVolumeReplica → M W (CStorVolumeReplica * option error) :=
  reconcile_version cvr_VersionDetails cvr_with_version (λ err, err).

Definition cvr_removeFinalizer (cvrObj : CStorVolumeReplica) : M W (option error) :=
  let cvrPatch := [{| Op := "remove"; Path := "/metadata/finalizers"; Value := "" |}] in
  match json_Marshal_patch cvrPatch with
  | Err err => mret (Some (Wrapf err "failed to remove finalizers from cvr {%s}" [name cvrObj]))
  | OK cvrPatchBytes =>
      let* r := call (rPatchObject (Obj:=CStorVolumeReplica) (namespace cvrObj) (name cvrObj)
                        JSONPatchType cvrPatchBytes) in
      match r with
      | Err err => mret (Some (Wrapf err "failed to remove finalizers from cvr {%s}" [name cvrObj]))
      | OK _ => mret None
      end
  end.

(** A status, and an error, for a replica that the handlers change. *)
Definition handled : Type := CStorVolumeReplica * string * option error.

Definition getVolumeReplicaStatus (cVR : CStorVolumeReplica) (fullVolName : string) : M W handled :=
  let* r := Status fullVolName in
  match r with
  | Err err => mret (cVR, cvr_Phase cVR, Some err)
  | OK status => mret (cVR, status, None)
  end.

Definition createVolumeReplica (cVR : CStorVolumeReplica) (fullVolName : string) : M W handled :=
  let quorum := negb (IsRecreateStatus cVR) in
  let generated :=
    if isEmptyReplicaID cVR && (IsEmptyStatus cVR || IsInitStatus cVR) then GenerateReplicaID cVR
    else OK cVR in
  match generated with
  | Err err => mret (cVR, cvr_Phase cVR, Some err)
  | OK cVR =>
      if isEmptyReplicaID cVR then mret (cVR, cvr_Phase cVR, Some (Errorf "ReplicaID is not set" []))
      else
        let* (cVR, err) := CreateVolumeReplica cVR fullVolName quorum in
        match err with
        | Some err =>
            let* _ := cvr_event cVR "Warning" "FailCreate" "failed to create volume replica error: %v" [] in
            mret (cVR, cvr_Phase cVR, Some err)
        | None =>
            let* _ := cvr_event cVR "Normal" "Created" "Resource created successfully" [] in
            getVolumeReplicaStatus cVR fullVolName
        end
  end.

(** The part of cVRAddEventHandler after the list of imported volumes. *)
Definition add_or_create (cVR : CStorVolumeReplica) (fullVolName : string) : M W handled :=
  let* (existingvol, _) := GetVolumes in
  if CheckIfPresent existingvol fullVolName then
    let* _ := cvr_event cVR "Warning" "AlreadyPresent" "Resource already present" [] in
    if isEmptyReplicaID cVR then
      let* r := GetReplicaIDFromZFS fullVolName in
      match r with
      | Err err => mret (cVR, cvr_Phase cVR, Some (Wrapf err "volume replica %s exists" [name cVR]))
      | OK id => getVolumeReplicaStatus (cVR {{ cvr_ReplicaID := id }}) fullVolName
      end
    else getVolumeReplicaStatus cVR fullVolName
  else if isCVRCreateStatus cVR then createVolumeReplica cVR fullVolName
  else mret (cVR, CVRStatusOffline, Some (Errorf "VolumeReplica offline: %v, %v" [name cVR])).

Definition cVRAddEventHandler (cVR : CStorVolumeReplica) (fullVolName : string) : M W handled :=
  let* _ := Mux_Lock in
  let* g := get_globals in
  let* _ := Mux_Unlock in
  let* importedFlag :=
    if g_IsImported g then
      let '(flag, vols) := CheckForInitialImportedPoolVol (g_ImportedVol g) fullVolName in
      let* _ := set_globals (g_with_volumes vols) in mret flag
    else mret false in
  if (importedFlag : bool) && negb (IsEmptyStatus cVR) then
    let* _ := cvr_event cVR "Normal" "Imported" "Resource imported successfully" [] in
    getVolumeReplicaStatus cVR fullVolName
  else add_or_create cVR fullVolName.

Definition getCVRStatus (cVR : CStorVolumeReplica) : M W handled :=
  match GetVolumeName cVR with
  | Err _ => mret (cVR, "", Some (Errorf "unable to get volume name:%s" []))
  | OK volumeName =>
      let* r := Status volumeName in
      match r with
      | Err err =>
          let* _ := cvr_event cVR "Warning" "FailStatusSync" "Resource status sync failed" [] in
          mret (cVR, "", Some err)
      | OK replicaStatus => mret (cVR, replicaStatus, None)
      end
  end.

Definition restoreCompletedAnnotation : string := "openebs.io/restore-completed".

(** A restored volume gets the address of its target, once. *)
Definition complete_restore (cvrObj : CStorVolumeReplica) (fullVolName : string)
  : M W (result CStorVolumeReplica) :=
  if negb (bool_decide (label (annotations cvrObj) restoreCompletedAnnotation = "true")) then
    mret (OK cvrObj)
  else
    let* r := GetTargetIp fullVolName in
    match r with
    | Err err => mret (Err err)
    | OK targetIp =>
        let* err := if bool_decide (targetIp = "") then SetTargetIp fullVolName (cvr_TargetIP cvrObj)
                    else mret None in
        match err with
        | Some err => mret (Err err)
        | None =>
            mret (OK (with_meta (meta_with_annotations
              (delete IsRestoreVol (delete restoreCompletedAnnotation (annotations cvrObj)))
              (cvr_meta cvrObj)) cvrObj))
        end
    end.

Definition destroy_replica (cvrObj : CStorVolumeReplica) (fullVolName : string) : M W handled :=
  let* err := DeleteVolume fullVolName in
  match err with
  | Some err =>
      let* _ := cvr_event cvrObj "Warning" "FailDestroy" "Resource Destroy failed" [] in
      mret (cvrObj, CVRStatusDeletionFailed, Some err)
  | None =>
      let* err := cvr_removeFinalizer cvrObj in
      match err with
      | Some err =>
          let* _ := cvr_event cvrObj "Warning" "FailRemoveFinalizer" "Resource Destroy failed" [] in
          mret (cvrObj, CVRStatusDeletionFailed, Some err)
      | None => mret (cvrObj, "", None)
      end
  end.

Definition sync_replica (cvrObj : CStorVolumeReplica) (fullVolName : string) : M W handled :=
  if isCVRCreateStatus cvrObj then cVRAddEventHandler cvrObj fullVolName
  else
    let* r := complete_restore cvrObj fullVolName in
    match r with
    | Err err => mret (cvrObj, "", Some err)
    | OK cvrObj => getCVRStatus cvrObj
    end.

Definition cVREventHandler (operation : QueueOperation) (cvrObj : CStorVolumeReplica) : M W handled :=
  match CheckValidVolumeReplica cvrObj with
  | Some err =>
      let* _ := cvr_event cvrObj "Warning" "FailValidate" "Resource validation failed" [] in
      mret (cvrObj, CVRStatusOffline, Some err)
  | None =>
      let* found := PoolNameHandler 2 in
      if negb found then mret (cvrObj, cvr_Phase cvrObj, Some (Errorf "pool not found" []))
      else
        let fullVolName := GetPoolName +:+ "/" +:+ label (labels cvrObj) "cstorvolume.openebs.io/name" in
        match operation with
        | QOpAdd => cVRAddEventHandler cvrObj fullVolName
        | QOpDestroy => destroy_replica cvrObj fullVolName
        | QOpModify | QOpSync => sync_replica cvrObj fullVolName
        | QOpOther _ => mret (cvrObj, CVRStatusInvalid, None)
        end
  end.

Definition syncCVRStatus (cvr : CStorVolumeReplica) : M W (CStorVolumeReplica * option error) :=
  match GetVolumeName cvr with
  | Err err => mret (cvr, Some err)
  | OK volumeName =>
      let* r := Capacity volumeName in
      match r with
      | Err err => mret (cvr, Some (Wrapf err "failed to get volume replica capacity" []))
      | OK (total, used) =>
          let cvr := cvr_with_status ((cvr_Status cvr) {{ rs_Capacity_Total := total }}
                                                       {{ rs_Capacity_Used := used }}) cvr in
          let* (cvr, err) := GetAndUpdateSnapshotInfo cvr in
          mret (cvr, match err with
                     | Some err => Some (Wrapf err "unable to update snapshot list details in CVR" [])
                     | None => None
                     end)
      end
  end.

Definition set_phase (now : Z) (status : string) (cvr : CStorVolumeReplica) : CStorVolumeReplica :=
  let s := (cvr_Status cvr) {{ rs_LastUpdateTime := now }} in
  let s := if bool_decide (rs_Phase s = status) then s
           else s {{ rs_LastTransitionTime := now }} {{ rs_Phase := status }} in
  cvr_with_status s cvr.

(** What syncHandler does with the status and the error of the event handler. *)
Definition store_status (key : string) (h : handled) : M W (option error) :=
  let '(cvrGot, status, err) := h in
  if bool_decide (status = "") then
    match err with
    | Some _ =>
        let* _ := cvr_event cvrGot "Warning" "SyncFailed" "handling operation %s failed: %v" [] in mret None
    | None => mret None
    end
  else
    let* now := reads Now in
    let cvrGot := set_phase now status cvrGot in
    match err with
    | Some err =>
        let* r := call (rUpdate (namespace cvrGot) cvrGot) in
        match r with
        | Err err1 =>
            mret (Some (Wrapf err "failed to reconcile cvr {%s}: failed to update cvr with phase {%s}: {%s}"
                          [key; cvr_Phase cvrGot]))
        | OK _ => mret (Some (Wrapf err "failed to reconcile cvr {%s}" [key]))
        end
    | None =>
        let* (cvrGot, err) := syncCVRStatus cvrGot in
        let* _ :=
          match err with
          | Some _ => cvr_event cvrGot "Warning" "SyncFailed" "failed to sync CVR error: %s" []
          | None => mret tt
          end in
        let* r := call (rUpdate (namespace cvrGot) cvrGot) in
        match r with
        | Err err =>
            mret (Some (Wrapf err "failed to reconcile cvr {%s}: failed to update cvr with phase {%s}"
                          [key; cvr_Phase cvrGot]))
        | OK _ => mret None
        end
    end.

Definition syncHandler (key : string) (operation : QueueOperation) : M W (option error) :=
  let* r := getVolumeReplicaResource key in
  match r with
  | Err err => mret (Some err)
  | OK None => mret (Some (Errorf "failed to reconcile cvr {%s}: object not found" [key]))
  | OK (Some cvrGot) =>
      let* (cvrGot, err) := cvr_reconcileVersion cvrGot in
      match err with
      | Some err =>
          let v := cvr_VersionDetails cvrGot in
          let* _ := cvr_event cvrGot "Warning" "FailedUpgrade" "Failed to upgrade cvr to %s version: %s"
                      [Desired v] in
          let cvrGot := cvr_with_version (version_with_status
            (SetErrorStatus "Failed to reconcile cvr version" err (vd_Status v)) v) cvrGot in
          let* _ := call (rUpdate (namespace cvrGot) cvrGot) in
          mret None
      | None =>
          let* h := cVREventHandler operation cvrGot in
          store_status key h
      end
  end.

(** The replicas of this pool whose dataset may exist go offline when the manager stops. *)
Definition markCVRStatusToOffline : M W unit :=
  let selector := "cstorpoolinstance.openebs.io/uid" +:+ "=" +:+ os_Getenv OpenEBSIOCSPIID in
  let* r := reads (λ w, rList w "" selector) in
  match r with
  | Err _ => mret tt
  | OK cvrList =>
      forM (λ cvr,
        if bool_decide (cvr_Phase cvr = "") || bool_decide (cvr_Phase cvr = CVRStatusInit) then mret tt
        else
          let* _ := call (rUpdate (namespace cvr) (cvr_with_phase CVRStatusOffline cvr)) in mret tt)
        cvrList
  end.
End replica_sync.
