(* ===== verification/BackupApi.v ===== *)
(** * BackupApi: backups and restores, and what their controllers and endpoints use

    The objects of pkg/apis/cstor/v1 and pkg/apis/openebs.io/v1alpha1 of github.com/openebs/api
    that describe backups, with the other objects that the REST endpoints read; the constants
    and predicates of that package and of github.com/hashicorp/go-version are [BackupApi]; the
    passing of time, the identifiers of package uuid and the snapshot service of the target are
    classes on worlds. *)

From stdpp Require Import base gmap strings list sets pretty.
From Stdlib Require Import Ascii ZArith.
From coqutil Require Import Datatypes.RecordSetters.
From S2P Require Import Prelude Api Version VolumeApi PoolApi.
Import DoubleBraceUpdate.

(** ** Backups and restores *)

(** CStorBackupSpec of both versions. *)
Record CStorBackupSpec := {
  bs_BackupName : string;
  bs_VolumeName : string;
  bs_SnapName : string;
  bs_PrevSnapName : string;
  bs_BackupDest : string;
  bs_LocalSnap : bool;
}.

(** cstor/v1.CStorBackup and v1alpha1.CStorBackup *)
Record CStorBackup := { bkp_meta : ObjectMeta; bkp_Spec : CStorBackupSpec; bkp_Status : string }.
Record V1Alpha1CStorBackup := {
  abkp_meta : ObjectMeta;
  abkp_Spec : CStorBackupSpec;
  abkp_Status : string;
}.

(** cstor/v1.CStorCompletedBackup: the last two snapshots of a schedule that were backed up. *)
Record CStorCompletedBackup := {
  cb_meta : ObjectMeta;
  cb_BackupName : string;
  cb_VolumeName : string;
  cb_SecondLastSnapName : string;
  cb_LastSnapName : string;
}.
(** v1alpha1.CStorCompletedBackup has a CStorBackupSpec, in which SnapName is the second last
    snapshot and PrevSnapName the last one. *)
Record V1Alpha1CStorCompletedBackup := { acb_meta : ObjectMeta; acb_Spec : CStorBackupSpec }.

(** CStorRestoreSpec of both versions; the size is in bytes, as the capacities of [VolumeApi],
    and the counters are of type int. *)
Record CStorRestoreSpec := {
  rsp_RestoreName : string;
  rsp_VolumeName : string;
  rsp_RestoreSrc : string;
  rsp_MaxRetryCount : Z;
  rsp_RetryCount : Z;
  rsp_StorageClass : string;
  rsp_Size : Z;
  rsp_Local : bool;
}.
Record CStorRestore := { rst_meta : ObjectMeta; rst_Spec : CStorRestoreSpec; rst_Status : string }.
Record V1Alpha1CStorRestore := {
  arst_meta : ObjectMeta;
  arst_Spec : CStorRestoreSpec;
  arst_Status : string;
}.

#[export] Instance bkp_HasMeta : HasMeta CStorBackup :=
  {| meta := bkp_meta; with_meta m b := b {{ bkp_meta := m }} |}.
#[export] Instance abkp_HasMeta : HasMeta V1Alpha1CStorBackup :=
  {| meta := abkp_meta; with_meta m b := b {{ abkp_meta := m }} |}.
#[export] Instance cb_HasMeta : HasMeta CStorCompletedBackup :=
  {| meta := cb_meta; with_meta m b := b {{ cb_meta := m }} |}.
#[export] Instance acb_HasMeta : HasMeta V1Alpha1CStorCompletedBackup :=
  {| meta := acb_meta; with_meta m b := b {{ acb_meta := m }} |}.
#[export] Instance rst_HasMeta : HasMeta CStorRestore :=
  {| meta := rst_meta; with_meta m r := r {{ rst_meta := m }} |}.
#[export] Instance arst_HasMeta : HasMeta V1Alpha1CStorRestore :=
  {| meta := arst_meta; with_meta m r := r {{ arst_meta := m }} |}.

(** Assignments to Name and Labels of an object. *)
Definition meta_with_name (n : string) (m : ObjectMeta) : ObjectMeta := m {{ om_name := n }}.
Definition set_name {Obj} `{HasMeta Obj} (n : string) (o : Obj) : Obj :=
  with_meta (meta_with_name n (meta o)) o.
Definition set_labels {Obj} `{HasMeta Obj} (l : gmap string string) (o : Obj) : Obj :=
  with_meta (meta_with_labels l (meta o)) o.
Definition new_meta (n ns : string) (l : gmap string string) : ObjectMeta :=
  meta_empty {{ om_name := n }} {{ om_namespace := ns }} {{ om_labels := l }}.

(** Zero values, which a client returns with an error. *)
Definition backup_spec_zero : CStorBackupSpec :=
  {| bs_BackupName := ""; bs_VolumeName := ""; bs_SnapName := ""; bs_PrevSnapName := "";
     bs_BackupDest := ""; bs_LocalSnap := false |}.
Definition cb_zero : CStorCompletedBackup :=
  {| cb_meta := meta_empty; cb_BackupName := ""; cb_VolumeName := ""; cb_SecondLastSnapName := "";
     cb_LastSnapName := "" |}.
Definition acb_zero : V1Alpha1CStorCompletedBackup :=
  {| acb_meta := meta_empty; acb_Spec := backup_spec_zero |}.

(** ** Pods and storage classes *)

(** corev1.Pod, with the name and readiness of its containers. *)
Record Pod := {
  pd_meta : ObjectMeta;
  pd_NodeName : string;
  pd_ContainerStatuses : list (string * bool);
}.
#[export] Instance pd_HasMeta : HasMeta Pod :=
  {| meta := pd_meta; with_meta m p := p {{ pd_meta := m }} |}.

(** storagev1.StorageClass, which has no namespace. *)
Record StorageClass := { sc_meta : ObjectMeta; sc_Parameters : gmap string string }.
#[export] Instance sc_HasMeta : HasMeta StorageClass :=
  {| meta := sc_meta; with_meta m s := s {{ sc_meta := m }} |}.

(** ** The packages *)

Class BackupApi := {
  (** pkg/apis/types *)
  CStorPoolInstanceUIDLabelKey : string;
  (** pkg/apis/cstor/v1 *)
  BKPCStorStatusDone : string;
  BKPCStorStatusFailed : string;
  BKPCStorStatusInit : string;
  BKPCStorStatusPending : string;
  BKPCStorStatusInProgress : string;
  BKPCStorStatusInvalid : string;
  RSTCStorStatusEmpty : string;
  RSTCStorStatusDone : string;
  RSTCStorStatusFailed : string;
  RSTCStorStatusInit : string;
  RSTCStorStatusPending : string;
  RSTCStorStatusInProgress : string;
  RSTCStorStatusInvalid : string;
  bkp_IsSucceeded : CStorBackup → bool;
  bkp_IsFailed : CStorBackup → bool;
  bkp_IsPending : CStorBackup → bool;
  bkp_IsInInit : CStorBackup → bool;
  rst_IsSucceeded : CStorRestore → bool;
  rst_IsFailed : CStorRestore → bool;
  rst_IsPending : CStorRestore → bool;
  rst_IsInInit : CStorRestore → bool;
  (** pkg/apis/openebs.io/v1alpha1 *)
  ABKPCStorStatusDone : string;
  ABKPCStorStatusFailed : string;
  ABKPCStorStatusPending : string;
  ARSTCStorStatusEmpty : string;
  ARSTCStorStatusDone : string;
  ARSTCStorStatusFailed : string;
  ARSTCStorStatusPending : string;
  ARSTCStorStatusInProgress : string;
  ARSTCStorStatusInvalid : string;
  (** github.com/hashicorp/go-version *)
  go_version : Type;
  version_NewVersion : string → result go_version;
  version_LessThan : go_version → go_version → bool;
}.

(** What the components rely on: a predicate compares the status with its constant, the
    statuses of a backup are different, not empty and the same in both versions. *)
Class BackupApiLaws `{BackupApi} : Prop := {
  bkp_IsSucceeded_spec : ∀ b, bkp_IsSucceeded b = bool_decide (bkp_Status b = BKPCStorStatusDone);
  bkp_IsFailed_spec : ∀ b, bkp_IsFailed b = bool_decide (bkp_Status b = BKPCStorStatusFailed);
  bkp_IsPending_spec : ∀ b, bkp_IsPending b = bool_decide (bkp_Status b = BKPCStorStatusPending);
  bkp_IsInInit_spec : ∀ b, bkp_IsInInit b = bool_decide (bkp_Status b = BKPCStorStatusInit);
  rst_IsSucceeded_spec : ∀ r, rst_IsSucceeded r = bool_decide (rst_Status r = RSTCStorStatusDone);
  rst_IsFailed_spec : ∀ r, rst_IsFailed r = bool_decide (rst_Status r = RSTCStorStatusFailed);
  rst_IsPending_spec : ∀ r, rst_IsPending r = bool_decide (rst_Status r = RSTCStorStatusPending);
  rst_IsInInit_spec : ∀ r, rst_IsInInit r = bool_decide (rst_Status r = RSTCStorStatusInit);
  backup_statuses : NoDup ["" : string; BKPCStorStatusDone; BKPCStorStatusFailed; BKPCStorStatusInit;
    BKPCStorStatusPending; BKPCStorStatusInProgress; BKPCStorStatusInvalid];
  restore_statuses : NoDup [RSTCStorStatusEmpty; RSTCStorStatusDone; RSTCStorStatusFailed;
    RSTCStorStatusInit; RSTCStorStatusPending; RSTCStorStatusInProgress; RSTCStorStatusInvalid];
  restore_status_empty : RSTCStorStatusEmpty = "";
  backup_pending_same : ABKPCStorStatusPending = BKPCStorStatusPending;
  restore_inprogress_same : ARSTCStorStatusInProgress = RSTCStorStatusInProgress;
  restore_failed_same : ARSTCStorStatusFailed = RSTCStorStatusFailed;
}.

(** time.Sleep, in seconds: other processes act meanwhile. *)
Class Clock (W : Type) := { time_Sleep : Z → W → W }.
Definition sleep {W} `{!Clock W} (s : Z) : M W unit := λ w, (Ret tt, time_Sleep s w).

(** k8s.io/apimachinery/pkg/util/uuid *)
Class Uuid (W : Type) := { uuid_NewUUID : W → string * W }.

(** strconv.Atoi with its error. *)
Definition Atoi_error (s : string) : option error :=
  let ds := match bytes s with
            | a :: l => if Ascii.eqb a "-" || Ascii.eqb a "+" then l else a :: l
            | [] => []
            end in
  match ds, digits_value ds 0 with
  | [], _ | _, None => Some (Errorf "strconv.Atoi: parsing %q: invalid syntax" [s])
  | _, Some v =>
      let v := match bytes s with a :: _ => if Ascii.eqb a "-" then (- v)%Z else v | [] => v end in
      if ((minInt64 <=? v) && (v <=? maxInt64))%Z then None
      else Some (Errorf "strconv.Atoi: parsing %q: value out of range" [s])
  end.
