(* ===== verification/Backup.v ===== *)
(** * Backup: transfers of snapshots and the backup controller
      (pkg/volumereplica/volumereplica.go, pkg/controllers/backup-controller)

    The pool manager sends a snapshot of a volume to a remote address and receives one from
    there, with a bounded number of attempts.  The backup controller moves a CStorBackup from
    Pending to Init, to InProgress and to Done or Failed, and keeps the last two snapshots of a
    schedule in a completed backup. *)

From stdpp Require Import base gmap strings list sets pretty.
From Stdlib Require Import Ascii ZArith Lia.
From coqutil Require Import Datatypes.RecordSetters.
From S2P Require Import Prelude Api VolumeApi Zcmd PoolApi BackupApi VolumeReplica CspiSync ReplicaSync.
Import DoubleBraceUpdate.

(** ** Transfers (volumereplica.go) *)

Definition BackupRetryDelay : Z := 5.
Definition RestoreRetryDelay : Z := 5.

(** The address has a host and a port: an address without a colon is out of range. *)
Definition buildVolumeBackupCommand (poolName fullVolName oldSnapName newSnapName backupDest : string)
  : outcome (list string) :=
  let bkpAddr := split_on ":"%char backupDest in
  if bool_decide (oldSnapName = "") then
    let* host := slice_at bkpAddr 0 in
    let* port := slice_at bkpAddr 1 in
    Ret [VolumeReplicaOperator; BackupCmd; poolName +:+ "/" +:+ fullVolName +:+ "@" +:+ newSnapName;
         "| nc -w 3 " +:+ host +:+ " " +:+ port]
  else
    let* host := slice_at bkpAddr 0 in
    let* port := slice_at bkpAddr 1 in
    Ret [VolumeReplicaOperator; BackupCmd; "-i"; poolName +:+ "/" +:+ fullVolName +:+ "@" +:+ oldSnapName;
         poolName +:+ "/" +:+ fullVolName +:+ "@" +:+ newSnapName;
         "| nc -w 3 " +:+ host +:+ " " +:+ port].

Definition buildVolumeRestoreCommand (poolName fullVolName restoreSrc : string)
  : outcome (list string) :=
  let restorAddr := split_on ":"%char restoreSrc in
  let* host := slice_at restorAddr 0 in
  let* port := slice_at restorAddr 1 in
  Ret ["nc -w 3 " +:+ host +:+ " " +:+ port +:+ " | "; VolumeReplicaOperator; RestoreCmd;
       " -F " +:+ poolName +:+ "/" +:+ fullVolName].

Section transfer.
Context {W : Type} `{PodEnv} `{!Runner W} `{!Clock W}.

(** The loop of both transfers: the command is run until it succeeds, at most [left] times, with
    a pause after each failure; [last] is the output of the attempt before. *)
Fixpoint transfer_attempts (delay : Z) (cmd : list string) (left : nat) (last : output) : M W output :=
  match left with
  | 0 => mret last
  | S left' =>
      let* o := call (RunCombinedOutput ExecuteScript cmd) in
      match o.2 with
      | Some _ => let* _ := sleep delay in transfer_attempts delay cmd left' o
      | None => mret o
      end
  end.

Definition CreateVolumeBackup (bkp : CStorBackup) : M W (option error) :=
  let s := bkp_Spec bkp in
  let* cmd := lift (λ _, buildVolumeBackupCommand GetPoolName (bs_VolumeName s) (bs_PrevSnapName s)
                           (bs_SnapName s) (bs_BackupDest s)) in
  let* (stdoutStderr, err) := transfer_attempts BackupRetryDelay cmd MaxBackupRetryCount ("", None) in
  mret (match err with Some e => Some (Wrapf e "error: %s" [stdoutStderr]) | None => None end).

Definition CreateVolumeRestore (rst : CStorRestore) : M W (option error) :=
  let s := rst_Spec rst in
  let* cmd := lift (λ _, buildVolumeRestoreCommand GetPoolName (rsp_VolumeName s) (rsp_RestoreSrc s)) in
  let* (_, err) := transfer_attempts RestoreRetryDelay cmd MaxRestoreRetryCount ("", None) in
  mret err.
End transfer.

(** Assignments to the status of a backup and of a restore. *)
Definition bkp_with_status (s : string) (b : CStorBackup) : CStorBackup := b {{ bkp_Status := s }}.
Definition rst_with_status (s : string) (r : CStorRestore) : CStorRestore := r {{ rst_Status := s }}.

(** ** The backup controller *)

Module BackupController.
Section controller.
Context {W : Type} `{BackupApi} `{PoolApi} `{PodEnv} `{!Runner W} `{!Clock W} `{!Env W}.
Context `{!ResourceClient W CStorBackup} `{!ResourceClient W CStorCompletedBackup}.
Context `{!ResourceClient W V1Alpha1CStorCompletedBackup}.

Definition bkp_event (bkp : CStorBackup) (type reason message : string) : M W unit :=
  emit {| ev_object := name bkp; ev_type := type; ev_reason := reason; ev_message := message;
          ev_args := [] |}.

(** The name of the completed backup of the schedule of a backup and of its volume. *)
Definition lastbkpname (bkp : CStorBackup) : string :=
  bs_BackupName (bkp_Spec bkp) +:+ "-" +:+ bs_VolumeName (bkp_Spec bkp).

(** *** handler.go *)

Definition IsDestroyEvent (bkp : CStorBackup) : bool :=
  negb (bool_decide (om_deletion (bkp_meta bkp) = None)).

Definition acb_rotate (snap : string) (cb : V1Alpha1CStorCompletedBackup) : V1Alpha1CStorCompletedBackup :=
  cb {{ acb_Spec ::= (λ s, s {{ bs_SnapName := bs_PrevSnapName s }} {{ bs_PrevSnapName := snap }}) }}.
Definition cb_rotate (snap : string) (cb : CStorCompletedBackup) : CStorCompletedBackup :=
  cb {{ cb_SecondLastSnapName := cb_LastSnapName cb }} {{ cb_LastSnapName := snap }}.

Definition updateCStorCompletedBackup (bkp : CStorBackup) : M W (option error) :=
  let snap := bs_SnapName (bkp_Spec bkp) in
  let* completedBackup := reads (λ w, rGet (Obj:=V1Alpha1CStorCompletedBackup) w (namespace bkp) (lastbkpname bkp)) in
  match completedBackup with
  | OK completedBackup =>
      let* r := call (rUpdate (namespace bkp) (acb_rotate snap completedBackup)) in
      mret (match r with OK _ => None | Err err => Some err end)
  | Err _ =>
      let* bkplast := reads (λ w, rGet (Obj:=CStorCompletedBackup) w (namespace bkp) (lastbkpname bkp)) in
      match bkplast with
      | Err _ => mret None
      | OK bkplast =>
          let* r := call (rUpdate (namespace bkp) (cb_rotate snap bkplast)) in
          mret (match r with OK _ => None | Err err => Some err end)
      end
  end.

(** The handlers return the status to store and the error. *)
Definition addEventHandler (bkp : CStorBackup) : M W (string * option error) :=
  if negb (bkp_IsPending bkp) then mret (BKPCStorStatusInvalid, None)
  else
    let* _ := bkp_event bkp "Normal" "Update" "initilized backup process" in
    mret (BKPCStorStatusInit, None).

Definition syncEventHandler (bkp : CStorBackup) : M W (string * option error) :=
  if bkp_IsInInit bkp then
    let bkp := bkp_with_status BKPCStorStatusInProgress bkp in
    let* r := call (rUpdate (namespace bkp) bkp) in
    match r with
    | Err err => mret ("", Some err)
    | OK _ =>
        let* err := CreateVolumeBackup bkp in
        match err with
        | Some err =>
            let* _ := bkp_event bkp "Warning" "Backup" "failed to create backup error: %s" in
            mret (BKPCStorStatusFailed, Some err)
        | None =>
            let* _ := bkp_event bkp "Normal" "Backup" "backup creation is successful" in
            let* err := updateCStorCompletedBackup bkp in
            match err with
            | Some err => mret (BKPCStorStatusFailed, Some err)
            | None => mret (BKPCStorStatusDone, None)
            end
        end
    end
  else mret ("", None).

Definition eventHandler (operation : QueueOperation) (bkp : CStorBackup) : M W (string * option error) :=
  match operation with
  | QOpAdd => addEventHandler bkp
  | QOpDestroy => mret ("", None)
  | QOpSync => syncEventHandler bkp
  | _ => mret (BKPCStorStatusInvalid, None)
  end.

Definition getCStorBackupResource (key : string) : M W (result (option CStorBackup)) :=
  match cache_SplitMetaNamespaceKey key with
  | Err _ => mret (OK None)
  | OK (ns, n) =>
      let* r := reads (λ w, rGet w ns n) in
      match r with
      | Err err => mret (if IsNotFound err then OK None else Err err)
      | OK bkp => mret (OK (Some bkp))
      end
  end.

Definition syncHandler (key : string) (operation : QueueOperation) : M W (option error) :=
  let* r := getCStorBackupResource key in
  match r with
  | Err err => mret (Some err)
  | OK None => mret (Some (Errorf "cannot retrieve CStorBackup %q" [key]))
  | OK (Some bkp) =>
      if bkp_IsSucceeded bkp || bkp_IsFailed bkp then mret None
      else
        let* (status, err) := eventHandler operation bkp in
        let new := match err with Some _ => BKPCStorStatusFailed | None => status end in
        if bool_decide (status = "") then mret None
        else
          let* r := reads (λ w, rGet (Obj:=CStorBackup) w (namespace bkp) (name bkp)) in
          match r with
          | Err err => mret (Some err)
          | OK nbkp =>
              let nbkp := bkp_with_status new nbkp in
              let* r := call (rUpdate (namespace nbkp) nbkp) in
              mret (match r with OK _ => None | Err err => Some err end)
          end
  end.

(** *** controller.go *)

Definition IsRightCStorPoolInstanceMgmt (bkp : CStorBackup) : bool :=
  bool_decide (os_Getenv OpenEBSIOCSPIID = label (labels bkp) CStorPoolInstanceUIDLabelKey).

Definition updateBackupStatus (bkp : CStorBackup) (status : string) : M W unit :=
  let* _ := call (rUpdate (namespace bkp) (bkp_with_status status bkp)) in mret tt.

Definition findLastBackupStat (bkp : CStorBackup) : M W string :=
  let* lastbkp := reads (λ w, rGet (Obj:=CStorCompletedBackup) w (namespace bkp) (lastbkpname bkp)) in
  match lastbkp with
  | Err _ => mret BKPCStorStatusFailed
  | OK lastbkp =>
      let snap := bs_SnapName (bkp_Spec bkp) in
      if bool_decide (snap = cb_LastSnapName lastbkp) || bool_decide (snap = cb_SecondLastSnapName lastbkp)
      then mret BKPCStorStatusDone
      else mret BKPCStorStatusFailed
  end.

Definition cleanup_backup (bkp : CStorBackup) : M W unit :=
  if bool_decide (bkp_Status bkp = BKPCStorStatusInProgress) then
    let* laststate := findLastBackupStat bkp in
    updateBackupStatus bkp laststate
  else if bool_decide (bkp_Status bkp = BKPCStorStatusDone) then mret tt
  else updateBackupStatus bkp BKPCStorStatusFailed.
Definition cleanupOldBackup : M W unit :=
  let bkplabel := CStorPoolInstanceUIDLabelKey +:+ "=" +:+ os_Getenv OpenEBSIOCSPIID in
  let* bkplist := reads (λ w, rList (Obj:=CStorBackup) w "" bkplabel) in
  match bkplist with
  | Err _ => mret tt
  | OK bkplist => forM cleanup_backup bkplist
  end.

(** The load that a handler puts on the queue, if any. *)
Definition enqueueCStorBackup (bkp : CStorBackup) (op : QueueOperation) : option QueueLoad :=
  match cache_MetaNamespaceKeyFunc (bkp_meta bkp) with
  | Err _ => None
  | OK key => Some {| Key := key; Operation := op |}
  end.

Definition handleBKPAddEvent (bkp : CStorBackup) : M W (option QueueLoad) :=
  let* _ := bkp_event bkp "Normal" "Synced" "Received Resource create event" in
  mret (enqueueCStorBackup bkp QOpAdd).

Definition handleBKPUpdateEvent (oldbkp newbkp : CStorBackup) : M W (option QueueLoad) :=
  if bool_decide (om_resourceVersion (bkp_meta newbkp) = om_resourceVersion (bkp_meta oldbkp))
  then mret None
  else if IsDestroyEvent newbkp then
    let* _ := bkp_event newbkp "Normal" "Synced" "Received Resource destroy event" in
    mret (enqueueCStorBackup newbkp QOpDestroy)
  else
    let* _ := bkp_event newbkp "Normal" "Synced" "Received Resource modify event" in
    mret (enqueueCStorBackup newbkp QOpSync).

Definition AddFunc (bkp : CStorBackup) : M W (option QueueLoad) :=
  if negb (IsRightCStorPoolInstanceMgmt bkp) then mret None else handleBKPAddEvent bkp.
Definition UpdateFunc (oldbkp newbkp : CStorBackup) : M W (option QueueLoad) :=
  if negb (IsRightCStorPoolInstanceMgmt newbkp) then mret None
  else handleBKPUpdateEvent oldbkp newbkp.
End controller.
End BackupController.
