(* ===== verification/Restore.v ===== *)
(** * Restore: the restore controller (pkg/controllers/restore-controller)

    A CStorRestore of this pool moves from Pending to Init, to InProgress and to Done or Failed
    while its snapshot is received. *)

From stdpp Require Import base gmap strings list sets pretty.
From Stdlib Require Import Ascii ZArith Lia.
From coqutil Require Import Datatypes.RecordSetters.
From S2P Require Import Prelude Api VolumeApi Zcmd PoolApi BackupApi VolumeReplica CspiSync ReplicaSync Backup.
Import DoubleBraceUpdate.

#[export] Instance CStorRestoreSpec_eq_dec : EqDecision CStorRestoreSpec.
Proof. solve_decision. Defined.

Module RestoreController.
Section controller.
Context {W : Type} `{BackupApi} `{PoolApi} `{PodEnv} `{!Runner W} `{!Clock W} `{!Env W}.
Context `{!ResourceClient W CStorRestore}.

Definition rst_event (rst : CStorRestore) (type reason message : string) : M W unit :=
  emit {| ev_object := name rst; ev_type := type; ev_reason := reason; ev_message := message;
          ev_args := [] |}.

(** ** handler.go *)

Definition addEventHandler (rst : CStorRestore) : M W (string * option error) :=
  if negb (rst_IsPending rst) then mret (RSTCStorStatusInvalid, None)
  else mret (RSTCStorStatusInit, None).

Definition syncEventHandler (rst : CStorRestore) : M W (string * option error) :=
  if rst_IsInInit rst then
    let rst := rst_with_status RSTCStorStatusInProgress rst in
    let* r := call (rUpdate (namespace rst) rst) in
    match r with
    | Err err => mret ("", Some err)
    | OK _ =>
        let* err := CreateVolumeRestore rst in
        match err with
        | Some err => mret (RSTCStorStatusFailed, Some err)
        | None =>
            let* _ := rst_event rst "Normal" "Created" "Resource created successfully" in
            mret (RSTCStorStatusDone, None)
        end
    end
  else if rst_IsPending rst then mret (RSTCStorStatusInit, None)
  else mret ("", None).

Definition rstEventHandler (operation : QueueOperation) (rst : CStorRestore)
  : M W (string * option error) :=
  match operation with
  | QOpAdd => addEventHandler rst
  | QOpDestroy => mret ("", None)
  | QOpSync => syncEventHandler rst
  | QOpModify => mret ("", None)
  | QOpOther _ => mret (RSTCStorStatusInvalid, None)
  end.

Definition getCStorRestoreResource (key : string) : M W (result (option CStorRestore)) :=
  match cache_SplitMetaNamespaceKey key with
  | Err _ => mret (OK None)
  | OK (ns, n) =>
      let* r := reads (λ w, rGet w ns n) in
      match r with
      | Err err => mret (Err err)
      | OK rst => mret (OK (Some rst))
      end
  end.

Definition syncHandler (key : string) (operation : QueueOperation) : M W (option error) :=
  let* r := getCStorRestoreResource key in
  match r with
  | Err err => mret (Some err)
  | OK None => mret (Some (Errorf "can not retrieve CStorRestore %q" [key]))
  | OK (Some rst) =>
      if rst_IsSucceeded rst || rst_IsFailed rst then mret None
      else
        let* (status, err) := rstEventHandler operation rst in
        if bool_decide (status = "") then mret None
        else
          let new := match err with Some _ => RSTCStorStatusFailed | None => status end in
          let* r := reads (λ w, rGet (Obj:=CStorRestore) w (namespace rst) (name rst)) in
          match r with
          | Err err => mret (Some err)
          | OK nrst =>
              let nrst := rst_with_status new nrst in
              let* r := call (rUpdate (namespace nrst) nrst) in
              mret (match r with OK _ => None | Err err => Some err end)
          end
  end.

Definition IsRightCStorPoolMgmt (rst : CStorRestore) : bool :=
  bool_decide (os_Getenv OpenEBSIOCSPIID = label (labels rst) CStorPoolInstanceUIDLabelKey).
Definition IsDestroyEvent (rst : CStorRestore) : bool :=
  negb (bool_decide (om_deletion (rst_meta rst) = None)).
Definition IsOnlyStatusChange (oldrst newrst : CStorRestore) : bool :=
  bool_decide (rst_Spec oldrst = rst_Spec newrst) &&
  negb (bool_decide (rst_Status oldrst = rst_Status newrst)).

(** ** new_restore_controller.go *)

Definition enqueueCStorRestore (rst : CStorRestore) (op : QueueOperation) : option QueueLoad :=
  match cache_MetaNamespaceKeyFunc (rst_meta rst) with
  | Err _ => None
  | OK key => Some {| Key := key; Operation := op |}
  end.

Definition handleRSTAddEvent (rst : CStorRestore) : M W (option QueueLoad) :=
  let* _ := rst_event rst "Normal" "Synced" "Received Resource create event" in
  mret (enqueueCStorRestore rst QOpAdd).

Definition handleRSTUpdateEvent (oldrst newrst : CStorRestore) : M W (option QueueLoad) :=
  if bool_decide (rst_Status newrst = rst_Status oldrst) then mret None
  else if rst_IsSucceeded newrst || rst_IsFailed newrst then mret None
  else if IsDestroyEvent newrst then
    let* _ := rst_event newrst "Normal" "Synced" "Received Resource destroy event" in
    mret (enqueueCStorRestore newrst QOpDestroy)
  else
    let* _ := rst_event newrst "Normal" "Synced" "Received Resource modify event" in
    mret (enqueueCStorRestore newrst QOpSync).

Definition AddFunc (rst : CStorRestore) : M W (option QueueLoad) :=
  if negb (IsRightCStorPoolMgmt rst) then mret None else handleRSTAddEvent rst.
Definition UpdateFunc (oldrst newrst : CStorRestore) : M W (option QueueLoad) :=
  if negb (IsRightCStorPoolMgmt newrst) then mret None else handleRSTUpdateEvent oldrst newrst.

Definition updateRestoreStatus (rst : CStorRestore) (status : string) : M W unit :=
  let* _ := call (rUpdate (namespace rst) (rst_with_status status rst)) in mret tt.
Definition cleanupOldRestore : M W unit :=
  let rstlabel := CStorPoolInstanceUIDLabelKey +:+ "=" +:+ os_Getenv OpenEBSIOCSPIID in
  let* rstlist := reads (λ w, rList (Obj:=CStorRestore) w "" rstlabel) in
  match rstlist with
  | Err _ => mret tt
  | OK rstlist =>
      forM (λ rst, if bool_decide (rst_Status rst = RSTCStorStatusDone) then mret tt
                   else updateRestoreStatus rst RSTCStorStatusFailed) rstlist
  end.
End controller.
End RestoreController.
