(* ===== verification/TargetApi.v ===== *)
(** * TargetApi: what the volume manager uses of its surroundings

    The volume manager runs beside an iSCSI target (istgt).  It talks to the target over a Unix
    socket, edits the configuration file of the target and keeps the CStorVolume up to date.
    The socket, the file operations of the api package and the package variables it shares with
    the replication server are the class [Target]; constants and helpers of the api package are
    the class [TargetApi]. *)

From stdpp Require Import base gmap strings list sets pretty.
From Stdlib Require Import ZArith.
From S2P Require Import Prelude Api VolumeApi.

Class TargetApi := {
  (** pkg/util and pkg/apis/types *)
  util_IstgtConfPath : string;
  types_IstgtConfPath : string;
  IstgtReplicaCmd : string;
  IstgtRefreshCmd : string;
  IstgtResizeCmd : string;
  IstgtDRFCmd : string;
  DesiredReplicationFactorKey : string;
  IoWaitTime : Z;
  TotalWaitTime : Z;
  CStorVolumeKind : string;
  CStorAPIVersion : string;
  (** pkg/apis/cstor/v1: the methods of CStorVolume and of its conditions *)
  CStorVolumeResizing : string;
  CVStatusOffline : string;
  IsResizePending : CStorVolume → bool;
  IsDRFPending : CStorVolume → bool;
  IsConditionPresent : string → CStorVolume → bool;
  GetCVCondition : string → CStorVolume → CStorVolumeCondition;
  (** The time is the one of metav1.Now. *)
  GetResizeCondition : Z → CStorVolumeCondition;
  AddCondition : CStorVolumeCondition → list CStorVolumeCondition → list CStorVolumeCondition;
  UpdateCondition : CStorVolumeCondition → list CStorVolumeCondition → list CStorVolumeCondition;
  DeleteCondition : CStorVolumeCondition → list CStorVolumeCondition → list CStorVolumeCondition;
  AreSpecReplicasHealthy : CVStatus → CStorVolume → bool;
  GetRemovingReplicaID : CStorVolume → string;
  BuildScaleDownConfigData : string → CStorVolume → gmap string string;
  (** encoding/json.Unmarshal into a CVStatusResponse, for its list of statuses *)
  json_CVStatusResponse : string → result (list CVStatus);
}.

(** types.TargetNamespace and whether types.ConfFileMutex is held. *)
Record target_globals := { TargetNamespace : string; ConfFileLocked : bool }.

Class Target (W : Type) := {
  (** util.UnixSock *)
  SendCommand : string → W → result (list string) * W;
  (** util.FileOperator, all files with mode 0644: the path, the new contents; the path, the
      new line and the string that the replaced line has; the path and the lines by key *)
  file_Write : string → string → W → option error * W;
  file_Updatefile : string → string → string → W → option error * W;
  file_UpdateOrAppendMultipleLines : string → gmap string string → W → option error * W;
  tglobals : W → target_globals;
  with_tglobals : target_globals → W → W;
}.
Class TargetLaws (W : Type) `{!Target W} : Prop := {
  tglobals_with : ∀ g w, tglobals (with_tglobals g w) = g;
  SendCommand_tglobals : ∀ c w, tglobals (SendCommand c w).2 = tglobals w;
  Updatefile_tglobals : ∀ p v k w, tglobals (file_Updatefile p v k w).2 = tglobals w;
  MultipleLines_tglobals : ∀ p m w, tglobals (file_UpdateOrAppendMultipleLines p m w).2 = tglobals w;
}.

Section target.
Context {W : Type} `{!Target W}.

Definition set_tglobals (f : target_globals → target_globals) : M W unit :=
  λ w, (Ret tt, with_tglobals (f (tglobals w)) w).
Definition lock_as (b : bool) (g : target_globals) : target_globals :=
  {| TargetNamespace := TargetNamespace g; ConfFileLocked := b |}.

(** types.ConfFileMutex: one handler runs at a time. *)
Definition ConfFile_Lock : M W unit :=
  let* g := reads tglobals in
  if ConfFileLocked g then panic "Lock blocks" else set_tglobals (lock_as true).
Definition ConfFile_Unlock : M W unit :=
  let* g := reads tglobals in
  if ConfFileLocked g then set_tglobals (lock_as false) else panic "unlock of unlocked mutex".
Definition set_TargetNamespace (ns : string) : M W unit :=
  set_tglobals (λ g, {| TargetNamespace := ns; ConfFileLocked := ConfFileLocked g |}).
End target.

(** corev1.Event, for the fields that the volume manager writes. *)
Record Event_ := {
  event_meta : ObjectMeta;
  event_InvolvedKind : string;
  event_InvolvedAPIVersion : string;
  event_InvolvedObject : ObjectMeta;
  event_FirstTimestamp : Z;
  event_LastTimestamp : Z;
  event_Count : Z;
  event_Message : string;
  event_Reason : string;
  event_Type : string;
  event_Component : string;
  event_Host : string;
}.
Definition event_with_meta (m : ObjectMeta) (e : Event_) : Event_ :=
  {| event_meta := m; event_InvolvedKind := event_InvolvedKind e;
     event_InvolvedAPIVersion := event_InvolvedAPIVersion e;
     event_InvolvedObject := event_InvolvedObject e; event_FirstTimestamp := event_FirstTimestamp e;
     event_LastTimestamp := event_LastTimestamp e; event_Count := event_Count e;
     event_Message := event_Message e; event_Reason := event_Reason e; event_Type := event_Type e;
     event_Component := event_Component e; event_Host := event_Host e |}.
#[export] Instance event_HasMeta : HasMeta Event_ :=
  {| meta := event_meta; with_meta := event_with_meta |}.
