(* ===== verification/VolumeTarget.v ===== *)
(** * VolumeTarget: the iSCSI target of a volume (pkg/controllers/volume-mgmt/volume/volume.go)

    The configuration file of the target, the commands that are sent to it and the validity of
    a CStorVolume. *)

From stdpp Require Import base gmap strings list sets pretty sorting.
From Stdlib Require Import Ascii ZArith Lia.
From coqutil Require Import Datatypes.RecordSetters.
From S2P Require Import Prelude Steps Api VolumeApi Zcmd PoolApi TargetApi.
Import DoubleBraceUpdate.

(** ** The configuration file *)

(** text/template ranges over a map in the order of its keys. *)
Definition key_le (a b : string * string) : Prop := String.leb a.1 b.1 = true.
#[export] Instance key_le_dec a b : Decision (key_le a b).
Proof. unfold key_le. apply _. Defined.
Definition sorted_entries (m : gmap string string) : list (string * string) :=
  merge_sort key_le (map_to_list m).

Definition quote : string := String (Ascii.ascii_of_nat 34) "".
Definition quoted (s : string) : string := quote +:+ s +:+ quote.

Definition global_section : list string := [
  "# Global section";
  "[Global]";
  "  NodeBase " +:+ quoted "iqn.2016-09.com.openebs.cstor";
  "  PidFile " +:+ quoted "/var/run/istgt.pid";
  "  AuthFile " +:+ quoted "/usr/local/etc/istgt/auth.conf";
  "  LogFile " +:+ quoted "/usr/local/etc/istgt/logfile";
  "  Luworkers 6";
  "  MediaDirectory " +:+ quoted "/mnt";
  "  Timeout 60";
  "  NopInInterval 20";
  "  TCPUserTimeout 120";
  "  MaxR2T 16";
  "  DiscoveryAuthMethod None";
  "  DiscoveryAuthGroup None";
  "  MaxSessions 32";
  "  MaxConnections 4";
  "  FirstBurstLength 262144";
  "  MaxBurstLength 1048576";
  "  MaxRecvDataSegmentLength 262144";
  "  MaxOutstandingR2T 16";
  "  DefaultTime2Wait 2";
  "  DefaultTime2Retain 20";
  "  OperationalMode 0";
  ""].

Definition portal_sections (targetIP : string) : list string := [
  "# UnitControl section";
  "[UnitControl]";
  "  AuthMethod None";
  "  AuthGroup None";
  "  Portal UC1 " +:+ targetIP +:+ ":3261";
  "  Netmask " +:+ targetIP +:+ "/8";
  "";
  "# PortalGroup section";
  "[PortalGroup1]";
  "  Portal DA1 " +:+ targetIP +:+ ":3260";
  "";
  "# InitiatorGroup section";
  "[InitiatorGroup1]";
  "  InitiatorName " +:+ quoted "ALL";
  "  Netmask " +:+ quoted "ALL";
  "";
  "[InitiatorGroup2]";
  "  InitiatorName " +:+ quoted "None";
  "  Netmask " +:+ quoted "None";
  ""].

Section conf.
Context `{VolumeApi}.

Definition unit_section (cv : CStorVolume) : list string := [
  "# LogicalUnit section";
  "[LogicalUnit1]";
  "  TargetName " +:+ name cv;
  "  TargetAlias nicknamefor-" +:+ name cv;
  "  Mapping PortalGroup1 InitiatorGroup1";
  "  AuthMethod None";
  "  AuthGroup None";
  "  UseDigest Auto";
  "  ReadOnly No";
  "  DesiredReplicationFactor " +:+ pretty (cv_DesiredReplicationFactor cv);
  "  ReplicationFactor " +:+ pretty (cv_ReplicationFactor cv);
  "  ConsistencyFactor " +:+ pretty (cv_ConsistencyFactor cv);
  "  UnitType Disk";
  "  UnitOnline Yes";
  "  BlockLength 512";
  "  QueueDepth 32";
  "  Luworkers 6";
  "  UnitInquiry " +:+ quoted "OpenEBS" +:+ " " +:+ quoted "iscsi" +:+ " " +:+ quoted "0" +:+ " "
    +:+ quoted (uid cv);
  "  PhysRecordLength 4096";
  "  LUN0 Storage " +:+ Quantity_String (cv_Capacity cv) +:+ " 32k";
  "  LUN0 Option Unmap Disable";
  "  LUN0 Option WZero Disable";
  "  LUN0 Option ATS Disable";
  "  LUN0 Option XCOPY Disable"].

Definition replica_line (r : string * string) : string := "  Replica " +:+ r.1 +:+ " " +:+ r.2.

(** The lines that istgtConfFile gives for a volume; the text ends with a newline. *)
Definition istgtConfFile (cv : CStorVolume) : list string :=
  global_section ++ portal_sections (cv_TargetIP cv) ++ unit_section cv ++
  (replica_line <$> sorted_entries (cv_KnownReplicas cv)).

Definition unlines (l : list string) : string :=
  foldr (λ s t, s +:+ String newline t) "" l.

(** The template is well formed and its fields exist, so that neither Parse nor Execute
    fails. *)
Definition CreateIstgtConf (cStorVolume : CStorVolume) : result string :=
  let cvObj :=
    if (cv_DesiredReplicationFactor cStorVolume =? 0)%Z
    then cStorVolume {{ cv_DesiredReplicationFactor := cv_ReplicationFactor cStorVolume }}
    else cStorVolume in
  OK (unlines (istgtConfFile cvObj)).
End conf.

(** ** Commands *)

Section target.
Context {W : Type} `{VolumeApi} `{TargetApi} `{GoRuntime} `{!Target W}.

(** Errors of the file and of the refresh are only logged. *)
Definition CreateVolumeTarget (cStorVolume : CStorVolume) : M W (option error) :=
  match CreateIstgtConf cStorVolume with
  | Err err => mret (Some (Wrapf err "failed to create istgtconf file data" []))
  | OK data =>
      let* _ := call (file_Write util_IstgtConfPath data) in
      let* _ := call (SendCommand IstgtRefreshCmd) in
      mret None
  end.

Definition extractReplicaStatusFromJSON (str : string) : result CVStatus :=
  match json_CVStatusResponse str with
  | Err err => Err err
  | OK [] => Err (Errorf "empty volume status from istgt" [])
  | OK (s :: _) => OK s
  end.

(** The indexes of strings.Index and strings.LastIndex, and the slice between them: a negative
    index panics. *)
Definition index_of (i : option nat) : Z := match i with Some n => Z.of_nat n | None => (-1)%Z end.
Definition string_slice (s : string) (low high : Z) : outcome string :=
  if (low <? 0)%Z || (high <? low)%Z || (Z.of_nat (String.length s) <? high)%Z
  then Panic "slice bounds out of range"
  else Ret (String.substring (Z.to_nat low) (Z.to_nat (high - low)) s).

(** fmt.Sprintf("%s", statuses) of a slice of strings. *)
Definition sprint_slice (l : list string) : string := "[" +:+ join " " l +:+ "]".

Definition GetVolumeStatus : M W (result CVStatus) :=
  let* r := call (SendCommand IstgtReplicaCmd) in
  match r with
  | Err err => mret (Err err)
  | OK statuses =>
      let stringResp := sprint_slice statuses in
      let jsonBeginIndex := index_of (index_byte "{"%char stringResp) in
      let jsonEndIndex := index_of (last_index_byte "}"%char stringResp) in
      if (jsonEndIndex <=? jsonBeginIndex)%Z then
        mret (Err (Errorf "invalid data from %v command" [IstgtReplicaCmd]))
      else
        let* json := lift (λ _, string_slice stringResp jsonBeginIndex (jsonEndIndex + 1)) in
        mret (extractReplicaStatusFromJSON json)
  end.

Definition getResizeCommand (cv : CStorVolume) : string :=
  IstgtResizeCmd +:+ " " +:+ name cv +:+ " " +:+ Quantity_String (cv_Capacity cv) +:+ " " +:+
  pretty IoWaitTime +:+ " " +:+ pretty TotalWaitTime.
Definition GetScaleUpCommand (cv : CStorVolume) : string :=
  IstgtDRFCmd +:+ " " +:+ name cv +:+ " " +:+ pretty (cv_DesiredReplicationFactor cv).
Definition GetScaleDownCommand (cv : CStorVolume) : string :=
  foldl (λ cmd '(repID, _), cmd +:+ repID +:+ " ")
    (IstgtDRFCmd +:+ " " +:+ name cv +:+ " " +:+ pretty (cv_DesiredReplicationFactor cv) +:+ " ")
    (go_range "GetScaleDownCommand" (cv_KnownReplicas cv)).

(** The first response that reports an error. *)
Definition rejected (sockResp : list string) : option string :=
  first_such (λ resp, strings_Contains resp "ERR") sockResp.

Definition ResizeTargetVolume (cStorVolume : CStorVolume) : M W (option error) :=
  let* r := call (SendCommand (getResizeCommand cStorVolume)) in
  match r with
  | Err err =>
      mret (Some (Wrapf err "failed to execute istgt %s command on volume %s"
                    [IstgtResizeCmd; name cStorVolume]))
  | OK sockResp =>
      match rejected sockResp with
      | Some resp =>
          mret (Some (Errorf "failed to execute istgt %s command on volume %s resp: %s"
                        [IstgtResizeCmd; name cStorVolume; resp]))
      | None =>
          let updateStorageVal :=
            "  LUN0 Storage " +:+ Quantity_String (cv_Capacity cStorVolume) +:+ " 32K" in
          let* _ := ConfFile_Lock in
          let* err := call (file_Updatefile util_IstgtConfPath updateStorageVal "LUN0 Storage") in
          match err with
          | Some err =>
              let* _ := ConfFile_Unlock in
              mret (Some (Wrapf err "failed to update %s file with %s details"
                            [util_IstgtConfPath; updateStorageVal]))
          | None => let* _ := ConfFile_Unlock in mret None
          end
      end
  end.

Definition ExecuteDesiredReplicationFactorCommand (cStorVolume : CStorVolume)
  (getDRFCmd : CStorVolume → string) : M W (option error) :=
  let* r := call (SendCommand (getDRFCmd cStorVolume)) in
  match r with
  | Err err =>
      mret (Some (Wrapf err "failed to execute istgtcontrol %s command on volume %s"
                    [IstgtDRFCmd; name cStorVolume]))
  | OK sockResp =>
      match rejected sockResp with
      | Some resp =>
          mret (Some (Errorf "failed to execute istgtcontrol %s command on volume %s resp: %s"
                        [IstgtDRFCmd; name cStorVolume; resp]))
      | None => mret None
      end
  end.
End target.

(** ** Validity *)

Definition CheckValidVolume (cv : CStorVolume) : option error :=
  if bool_decide (uid cv = "") then Some (Errorf "Invalid volume resource" [])
  else if bool_decide (cv_TargetIP cv = "") then Some (Errorf "targetIP cannot be empty" [])
  else if bool_decide (name cv = "") then Some (Errorf "volumeName cannot be empty" [])
  else if bool_decide (uid cv = "") then Some (Errorf "volumeID cannot be empty" [])
  else if (cv_Capacity cv =? 0)%Z then Some (Errorf "capacity cannot be zero" [])
  else if String.leb "1.3.0" (Current (vd_Status (cv_VersionDetails cv))) &&
          (cv_DesiredReplicationFactor cv =? 0)%Z
       then Some (Errorf "DesiredReplicationFactor cannot be zero" [])
  else if (cv_ReplicationFactor cv =? 0)%Z then Some (Errorf "replicationFactor cannot be zero" [])
  else if (cv_ConsistencyFactor cv =? 0)%Z then Some (Errorf "consistencyFactor cannot be zero" [])
  else if (cv_ReplicationFactor cv <? cv_ConsistencyFactor cv)%Z then
    Some (Errorf "replicationFactor cannot be less than consistencyFactor" [])
  else None.
