(* ===== verification/VolumeMgmt.v ===== *)
(** * VolumeMgmt: the volume manager (pkg/controllers/volume-mgmt)

    handler.go and the event handlers of controller.go: a CStorVolume is turned into the
    configuration of its target, resized, scaled and observed.

    The handler of an event gets a pointer to the object of syncHandler, changes it, and may go
    on with another object; [cStorVolumeEventHandler] returns the former, in its state at the
    end. *)

From stdpp Require Import base gmap strings list sets pretty.
From Stdlib Require Import ZArith Lia.
From coqutil Require Import Datatypes.RecordSetters.
From S2P Require Import Prelude Steps Api VolumeApi Version PoolApi CspiSync TargetApi VolumeTarget.
Import DoubleBraceUpdate.

(** ** Constants of start.go *)

Definition CVStatusInit : string := "Init".
Definition CVStatusHealthy : string := "Healthy".
Definition CVStatusDegraded : string := "Degraded".
Definition CVStatusError : string := "Error".
Definition CVStatusInvalid : string := "Invalid".
Definition CVStatusIgnore : string := "Ignore".
Definition OpenEBSIOCStorVolumeID : string := "OPENEBS_IO_CSTOR_VOLUME_ID".
Definition DefaultNameSpace : string := "openebs".

Inductive QueueOperation := QOpAdd | QOpDestroy | QOpModify | QOpPeriodicSync | QOpOther (s : string).
Record QueueLoad := { Key : string; Operation : QueueOperation }.

(** ** The fields of a volume *)

Definition cv_with_version (v : VersionDetails) (c : CStorVolume) : CStorVolume :=
  c {{ cv_VersionDetails := v }}.
Definition cv_Phase (c : CStorVolume) : string := cvs_Phase (cv_State c).
Definition cv_with_phase (p : string) (c : CStorVolume) : CStorVolume :=
  c {{ cv_State ::= (λ s, s {{ cvs_Phase := p }}) }}.
Definition cv_with_times (updated transition : Z) (c : CStorVolume) : CStorVolume :=
  c {{ cv_State ::= (λ s, s {{ cvs_LastUpdateTime := updated }} {{ cvs_LastTransitionTime := transition }}) }}.
Definition cv_with_conditions (l : list CStorVolumeCondition) (c : CStorVolume) : CStorVolume :=
  c {{ cv_State ::= (λ s, s {{ cvs_Conditions := l }}) }}.
Definition cv_with_replicas (l : list ReplicaStatus) (c : CStorVolume) : CStorVolume :=
  c {{ cv_State ::= (λ s, s {{ cvs_ReplicaStatuses := l }}) }}.

(** metav1.Now() for the update, and for the transition when the phase is another one. *)
Definition stamp (now : Z) (changed : bool) (c : CStorVolume) : CStorVolume :=
  cv_with_times now (if changed then now else cvs_LastTransitionTime (cv_State c)) c.

(** ** Predicates *)

Section predicates.
Context `{PodEnv}.

Definition IsValidCStorVolumeMgmt (cv : CStorVolume) : bool :=
  bool_decide (os_Getenv OpenEBSIOCStorVolumeID = uid cv).
Definition IsDestroyEvent (cv : CStorVolume) : bool :=
  negb (bool_decide (om_deletion (cv_meta cv) = None)).
Definition cv_spec (cv : CStorVolume) :=
  (cv_Capacity cv, cv_TargetIP cv, cv_TargetPort cv, cv_Iqn cv, cv_TargetPortal cv,
   cv_ReplicationFactor cv, cv_DesiredReplicationFactor cv, cv_ConsistencyFactor cv, cv_KnownReplicas cv).
Definition cv_status (cv : CStorVolume) :=
  (cv_Status_Capacity cv, cv_Status_KnownReplicas cv, cv_State cv).
Definition IsOnlyStatusChange (old new : CStorVolume) : bool :=
  bool_decide (cv_spec old = cv_spec new) && negb (bool_decide (cv_status old = cv_status new)).

Definition getEventType (phase : string) : string :=
  if bool_decide (phase = CVStatusInit) || bool_decide (phase = CVStatusHealthy) ||
     bool_decide (phase = CVStatusDegraded)
  then "Normal" else "Warning".
End predicates.

Section volume_mgmt.
Context {W : Type} `{OpenebsApi} `{VolumeApi} `{PoolApi} `{TargetApi} `{PodEnv} `{GoRuntime} `{BuildInfo}.
Context `{!Env W} `{!Target W} `{!ResourceClient W CStorVolume} `{!ResourceClient W Event_}.

(** error.Error() *)
Context (error_Error : error → string).

Definition cv_event (cv : CStorVolume) (type reason message : string) (args : list string) : M W unit :=
  emit {| ev_object := name cv; ev_type := type; ev_reason := reason; ev_message := message;
          ev_args := args |}.

(** ** Informer events (controller.go) *)

Definition enqueueCStorVolume (obj : CStorVolume) (op : QueueOperation) : option QueueLoad :=
  match cache_MetaNamespaceKeyFunc (cv_meta obj) with
  | Err _ => None
  | OK key => Some {| Key := key; Operation := op |}
  end.

Definition AddFunc (obj : CStorVolume) : option QueueLoad :=
  if negb (IsValidCStorVolumeMgmt obj) then None else enqueueCStorVolume obj QOpAdd.

Definition UpdateFunc (old new : CStorVolume) : option QueueLoad :=
  if negb (IsValidCStorVolumeMgmt new) then None
  else if bool_decide (om_resourceVersion (cv_meta new) = om_resourceVersion (cv_meta old)) then
    enqueueCStorVolume new QOpPeriodicSync
  else if IsOnlyStatusChange old new then None
  else if IsDestroyEvent new then enqueueCStorVolume new QOpDestroy
  else enqueueCStorVolume new QOpModify.

(** ** Reading the object and settling its version *)

Definition getVolumeResource (key : string) : M W (result CStorVolume) :=
  match cache_SplitMetaNamespaceKey key with
  | Err err => mret (Err err)
  | OK (ns, n) =>
      let ns := if bool_decide (ns = "") then DefaultNameSpace else ns in
      reads (λ w, rGet w ns n)
  end.

Definition cv_reconcileVersion : CStorVolume → M W (CStorVolume * option error) :=
  reconcile_version cv_VersionDetails cv_with_version (λ err, err).

(** ** Resizing *)

(** The argument, whose conditions are changed also when the update fails, and the result. *)
Definition addResizeConditions (cvObj : CStorVolume) : M W (CStorVolume * result CStorVolume) :=
  let* now := reads Now in
  let cvObj := cv_with_conditions
    (AddCondition (GetResizeCondition now) (cvs_Conditions (cv_State cvObj))) cvObj in
  let* r := call (rUpdate (namespace cvObj) cvObj) in
  match r with
  | Err err =>
      let* _ := cv_event cvObj "Warning" "FailUpdate" "failed to update resize conditions error %v" [] in
      mret (cvObj, Err (Errorf "failed to update resize conditions error %v" []))
  | OK updatedCVObj =>
      let* _ := cv_event cvObj "Normal" "Updated" "Updated resize conditions" [] in
      mret (cvObj, OK updatedCVObj)
  end.

(** The message of a failed resize. *)
Definition resize_message (cv : CStorVolume) (err : error) : string :=
  "failed to resize cstorvolume from " +:+ Quantity_String (cv_Status_Capacity cv) +:+ " to " +:+
  Quantity_String (cv_Capacity cv) +:+ " error " +:+ error_Error err.

Definition resizeCStorVolume (cStorVolume : CStorVolume) : M W (result CStorVolume) :=
  let conditionStatus := GetCVCondition CStorVolumeResizing cStorVolume in
  let conditions := cvs_Conditions (cv_State cStorVolume) in
  let* err := ResizeTargetVolume cStorVolume in
  let* copyCV :=
    match err with
    | Some err =>
        let msg := resize_message cStorVolume err in
        let* _ := cv_event cStorVolume "Warning" "FailUpdate" "%s" [msg] in
        mret (cv_with_conditions
          (UpdateCondition (conditionStatus {{ cvcond_Message := msg }}) conditions) cStorVolume)
    | None =>
        mret ((cv_with_conditions (DeleteCondition conditionStatus conditions) cStorVolume)
                {{ cv_Status_Capacity := cv_Capacity cStorVolume }})
    end in
  let* r := call (rUpdate (namespace copyCV) copyCV) in
  match r, err with
  | OK newCV, None =>
      let* _ := cv_event copyCV "Normal" "Updated" "successfully resized volume from %s to %s"
                  [Quantity_String (cv_Status_Capacity cStorVolume); Quantity_String (cv_Capacity cStorVolume)] in
      mret (OK newCV)
  | _, _ => mret r
  end.

(** ** Scaling *)

Definition triggerScaleUpProcess (cStorVolume : CStorVolume) : M W (result CStorVolume) :=
  let* err := ExecuteDesiredReplicationFactorCommand cStorVolume GetScaleUpCommand in
  match err with
  | Some err => mret (Err err)
  | None =>
      let updatedConfig :=
        DesiredReplicationFactorKey +:+ " " +:+ pretty (cv_DesiredReplicationFactor cStorVolume) in
      let* _ := ConfFile_Lock in
      let* err := call (file_Updatefile types_IstgtConfPath updatedConfig DesiredReplicationFactorKey) in
      let* _ := ConfFile_Unlock in
      match err with
      | Some err =>
          mret (Err (Wrapf err "failed to update conf file with desiredReplicationFactor %d"
                       [pretty (cv_DesiredReplicationFactor cStorVolume)]))
      | None => mret (OK cStorVolume)
      end
  end.

(** The replication factor follows the desired one, first in the file and then in the object. *)
Definition lower_factors (cv : CStorVolume) (replicaID : string) : M W (result CStorVolume) :=
  if (cv_DesiredReplicationFactor cv <? cv_ReplicationFactor cv)%Z then
    let configData := BuildScaleDownConfigData replicaID cv in
    let* _ := ConfFile_Lock in
    let* err := call (file_UpdateOrAppendMultipleLines types_IstgtConfPath configData) in
    let* _ := ConfFile_Unlock in
    match err with
    | Some err => mret (Err (Wrapf err "failed to update istgt conf file %v" []))
    | None =>
        let cv := cv {{ cv_ReplicationFactor := cv_DesiredReplicationFactor cv }} in
        let cv := cv {{ cv_ConsistencyFactor := (Z.quot (cv_ReplicationFactor cv) 2 + 1)%Z }} in
        let* r := call (rUpdate (namespace cv) cv) in
        mret (wrap_result r "failed to update cstorvolume" [])
    end
  else mret (OK cv).

(** The target drops the replica, then the status forgets it. *)
Definition drop_replica (cv : CStorVolume) : M W (result CStorVolume) :=
  let* err := ExecuteDesiredReplicationFactorCommand cv GetScaleDownCommand in
  match err with
  | Some err => mret (Err err)
  | None =>
      let cv := cv {{ cv_Status_KnownReplicas := cv_KnownReplicas cv }} in
      let* r := call (rUpdate (namespace cv) cv) in
      mret (wrap_result r "failed to update cstorvolume status with scaledown replica information" [])
  end.

Definition triggerScaleDownProcess (cv : CStorVolume) : M W (result CStorVolume) :=
  let* r := GetVolumeStatus in
  match r with
  | Err err => mret (Err err)
  | OK volumeStatus =>
      if negb (bool_decide (cvst_Status volumeStatus = CVStatusHealthy)) then
        mret (Err (Errorf "cStorvolume is not in healthy to trigger scaledown" []))
      else if negb (AreSpecReplicasHealthy volumeStatus cv) then
        mret (Err (Errorf "spec replicas are not in healthy state" []))
      else
        let replicaID := GetRemovingReplicaID cv in
        if bool_decide (replicaID = "") then
          mret (Err (Errorf "removing replica is not present in volume status" []))
        else
          let* r := lower_factors cv replicaID in
          match r with
          | Err err => mret (Err err)
          | OK cv => drop_replica cv
          end
  end.

(** The object of the caller is not changed. *)
Definition updateCStorVolumeDRF (cStorVolume : CStorVolume) : M W unit :=
  let specKnownReplicaCount := size (cv_KnownReplicas cStorVolume) in
  let statusKnownReplicaCount := size (cv_Status_KnownReplicas cStorVolume) in
  let* r :=
    if bool_decide (specKnownReplicaCount < statusKnownReplicaCount) then
      triggerScaleDownProcess cStorVolume
    else if bool_decide (specKnownReplicaCount = statusKnownReplicaCount) then
      triggerScaleUpProcess cStorVolume
    else
      mret (Err (Errorf "unkown changes are made to cStorVolume no.of entries in spec.ReplicaDetails.knownReplicas are %d and no.of entries in status.ReplicaDetails.KnownReplicas are %d" [])) in
  match r with
  | Err _ =>
      cv_event cStorVolume "Warning" "FailUpdate"
        "failed to update desired replication factor to %d Error: %v"
        [pretty (cv_DesiredReplicationFactor cStorVolume)]
  | OK cv =>
      cv_event cv "Normal" "Updated" "Successfully updated the desiredReplicationFactor to %d"
        [pretty (cv_DesiredReplicationFactor cv)]
  end.

(** ** Events of a phase *)

Definition createEventObj (cv : CStorVolume) : M W Event_ :=
  let* now := reads Now in
  mret {| event_meta :=
            {| om_name := name cv +:+ "." +:+ cv_Phase cv; om_namespace := namespace cv; om_uid := "";
               om_resourceVersion := ""; om_labels := ∅; om_annotations := ∅; om_finalizers := [];
               om_owners := []; om_deletion := None |};
          event_InvolvedKind := CStorVolumeKind; event_InvolvedAPIVersion := CStorAPIVersion;
          event_InvolvedObject := cv_meta cv; event_FirstTimestamp := now; event_LastTimestamp := now;
          event_Count := 1; event_Message := "Volume is in " +:+ cv_Phase cv +:+ " state";
          event_Reason := cv_Phase cv; event_Type := getEventType (cv_Phase cv);
          event_Component := os_Getenv "POD_NAME"; event_Host := os_Getenv "NODE_NAME" |}.

Definition createSyncUpdateEvent (eventGot : Event_) : M W (option error) :=
  let create : M W (option error) :=
    let* r := call (rCreate (namespace eventGot) eventGot) in
    mret (match r with Err err => Some err | OK _ => None end) in
  let* r := reads (λ w, rGet (Obj:=Event_) w (namespace eventGot) (name eventGot)) in
  match r with
  | Err err =>
      if negb (strings_Contains (error_Error err) "not found") then mret (Some err) else create
  | OK event =>
      if bool_decide (name event = "") then create
      else
        let* now := reads Now in
        let event := event {{ event_Count ::= (λ n, int32 (n + 1)%Z) }} {{ event_LastTimestamp := now }} in
        let* r := call (rUpdate (namespace eventGot) event) in
        mret (match r with Err err => Some err | OK _ => None end)
  end.

(** ** The handlers *)

Definition handle_add (cv : CStorVolume) : M W (CStorVolume * string * option error) :=
  match CheckValidVolume cv with
  | Some err =>
      let* _ := cv_event cv "Warning" "FailCreate"
        "failed to create cstorvolume validation failed on cstorvolum error: %v" [] in
      mret (cv, CVStatusInvalid, Some err)
  | None =>
      let* _ := set_TargetNamespace (namespace cv) in
      let* err := CreateVolumeTarget cv in
      match err with
      | Some err => mret (cv, CVStatusError, Some err)
      | None =>
          let cv := if negb (IsResizePending cv) then cv {{ cv_Status_Capacity := cv_Capacity cv }} else cv in
          mret (cv, CVStatusInit, None)
      end
  end.

Definition update_factor (cv : CStorVolume) : M W unit :=
  if IsDRFPending cv then updateCStorVolumeDRF cv else mret tt.

Definition handle_modify (cv : CStorVolume) : M W (CStorVolume * string * option error) :=
  match CheckValidVolume cv with
  | Some err =>
      let* _ := cv_event cv "Warning" "FailCreate"
        "failed to update cstorvolume validation failed on cstorvolume errors: %v" [] in
      mret (cv, CVStatusInvalid, Some err)
  | None =>
      let* _ := update_factor cv in
      if IsResizePending cv then
        if negb (IsConditionPresent CStorVolumeResizing cv) then
          let* (cv, r) := addResizeConditions cv in
          match r with
          | Err _ => mret (cv, CVStatusIgnore, None)
          | OK updatedCV =>
              let* _ := resizeCStorVolume updatedCV in mret (cv, CVStatusIgnore, None)
          end
        else
          let* _ := resizeCStorVolume cv in mret (cv, CVStatusIgnore, None)
      else
        let* _ := cv_event cv "Warning" "FailUpdate" "Ignoring changes on volume %s" [name cv] in
        mret (cv, CVStatusIgnore, None)
  end.

(** A resize that is pending: the object of the caller, and the object that is observed. *)
Definition sync_resize (cv : CStorVolume) : M W (CStorVolume * CStorVolume) :=
  let resize (caller got : CStorVolume) : M W (CStorVolume * CStorVolume) :=
    let* r := resizeCStorVolume got in
    mret (caller, match r with OK updatedCV => updatedCV | Err _ => got end) in
  if negb (IsResizePending cv) then mret (cv, cv)
  else if negb (IsConditionPresent CStorVolumeResizing cv) then
    let* (cv, r) := addResizeConditions cv in
    match r with
    | Err _ => mret (cv, cv)
    | OK updatedCV => resize cv updatedCV
    end
  else resize cv cv.

(** The status that the target reports is written to the object. *)
Definition observed (lastKnownPhase : string) (now : Z) (volStatus : CVStatus) (cv : CStorVolume) : CStorVolume :=
  let phase := if bool_decide (cvst_ReplicaStatuses volStatus = []) then CVStatusInit else cvst_Status volStatus in
  let cv := stamp now (negb (bool_decide (phase = lastKnownPhase))) (cv_with_phase phase cv) in
  cv_with_replicas (cvst_ReplicaStatuses volStatus) cv.

Definition handle_sync (cv : CStorVolume) : M W (CStorVolume * string * option error) :=
  let lastKnownPhase := cv_Phase cv in
  let* _ := update_factor cv in
  let* (caller, got) := sync_resize cv in
  let* r := GetVolumeStatus in
  match r with
  | Err _ => mret (caller, CVStatusError, None)
  | OK volStatus =>
      let* now := reads Now in
      let got := observed lastKnownPhase now volStatus got in
      let* r := call (rUpdate (namespace got) got) in
      match r with
      | Err _ => mret (caller, CVStatusIgnore, None)
      | OK updatedCstorVolume =>
          let* _ :=
            if bool_decide (lastKnownPhase = cv_Phase updatedCstorVolume) then mret None
            else
              let* e := createEventObj updatedCstorVolume in
              createSyncUpdateEvent e in
          mret (caller, CVStatusIgnore, None)
      end
  end.

Definition cStorVolumeEventHandler (operation : QueueOperation) (cv : CStorVolume)
  : M W (CStorVolume * string * option error) :=
  match operation with
  | QOpAdd => handle_add cv
  | QOpModify => handle_modify cv
  | QOpPeriodicSync => handle_sync cv
  | QOpDestroy | QOpOther _ => mret (cv, CVStatusIgnore, None)
  end.

(** The phase that the handler returned is stored. *)
Definition store_phase (h : CStorVolume * string * option error) : M W (option error) :=
  let '(cv, status, err) := h in
  if bool_decide (status = CVStatusIgnore) then mret None
  else
    let* now := reads Now in
    let cv := cv_with_phase status (stamp now (negb (bool_decide (cv_Phase cv = status))) cv) in
    let* r := call (rUpdate (namespace cv) cv) in
    match r, err with
    | Err err1, Some _ =>
        mret (Some (Wrapf err1 "failed to update cStorVolume:%v, %v; Status: %v err: %v"
                      [name cv; uid cv; cv_Phase cv]))
    | Err err1, None =>
        mret (Some (Wrapf err1 "failed to update cStorVolume:%v, %v; Status: %v"
                      [name cv; uid cv; cv_Phase cv]))
    | OK _, err => mret err
    end.

Definition syncHandler (key : string) (operation : QueueOperation) : M W (option error) :=
  let* r := getVolumeResource key in
  match r with
  | Err err => mret (Some err)
  | OK cStorVolumeGot =>
      let* (cv, err) := cv_reconcileVersion cStorVolumeGot in
      match err with
      | Some err =>
          let v := cv_VersionDetails cv in
          let* _ := cv_event cv "Warning" "FailedUpgrade" "Failed to upgrade cv to %s version: %s" [Desired v] in
          let cv := cv_with_version (version_with_status
            (SetErrorStatus "Failed to reconcile cv version" err (vd_Status v)) v) cv in
          let* _ := call (rUpdate (namespace cv) cv) in
          mret None
      | None =>
          let* h := cStorVolumeEventHandler operation cv in
          store_phase h
      end
  end.

(** The first volume of this target goes offline when the manager stops. *)
Definition markCVStatusToOffline : M W unit :=
  let* r := reads (λ w, rList w (os_Getenv "OPENEBS_NAMESPACE") "") in
  match r with
  | Err _ => mret tt
  | OK cvList =>
      match first_such IsValidCStorVolumeMgmt cvList with
      | None => mret tt
      | Some cv =>
          if bool_decide (cv_Phase cv = "") then mret tt
          else
            let cv := cv_with_replicas [] (cv_with_phase CVStatusOffline cv) in
            let* _ := call (rUpdate (namespace cv) cv) in
            mret tt
      end
  end.
End volume_mgmt.
