(* ===== verification/TargetServer.v ===== *)
(** * TargetServer: the replication server of the volume manager
      (pkg/volume-rpc/targetserver)

    The target tells the volume manager over a socket that a replica has joined: it sends a JSON
    object and the end of data, and gets Ok or Err.  The server records the replica and the
    factors in the CStorVolume and in the configuration file of the target. *)

From stdpp Require Import base gmap strings list sets pretty.
From Stdlib Require Import Ascii ZArith Lia.
From coqutil Require Import Datatypes.RecordSetters.
From S2P Require Import Prelude Api VolumeApi PoolApi StringFacts TargetApi.
Import DoubleBraceUpdate.

Definition endOfData : string :=
  String (Ascii.ascii_of_nat 13) (String (Ascii.ascii_of_nat 10) "").
Definition respOk : string := "Ok".
Definition respErr : string := "Err".

(** ** Reading a request (server.go) *)

(** One return of Read: the bytes, and the error. *)
Inductive read_error := EOF | ReadError (e : error).
Definition chunk : Type := string * option read_error.

(** strings.Split(s, sep)[0] for a separator that is not empty: the text before it. *)
Fixpoint before (sep s : string) : string :=
  match s with
  | "" => ""
  | String a s' => if prefix_of sep s then "" else String a (before sep s')
  end.

(** The loop of Reader on what the connection returns; [None] while it waits for more. *)
Fixpoint Reader_loop (completeBytes : string) (input : list chunk) : option (result string) :=
  match input with
  | [] => None
  | (_, Some EOF) :: _ => Some (Err (Errorf "failed to read data connection closed" []))
  | (_, Some (ReadError err)) :: _ => Some (Err (Wrapf err "failed to read data on wire" []))
  | (buf, None) :: input' =>
      if bool_decide (buf = "") then Reader_loop completeBytes input'
      else
        let completeBytes := completeBytes +:+ buf in
        if strings_HasSuffix completeBytes endOfData then Some (OK (before endOfData completeBytes))
        else Reader_loop completeBytes input'
  end.
Definition Reader (input : list chunk) : option (result string) := Reader_loop "" input.

(** syscall.Errno, for the values that are looked at. *)
Inductive Errno := EINTR | EAGAIN | EWOULDBLOCK | OtherErrno (n : Z).
Definition IsSafeToRetry (err : option Errno) : bool :=
  match err with
  | Some EINTR | Some EAGAIN | Some EWOULDBLOCK => true
  | _ => false
  end.

(** ** Replication details (config.go): the factors are of type int *)

Record CVReplicationDetails := {
  crd_VolumeName : string;
  crd_ReplicationFactor : Z;
  crd_ConsistencyFactor : Z;
  crd_ReplicaID : string;
  crd_ReplicaGUID : string;
}.

Definition BuildConfigData (csr : CVReplicationDetails) : gmap string string :=
  <["  Replica " +:+ crd_ReplicaID csr :=
      "  Replica " +:+ crd_ReplicaID csr +:+ " " +:+ crd_ReplicaGUID csr]>
  (<["  ConsistencyFactor" := "  ConsistencyFactor " +:+ pretty (crd_ConsistencyFactor csr)]>
  (<["  ReplicationFactor" := "  ReplicationFactor " +:+ pretty (crd_ReplicationFactor csr)]> ∅)).

Definition Validate (csr : CVReplicationDetails) : option error :=
  if bool_decide (crd_VolumeName csr = "") then Some (Errorf "volume name can not be empty" [])
  else if bool_decide (crd_ReplicaID csr = "") then
    Some (Errorf "replicaKey can not be empty to perform volume %s update" [crd_VolumeName csr])
  else if bool_decide (crd_ReplicaGUID csr = "") then
    Some (Errorf "replicaKey can not be empty to perform volume %s update" [crd_VolumeName csr])
  else if bool_decide (crd_ReplicationFactor csr = 0%Z) then
    Some (Errorf "replication factor can't be %d" [pretty (crd_ReplicationFactor csr)])
  else if bool_decide (crd_ConsistencyFactor csr = 0%Z) then
    Some (Errorf "consistencyFactor factor can't be %d" [pretty (crd_ReplicationFactor csr)])
  else None.

(** The assignments to the volume. *)
Definition with_replica (csr : CVReplicationDetails) (cv : CStorVolume) : CStorVolume :=
  cv {{ cv_ReplicationFactor := crd_ReplicationFactor csr }}
     {{ cv_ConsistencyFactor := crd_ConsistencyFactor csr }}
     {{ cv_KnownReplicas := <[crd_ReplicaID csr := crd_ReplicaGUID csr]> (cv_KnownReplicas cv) }}
     {{ cv_Status_KnownReplicas :=
          <[crd_ReplicaID csr := crd_ReplicaGUID csr]> (cv_Status_KnownReplicas cv) }}.

(** The checks of the request against the volume. *)
Definition check_details (csr : CVReplicationDetails) (cv : CStorVolume) : option error :=
  let known := Z.of_nat (size (cv_KnownReplicas cv)) in
  let oldReplica := bool_decide (is_Some (cv_KnownReplicas cv !! crd_ReplicaID csr)) in
  if negb oldReplica && (cv_DesiredReplicationFactor cv <=? known)%Z then
    Some (Errorf "can not update cstorvolume %s known replica count %d is greater than or equal to desired replication factor %d"
            [name cv; pretty known; pretty (cv_DesiredReplicationFactor cv)])
  else if (crd_ReplicationFactor csr <? cv_ReplicationFactor cv)%Z then
    Some (Errorf "requested replication factor {%d} can not be smaller than existing replication factor {%d}"
            [pretty (crd_ReplicationFactor csr); pretty (cv_ReplicationFactor cv)])
  else if (crd_ConsistencyFactor csr <? cv_ConsistencyFactor cv)%Z then
    Some (Errorf "requested consistencyFactor factor {%d} can not be smaller than existing consistencyFactor factor {%d}"
            [pretty (crd_ReplicationFactor csr); pretty (cv_ConsistencyFactor cv)])
  else None.

Section server.
Context {W : Type} `{TargetApi} `{PoolApi} `{!Target W} `{!ResourceClient W CStorVolume}.

(** util.GetNamespace, and encoding/json on CVReplicationDetails *)
Context (util_GetNamespace : string) (json_CVReplicationDetails : string → result CVReplicationDetails).

Definition UpdateConfig (csr : CVReplicationDetails) : M W (option error) :=
  let configData := BuildConfigData csr in
  let* _ := ConfFile_Lock in
  let* err := call (file_UpdateOrAppendMultipleLines types_IstgtConfPath configData) in
  let* _ := ConfFile_Unlock in
  mret err.

Definition UpdateCVWithReplicationDetails (csr : CVReplicationDetails) : M W (option error) :=
  match Validate csr with
  | Some err => mret (Some (Wrapf err "validate errors" []))
  | None =>
      let* r := reads (λ w, rGet (Obj:=CStorVolume) w util_GetNamespace (crd_VolumeName csr)) in
      match r with
      | Err err => mret (Some (Wrapf err "failed to get cstorvolume" []))
      | OK cv =>
          match check_details csr cv with
          | Some err => mret (Some err)
          | None =>
              let* r := call (rUpdate util_GetNamespace (with_replica csr cv)) in
              match r with
              | Err err => mret (Some err)
              | OK _ => UpdateConfig csr
              end
          end
      end
  end.

(** The answer on the connection, when the request is complete. *)
Definition ServeRequest (input : list chunk) : M W (option string) :=
  match Reader input with
  | None => mret None
  | Some (Err _) => mret (Some (respErr +:+ endOfData))
  | Some (OK readData) =>
      match json_CVReplicationDetails readData with
      | Err _ => mret (Some (respErr +:+ endOfData))
      | OK replicationData =>
          let* err := UpdateCVWithReplicationDetails replicationData in
          match err with
          | Some _ => mret (Some (respErr +:+ endOfData))
          | None => mret (Some (respOk +:+ endOfData))
          end
      end
  end.
End server.

(** ** The framing of requests *)

(** What has come of a request and the end of data, before the last byte, does not have the end
    of data in it. *)
Lemma no_end_before (m p rest : string) :
  strings_Contains m endOfData = false → p +:+ rest = m +:+ endOfData → rest ≠ "" →
  strings_Contains p endOfData = false.
Proof.
  revert m. induction p as [|a p IH]; intros m Hm Hp Hr; [done|].
  destruct m as [|b m].
  - destruct p as [|b [|? ?]]; unfold endOfData in Hp; cbn in Hp; simplify_eq; done.
  - injection Hp as -> Hp. change (strings_Contains (String b m) endOfData)
      with (prefix_of endOfData (String b m) || strings_Contains m endOfData) in Hm.
    apply orb_false_iff in Hm as [Hb Hm].
    change (prefix_of endOfData (String b p) || strings_Contains p endOfData = false).
    rewrite (IH m Hm Hp Hr), orb_false_r. cbn in Hb |- *.
    destruct (Ascii.eqb _ b); [|done]. cbn in Hb |- *.
    destruct p as [|c p]; [done|]. destruct m as [|d m]; cbn in Hp; injection Hp as -> Hp; [done|done].
Qed.

Lemma before_end (m : string) :
  strings_Contains m endOfData = false → before endOfData (m +:+ endOfData) = m.
Proof.
  induction m as [|a m IH]; [done|]. intros Hm.
  change (prefix_of endOfData (String a m) || strings_Contains m endOfData = false) in Hm.
  apply orb_false_iff in Hm as [Ha Hm].
  change (String a m +:+ endOfData) with (String a (m +:+ endOfData)).
  change (before endOfData (String a (m +:+ endOfData))) with
    (if prefix_of endOfData (String a (m +:+ endOfData)) then ""
     else String a (before endOfData (m +:+ endOfData))).
  rewrite (IH Hm). replace (prefix_of _ _) with false; [done|]. cbn in Ha |- *.
  destruct (Ascii.eqb _ a); [|done]. cbn in Ha |- *. by destruct m.
Qed.

Lemma Reader_loop_frames (m acc : string) (bufs : list string) :
  strings_Contains m endOfData = false → acc +:+ join "" bufs = m +:+ endOfData →
  acc ≠ m +:+ endOfData →
  Reader_loop acc ((λ b, (b, None)) <$> bufs) = Some (OK m).
Proof.
  intros Hm. revert acc. induction bufs as [|b bufs IH]; intros acc Hacc Hne.
  - cbn in Hacc. by rewrite app_string_nil_r in Hacc.
  - assert (Hj : join "" (b :: bufs) = b +:+ join "" bufs).
    { destruct bufs; cbn; [by rewrite app_string_nil_r|done]. }
    rewrite Hj in Hacc. cbn [fmap list_fmap Reader_loop]. case_bool_decide as Hb; [subst b; by apply IH|].
    destruct (decide (join "" bufs = "")) as [He|He].
    + rewrite He, app_string_nil_r in Hacc. rewrite Hacc.
      rewrite (proj2 (HasSuffix_spec _ _)) by eauto. by rewrite before_end.
    + assert (Hp : (acc +:+ b) +:+ join "" bufs = m +:+ endOfData) by by rewrite app_string_assoc.
      destruct (strings_HasSuffix (acc +:+ b) endOfData) eqn:Hs.
      * apply Contains_suffix in Hs. by rewrite (no_end_before m _ _ Hm Hp He) in Hs.
      * apply IH; [done|]. intros Heq. apply He. rewrite Heq in Hp.
        apply (f_equal String.length) in Hp. rewrite !length_app_string in Hp.
        destruct (join "" bufs); [done|cbn in Hp; lia].
Qed.

Lemma join_empty_cons (b : string) (bufs : list string) : join "" (b :: bufs) = b +:+ join "" bufs.
Proof. destruct bufs; cbn; [by rewrite app_string_nil_r|done]. Qed.
Lemma join_empty_app (l l' : list string) : join "" (l ++ l') = join "" l +:+ join "" l'.
Proof.
  induction l as [|b l IH]; [done|]. cbn [app]. by rewrite !join_empty_cons, IH, app_string_assoc.
Qed.

(** Before the last byte the reader waits. *)
Lemma Reader_loop_waits (m acc rest : string) (bufs : list string) :
  strings_Contains m endOfData = false → acc +:+ join "" bufs +:+ rest = m +:+ endOfData → rest ≠ "" →
  Reader_loop acc ((λ b, (b, None)) <$> bufs) = None.
Proof.
  intros Hm. revert acc. induction bufs as [|b bufs IH]; intros acc Hacc Hne; [done|].
  rewrite join_empty_cons in Hacc. cbn [fmap list_fmap Reader_loop].
  case_bool_decide as Hb; [subst b; by apply IH|].
  assert (Hp : (acc +:+ b) +:+ join "" bufs +:+ rest = m +:+ endOfData) by (by rewrite app_string_assoc in Hacc |- * ).
  destruct (strings_HasSuffix (acc +:+ b) endOfData) eqn:Hs; [|by apply IH].
  apply Contains_suffix in Hs. rewrite (no_end_before m _ _ Hm Hp) in Hs; [done|].
  destruct (join "" bufs); [done|discriminate].
Qed.
