(* ===== verification/Snapshot.v ===== *)
(** * Snapshot: snapshots of a volume, from the operator to the target
      (pkg/snapshot, pkg/volume-rpc/client)

    The operator finds the address of the target of a volume and calls its snapshot service;
    the service sends a command to the target over its socket and returns the answer.  The
    remote call itself (package grpc) is the class [SnapService]. *)

From stdpp Require Import base gmap strings list sets pretty.
From Stdlib Require Import Ascii ZArith Lia.
From S2P Require Import Prelude Api VolumeApi Version PoolApi TargetApi.

(** net.JoinHostPort: a host with a colon or a percent sign, an IPv6 address, is put in
    brackets. *)
Definition net_JoinHostPort (host port : string) : string :=
  match index_byte ":"%char host, index_byte "%"%char host with
  | None, None => host +:+ ":" +:+ port
  | _, _ => "[" +:+ host +:+ "]:" +:+ port
  end.

(** proto.VolumeSnapCreateRequest and proto.VolumeSnapDeleteRequest; a response is the bytes of
    its status. *)
Record VolumeSnapRequest := { vsr_Version : Z; vsr_Volume : string; vsr_Snapname : string }.

(** encoding/json on a CommandStatus, a record of one string: the bytes, and the string that is
    read from bytes, empty when they are not such a record. *)
Class CommandJson := {
  json_Marshal_CommandStatus : string → string;
  json_CommandStatus : string → string;
}.
Class CommandJsonLaws `{CommandJson} : Prop := {
  CommandStatus_roundtrip : ∀ s, json_CommandStatus (json_Marshal_CommandStatus s) = s;
}.

(** ** The service (volume-rpc/client) *)

Module VolumeRpc.
Definition VolumeGrpcListenPort : Z := 7777.
Definition CmdSnapCreate : string := "SNAPCREATE".
Definition CmdSnapDestroy : string := "SNAPDESTROY".
Definition IoWaitTime : Z := 10.
Definition TotalWaitTime : Z := 60.

Section server.
Context {W : Type} `{!Target W} `{CommandJson}.

Definition snap_command (cmd : string) (req : VolumeSnapRequest) : string :=
  join " " [cmd; vsr_Volume req; vsr_Snapname req; pretty IoWaitTime; pretty TotalWaitTime].

(** The second line of the answer, when there is one. *)
Definition answer_line (sockresp : result (list string)) : string :=
  match sockresp with
  | OK (_ :: line :: _) => line
  | _ => "ERR"
  end.
Definition answer_error {A} (sockresp : result A) : option error :=
  match sockresp with OK _ => None | Err err => Some err end.

Definition CreateSnapshot (req : VolumeSnapRequest) : M W (string * option error) :=
  let* sockresp := call (SendCommand (snap_command CmdSnapCreate req)) in
  mret (json_Marshal_CommandStatus (answer_line sockresp), answer_error sockresp).
Definition DeleteSnapshot (req : VolumeSnapRequest) : M W (string * option error) :=
  let* sockresp := call (SendCommand (snap_command CmdSnapDestroy req)) in
  mret (json_Marshal_CommandStatus (answer_line sockresp), answer_error sockresp).

Definition RunVolumeSnapCreateCommand (req : VolumeSnapRequest) : M W (string * option error) :=
  CreateSnapshot req.
Definition RunVolumeSnapDeleteCommand (req : VolumeSnapRequest) : M W (string * option error) :=
  DeleteSnapshot req.
End server.

(** StartServer, for the port it listens on: strconv.Atoi of the empty string fails. *)
Definition StartServer_port (port : string) : Z :=
  if bool_decide (String.length port = 0) then
    if bool_decide (Atoi port ≠ 0%Z) then Atoi port else VolumeGrpcListenPort
  else VolumeGrpcListenPort.
End VolumeRpc.

(** ** The client (pkg/snapshot) *)

Definition VolumeGrpcListenPort : Z := 7777.
Definition ProtocolVersion : Z := 1.

(** package grpc: whether an address can be dialled, and the calls of the service behind it.  A
    response may be nil. *)
Class SnapService (W : Type) := {
  grpc_Dial : string → W → option error;
  rpc_VolumeSnapCreate : string → VolumeSnapRequest → W → result (option string) * W;
  rpc_VolumeSnapDelete : string → VolumeSnapRequest → W → result (option string) * W;
}.

(** snapshot.Snapshotter: the address, the volume and the snapshot. *)
Record Snapshotter (W : Type) := {
  snap_CreateSnapshot : string → string → string → M W (result (option string));
  snap_DestroySnapshot : string → string → string → M W (result (option string));
}.
Arguments snap_CreateSnapshot {W}.
Arguments snap_DestroySnapshot {W}.

Section client.
Context {W : Type} `{!SnapService W} `{CommandJson}.

(** The answer of the target is an error when it has the letters ERR. *)
Definition check_response (fmt : string) (response : option string) : result (option string) :=
  match response with
  | Some status =>
      let r := json_CommandStatus status in
      if strings_Contains r "ERR" then Err (Errorf fmt [r]) else OK response
  | None => OK None
  end.

Definition SnapClient_CreateSnapshot (ip volName snapName : string) : M W (result (option string)) :=
  let addr := net_JoinHostPort ip (pretty VolumeGrpcListenPort) in
  let* err := reads (grpc_Dial addr) in
  match err with
  | Some _ => mret (Err (Errorf "Unable to dial gRPC server on port %d error : %s" [pretty VolumeGrpcListenPort]))
  | None =>
      let* r := call (rpc_VolumeSnapCreate addr
        {| vsr_Version := ProtocolVersion; vsr_Volume := volName; vsr_Snapname := snapName |}) in
      match r with
      | Err _ => mret (Err (Errorf "Error when calling RunVolumeSnapCreateCommand: %s" []))
      | OK response => mret (check_response "Snapshot create failed with error : %v" response)
      end
  end.

Definition SnapClient_DestroySnapshot (ip volName snapName : string) : M W (result (option string)) :=
  let addr := net_JoinHostPort ip (pretty VolumeGrpcListenPort) in
  let* err := reads (grpc_Dial addr) in
  match err with
  | Some _ => mret (Err (Errorf "Unable to dial gRPC server on port error : %s" []))
  | None =>
      let* r := call (rpc_VolumeSnapDelete addr
        {| vsr_Version := ProtocolVersion; vsr_Volume := volName; vsr_Snapname := snapName |}) in
      match r with
      | Err _ => mret (Err (Errorf "Error when calling RunVolumeSnapDeleteCommand: %s" []))
      | OK response => mret (check_response "Snapshot deletion failed with error : %v" response)
      end
  end.

Definition SnapClient : Snapshotter W :=
  {| snap_CreateSnapshot := SnapClient_CreateSnapshot;
     snap_DestroySnapshot := SnapClient_DestroySnapshot |}.
End client.

(** snapshot.Snapshot: a client that is not set is nil. *)
Record Snapshot (W : Type) := {
  ss_VolumeName : string;
  ss_SnapshotName : string;
  ss_Namespace : string;
  ss_SnapClient : option (Snapshotter W);
}.
Arguments ss_VolumeName {W}.
Arguments ss_SnapshotName {W}.
Arguments ss_Namespace {W}.
Arguments ss_SnapClient {W}.

Section snapshot.
Context {W : Type} `{!ResourceClient W CStorVolume}.

Definition getVolumeIP (volumeName namespace : string) : M W (result string) :=
  let* r := reads (λ w, rGet (Obj:=CStorVolume) w namespace volumeName) in
  mret (match r with OK cv => OK (cv_TargetIP cv) | Err err => Err err end).

Definition CreateSnapshot (s : Snapshot W) : M W (result (option string)) :=
  match ss_SnapClient s with
  | None => mret (Err (Errorf "snapshot client is not initilized to perform snapshot operations" []))
  | Some client =>
      let* ip := getVolumeIP (ss_VolumeName s) (ss_Namespace s) in
      match ip with
      | Err err => mret (Err (Wrapf err "failed to get CStor volumeIP" []))
      | OK ipAddr =>
          let* r := snap_CreateSnapshot client ipAddr (ss_VolumeName s) (ss_SnapshotName s) in
          mret (wrap_result r "failed to create snapshot: %s for volume: %s"
                  [ss_SnapshotName s; ss_VolumeName s])
      end
  end.

Definition DeleteSnapshot (s : Snapshot W) : M W (result (option string)) :=
  match ss_SnapClient s with
  | None => mret (Err (Errorf "snapshot client is not initilized to perform snapshot operations" []))
  | Some client =>
      let* ip := getVolumeIP (ss_VolumeName s) (ss_Namespace s) in
      match ip with
      | Err err => mret (Err (Wrapf err "failed to get CStor volumeIP" []))
      | OK ipAddr =>
          let* r := snap_DestroySnapshot client ipAddr (ss_VolumeName s) (ss_SnapshotName s) in
          mret (wrap_result r "failed to delete snapshot: %s for volume: %s"
                  [ss_SnapshotName s; ss_VolumeName s])
      end
  end.
End snapshot.

(** ** The service that the client calls

    A client and a server on one world: the address is the one of the target, and the error of
    the server is the error of the call. *)
Section connected.
Context {W : Type} `{!Target W} `{CommandJson} (address : string).

Definition serve (m : M W (string * option error)) (w : W) : result (option string) * W :=
  match m w with
  | (Ret (status, None), w') => (OK (Some status), w')
  | (Ret (_, Some err), w') => (Err err, w')
  | (Panic why, w') => (Err (Errorf why []), w')
  end.
Definition connected_service : SnapService W := {|
  grpc_Dial addr _ := if bool_decide (addr = address) then None else Some (Errorf "no such host" [addr]);
  rpc_VolumeSnapCreate _ req := serve (VolumeRpc.RunVolumeSnapCreateCommand req);
  rpc_VolumeSnapDelete _ req := serve (VolumeRpc.RunVolumeSnapDeleteCommand req);
|}.
End connected.
