(* ===== verification/HttpServer.v ===== *)
(** * HttpServer: the REST server of the volume configuration operator
      (pkg/server/config.go, pkg/server/cstorvolumeconfig/https.go and server.go)

    The addresses the server binds to, the decoding of requests, the wrapper that turns the
    result of a handler into a response, and the shutdown.  Sockets and the codecs of JSON and
    YAML are not part of this repository: a request is a record, [Codec] decodes a body and
    [Encoder] encodes an answer. *)

From stdpp Require Import base gmap strings list sets pretty.
From Stdlib Require Import Ascii ZArith Lia.
From coqutil Require Import Datatypes.RecordSetters.
From S2P Require Import Prelude Api PoolApi Snapshot.
Import DoubleBraceUpdate.

(** ** Addresses (config.go) *)

Record Addresses := { addr_HTTP : string }.
Record Config := {
  cfg_Region : string;
  cfg_LogLevel : string;
  cfg_BindAddr : string;
  cfg_Port : option Z;
  cfg_Addresses : option Addresses;
  cfg_NormalizedAddrs : option Addresses;
  cfg_LeaveOnTerm : bool;
  cfg_HTTPAPIResponseHeaders : gmap string string;
}.

Definition DefaultServerConfig : Config :=
  {| cfg_Region := "global"; cfg_LogLevel := "INFO"; cfg_BindAddr := "127.0.0.1"; cfg_Port := None;
     cfg_Addresses := Some {| addr_HTTP := "" |}; cfg_NormalizedAddrs := None;
     cfg_LeaveOnTerm := true; cfg_HTTPAPIResponseHeaders := ∅ |}.

Definition normalizeBind (addr bind : string) : string :=
  if bool_decide (addr = "") then bind else addr.

(** The configuration is changed in place; [Addresses] is a pointer. *)
Definition NormalizeAddrs (c : Config) : outcome (result Config) :=
  match cfg_Port c with
  | None => Ret (Err (Errorf "Can not normaize address empty port provided" []))
  | Some port =>
      match cfg_Addresses c with
      | None => Panic "nil pointer dereference"
      | Some a =>
          let http := normalizeBind (addr_HTTP a) (cfg_BindAddr c) in
          Ret (OK (c {{ cfg_Addresses := Some {| addr_HTTP := http |} }}
                     {{ cfg_NormalizedAddrs := Some {| addr_HTTP := net_JoinHostPort http (pretty port) |} }}))
      end
  end.

(** The address that net.Listen is called with. *)
Definition Listener (c : Config) (proto addr : string) (port : Z) : result (string * string) :=
  let addr := if bool_decide (addr = "") then cfg_BindAddr c else addr in
  if (0 >? port)%Z || (port >? 65535)%Z then Err (Errorf "listen %s: invalid port %d" [proto; pretty port])
  else OK (proto, net_JoinHostPort addr (pretty port)).

(** ** Requests and responses (https.go) *)

Definition ErrInvalidMethod : string := "Invalid http method".

(** http.Request: the value of Content-Type, when there is a header; the values of each
    parameter of the query; the body, when it can be read. *)
Record Request := {
  req_Method : string;
  req_Path : string;
  req_Query : gmap string (list string);
  req_ContentType : option string;
  req_Body : result string;
}.
(** url.Values.Get *)
Definition query_Get (req : Request) (k : string) : string :=
  match req_Query req !! k with Some (v :: _) => v | _ => "" end.

(** The error of a handler, with the code of an HTTPCodedError. *)
Record http_error := { he_Code : option Z; he_Error : error }.
Definition CodedError (c : Z) (msg : error) : http_error := {| he_Code := Some c; he_Error := msg |}.
Definition plain_error (e : error) : http_error := {| he_Code := None; he_Error := e |}.
Definition CodedErrorWrapf (code : Z) (err : error) (msg : string) (args : list string) : http_error :=
  CodedError code (Wrapf err msg args).
Definition CodedErrorWrap (code : Z) (err : error) : http_error := CodedError code err.
Definition CodedErrorf (code : Z) (msg : string) (args : list string) : http_error :=
  CodedError code (Errorf msg args).

Definition getContentType (req : Request) : result string :=
  match req_ContentType req with
  | None => Err (Errorf "Request does not have any header" [])
  | Some t => OK t
  end.

Class Codec (A : Type) := {
  json_Decode : string → result A;
  yaml_Unmarshal : string → result A;
}.
Definition decodeJsonBody {A} `{Codec A} (req : Request) : result A :=
  match req_Body req with Err err => Err err | OK b => json_Decode b end.
Definition decodeYamlBody {A} `{Codec A} (req : Request) : result A :=
  match req_Body req with Err err => Err err | OK b => yaml_Unmarshal b end.
Definition decodeBody {A} `{Codec A} (req : Request) : result A :=
  match getContentType req with
  | Err err => Err err
  | OK cType => if strings_Contains cType "yaml" then decodeYamlBody req else decodeJsonBody req
  end.

(** corev1.ISCSIPersistentVolumeSource, for the fields that are set, and the objects that the
    handlers return to be encoded; a handler that wrote its response itself returns none. *)
Record ISCSIPersistentVolumeSource := { TargetPortal : string; IQN : string; ReadOnly : bool }.
Inductive answer := AnswerText (s : string) | AnswerISCSI (src : ISCSIPersistentVolumeSource).
Class Encoder := { codec_Encode : bool → answer → result string }.

(** What a handler leaves: bytes it wrote, and an object or an error. *)
Record reply := { rp_Written : string; rp_Result : option answer + http_error }.
Definition answered (a : answer) : reply := {| rp_Written := ""; rp_Result := inl (Some a) |}.
Definition wrote (s : string) : reply := {| rp_Written := s; rp_Result := inl None |}.
Definition failed (e : http_error) : reply := {| rp_Written := ""; rp_Result := inr e |}.

(** The response: the code, the headers and the body, which is the text of an error or bytes.  The
    first write sets the code to 200. *)
Inductive body := ErrorText (e : error) | Bytes (s : string).
Record Response := { rs_Code : Z; rs_Headers : gmap string string; rs_Body : body }.

(** http.CanonicalHeaderKey *)
Class HeaderKeys := { CanonicalHeaderKey : string → string }.

Section wrap.
Context `{HeaderKeys} `{Encoder} `{GoRuntime}.

Definition setHeaders (headers : gmap string string) : gmap string string :=
  foldl (λ m '(field, value), <[CanonicalHeaderKey field := value]> m) ∅
    (go_range "setHeaders" headers).

Definition prettyPrint (req : Request) : bool :=
  match req_Query req !! "pretty" with
  | Some (v :: _) => bool_decide (String.length v = 0) || negb (bool_decide (v = "0"))
  | _ => false
  end.

Definition error_response (headers : gmap string string) (e : http_error) : Response :=
  {| rs_Code := default 500%Z (he_Code e); rs_Headers := headers; rs_Body := ErrorText (he_Error e) |}.

Definition wrap {W} (headers : gmap string string) (handler : Request → M W reply) (req : Request)
  : M W Response :=
  let headers := setHeaders headers in
  let* r := handler req in
  match rp_Result r with
  | inr e => mret (error_response headers e)
  | inl None => mret {| rs_Code := 200; rs_Headers := headers; rs_Body := Bytes (rp_Written r) |}
  | inl (Some obj) =>
      match codec_Encode (prettyPrint req) obj with
      | Err err => mret (error_response headers (plain_error err))
      | OK buf =>
          let buf := if prettyPrint req then buf +:+ String (Ascii.ascii_of_nat 10) "" else buf in
          mret {| rs_Code := 200; rs_Headers := <["Content-Type" := "application/json"]> headers;
                  rs_Body := Bytes (rp_Written r +:+ buf) |}
      end
  end.
End wrap.

(** ** The server (server.go) *)

Record CVCServer := { cs_config : option Config; cs_shutdown : bool; cs_closed : nat }.
Definition NewCVCServer (config : option Config) : CVCServer :=
  {| cs_config := config; cs_shutdown := false; cs_closed := 0 |}.
(** [cs_closed] counts the closings of the channel: a second one would panic. *)
Definition CVCServer_Shutdown (cs : CVCServer) : outcome CVCServer :=
  if cs_shutdown cs then Ret cs
  else if bool_decide (cs_closed cs = 0) then
    Ret {| cs_config := cs_config cs; cs_shutdown := true; cs_closed := 1 |}
  else Panic "close of closed channel".
