(* ===== verification/BackupRest.v ===== *)
(** * BackupRest: the REST endpoint of backups
      (pkg/server/cstorvolumeconfig: backup_endpoint.go, interface.go, v1_backup.go,
       v1alpha1_backup.go, backup_restore_helper.go)

    A request creates a snapshot and a backup for a pool with a healthy replica, reports a backup
    (and settles one whose pool manager is down) or deletes a backup with its snapshot.  A backup
    is of version v1 or v1alpha1, after the version of its pool: the interface backupHelper is
    the sum of its two implementations. *)

From stdpp Require Import base gmap strings list sets pretty.
From Stdlib Require Import Ascii ZArith Lia.
From coqutil Require Import Datatypes.RecordSetters.
From S2P Require Import Prelude Api VolumeApi PoolApi BackupApi Snapshot Backup HttpServer.
Import DoubleBraceUpdate.

(** ** Whether the pool manager of a pool runs (backup_restore_helper.go) *)

Section helper.
Context {W : Type} `{OpenebsApi} `{!ResourceClient W Pod} `{!ResourceClient W Node}.

Definition getPoolManager (cspiName openebsNs : string) (w : W) : result Pod :=
  let selector := "app=cstor-pool" +:+ "," +:+ CStorPoolInstanceLabelKey +:+ "=" +:+ cspiName in
  if bool_decide (openebsNs = "") then Err (Errorf "Failed to fetch operator namespace" [])
  else
    match rList (Obj:=Pod) w openebsNs selector with
    | Err err => Err err
    | OK [pod] => OK pod
    | OK l => Err (Errorf "expected 1 pool manager but got %d pool managers" [pretty (length l)])
    end.

Definition checkIfPoolManagerNodeDown (cspiName namespace : string) (w : W) : bool :=
  if bool_decide (cspiName = "") then true
  else
    match getPoolManager cspiName namespace w with
    | Err _ => true
    | OK pod =>
        if bool_decide (pd_NodeName pod = "") then true
        else
          match rGet (Obj:=Node) w "" (pd_NodeName pod) with
          | Err _ => true
          | OK node =>
              existsb (λ c, bool_decide (c.1 = "Ready") && negb (bool_decide (c.2 = "True")))
                (node_Conditions node)
          end
    end.

Definition checkIfPoolManagerDown (cspiName namespace : string) (w : W) : bool :=
  if bool_decide (cspiName = "") then true
  else
    match getPoolManager cspiName namespace w with
    | Err _ => true
    | OK pod =>
        match first_such (λ c, bool_decide (c.1 = "cstor-pool-mgmt")) (pd_ContainerStatuses pod) with
        | Some (_, ready) => negb ready
        | None => true
        end
    end.
End helper.

(** ** The two versions of a backup *)

(** The interface backupHelper, with the backup of the wrapper. *)
Inductive backupHelper := V1Alpha1Backup (b : V1Alpha1CStorBackup) | V1Backup (b : CStorBackup).

Module v1BackupWrapper.
Section wrapper.
Context {W : Type} `{OpenebsApi} `{BackupApi}.
Context `{!ResourceClient W CStorBackup} `{!ResourceClient W CStorCompletedBackup}.
Context `{!ResourceClient W V1Alpha1CStorCompletedBackup}.
Implicit Type backup : CStorBackup.

Definition isBackupCompleted backup : bool := bkp_IsFailed backup || bkp_IsSucceeded backup.
Definition getCSPIName backup : string := label (labels backup) CStorPoolInstanceNameLabelKey.
Definition lastbkpname backup : string :=
  bs_BackupName (bkp_Spec backup) +:+ "-" +:+ bs_VolumeName (bkp_Spec backup).

Definition findLastBackupStat backup : M W string :=
  let* r := reads (λ w, rGet (Obj:=CStorCompletedBackup) w (namespace backup) (lastbkpname backup)) in
  match r with
  | Err _ => mret BKPCStorStatusFailed
  | OK lastbkp =>
      let snap := bs_SnapName (bkp_Spec backup) in
      if bool_decide (snap = cb_LastSnapName lastbkp) || bool_decide (snap = cb_SecondLastSnapName lastbkp)
      then mret BKPCStorStatusDone
      else mret BKPCStorStatusFailed
  end.

Definition updateBackupStatus backup (backupStatus : string) : M W CStorBackup :=
  let backup := bkp_with_status backupStatus backup in
  let* _ := call (rUpdate (namespace backup) backup) in
  mret backup.

(** A completed backup that is not found is the zero value: its last snapshot is empty. *)
Definition deleteCompletedBackup (name namespace snapName : string) : M W (option error) :=
  let* r := reads (λ w, rGet (Obj:=CStorCompletedBackup) w namespace name) in
  let delete (lastbkp : CStorCompletedBackup) : M W (option error) :=
    if bool_decide (cb_LastSnapName lastbkp = snapName) ||
       bool_decide (String.length (cb_LastSnapName lastbkp) = 0) then
      let* r := call (rDelete (Obj:=CStorCompletedBackup) namespace name) in
      match r with
      | Err err => mret (if IsNotFound err then None
                         else Some (Wrapf err "failed to delete last-completed-backup=%s resource" [name]))
      | OK _ => mret None
      end
    else mret None in
  match r with
  | Err err =>
      if IsNotFound err then delete cb_zero
      else mret (Some (Wrapf err "failed to fetch last-completed-backup=%s resource" [name]))
  | OK lastbkp => delete lastbkp
  end.

Definition deleteBackup (name namespace : string) : M W (option error) :=
  let* r := call (rDelete (Obj:=CStorBackup) namespace name) in
  match r with
  | Err err => mret (if IsNotFound err then None
                     else Some (Wrapf err "failed to delete cstorbackup: %s resource" [name]))
  | OK _ => mret None
  end.

Definition getOrCreateLastBackupSnap backup : M W (result string) :=
  let lastbkpName := lastbkpname backup in
  let* r := reads (λ w, rGet (Obj:=V1Alpha1CStorCompletedBackup) w (namespace backup) lastbkpName) in
  match r with
  | OK completedV1Alpha1Backup => mret (OK (bs_PrevSnapName (acb_Spec completedV1Alpha1Backup)))
  | Err err =>
      if negb (IsNotFound err) then
        mret (Err (Wrapf err "failed to get v1alpha1 completed backup %s" [lastbkpName]))
      else
        let* r := reads (λ w, rGet (Obj:=CStorCompletedBackup) w (namespace backup) lastbkpName) in
        match r with
        | OK completedBackup => mret (OK (cb_LastSnapName completedBackup))
        | Err err =>
            if IsNotFound err then
              let bk := {| cb_meta := new_meta lastbkpName (namespace backup) (labels backup);
                           cb_BackupName := bs_BackupName (bkp_Spec backup);
                           cb_VolumeName := bs_VolumeName (bkp_Spec backup);
                           cb_SecondLastSnapName := ""; cb_LastSnapName := "" |} in
              let* r := call (rCreate (namespace bk) bk) in
              mret (match r with Err err => Err err | OK _ => OK "" end)
            else mret (Err (Errorf "failed to get lastbkpName %s error: %s" [lastbkpName]))
        end
  end.

Definition setBackupStatus (status : string) backup : CStorBackup := bkp_with_status status backup.
Definition setLastSnapshotName (snapName : string) backup : CStorBackup :=
  backup {{ bkp_Spec ::= (λ s, s {{ bs_PrevSnapName := snapName }}) }}.

Definition createBackupResource backup : M W (option error) :=
  let* r := call (rCreate (namespace backup) backup) in
  mret (match r with Err err => Some (Wrapf err "failed to create backup %s" [name backup]) | OK _ => None end).
End wrapper.
End v1BackupWrapper.

Module v1Alpha1BackupWrapper.
Section wrapper.
Context {W : Type} `{OpenebsApi} `{BackupApi}.
Context `{!ResourceClient W V1Alpha1CStorBackup} `{!ResourceClient W CStorCompletedBackup}.
Context `{!ResourceClient W V1Alpha1CStorCompletedBackup}.
Implicit Type backup : V1Alpha1CStorBackup.

Definition isBackupFailed backup : bool := bool_decide (abkp_Status backup = ABKPCStorStatusFailed).
Definition isBackupSucceeded backup : bool := bool_decide (abkp_Status backup = ABKPCStorStatusDone).
Definition isBackupCompleted backup : bool := isBackupFailed backup || isBackupSucceeded backup.
Definition getCSPIName backup : string := label (labels backup) CStorPoolInstanceNameLabelKey.
Definition lastbkpname backup : string :=
  bs_BackupName (abkp_Spec backup) +:+ "-" +:+ bs_VolumeName (abkp_Spec backup).

Definition findLastBackupStat backup : M W string :=
  let* r := reads (λ w, rGet (Obj:=V1Alpha1CStorCompletedBackup) w (namespace backup) (lastbkpname backup)) in
  match r with
  | Err _ => mret ABKPCStorStatusFailed
  | OK lastbkp =>
      let snap := bs_SnapName (abkp_Spec backup) in
      if bool_decide (snap = bs_SnapName (acb_Spec lastbkp)) ||
         bool_decide (snap = bs_PrevSnapName (acb_Spec lastbkp))
      then mret ABKPCStorStatusDone
      else mret ABKPCStorStatusFailed
  end.

Definition abkp_with_status (s : string) backup : V1Alpha1CStorBackup := backup {{ abkp_Status := s }}.
Definition updateBackupStatus backup (backupStatus : string) : M W V1Alpha1CStorBackup :=
  let backup := abkp_with_status backupStatus backup in
  let* _ := call (rUpdate (namespace backup) backup) in
  mret backup.

Definition deleteCompletedBackup (name namespace snapName : string) : M W (option error) :=
  let* r := reads (λ w, rGet (Obj:=V1Alpha1CStorCompletedBackup) w namespace name) in
  let delete (lastbkp : V1Alpha1CStorCompletedBackup) : M W (option error) :=
    if bool_decide (bs_PrevSnapName (acb_Spec lastbkp) = snapName) ||
       bool_decide (String.length (bs_PrevSnapName (acb_Spec lastbkp)) = 0) then
      let* r := call (rDelete (Obj:=V1Alpha1CStorCompletedBackup) namespace name) in
      match r with
      | Err err => mret (if IsNotFound err then None
                         else Some (Wrapf err "failed to delete last-completed-backup=%s resource" [name]))
      | OK _ => mret None
      end
    else mret None in
  match r with
  | Err err =>
      if IsNotFound err then delete acb_zero
      else mret (Some (Wrapf err "failed to fetch last-completed-backup=%s resource" [name]))
  | OK lastbkp => delete lastbkp
  end.

Definition deleteBackup (name namespace : string) : M W (option error) :=
  let* r := call (rDelete (Obj:=V1Alpha1CStorBackup) namespace name) in
  match r with
  | Err err => mret (if IsNotFound err then None
                     else Some (Wrapf err "failed to delete cstorbackup: %s resource" [name]))
  | OK _ => mret None
  end.

Definition getOrCreateLastBackupSnap backup : M W (result string) :=
  let lastbkpName := lastbkpname backup in
  let* r := reads (λ w, rGet (Obj:=CStorCompletedBackup) w (namespace backup) lastbkpName) in
  match r with
  | OK completedBackup => mret (OK (cb_LastSnapName completedBackup))
  | Err err =>
      if negb (IsNotFound err) then
        mret (Err (Wrapf err "failed to get v1 completed backup %s" [lastbkpName]))
      else
        let* r := reads (λ w, rGet (Obj:=V1Alpha1CStorCompletedBackup) w (namespace backup) lastbkpName) in
        match r with
        | OK b => mret (OK (bs_PrevSnapName (acb_Spec b)))
        | Err err =>
            if IsNotFound err then
              let bk := {| acb_meta := new_meta lastbkpName (namespace backup) (labels backup);
                           acb_Spec := backup_spec_zero
                             {{ bs_BackupName := bs_BackupName (abkp_Spec backup) }}
                             {{ bs_VolumeName := bs_VolumeName (abkp_Spec backup) }} |} in
              let* r := call (rCreate (namespace bk) bk) in
              mret (match r with Err err => Err err | OK _ => OK "" end)
            else mret (Err (Errorf "failed to get lastbkpName %s error: %s" [lastbkpName]))
        end
  end.

Definition setBackupStatus (status : string) backup : V1Alpha1CStorBackup := abkp_with_status status backup.
Definition setLastSnapshotName (snapName : string) backup : V1Alpha1CStorBackup :=
  backup {{ abkp_Spec ::= (λ s, s {{ bs_PrevSnapName := snapName }}) }}.

Definition createBackupResource backup : M W (option error) :=
  let* r := call (rCreate (namespace backup) backup) in
  mret (match r with Err err => Some (Wrapf err "failed to create backup %s" [name backup]) | OK _ => None end).
End wrapper.
End v1Alpha1BackupWrapper.

(** ** The methods of the interface *)

Section interface.
Context {W : Type} `{OpenebsApi} `{BackupApi}.
Context `{!ResourceClient W CStorBackup} `{!ResourceClient W CStorCompletedBackup}.
Context `{!ResourceClient W V1Alpha1CStorBackup} `{!ResourceClient W V1Alpha1CStorCompletedBackup}.

Definition isBackupCompleted (h : backupHelper) : bool :=
  match h with
  | V1Alpha1Backup b => v1Alpha1BackupWrapper.isBackupCompleted b
  | V1Backup b => v1BackupWrapper.isBackupCompleted b
  end.
Definition getCSPIName (h : backupHelper) : string :=
  match h with
  | V1Alpha1Backup b => v1Alpha1BackupWrapper.getCSPIName b
  | V1Backup b => v1BackupWrapper.getCSPIName b
  end.
Definition findLastBackupStat (h : backupHelper) : M W string :=
  match h with
  | V1Alpha1Backup b => v1Alpha1BackupWrapper.findLastBackupStat b
  | V1Backup b => v1BackupWrapper.findLastBackupStat b
  end.
Definition updateBackupStatus (h : backupHelper) (status : string) : M W backupHelper :=
  match h with
  | V1Alpha1Backup b => let* b := v1Alpha1BackupWrapper.updateBackupStatus b status in mret (V1Alpha1Backup b)
  | V1Backup b => let* b := v1BackupWrapper.updateBackupStatus b status in mret (V1Backup b)
  end.
Definition deleteCompletedBackup (h : backupHelper) (name namespace snapName : string) : M W (option error) :=
  match h with
  | V1Alpha1Backup _ => v1Alpha1BackupWrapper.deleteCompletedBackup name namespace snapName
  | V1Backup _ => v1BackupWrapper.deleteCompletedBackup name namespace snapName
  end.
Definition helper_deleteBackup (h : backupHelper) (name namespace : string) : M W (option error) :=
  match h with
  | V1Alpha1Backup _ => v1Alpha1BackupWrapper.deleteBackup name namespace
  | V1Backup _ => v1BackupWrapper.deleteBackup name namespace
  end.
Definition getOrCreateLastBackupSnap (h : backupHelper) : M W (result string) :=
  match h with
  | V1Alpha1Backup b => v1Alpha1BackupWrapper.getOrCreateLastBackupSnap b
  | V1Backup b => v1BackupWrapper.getOrCreateLastBackupSnap b
  end.
Definition setBackupStatus (status : string) (h : backupHelper) : backupHelper :=
  match h with
  | V1Alpha1Backup b => V1Alpha1Backup (v1Alpha1BackupWrapper.setBackupStatus status b)
  | V1Backup b => V1Backup (v1BackupWrapper.setBackupStatus status b)
  end.
Definition setLastSnapshotName (snapName : string) (h : backupHelper) : backupHelper :=
  match h with
  | V1Alpha1Backup b => V1Alpha1Backup (v1Alpha1BackupWrapper.setLastSnapshotName snapName b)
  | V1Backup b => V1Backup (v1BackupWrapper.setLastSnapshotName snapName b)
  end.
Definition createBackupResource (h : backupHelper) : M W (option error) :=
  match h with
  | V1Alpha1Backup b => v1Alpha1BackupWrapper.createBackupResource b
  | V1Backup b => v1BackupWrapper.createBackupResource b
  end.
End interface.

(** ** The endpoint (backup_endpoint.go) *)

Definition blank (s : string) : bool := bool_decide (String.length (TrimSpace s) = 0).
Definition strings_TrimPrefix (s p : string) : string :=
  if prefix_of p s then String.substring (String.length p) (String.length s - String.length p) s else s.

Definition backupCreateRequestValidations (backup : CStorBackup) : option http_error :=
  let spec := bkp_Spec backup in
  if blank (bs_BackupName spec) then
    Some (CodedError 400 (Errorf "Failed to create backup: missing backup name " []))
  else if blank (namespace backup) then
    Some (CodedError 400 (Errorf "Failed to create backup '%v': missing namespace" [bs_BackupName spec]))
  else if blank (bs_VolumeName spec) then
    Some (CodedError 400 (Errorf "Failed to create backup '%v': missing volume name" [bs_BackupName spec]))
  else if negb (bs_LocalSnap spec) && blank (bs_BackupDest spec) then
    Some (CodedError 400 (Errorf "Failed to create backup '%v': missing backupIP" [bs_BackupName spec]))
  else if blank (bs_SnapName spec) then
    Some (CodedError 400 (Errorf "Failed to create backup '%v': missing snapName" [bs_BackupName spec]))
  else None.

Definition getV1Alpha1BackupFromV1 (backup : CStorBackup) : V1Alpha1CStorBackup :=
  let s := bkp_Spec backup in
  {| abkp_meta := bkp_meta backup;
     abkp_Spec := {| bs_BackupName := bs_BackupName s; bs_VolumeName := bs_VolumeName s;
                     bs_SnapName := bs_SnapName s; bs_PrevSnapName := bs_PrevSnapName s;
                     bs_BackupDest := bs_BackupDest s; bs_LocalSnap := bs_LocalSnap s |};
     abkp_Status := bkp_Status backup |}.

(** The first version of pools with backups of version v1; when 2.2.0 cannot be parsed the
    program ends while it starts. *)
Definition below_minV1SupportedVersion `{BackupApi} (v : go_version) : bool :=
  match version_NewVersion "2.2.0" with
  | OK minV1SupportedVersion => version_LessThan v minV1SupportedVersion
  | Err _ => false
  end.
(** The version before the first dash; a pool without a version or with a development version
    has none. *)
Definition parse_pool_version `{BackupApi} (poolVersion : string) : result go_version :=
  match split_on "-"%char poolVersion with
  | v :: _ => version_NewVersion v
  | [] => Err (Errorf "Malformed version: %s" [poolVersion])
  end.

Section endpoint.
Context {W : Type} `{OpenebsApi} `{VolumeApi} `{PoolApi} `{BackupApi}.
Context `{!ResourceClient W CStorBackup} `{!ResourceClient W CStorCompletedBackup}.
Context `{!ResourceClient W V1Alpha1CStorBackup} `{!ResourceClient W V1Alpha1CStorCompletedBackup}.
Context `{!ResourceClient W CStorVolumeReplica} `{!ResourceClient W CStorPoolInstance}.
Context `{!ResourceClient W CStorVolume} `{!ResourceClient W Pod} `{!ResourceClient W Node}.
Context `{!Codec CStorBackup}.
(** The snapshotter of the server, encoding/json on a backup, and http.ResponseWriter.Write *)
Context (snapshotter : option (Snapshotter W)) (json_Marshal_backup : backupHelper → result string).
Context (resp_Write : string → option error).

(** The namespace of the operator, from its environment. *)
Definition getOpenEBSNamespace : string := util_GetEnv OpenEBSNamespace.

Definition findHealthyCVR (volume namespace : string) (w : W) : result CStorVolumeReplica :=
  match rList (Obj:=CStorVolumeReplica) w namespace (PersistentVolumeLabelKey +:+ "=" +:+ volume) with
  | Err err => Err err
  | OK cvrList =>
      match first_such (λ cvr, bool_decide (cvr_Phase cvr = CVRStatusOnline)) cvrList with
      | Some cvr => OK cvr
      | None => Err (Errorf "unable to find healthy CVR" [])
      end
  end.

Definition getPoolVersion (cspiName cspiNamespace : string) (w : W) : result string :=
  match rGet (Obj:=CStorPoolInstance) w cspiNamespace cspiName with
  | Err err => Err err
  | OK cspi => OK (Current (vd_Status (cspi_VersionDetails cspi)))
  end.

Definition getBackupInterface (backupName backupNamespace : string) (w : W) : result (option backupHelper) :=
  match rGet (Obj:=V1Alpha1CStorBackup) w backupNamespace backupName with
  | OK backupObj => OK (Some (V1Alpha1Backup backupObj))
  | Err err =>
      if IsNotFound err then
        match rGet (Obj:=CStorBackup) w backupNamespace backupName with
        | OK backupObj => OK (Some (V1Backup backupObj))
        | Err err =>
            if IsNotFound err then OK None
            else Err (Wrapf err "failed to fetch %s backup v1 version also" [backupName])
        end
      else Err (Wrapf err "failed to fetch %s backup" [backupName])
  end.

Definition getBackupInterfaceFromPoolVersion (poolVersion : string) (backup : CStorBackup)
  : result backupHelper :=
  match parse_pool_version poolVersion with
  | Err err =>
      if negb (bool_decide (TrimSpace poolVersion = "")) && negb (strings_Contains poolVersion "dev") then
        Err (Wrapf err "failed to parse %q pool version" [poolVersion])
      else OK (V1Backup backup)
  | OK currentVersion =>
      if below_minV1SupportedVersion currentVersion
      then OK (V1Alpha1Backup (getV1Alpha1BackupFromV1 backup))
      else OK (V1Backup backup)
  end.

Definition snapshot_of (volume snap : string) : Snapshot W :=
  {| ss_VolumeName := volume; ss_SnapshotName := snap; ss_Namespace := getOpenEBSNamespace;
     ss_SnapClient := snapshotter |}.

(** The labels of a backup: those of the replica that is backed up. *)
Definition backup_labels (backup : CStorBackup) (cvr : CStorVolumeReplica) : gmap string string :=
  <["openebs.io/backup" := bs_BackupName (bkp_Spec backup)]>
  (<[PersistentVolumeLabelKey := label (labels cvr) PersistentVolumeLabelKey]>
  (<[CStorPoolInstanceNameLabelKey := label (labels cvr) CStorPoolInstanceNameLabelKey]>
  (<[CStorPoolInstanceUIDLabelKey := label (labels cvr) CStorPoolInstanceUIDLabelKey]> ∅))).

(** The part of create for a remote backup, after the snapshot. *)
Definition create_remote (backup : CStorBackup) : M W reply :=
  let volume := bs_VolumeName (bkp_Spec backup) in
  let backup := set_name (bs_SnapName (bkp_Spec backup) +:+ "-" +:+ volume) backup in
  let* r := reads (findHealthyCVR volume getOpenEBSNamespace) in
  match r with
  | Err _ => mret (failed (CodedError 400 (Errorf "Failed to find healthy replica for volume %s" [volume])))
  | OK cvr =>
      let poolName := label (labels cvr) CStorPoolInstanceNameLabelKey in
      let backup := set_labels (backup_labels backup cvr) backup in
      let* r := reads (getPoolVersion poolName getOpenEBSNamespace) in
      match r with
      | Err err => mret (failed (CodedError 400 (Wrapf err "failed to get %s pool version error: %v" [poolName])))
      | OK poolVersion =>
          match getBackupInterfaceFromPoolVersion poolVersion backup with
          | Err err => mret (failed (CodedError 400 (Wrapf err "failed to get backupInterface error: %v" [])))
          | OK backupInterface =>
              let* r := getOrCreateLastBackupSnap backupInterface in
              match r with
              | Err err => mret (failed (CodedError 400
                  (Wrapf err "Failed get or create lastCompleted backup error: %v" [])))
              | OK lastSnapName =>
                  let backupInterface := setBackupStatus ABKPCStorStatusPending backupInterface in
                  let backupInterface := setLastSnapshotName lastSnapName backupInterface in
                  let* err := createBackupResource backupInterface in
                  match err with
                  | Some err => mret (failed (CodedError 500 err))
                  | None => mret (answered (AnswerText ""))
                  end
              end
          end
      end
  end.

Definition backup_create (req : Request) : M W reply :=
  match decodeBody (A:=CStorBackup) req with
  | Err err => mret (failed (plain_error err))
  | OK backup =>
      match backupCreateRequestValidations backup with
      | Some e => mret (failed e)
      | None =>
          let* r := CreateSnapshot (snapshot_of (bs_VolumeName (bkp_Spec backup)) (bs_SnapName (bkp_Spec backup))) in
          match r with
          | Err err => mret (failed (CodedError 400 (Wrapf err "Failed to create snapshot '%v'" [])))
          | OK _ =>
              if bs_LocalSnap (bkp_Spec backup) then mret (answered (AnswerText ""))
              else create_remote backup
          end
      end
  end.

(** A backup whose pool manager is down is settled from the completed backup. *)
Definition settle_stalled (h : backupHelper) : M W backupHelper :=
  if negb (isBackupCompleted h) then
    let cspiName := getCSPIName h in
    let* backupNodeDown := reads (checkIfPoolManagerNodeDown cspiName getOpenEBSNamespace) in
    let* backupPodDown := reads (checkIfPoolManagerDown cspiName getOpenEBSNamespace) in
    if backupNodeDown || backupPodDown then
      let* laststat := findLastBackupStat h in
      updateBackupStatus h laststat
    else mret h
  else mret h.

(** A backup that does not exist is a nil interface: the call of its method panics. *)
Definition backup_get (req : Request) : M W reply :=
  match decodeBody (A:=CStorBackup) req with
  | Err err => mret (failed (plain_error err))
  | OK backup =>
      let spec := bkp_Spec backup in
      if blank (bs_BackupName spec) then
        mret (failed (CodedError 400 (Errorf "Failed to get backup: missing backup name " [])))
      else if blank (namespace backup) then
        mret (failed (CodedError 400 (Errorf "Failed to get backup '%v': missing namespace" [bs_BackupName spec])))
      else if blank (bs_VolumeName spec) then
        mret (failed (CodedError 400 (Errorf "Failed to get backup '%v': missing volume name" [bs_BackupName spec])))
      else
        let* r := reads (getBackupInterface (bs_SnapName spec +:+ "-" +:+ bs_VolumeName spec) (namespace backup)) in
        match r with
        | Err err => mret (failed (CodedError 400 (Wrapf err "failed to get backup interface error: %v" [])))
        | OK None => panic "nil pointer dereference"
        | OK (Some h) =>
            let* h := settle_stalled h in
            match json_Marshal_backup h with
            | Err _ => mret (failed (CodedError 400 (Errorf "Failed to encode response data" [])))
            | OK out =>
                match resp_Write out with
                | Some _ => mret (failed (CodedError 400 (Errorf "Failed to send response data" [])))
                | None => mret (wrote out)
                end
            end
        end
  end.

Definition deleteBackup (snapName volname ns schedule : string) : M W (option error) :=
  let lastCompletedBackup := schedule +:+ "-" +:+ volname in
  let cstorBackupName := snapName +:+ "-" +:+ volname in
  let* r := reads (getBackupInterface cstorBackupName ns) in
  match r with
  | Err err => mret (Some (Wrapf err "failed to get backup interface" []))
  | OK None => mret None
  | OK (Some h) =>
      let* err := deleteCompletedBackup h lastCompletedBackup ns snapName in
      match err with
      | Some err => mret (Some (Wrapf err "failed to delete lastCompletedBackup %s" [lastCompletedBackup]))
      | None =>
          let* r := DeleteSnapshot (snapshot_of volname snapName) in
          match r with
          | Err err => mret (Some (Wrapf err "snapshot deletion failed" []))
          | OK _ =>
              let* err := helper_deleteBackup h cstorBackupName ns in
              mret (match err with
                    | Some err => Some (Wrapf err "failed to delete cstorbackup: %s resource" [cstorBackupName])
                    | None => None
                    end)
          end
      end
  end.

Definition backup_delete (req : Request) : M W reply :=
  let backup := TrimSpace (strings_TrimPrefix (req_Path req) "/latest/backups/") in
  let volname := query_Get req "volume" in
  let namespace := query_Get req "namespace" in
  let scheduleName := query_Get req "schedule" in
  if existsb (λ s, bool_decide (String.length s = 0)) [backup; volname; namespace; scheduleName] then
    mret (failed (CodedError 405 (Errorf "failed to delete backup: Insufficient info -- required values volume_name, backup_name, namespace, schedule_name" [])))
  else
    let* err := deleteBackup backup volname namespace scheduleName in
    match err with
    | Some err =>
        mret (failed (CodedError 500
          (Wrapf err "Error deleting backup=%s for volume=%s with namesace=%s and schedule=%s..  error=%s"
             [backup; volname; namespace; scheduleName])))
    | None => mret (answered (AnswerText ""))
    end.

Definition backupV1alpha1SpecificRequest (req : Request) : M W reply :=
  if bool_decide (req_Method req = "POST") then backup_create req
  else if bool_decide (req_Method req = "GET") then backup_get req
  else if bool_decide (req_Method req = "DELETE") then backup_delete req
  else mret (failed (CodedError 405 (Errorf ErrInvalidMethod []))).
End endpoint.
