(* ===== verification/RestoreRest.v ===== *)
(** * RestoreRest: the REST endpoint of restores
      (pkg/server/cstorvolumeconfig: restore_endpoint.go, v1alpha1_restore.go)

    A request prepares the volume of a restore and creates a restore for each replica of the
    volume, or reports the state of the restores of a volume. *)

From stdpp Require Import base gmap strings list sets pretty.
From Stdlib Require Import Ascii ZArith Lia.
From coqutil Require Import Datatypes.RecordSetters.
From S2P Require Import Prelude Api Version VolumeApi PoolApi BackupApi Backup HttpServer BackupRest.
Import DoubleBraceUpdate.

(** s[:i] *)
Definition string_prefix (i : nat) (s : string) : string := String.substring 0 i s.

Definition policy_spec_zero : CStorVolumePolicySpec :=
  {| pol_ReplicaAffinity := false;
     pol_Target := {| tgt_QueueDepth := ""; tgt_IOWorkers := 0; tgt_Resources := None;
       tgt_AuxResources := None; tgt_Tolerations := []; tgt_PodAffinity := None;
       tgt_NodeSelector := ∅; tgt_PriorityClassName := "" |};
     pol_Replica_IOWorkers := ""; pol_ReplicaPoolInfo := [] |}.

(** ** Validations and conversions *)

Definition validateCreateRestoreRequest `{VolumeApi} (restore : CStorRestore) : option error :=
  let s := rst_Spec restore in
  if negb (rsp_Local s) && blank (namespace restore) then
    Some (Errorf "failed to create restore '%v': missing namespace" [name restore])
  else if blank (rsp_RestoreName s) then Some (Errorf "failed to create restore: missing restore name" [])
  else if blank (rsp_VolumeName s) then
    Some (Errorf "failed to create restore '%v': missing volume name" [name restore])
  else if blank (rsp_RestoreSrc s) then
    Some (Errorf "failed to create restore '%v': missing restoreSrc" [name restore])
  else if rsp_Local s && blank (rsp_StorageClass s) then
    Some (Errorf "failed to create restore '%v': missing storageClass" [name restore])
  else if rsp_Local s && blank (Quantity_String (rsp_Size s)) then
    Some (Errorf "failed to create restore '%v': missing size" [name restore])
  else None.

Definition validateStorageClassParameters (scObj : StorageClass) : option error :=
  if bool_decide (sc_Parameters scObj !! "cstorPoolCluster" = None) then
    Some (Errorf "storageclass %s doesn't have cstorPoolCluster details" [name scObj])
  else
    match sc_Parameters scObj !! "replicaCount" with
    | None => Some (Errorf "storageclass %s doesn't have replica count" [name scObj])
    | Some count =>
        match Atoi_error count with
        | Some err => Some (Wrapf err "failed to convert replica count %s into integer" [count])
        | None => None
        end
    end.

Definition getV1Alpha1RestoreFromV1 (restore : CStorRestore) : V1Alpha1CStorRestore :=
  let s := rst_Spec restore in
  {| arst_meta := rst_meta restore;
     arst_Spec := {| rsp_RestoreName := rsp_RestoreName s; rsp_VolumeName := rsp_VolumeName s;
       rsp_RestoreSrc := rsp_RestoreSrc s; rsp_MaxRetryCount := rsp_MaxRetryCount s;
       rsp_RetryCount := rsp_RetryCount s; rsp_StorageClass := rsp_StorageClass s;
       rsp_Size := rsp_Size s; rsp_Local := rsp_Local s |};
     arst_Status := rst_Status restore |}.

(** The labels of the restore of a replica. *)
Definition restore_labels `{OpenebsApi} `{VolumeApi} `{BackupApi} (restoreName : string)
  (cvr : CStorVolumeReplica) : gmap string string :=
  <["openebs.io/restore" := restoreName]>
  (<[PersistentVolumeLabelKey := label (labels cvr) PersistentVolumeLabelKey]>
  (<[CStorPoolInstanceUIDLabelKey := label (labels cvr) CStorPoolInstanceUIDLabelKey]>
  (<[CStorPoolInstanceNameLabelKey := label (labels cvr) CStorPoolInstanceNameLabelKey]> ∅))).

Section endpoint.
Context {W : Type} `{OpenebsApi} `{VolumeApi} `{PoolApi} `{BackupApi} `{BuildInfo}.
Context `{!ResourceClient W CStorRestore} `{!ResourceClient W V1Alpha1CStorRestore}.
Context `{!ResourceClient W CStorVolumeReplica} `{!ResourceClient W CStorPoolInstance}.
Context `{!ResourceClient W CStorVolume} `{!ResourceClient W CStorVolumeConfig}.
Context `{!ResourceClient W StorageClass} `{!ResourceClient W Pod} `{!ResourceClient W Node}.
Context `{!Clock W} `{!Uuid W} `{!Codec CStorRestore}.
(** encoding/json on a status, and http.ResponseWriter.Write *)
Context (json_Marshal_status : string → result string) (resp_Write : string → option error).

(** ** The volume of a restore *)

(** For a local restore only. *)
Definition buildCStorVolumeConfig (scObj : StorageClass) (restoreObj : CStorRestore) : CStorVolumeConfig :=
  let params := sc_Parameters scObj in
  let s := rst_Spec restoreObj in
  {| cvc_meta :=
       {| om_name := rsp_VolumeName s; om_namespace := getOpenEBSNamespace; om_uid := "";
          om_resourceVersion := "";
          om_labels := <["openebs.io/source-volume" := rsp_RestoreSrc s]>
                       (<[CStorPoolClusterLabelKey := label params "cstorPoolCluster"]> ∅);
          om_annotations := <["openebs.io/volume-policy" := label params "cstorVolumePolicy"]>
                            (<["openebs.io/volumeID" := rsp_VolumeName s]> ∅);
          om_finalizers := ["cvc.openebs.io/finalizer"]; om_owners := []; om_deletion := None |};
     cvc_Capacity := rsp_Size s;
     cvc_CStorVolumeRef := None;
     cvc_CStorVolumeSource := rsp_RestoreSrc s +:+ "@" +:+ rsp_RestoreName s;
     cvc_Provision_Capacity := rsp_Size s;
     cvc_Provision_ReplicaCount := Atoi (label params "replicaCount");
     cvc_Policy := policy_spec_zero;
     cvc_Publish_NodeID := "";
     cvc_Status_Phase := CStorVolumeConfigPhasePending;
     cvc_Status_PoolInfo := [];
     cvc_Status_Capacity := 0;
     cvc_Status_Conditions := [];
     cvc_VersionDetails :=
       {| AutoUpgrade := false; Desired := current_version;
          vd_Status := {| DependentsUpgraded := false; Current := current_version;
                          State := VersionStateNone; Message := ""; Reason := "" |} |} |}.

(** The attempts of waitForCVCBoundState: a configuration that is not found has no phase. *)
Fixpoint bound_attempts (cvcName namespace : string) (left : nat) : M W (option error) :=
  match left with
  | 0 => mret (Some (Errorf "CVC %s in namespace %s is not in Bound status" [cvcName; namespace]))
  | S left' =>
      let* r := reads (λ w, rGet (Obj:=CStorVolumeConfig) w namespace cvcName) in
      match r with
      | Err err =>
          if negb (IsNotFound err) then mret (Some err)
          else if bool_decide ("" = CStorVolumeConfigPhaseBound) then mret None
          else let* _ := sleep 2 in bound_attempts cvcName namespace left'
      | OK cvcObj =>
          if bool_decide (cvc_Status_Phase cvcObj = CStorVolumeConfigPhaseBound) then mret None
          else let* _ := sleep 2 in bound_attempts cvcName namespace left'
      end
  end.
Definition waitForCVCBoundState (cvcName namespace : string) : M W (option error) :=
  bound_attempts cvcName namespace 5.

Definition createVolumeForRestore (restoreObj : CStorRestore) : M W (option error) :=
  let s := rst_Spec restoreObj in
  let wait := waitForCVCBoundState (rsp_VolumeName s) getOpenEBSNamespace in
  if rsp_Local s then
    let* r := reads (λ w, rGet (Obj:=StorageClass) w "" (rsp_StorageClass s)) in
    match r with
    | Err err => mret (Some (Wrapf err "failed to get storageclass %s" [rsp_StorageClass s]))
    | OK scObj =>
        match validateStorageClassParameters scObj with
        | Some err => mret (Some (Wrapf err "Storageclass parametes validation failed" []))
        | None =>
            let cvcObj := buildCStorVolumeConfig scObj restoreObj in
            let* r := call (rCreate getOpenEBSNamespace cvcObj) in
            match r with
            | Err err =>
                if negb (IsAlreadyExists err) then
                  mret (Some (Wrapf err "failed to create CVC %s object" [name cvcObj]))
                else wait
            | OK _ => wait
            end
        end
    end
  else wait.

Definition getISCSIPersistentVolumeSource (volumeName namespace : string) : M W reply :=
  let* r := reads (λ w, rGet (Obj:=CStorVolume) w namespace volumeName) in
  match r with
  | Err err => mret (failed (plain_error err))
  | OK cvObj =>
      mret (answered (AnswerISCSI {| TargetPortal := cv_TargetPortal cvObj; IQN := cv_Iqn cvObj; ReadOnly := false |}))
  end.

(** ** The restores of the replicas *)

(** The restore object is changed in place: the object after the call, and the error. *)
Definition buildAndCreateV1Alpha1Restore (restoreObj : V1Alpha1CStorRestore) (cvr : CStorVolumeReplica)
  : M W (V1Alpha1CStorRestore * option error) :=
  let* uuid := call uuid_NewUUID in
  let restoreObj := set_name (rsp_RestoreName (arst_Spec restoreObj) +:+ "-" +:+ uuid) restoreObj in
  let* r := reads (λ w, rGet (Obj:=V1Alpha1CStorRestore) w (namespace restoreObj) (name restoreObj)) in
  match r with
  | OK _ => mret (restoreObj, None)
  | Err _ =>
      let restoreObj := restoreObj {{ arst_Status := ARSTCStorStatusPending }} in
      let restoreObj := set_labels (restore_labels (rsp_RestoreName (arst_Spec restoreObj)) cvr) restoreObj in
      let* r := call (rCreate (namespace restoreObj) restoreObj) in
      mret (restoreObj, match r with Err err => Some err | OK _ => None end)
  end.

Definition buildAndCreateV1Restore (restoreObj : CStorRestore) (cvr : CStorVolumeReplica)
  : M W (CStorRestore * option error) :=
  let* uuid := call uuid_NewUUID in
  let restoreObj := set_name (rsp_RestoreName (rst_Spec restoreObj) +:+ "-" +:+ uuid) restoreObj in
  let* r := reads (λ w, rGet (Obj:=CStorRestore) w (namespace restoreObj) (name restoreObj)) in
  match r with
  | OK _ => mret (restoreObj, None)
  | Err _ =>
      let restoreObj := rst_with_status RSTCStorStatusPending restoreObj in
      let restoreObj := set_labels (restore_labels (rsp_RestoreName (rst_Spec restoreObj)) cvr) restoreObj in
      let* r := call (rCreate (namespace restoreObj) restoreObj) in
      mret (restoreObj, match r with Err err => Some err | OK _ => None end)
  end.

(** The versions of the pools of the replicas: none for a development version. *)
Fixpoint pool_versions (cspiToCVRMap : gset string) (cspis : list CStorPoolInstance)
  (poolVersionMap : gmap string (option go_version)) : gmap string (option go_version) + http_error :=
  match cspis with
  | [] => inl poolVersionMap
  | cspi :: cspis' =>
      let cspiVersion := Current (vd_Status (cspi_VersionDetails cspi)) in
      if negb (has cspiToCVRMap (name cspi)) then pool_versions cspiToCVRMap cspis' poolVersionMap
      else
        match parse_pool_version cspiVersion with
        | Err err =>
            if negb (bool_decide (cspiVersion = "")) && negb (strings_Contains cspiVersion "dev") then
              inr (CodedError 500 (Wrapf err "failed to parse pool(%s) version %s error: %v" [name cspi; cspiVersion]))
            else pool_versions cspiToCVRMap cspis' (<[name cspi := None]> poolVersionMap)
        | OK poolVersion => pool_versions cspiToCVRMap cspis' (<[name cspi := Some poolVersion]> poolVersionMap)
        end
  end.

Fixpoint create_restores (poolVersionMap : gmap string (option go_version))
  (restoreObj : CStorRestore) (v1Alpha1RestoreObj : V1Alpha1CStorRestore)
  (cvrs : list CStorVolumeReplica) : M W (option http_error) :=
  match cvrs with
  | [] => mret None
  | cvr :: cvrs' =>
      let cspiName := label (labels cvr) CStorPoolInstanceNameLabelKey in
      let poolVersion := default None (poolVersionMap !! cspiName) in
      let fail (err : error) := CodedError 500
        (Wrapf err "failed to create restore for %s error: %v" [rsp_VolumeName (rst_Spec restoreObj)]) in
      match poolVersion with
      | Some v =>
          if below_minV1SupportedVersion v then
            let* (v1Alpha1RestoreObj, err) := buildAndCreateV1Alpha1Restore v1Alpha1RestoreObj cvr in
            match err with
            | Some err => mret (Some (fail err))
            | None => create_restores poolVersionMap restoreObj v1Alpha1RestoreObj cvrs'
            end
          else
            let* (restoreObj, err) := buildAndCreateV1Restore restoreObj cvr in
            match err with
            | Some err => mret (Some (fail err))
            | None => create_restores poolVersionMap restoreObj v1Alpha1RestoreObj cvrs'
            end
      | None =>
          let* (restoreObj, err) := buildAndCreateV1Restore restoreObj cvr in
          match err with
          | Some err => mret (Some (fail err))
          | None => create_restores poolVersionMap restoreObj v1Alpha1RestoreObj cvrs'
          end
      end
  end.

(** The name of the cluster is the name of the pool up to its last dash; a name without a dash
    is out of range. *)
Definition cluster_of_pool (cspiName : string) : outcome string :=
  match last_index_byte "-"%char cspiName with
  | Some i => Ret (string_prefix i cspiName)
  | None => Panic "slice bounds out of range"
  end.

Definition createRestore (restoreObj : CStorRestore) : M W reply :=
  let volume := rsp_VolumeName (rst_Spec restoreObj) in
  let* r := reads (λ w, rList (Obj:=CStorVolumeReplica) w "" (PersistentVolumeLabelKey +:+ "=" +:+ volume)) in
  match r with
  | Err err => mret (failed (CodedError 500 err))
  | OK [] => mret (failed (CodedError 500 (Errorf "CVRs doesn't exist for volume %s" [volume])))
  | OK (cvr0 :: cvrs) =>
      let cvrList := cvr0 :: cvrs in
      let* cspcName := lift (λ _, cluster_of_pool (label (labels cvr0) CStorPoolInstanceNameLabelKey)) in
      let* r := reads (λ w, rList (Obj:=CStorPoolInstance) w "" (CStorPoolClusterLabelKey +:+ "=" +:+ cspcName)) in
      match r with
      | Err err => mret (failed (CodedError 500 (Wrapf err "failed to list CSPIs of CSPC %s error: %v" [cspcName])))
      | OK cspiList =>
          let cspiToCVRMap : gset string :=
            list_to_set ((λ cvr, label (labels cvr) CStorPoolInstanceNameLabelKey) <$> cvrList) in
          match pool_versions cspiToCVRMap cspiList ∅ with
          | inr e => mret (failed e)
          | inl poolVersionMap =>
              let* e := create_restores poolVersionMap restoreObj (getV1Alpha1RestoreFromV1 restoreObj) cvrList in
              match e with
              | Some e => mret (failed e)
              | None => getISCSIPersistentVolumeSource volume getOpenEBSNamespace
              end
          end
      end
  end.

Definition restore_create (req : Request) : M W reply :=
  match decodeBody (A:=CStorRestore) req with
  | Err err => mret (failed (plain_error err))
  | OK restore =>
      match validateCreateRestoreRequest restore with
      | Some err => mret (failed (CodedError 400 (Wrapf err "restore create validation failed error: {%s}" [])))
      | None =>
          let* err := createVolumeForRestore restore in
          match err with
          | Some err => mret (failed (CodedError 400 (Wrapf err "Failed to create resources for volume: {%v}" [])))
          | None =>
              if rsp_Local (rst_Spec restore)
              then getISCSIPersistentVolumeSource (rsp_VolumeName (rst_Spec restore)) getOpenEBSNamespace
              else createRestore restore
          end
      end
  end.

(** ** The state of the restores of a volume *)

Definition isPoolManagerDown (poolName namespace : string) (w : W) : bool :=
  checkIfPoolManagerNodeDown poolName namespace w || checkIfPoolManagerDown poolName namespace w.

(** The loop over the restores: the status of each one replaces the one before; one that is in
    progress ends the loop. *)
Fixpoint getCStorRestoreStatus (rstStatus : string) (restores : list CStorRestore) : M W string :=
  match restores with
  | [] => mret rstStatus
  | restore :: restores' =>
      let st := rst_Status restore in
      let* isPoolDown :=
        if negb (bool_decide (st = RSTCStorStatusDone)) && negb (bool_decide (st = RSTCStorStatusFailed))
        then reads (isPoolManagerDown (label (labels restore) CStorPoolInstanceNameLabelKey) getOpenEBSNamespace)
        else mret false in
      let rstStatus := if isPoolDown : bool then RSTCStorStatusFailed else st in
      let* rstStatus :=
        if bool_decide (rstStatus = RSTCStorStatusInProgress) then mret RSTCStorStatusInProgress
        else if bool_decide (rstStatus = RSTCStorStatusFailed) || bool_decide (rstStatus = RSTCStorStatusInvalid) then
          if negb (bool_decide (st = rstStatus)) then
            let* _ := call (rUpdate (namespace restore) (rst_with_status rstStatus restore)) in
            mret RSTCStorStatusFailed
          else mret rstStatus
        else mret rstStatus in
      if bool_decide (rstStatus = RSTCStorStatusInProgress) then mret rstStatus
      else getCStorRestoreStatus rstStatus restores'
  end.

Fixpoint getV1Alpha1CStorRestoreStatus (rstStatus : string) (restores : list V1Alpha1CStorRestore) : M W string :=
  match restores with
  | [] => mret rstStatus
  | restore :: restores' =>
      let st := arst_Status restore in
      let* isPoolDown :=
        if negb (bool_decide (st = ARSTCStorStatusDone)) && negb (bool_decide (st = ARSTCStorStatusFailed))
        then reads (isPoolManagerDown (label (labels restore) CStorPoolInstanceNameLabelKey) getOpenEBSNamespace)
        else mret false in
      let rstStatus := if isPoolDown : bool then ARSTCStorStatusFailed else st in
      let* rstStatus :=
        if bool_decide (rstStatus = ARSTCStorStatusInProgress) then mret ARSTCStorStatusInProgress
        else if bool_decide (rstStatus = ARSTCStorStatusFailed) || bool_decide (rstStatus = ARSTCStorStatusInvalid) then
          if negb (bool_decide (st = rstStatus)) then
            let* _ := call (rUpdate (namespace restore) (restore {{ arst_Status := rstStatus }})) in
            mret ARSTCStorStatusFailed
          else mret rstStatus
        else mret rstStatus in
      if bool_decide (rstStatus = ARSTCStorStatusInProgress) then mret rstStatus
      else getV1Alpha1CStorRestoreStatus rstStatus restores'
  end.

(** A list that is not found is empty. *)
Definition list_or_not_found {A} (r : result (list A)) : result (list A) :=
  match r with
  | OK l => OK l
  | Err err => if IsNotFound err then OK [] else Err err
  end.

Definition getRestoreStatus (rst : CStorRestore) : M W (result string) :=
  let selector := "openebs.io/restore=" +:+ rsp_RestoreName (rst_Spec rst) +:+ "," +:+
    PersistentVolumeLabelKey +:+ "=" +:+ rsp_VolumeName (rst_Spec rst) in
  let* r := reads (λ w, list_or_not_found (rList (Obj:=V1Alpha1CStorRestore) w (namespace rst) selector)) in
  match r with
  | Err err => mret (Err (Wrapf err "Failed to fetch restore error:%v" []))
  | OK v1Alpha1RestoreList =>
      let* r := reads (λ w, list_or_not_found (rList (Obj:=CStorRestore) w (namespace rst) selector)) in
      match r with
      | Err err => mret (Err (Wrapf err "Failed to fetch restore error:%v" []))
      | OK v1RestoreList =>
          let* rstStatus :=
            if negb (bool_decide (v1Alpha1RestoreList = []))
            then getV1Alpha1CStorRestoreStatus ARSTCStorStatusEmpty v1Alpha1RestoreList
            else mret RSTCStorStatusEmpty in
          if negb (bool_decide (v1Alpha1RestoreList = [])) && bool_decide (rstStatus = RSTCStorStatusInProgress)
          then mret (OK rstStatus)
          else
            let* rstStatus :=
              if negb (bool_decide (v1RestoreList = []))
              then getCStorRestoreStatus RSTCStorStatusEmpty v1RestoreList
              else mret rstStatus in
            mret (OK rstStatus)
      end
  end.

Definition restore_get (req : Request) : M W reply :=
  match decodeBody (A:=CStorRestore) req with
  | Err err => mret (failed (plain_error err))
  | OK rst =>
      let s := rst_Spec rst in
      if blank (rsp_RestoreName s) then
        mret (failed (CodedError 400 (Errorf "Failed to get restore: missing restore name " [])))
      else if blank (namespace rst) then
        mret (failed (CodedError 400 (Errorf "Failed to get restore '%v': missing namespace" [rsp_RestoreName s])))
      else if blank (rsp_VolumeName s) then
        mret (failed (CodedError 400 (Errorf "Failed to get restore '%v': missing volume name" [rsp_RestoreName s])))
      else
        let* r := getRestoreStatus rst in
        match r with
        | Err err => mret (failed (CodedError 400 (Wrapf err "Failed to fetch status '%v'" [])))
        | OK rstatus =>
            match json_Marshal_status rstatus with
            | Err _ => mret (failed (CodedError 400 (Errorf "Failed to encode response data" [])))
            | OK resp =>
                match resp_Write resp with
                | Some _ => mret (failed (CodedError 400 (Errorf "Failed to send response data" [])))
                | None => mret (wrote resp)
                end
            end
        end
  end.

Definition restoreV1alpha1SpecificRequest (req : Request) : M W reply :=
  if bool_decide (req_Method req = "POST") then restore_create req
  else if bool_decide (req_Method req = "GET") then restore_get req
  else mret (failed (CodedError 405 (Errorf ErrInvalidMethod []))).
End endpoint.
