(* ===== verification/Controllers.v ===== *)
(** * Controllers: how the controllers are put together
      (controller.go and controller_base.go of pkg/controllers, the chains of cmd/cspc-operator/app/start.go
      and cstorvolumeconfig/start.go)

    The two builders of the operators and the constructors of the other controllers store their
    clients, the listers and the sync functions of shared informers, a named queue and a recorder,
    and register their handlers.  An informer is known by the kind of its objects, a recorder by its
    component.  The facts: what the controllers that the programs start are complete in, and that
    each waits for the cache of the objects whose events it handles. *)

From stdpp Require Import base gmap strings list sets.
From Stdlib Require Import ZArith Lia.
From coqutil Require Import Datatypes.RecordSetters.
From S2P Require Import Prelude Api VolumeApi Zcmd PoolApi BackupApi VolumeReplica PoolManager Backup Restore.
Import DoubleBraceUpdate.

(** The kinds that informers watch. *)
Inductive kind := CSPCKind | CSPIKind | CVCKind | CVKind | CVRKind | BackupKind | RestoreKind.
#[export] Instance kind_eq : EqDecision kind.
Proof. solve_decision. Defined.

(** corev1.EventSource *)
Record event_source := { Component : string; Host : string }.

Section builders.
(** kubernetes.Interface and the clientset of openebs *)
Context {Kube Clientset : Type}.

(** ** Pool clusters (cspc-controller/controller.go) *)

(** A lister, a sync function or the registered handlers are those of the informer of a kind; the
    handlers of the controller, [syncCSPC] and [enqueue], are set or not. *)
Record Controller := {
  kubeclientset : option Kube;
  clientset : option Clientset;
  cspcLister : option kind;
  cspiLister : option kind;
  cspcSynced : option kind;
  cspiSynced : option kind;
  workqueue : option string;
  recorder : option event_source;
  syncHandler_set : bool;
  enqueueCSPC_set : bool;
  handled : list kind;
}.
Definition NewControllerBuilder : Controller :=
  {| kubeclientset := None; clientset := None; cspcLister := None; cspiLister := None; cspcSynced := None;
     cspiSynced := None; workqueue := None; recorder := None; syncHandler_set := false;
     enqueueCSPC_set := false; handled := [] |}.
Definition WithKubeClient (ks : Kube) (cb : Controller) : Controller := cb {{ kubeclientset := Some ks }}.
Definition WithOpenEBSClient (cs : Clientset) (cb : Controller) : Controller := cb {{ clientset := Some cs }}.
Definition WithCSPCLister (cb : Controller) : Controller := cb {{ cspcLister := Some CSPCKind }}.
Definition WithCSPILister (cb : Controller) : Controller := cb {{ cspiLister := Some CSPIKind }}.
Definition WithCSPCSynced (cb : Controller) : Controller := cb {{ cspcSynced := Some CSPCKind }}.
(** It sets the function of clusters. *)
Definition WithCSPISynced (cb : Controller) : Controller := cb {{ cspcSynced := Some CSPIKind }}.
Definition WithWorkqueueRateLimiting (cb : Controller) : Controller := cb {{ workqueue := Some "CSPC" }}.
Definition controllerAgentName : string := "cspc-controller".
Definition WithRecorder (_ : Kube) (cb : Controller) : Controller :=
  cb {{ recorder := Some {| Component := controllerAgentName; Host := "" |} }}.
Definition WithEventHandler (cb : Controller) : Controller := cb {{ handled := handled cb ++ [CSPCKind] }}.
Definition withDefaults (cb : Controller) : Controller :=
  cb {{ syncHandler_set := true }} {{ enqueueCSPC_set := true }}.
(** Build, with the error of openebsScheme.AddToScheme. *)
Definition Build (AddToScheme : option error) (cb : Controller) : result Controller :=
  let cb := withDefaults cb in
  match AddToScheme with Some err => Err err | None => OK cb end.

(** The chain of Start in cmd/cspc-operator/app/start.go. *)
Definition cluster_controller (AddToScheme : option error) (kubeClient : Kube) (openebsClient : Clientset)
  : result Controller :=
  match Build AddToScheme
          (WithWorkqueueRateLimiting (WithEventHandler (WithRecorder kubeClient (WithCSPCLister
            (WithCSPCSynced (WithOpenEBSClient openebsClient (WithKubeClient kubeClient NewControllerBuilder))))))) with
  | Err err => Err (Wrapf err "error building controller instance" [])
  | OK c => OK c
  end.

(** ** Volume configurations (cstorvolumeconfig/controller_base.go) *)

Record CVCController := {
  cvc_kubeclientset : option Kube;
  cvc_clientset : option Clientset;
  cvcLister : option kind;
  cvLister : option kind;
  cvrLister : option kind;
  cvrSynced : option kind;
  cvcSynced : option kind;
  cvcStore : bool;
  cvc_workqueue : option string;
  cvc_recorder : option event_source;
  cvc_handled : list kind;
}.
Definition NewCVCControllerBuilder : CVCController :=
  {| cvc_kubeclientset := None; cvc_clientset := None; cvcLister := None; cvLister := None; cvrLister := None;
     cvrSynced := None; cvcSynced := None; cvcStore := false; cvc_workqueue := None; cvc_recorder := None;
     cvc_handled := [] |}.
Definition withKubeClient (ks : Kube) (cb : CVCController) : CVCController := cb {{ cvc_kubeclientset := Some ks }}.
Definition withOpenEBSClient (cs : Clientset) (cb : CVCController) : CVCController := cb {{ cvc_clientset := Some cs }}.
Definition withCVCLister (cb : CVCController) : CVCController := cb {{ cvcLister := Some CVCKind }}.
Definition withCVLister (cb : CVCController) : CVCController := cb {{ cvLister := Some CVKind }}.
Definition withCVRLister (cb : CVCController) : CVCController := cb {{ cvrLister := Some CVRKind }}.
Definition withCVRInformerSync (cb : CVCController) : CVCController := cb {{ cvrSynced := Some CVRKind }}.
Definition withCVCStore (cb : CVCController) : CVCController := cb {{ cvcStore := true }}.
Definition withCVCSynced (cb : CVCController) : CVCController := cb {{ cvcSynced := Some CVCKind }}.
Definition withWorkqueueRateLimiting (cb : CVCController) : CVCController := cb {{ cvc_workqueue := Some "CVC" }}.
Definition cvc_controllerAgentName : string := "cstorvolumeclaim-controller".
Definition withRecorder (_ : Kube) (cb : CVCController) : CVCController :=
  cb {{ cvc_recorder := Some {| Component := cvc_controllerAgentName; Host := "" |} }}.
Definition withEventHandler (cb : CVCController) : CVCController := cb {{ cvc_handled := cvc_handled cb ++ [CVCKind] }}.
Definition CVC_Build (AddToScheme : option error) (cb : CVCController) : result CVCController :=
  match AddToScheme with Some err => Err err | None => OK cb end.

(** The chain of Start in cstorvolumeconfig/start.go. *)
Definition config_controller (AddToScheme : option error) (kubeClient : Kube) (openebsClient : Clientset)
  : result CVCController :=
  match CVC_Build AddToScheme
          (withWorkqueueRateLimiting (withEventHandler (withRecorder kubeClient (withCVCStore (withCVRInformerSync
            (withCVRLister (withCVLister (withCVCLister (withCVCSynced
              (withOpenEBSClient openebsClient (withKubeClient kubeClient NewCVCControllerBuilder))))))))))) with
  | Err err => Err (Wrapf err "error building controller instance" [])
  | OK c => OK c
  end.

(** ** The other controllers: the fields of the five types *)

Record controller := {
  co_kubeclientset : Kube;
  co_clientset : Clientset;
  co_synced : kind;
  co_workqueue : string;
  co_recorder : event_source;
  co_handled : kind;
  (** only the controller of pool instances has an executor of zfs commands *)
  co_zcmdExecutor : bool;
}.
Definition controller_of (k : kind) (executor : bool) (queue : string) (source : event_source) (ks : Kube) (cs : Clientset) : controller :=
  {| co_kubeclientset := ks; co_clientset := cs; co_synced := k; co_workqueue := queue; co_recorder := source;
     co_handled := k; co_zcmdExecutor := executor |}.
Definition poolControllerName : string := "CStorPoolInstance".
Definition replicaControllerName : string := "CStorVolumeReplica".
Definition backupControllerName : string := "CStorBackup".
Definition restoreControllerName : string := "CStorRestore".

(** A nil controller when the scheme is refused. *)
Definition NewCStorPoolInstanceController (ks : Kube) (cs : Clientset) (AddToScheme : option error) : option controller :=
  match AddToScheme with
  | Some _ => None
  | None => Some (controller_of CSPIKind true poolControllerName {| Component := poolControllerName; Host := "" |} ks cs)
  end.
(** The error is logged. *)
Definition NewCStorVolumeReplicaController (ks : Kube) (cs : Clientset) (_ : option error) : option controller :=
  Some (controller_of CVRKind false "CStorVolumeReplica" {| Component := replicaControllerName; Host := "" |} ks cs).
(** The error is not looked at. *)
Definition NewCStorVolumeController `{PodEnv} (ks : Kube) (cs : Clientset) (_ : option error) : option controller :=
  Some (controller_of CVKind false "CStorVolume" {| Component := os_Getenv "POD_NAME"; Host := os_Getenv "NODE_NAME" |} ks cs).

(** klog.Fatalf ends the process; [clean] is the clean-up of the objects of the last run, before
    the handlers are registered. *)
Definition built_after {W} (clean : M W unit) (k : kind) (n : string) (ks : Kube) (cs : Clientset) (AddToScheme : option error)
  : M W controller :=
  match AddToScheme with
  | Some _ => panic "Error adding scheme to openebs scheme: %s"
  | None =>
      let c := controller_of k false n {| Component := n; Host := "" |} ks cs in
      let* _ := clean in mret c
  end.
Definition NewCStorBackupController {W} `{BackupApi} `{PoolApi} `{PodEnv} `{!Runner W} `{!Clock W} `{!Env W}
  `{!ResourceClient W CStorBackup} `{!ResourceClient W CStorCompletedBackup}
  `{!ResourceClient W V1Alpha1CStorCompletedBackup} : Kube → Clientset → option error → M W controller :=
  built_after BackupController.cleanupOldBackup BackupKind backupControllerName.
Definition NewCStorRestoreController {W} `{BackupApi} `{PoolApi} `{PodEnv} `{!Runner W} `{!Clock W} `{!Env W}
  `{!ResourceClient W CStorRestore} : Kube → Clientset → option error → M W controller :=
  built_after RestoreController.cleanupOldRestore RestoreKind restoreControllerName.

(** ** What is started is complete *)

Definition cluster_complete (c : Controller) : Prop :=
  is_Some (kubeclientset c) ∧ is_Some (clientset c) ∧ is_Some (workqueue c) ∧ is_Some (recorder c) ∧
  syncHandler_set c = true ∧ enqueueCSPC_set c = true.

(** The operator of clusters: the handlers of the one kind that it lists, and whose cache Run waits
    for; pool instances have no informer. *)
Lemma cluster_controller_ok ks cs err :
  match cluster_controller err ks cs with
  | OK c => err = None ∧ cluster_complete c ∧ kubeclientset c = Some ks ∧ clientset c = Some cs ∧
      handled c = [CSPCKind] ∧ cspcLister c = Some CSPCKind ∧ cspcSynced c = Some CSPCKind ∧
      cspiLister c = None ∧ cspiSynced c = None
  | Err _ => err ≠ None
  end.
Proof. destruct err; [done|]. split_and!; try done; by eexists. Qed.

(** With the sync function of pool instances the controller waits for their cache instead of the
    one of the clusters. *)
Lemma WithCSPISynced_overwrites cb :
  cspcSynced (WithCSPISynced (WithCSPCSynced cb)) = Some CSPIKind ∧
  cspiSynced (WithCSPISynced cb) = cspiSynced cb.
Proof. by split. Qed.

Lemma config_controller_ok ks cs err :
  match config_controller err ks cs with
  | OK c => err = None ∧ cvc_kubeclientset c = Some ks ∧ cvc_clientset c = Some cs ∧ cvc_workqueue c = Some "CVC" ∧
      is_Some (cvc_recorder c) ∧ cvc_handled c = [CVCKind] ∧ cvcLister c = Some CVCKind ∧
      cvcSynced c = Some CVCKind ∧ cvrSynced c = Some CVRKind ∧ cvcStore c = true
  | Err _ => err ≠ None
  end.
Proof. destruct err; [done|]. split_and!; try done; by eexists. Qed.

(** The controllers of the pool manager and of the volume manager wait for what they handle, and
    only a refused scheme leaves the one of pool instances nil; backups and restores are cleaned up
    before their handlers can run. *)
Lemma constructed `{PodEnv} ks cs err c :
  NewCStorPoolInstanceController ks cs err = Some c ∨ NewCStorVolumeReplicaController ks cs err = Some c ∨
    NewCStorVolumeController ks cs err = Some c →
  co_synced c = co_handled c ∧ co_kubeclientset c = ks ∧ co_clientset c = cs.
Proof. intros [Hc|[Hc|Hc]]; destruct err; try done; by injection Hc as <-. Qed.
Lemma cleaned_first {W} (clean : M W unit) k n ks cs err (w : W) c w' :
  built_after clean k n ks cs err w = (Ret c, w') →
  err = None ∧ clean w = (Ret tt, w') ∧ co_synced c = k ∧ co_handled c = k.
Proof.
  unfold built_after. destruct err; [done|]. intros ([] & w1 & Hc & Hr)%M_bind_Ret. by injection Hr as <- <-.
Qed.
End builders.

(** ** Signals (pkg/signals) *)

(** The goroutine of SetupSignalHandler: it waits for the first signal, closes the stop channel,
    waits for the second one and exits with code 1; the channel keeps two signals, so none of the
    two is lost. *)
Inductive signal_state := Listening | Stopping | Exited (code : Z).
Definition SetupSignalHandler : signal_state := Listening.
Definition on_signal (s : signal_state) : signal_state :=
  match s with Listening => Stopping | Stopping => Exited 1 | Exited c => Exited c end.
Definition stop_closed (s : signal_state) : bool := match s with Listening => false | _ => true end.

Lemma signals_received n :
  let s := Nat.iter n on_signal SetupSignalHandler in
  stop_closed s = bool_decide (1 ≤ n) ∧ (s = Exited 1 ↔ 2 ≤ n).
Proof.
  destruct n as [|[|n]]; [by split; [|split; [|lia]]..|].
  assert (Nat.iter (S (S n)) on_signal SetupSignalHandler = Exited 1) as ->.
  { induction n as [|n IH]; [done|]. change (on_signal (Nat.iter (S (S n)) on_signal SetupSignalHandler) = Exited 1).
    by rewrite IH. }
  split; [done|]. split; [lia|done].
Qed.
