(* ===== verification/Workers.v ===== *)
(** * Workers: events and work queues of the controllers
      (controller.go and runner.go of pkg/controllers, cstorvolumeconfig/controller_base.go)

    The informers call the handlers of a controller for each event; a handler puts a key on the
    work queue, and a worker takes one item after the other and calls the reconciliation.  The
    queue of client-go is the class [WorkQueue]; the worker loop is the same in all controllers
    up to the type of its items and to what it does with a failed one. *)

From stdpp Require Import base gmap strings list sets pretty.
From Stdlib Require Import Ascii ZArith Lia.
From S2P Require Import Prelude Api VolumeApi Version Algorithm Zcmd PoolApi BackupApi VolumeReplica PoolManager VolumeSync CspcCleanup CspcSync CspiSync ReplicaSync TargetApi VolumeMgmt Backup Restore.

(** An item is an interface value: a key, a load of one of two packages, or something else. *)
Inductive work_item :=
| WKey (key : string)
| WLoad (q : ReplicaSync.QueueLoad)
| WVolumeLoad (q : VolumeMgmt.QueueLoad)
| WOther (n : nat).

(** workqueue.RateLimitingInterface; [wq_Get] returns no item when the queue is shut down. *)
Class WorkQueue (W : Type) := {
  wq_Get : W → option work_item * W;
  wq_Done : work_item → W → W;
  wq_Forget : work_item → W → W;
  wq_Add : work_item → W → W;
  wq_AddRateLimited : work_item → W → W;
}.

Section queue.
Context {W : Type} `{!WorkQueue W}.

Definition forget (i : work_item) : M W unit := λ w, (Ret tt, wq_Forget i w).
Definition add (i : work_item) : M W unit := λ w, (Ret tt, wq_Add i w).
Definition add_rate_limited (i : work_item) : M W unit := λ w, (Ret tt, wq_AddRateLimited i w).

(** [defer c.workqueue.Done(obj)]: also when the function panics. *)
Definition with_done {A} (obj : work_item) (m : M W A) : M W A :=
  λ w, let '(r, w') := m w in (r, wq_Done obj w').

(** The function of processNextWorkItem, for the items of a type [A] and a handler; a failed item
    is put back with [requeue]. *)
Definition process_item {A} (accept : work_item → option A) (requeue : bool)
  (handler : A → M W (option error)) (obj : work_item) : M W (option error) :=
  with_done obj
    match accept obj with
    | None => let* _ := forget obj in mret None
    | Some a =>
        let* err := handler a in
        match err with
        | Some err =>
            let* _ := if requeue then add_rate_limited obj else mret tt in
            mret (Some (Wrapf err "error syncing '%s': %s" []))
        | None => let* _ := forget obj in mret None
        end
    end.
Definition process_next {A} (accept : work_item → option A) (requeue : bool)
  (handler : A → M W (option error)) : M W bool :=
  let* obj := call wq_Get in
  match obj with
  | None => mret false
  | Some obj => let* _ := process_item accept requeue handler obj in mret true
  end.

(** runWorker, for at most [n] items. *)
Fixpoint run_worker (next : M W bool) (n : nat) : M W unit :=
  match n with
  | 0 => mret tt
  | S n' => let* more := next in if more : bool then run_worker next n' else mret tt
  end.

Definition accept_key (i : work_item) : option string := match i with WKey k => Some k | _ => None end.
Definition accept_load (i : work_item) : option ReplicaSync.QueueLoad :=
  match i with WLoad q => Some q | _ => None end.
Definition accept_volume_load (i : work_item) : option VolumeMgmt.QueueLoad :=
  match i with WVolumeLoad q => Some q | _ => None end.
Definition error_of (r : result unit) : option error := match r with OK _ => None | Err err => Some err end.

(** The load of an informer handler goes on the queue, rate limited in the pool manager. *)
Definition enqueue_load (load : option ReplicaSync.QueueLoad) : M W unit :=
  match load with None => mret tt | Some q => add_rate_limited (WLoad q) end.
End queue.

(** What an informer passes to a handler of deletions: the object, a tombstone with the last
    known object, or something else. *)
Inductive deleted (Obj : Type) := Deleted (o : Obj) | Tombstone (o : option Obj) | NotAnObject.
Arguments Deleted {Obj}.
Arguments Tombstone {Obj}.
Arguments NotAnObject {Obj}.
Definition last_known {Obj} (d : deleted Obj) : option Obj :=
  match d with Deleted o => Some o | Tombstone o => o | NotAnObject => None end.

Module BackupWorker.
Section worker.
Context {W : Type} `{BackupApi} `{PoolApi} `{PodEnv} `{!Runner W} `{!Clock W} `{!Env W} `{!WorkQueue W}.
Context `{!ResourceClient W CStorBackup} `{!ResourceClient W CStorCompletedBackup}.
Context `{!ResourceClient W V1Alpha1CStorCompletedBackup}.
Definition processNextWorkItem : M W bool :=
  process_next accept_load false
    (λ q, BackupController.syncHandler (ReplicaSync.Key q) (ReplicaSync.Operation q)).
Definition runWorker (n : nat) : M W unit := run_worker processNextWorkItem n.
End worker.
End BackupWorker.

Module RestoreWorker.
Section worker.
Context {W : Type} `{BackupApi} `{PoolApi} `{PodEnv} `{!Runner W} `{!Clock W} `{!Env W} `{!WorkQueue W}.
Context `{!ResourceClient W CStorRestore}.
Definition processNextWorkItem : M W bool :=
  process_next accept_load false
    (λ q, RestoreController.syncHandler (ReplicaSync.Key q) (ReplicaSync.Operation q)).
Definition runWorker (n : nat) : M W unit := run_worker processNextWorkItem n.
End worker.
End RestoreWorker.

(** ** Pool instances *)

Module PoolInstanceWorker.
Section worker.
Context {W : Type} `{OpenebsApi} `{VolumeApi} `{PoolApi} `{PodEnv} `{GoRuntime} `{ZJson} `{BuildInfo}.
Context `{!Shell W} `{!Runner W} `{!Env W} `{!Process W} `{!WorkQueue W}.
Context `{!ResourceClient W CStorPoolInstance} `{!ResourceClient W BlockDevice}
  `{!ResourceClient W BlockDeviceClaim}.
Context (oc : option executor).

(** The load has the key and the empty operation. *)
Definition enqueueCStorPoolInstance (obj : CStorPoolInstance) : M W unit :=
  match cache_MetaNamespaceKeyFunc (cspi_meta obj) with
  | Err _ => mret tt
  | OK key => add (WLoad {| ReplicaSync.Key := key; ReplicaSync.Operation := ReplicaSync.QOpOther "" |})
  end.
Definition AddFunc (cspi : CStorPoolInstance) : M W unit :=
  if negb (IsRightCStorPoolInstanceMgmt cspi) then mret tt else enqueueCStorPoolInstance cspi.
Definition UpdateFunc (_ cspi : CStorPoolInstance) : M W unit :=
  if negb (IsRightCStorPoolInstanceMgmt cspi) then mret tt else enqueueCStorPoolInstance cspi.
(** A tombstone is not handled. *)
Definition DeleteFunc (obj : deleted CStorPoolInstance) : M W unit :=
  match obj with
  | Deleted cspi => if negb (IsRightCStorPoolInstanceMgmt cspi) then mret tt else enqueueCStorPoolInstance cspi
  | _ => mret tt
  end.

Definition processNextWorkItem : M W bool :=
  process_next accept_load false (λ q, reconcile oc (ReplicaSync.Key q)).
Definition runWorker (n : nat) : M W unit := run_worker processNextWorkItem n.

(** What Run does when its channel is closed, after the workers were started. *)
Definition Run_stopped : M W unit := markCSPIStatusToOffline.
End worker.
End PoolInstanceWorker.

(** ** Volume replicas *)

Module ReplicaWorker.
Section worker.
Context {W : Type} `{OpenebsApi} `{VolumeApi} `{PoolApi} `{PodEnv} `{GoRuntime} `{ZJson} `{BuildInfo}.
Context `{!Shell W} `{!Runner W} `{!Env W} `{!Process W} `{!WorkQueue W}.
Context `{!ResourceClient W CStorVolumeReplica} `{!PatchClient W CStorVolumeReplica}.
Definition processNextWorkItem : M W bool :=
  process_next accept_load false (λ q, ReplicaSync.syncHandler (ReplicaSync.Key q) (ReplicaSync.Operation q)).
Definition runWorker (n : nat) : M W unit := run_worker processNextWorkItem n.
End worker.
End ReplicaWorker.

(** ** Volumes, in the volume manager *)

Module VolumeWorker.
Section worker.
Context {W : Type} `{OpenebsApi} `{VolumeApi} `{PoolApi} `{TargetApi} `{PodEnv} `{GoRuntime} `{BuildInfo}.
Context `{!Env W} `{!Target W} `{!WorkQueue W} `{!ResourceClient W CStorVolume} `{!ResourceClient W Event_}.
Context (error_Error : error → string).
Definition processNextWorkItem : M W bool :=
  process_next accept_volume_load false
    (λ q, VolumeMgmt.syncHandler error_Error (VolumeMgmt.Key q) (VolumeMgmt.Operation q)).
Definition runWorker (n : nat) : M W unit := run_worker processNextWorkItem n.
End worker.
End VolumeWorker.

(** ** Pool clusters *)

Module ClusterWorker.
Section worker.
Context {W : Type} `{GoRuntime} `{OpenebsApi} `{PoolApi} `{BuildInfo} `{PodEnv} `{!Env W}.
Context `{!ResourceClient W Node} `{!ResourceClient W BlockDevice}
  `{!ResourceClient W BlockDeviceClaim} `{!ResourceClient W CStorPoolInstance}
  `{!ResourceClient W CStorPoolCluster} `{!ResourceClient W Deployment}.
Context `{!ControllerCache W} `{!WorkQueue W}.

Definition enqueue (cspc : CStorPoolCluster) : M W unit :=
  match cache_MetaNamespaceKeyFunc (cspc_meta cspc) with
  | Err _ => mret tt
  | OK key => add (WKey key)
  end.
(** The handlers of additions, updates and deletions, by the reason of their event. *)
Definition handle (reason : string) (cspc : CStorPoolCluster) : M W unit :=
  if bool_decide (label (annotations cspc) OpenEBSDisableReconcileLabelKey = "true") then
    emit {| ev_object := name cspc; ev_type := "Warning"; ev_reason := reason;
            ev_message := "reconcile is disabled via %q annotation";
            ev_args := [OpenEBSDisableReconcileLabelKey] |}
  else enqueue cspc.
Definition addCSPC (obj : option CStorPoolCluster) : M W unit :=
  match obj with None => mret tt | Some cspc => handle "Create" cspc end.
Definition updateCSPC (_ newCSPC : option CStorPoolCluster) : M W unit :=
  match newCSPC with None => mret tt | Some cspc => handle "Update" cspc end.
Definition deleteCSPC (obj : deleted CStorPoolCluster) : M W unit :=
  match last_known obj with None => mret tt | Some cspc => handle "Delete" cspc end.

Definition processNextWorkItem : M W bool :=
  process_next accept_key true (λ key, let* r := syncCSPC key in mret (error_of r)).
Definition runWorker (n : nat) : M W unit := run_worker processNextWorkItem n.
End worker.
End ClusterWorker.

(** ** Volume configurations *)

Module ConfigWorker.
Section worker.
Context {W : Type} `{OpenebsApi} `{VolumeApi} `{PoolApi} `{BuildInfo} `{PodEnv} `{GoRuntime} `{!Env W}.
Context `{!ResourceClient W CStorVolumeConfig} `{!ResourceClient W CStorVolume}
  `{!ResourceClient W CStorVolumeReplica} `{!ResourceClient W CStorPoolInstance}
  `{!ResourceClient W Service} `{!ResourceClient W PodDisruptionBudget}
  `{!ResourceClient W Deployment} `{!ResourceClient W CStorVolumePolicy}
  `{!PatchClient W CStorVolumeConfig} `{!PatchClient W CStorVolume} `{!WorkQueue W}.
Context (openebsNamespace : string).

Definition enqueueCVC (cvc : CStorVolumeConfig) : M W unit :=
  match cache_MetaNamespaceKeyFunc (cvc_meta cvc) with
  | Err _ => mret tt
  | OK key => add (WKey key)
  end.
Definition addCVC (obj : option CStorVolumeConfig) : M W unit :=
  match obj with None => mret tt | Some cvc => enqueueCVC cvc end.
Definition updateCVC (_ newObj : option CStorVolumeConfig) : M W unit :=
  match newObj with None => mret tt | Some cvc => enqueueCVC cvc end.
Definition deleteCVC (obj : deleted CStorVolumeConfig) : M W unit :=
  match last_known obj with None => mret tt | Some cvc => enqueueCVC cvc end.

Definition processNextWorkItem : M W bool :=
  process_next accept_key true
    (λ key, let* r := cvc_syncHandler openebsNamespace (cache_SplitMetaNamespaceKey key) in mret (error_of r)).
Definition runWorker (n : nat) : M W unit := run_worker processNextWorkItem n.
End worker.
End ConfigWorker.

(** ** The interval of the informers (getSyncInterval), in nanoseconds of type int64 *)

Definition time_Second : Z := 10 ^ 9.
Definition getSyncInterval `{PodEnv} (fallback : Z) : Z :=
  let env := os_Getenv "RESYNC_INTERVAL" in
  if bool_decide (is_Some (Atoi_error env)) || (Atoi env =? 0)%Z then fallback
  else int64 (Atoi env * time_Second).
