(* ===== verification/Startup.v ===== *)
(** * Startup: how the programs start and stop
      (cmd/*/app/start.go, cmd/webhook/main.go, the start.go and runner.go of pkg/controllers,
      StartTargetServer, and the waiting loops of pkg/pool and pkg/controllers/common)

    A program builds its clients, waits for what it needs and starts goroutines; a controller waits
    for its cache, starts its workers and, when it is told to stop, marks its objects as offline.
    What other goroutines do is part of the step of the world in which a program waits.  The exit of
    a process by klog.Fatalf or os.Exit is a panic outcome. *)

From stdpp Require Import base gmap strings list sets pretty.
From Stdlib Require Import Ascii ZArith Lia.
From coqutil Require Import Datatypes.RecordSetters.
From S2P Require Import Prelude Api VolumeApi Version Zcmd Zpool PoolApi BackupApi VolumeReplica PoolManager CspiSync ReplicaSync TargetApi VolumeMgmt Registration TargetServer Snapshot HttpServer Workers.
Import DoubleBraceUpdate.

(** The goroutines of the programs. *)
Inductive routine :=
| Informers (factory : string)
| Worker (controller : string)
| RunController (controller : string) (threadiness : nat)
| ServeHTTP (address : string)
| ServeTarget (request : list (string * option error))
| Server (which : string).

(** The Go runtime, flags, signals, client-go and the leader election. *)
Class Runtime (W : Type) := {
  go_start : routine → W → W;
  cache_WaitForCacheSync : string → W → bool * W;
  (** [<-stopCh], and the wait for a signal *)
  receive_stop : W → W;
  wait_group : W → W;
  workqueue_ShutDown : string → W → W;
  flag_Set : string → string → option error;
  InClusterConfig : result string;
  BuildConfigFromFlags : string → string → result string;
  kubernetes_NewForConfig : string → option error;
  clientset_NewForConfig : string → option error;
  AddToScheme : option error;
  (** the election of a leader with the name of a lock and a namespace, which runs the program *)
  leader_Run : string → option string → (W → outcome unit * W) → W → outcome (option error) * W;
  util_CheckForIscsi : W → W;
}.

Section runtime.
Context {W : Type} `{!Runtime W}.
Definition go (r : routine) : M W unit := λ w, (Ret tt, go_start r w).
Definition step (f : W → W) : M W unit := λ w, (Ret tt, f w).
Definition exits {A} (msg : string) : M W A := panic msg.
Fixpoint times (n : nat) (m : M W unit) : M W unit :=
  match n with 0 => mret tt | S n' => let* _ := m in times n' m end.

(** ** Controllers (runner.go) *)

(** [defer c.workqueue.ShutDown()] *)
Definition with_shutdown {A} (queue : string) (m : M W A) : M W A :=
  λ w, let '(r, w') := m w in (r, workqueue_ShutDown queue w').

(** Run, which is the same in all controllers up to what it does when it has to stop. *)
Definition run_controller (controller : string) (stopping : M W unit) (threadiness : nat) : M W (option error) :=
  with_shutdown controller
    (let* ok := call (cache_WaitForCacheSync controller) in
     if negb ok then mret (Some (Errorf "failed to wait for caches to sync" []))
     else
       let* _ := times threadiness (go (Worker controller)) in
       let* _ := step receive_stop in
       let* _ := stopping in
       mret None).
Definition BackupController_Run : nat → M W (option error) := run_controller "CStorBackup" (mret tt).
Definition RestoreController_Run : nat → M W (option error) := run_controller "CStorRestore" (mret tt).
Definition ClusterController_Run : nat → M W (option error) := run_controller "CSPC" (mret tt).
(** The one of volume configurations only logs the error. *)
Definition CVCController_Run (threadiness : nat) : M W unit :=
  let* _ := run_controller "CStorVolumeConfig" (mret tt) threadiness in mret tt.
Definition PoolInstanceController_Run `{OpenebsApi} `{VolumeApi} `{PoolApi} `{PodEnv} `{!ResourceClient W CStorPoolInstance}
  : nat → M W (option error) := run_controller "CStorPoolInstance" markCSPIStatusToOffline.
Definition ReplicaController_Run `{OpenebsApi} `{VolumeApi} `{PoolApi} `{PodEnv} `{!ResourceClient W CStorVolumeReplica}
  : nat → M W (option error) := run_controller "CStorVolumeReplica" markCVRStatusToOffline.
Definition VolumeController_Run `{OpenebsApi} `{VolumeApi} `{PoolApi} `{TargetApi} `{PodEnv}
  `{!ResourceClient W CStorVolume} : nat → M W (option error) :=
  run_controller "CStorVolume" markCVStatusToOffline.

(** ** Waiting *)

(** A loop that probes and sleeps until the probe succeeds, for at most [n] attempts; [false] means
    that it still waits. *)
Fixpoint poll `{!Clock W} (interval : Z) (probe : M W bool) (n : nat) : M W bool :=
  match n with
  | 0 => mret false
  | S n' =>
      let* ok := probe in
      if ok : bool then mret true else let* _ := sleep interval in poll interval probe n'
  end.

(** The intervals, in seconds. *)
Definition CRDRetryInterval : Z := 10.
Definition PoolNameHandlerInterval : Z := 5.
Definition InitialZreplRetryInterval : Z := 3.

Section waits.
Context `{!Clock W}.
Definition list_probe {Obj} `{!ResourceClient W Obj} (ns : string) : M W bool :=
  reads (λ w, match rList (Obj:=Obj) w ns "" with OK _ => true | Err _ => false end).
Definition CheckForCStorVolumeReplicaCRD `{!ResourceClient W CStorVolumeReplica} : nat → M W bool :=
  poll CRDRetryInterval (list_probe (Obj:=CStorVolumeReplica) "default").
Definition CheckForCStorVolumeCRD `{!ResourceClient W CStorVolume} : nat → M W bool :=
  poll CRDRetryInterval (list_probe (Obj:=CStorVolume) "openebs").

(** The command is built again in each round from the same builder, whose text is replaced. *)
Definition zrepl_probe `{!Shell W} : M W bool :=
  let* r := pstatus.Execute pstatus.NewPoolStatus in
  mret (match r.2 with Some _ => false | None => true end).
Definition CheckForZreplInitial `{!Shell W} (ZreplRetryInterval : Z) : nat → M W bool :=
  poll ZreplRetryInterval zrepl_probe.

(** The answer is split at the ends of lines, and an empty list of names is awaited. *)
Definition pool_probe `{!Shell W} : M W bool :=
  let* r := pget.Execute (pget.WithPool "name" (pget.WithProperty "name"
              (pget.WithField "value" (pget.WithScriptedMode true pget.NewPoolGetProperty)))) in
  mret (negb (bool_decide (split_on "010"%char r.1 = []))).
Definition CheckForCStorPool `{!Shell W} : nat → M W bool := poll PoolNameHandlerInterval pool_probe.
End waits.

(** ** Configuration and clients *)

Definition getClusterConfig (kubeconfig : string) : result string :=
  if negb (bool_decide (kubeconfig = "")) then BuildConfigFromFlags "" kubeconfig else InClusterConfig.
(** The one of the webhook and of the volume manager tries the cluster first. *)
Definition getClusterConfig_in_cluster_first (kubeconfig : string) : result string :=
  match InClusterConfig with
  | OK cfg => OK cfg
  | Err _ =>
      if bool_decide (kubeconfig = "") then Err (Errorf "kubeconfig is empty: %v" [])
      else match BuildConfigFromFlags "" kubeconfig with
           | Err _ => Err (Errorf "Error building kubeconfig: %s" [])
           | OK cfg => OK cfg
           end
  end.

Definition build_clients (cfg : string) : option error :=
  match kubernetes_NewForConfig cfg with
  | Some err => Some (Wrapf err "error building kubernetes clientset" [])
  | None =>
      match clientset_NewForConfig cfg with
      | Some err => Some (Wrapf err "error building openebs clientset" [])
      | None => None
      end
  end.
(** What the operators and the pool manager do first. *)
Definition clients (kubeconfig : string) : option error :=
  match flag_Set "logtostderr" "true" with
  | Some err => Some (Wrapf err "failed to set logtostderr flag" [])
  | None =>
      match getClusterConfig kubeconfig with
      | Err err => Some (Wrapf err "error building kubeconfig" [])
      | OK cfg => build_clients cfg
      end
  end.

(** Informers and the controller run until a signal, alone or as the elected leader. *)
Definition run_until_signal (controller : string) : M W unit :=
  let* _ := go (Informers "kubernetes") in
  let* _ := go (Informers "openebs") in
  let* _ := go (RunController controller 2) in
  step receive_stop.
Definition run_elected (leaderElection : bool) (lock leaderElectionNamespace : string) (run : M W unit)
  : M W (option error) :=
  if negb leaderElection then let* _ := run in mret None
  else
    let ns := if bool_decide (leaderElectionNamespace = "") then None else Some leaderElectionNamespace in
    let* err := leader_Run lock ns run in
    match err with
    | Some _ => exits "failed to initialize leader election: %v"
    | None => mret None
    end.

End runtime.

(** ** The operator of pool clusters (cmd/cspc-operator) *)

Module ClusterOperator.
Section start.
Context {W : Type} `{!Runtime W}.
Definition leaderElectionLockName : string := "cspc-controller-leader".
Definition Start (kubeconfig : string) (leaderElection : bool) (leaderElectionNamespace : string)
  : M W (option error) :=
  match clients kubeconfig with
  | Some err => mret (Some err)
  | None =>
      match AddToScheme with
      | Some err => mret (Some (Wrapf err "error building controller instance" []))
      | None => run_elected leaderElection leaderElectionLockName leaderElectionNamespace (run_until_signal "CSPC")
      end
  end.
End start.
End ClusterOperator.

(** ** The operator of volume configurations (cmd/cvc-operator) *)

Module ConfigOperator.
Definition leaderElectionLockName : string := "cvc-controller-leader".
Definition port : Z := 5757.
Definition endpoints : list string := ["/latest/backups/"; "/latest/restore/"].

(** http.HTTPServer: the server, the paths of its mux and its address *)
Record HTTPServer := { hs_cvcServer : CVCServer; hs_paths : list string; hs_addr : string }.

Section server.
Context {W : Type} `{!Runtime W}.
(** net.ResolveTCPAddr and net.Listen *)
Context (net_ResolveTCPAddr : string → result (string * Z)) (net_Listen : string → string → result string).
Definition NewHTTPServer (cvcServer : CVCServer) : M W (result HTTPServer) :=
  match cs_config cvcServer with
  | None => mret (Err (Errorf "failed to instantiate http server: provided empty config" []))
  | Some config =>
      match cfg_NormalizedAddrs config with
      | None => panic "nil pointer dereference"
      | Some addrs =>
          let fail err := Err (Wrapf err "failed to instantiate http server: %v" []) in
          match net_ResolveTCPAddr (addr_HTTP addrs) with
          | Err err => mret (fail err)
          | OK (ip, p) =>
              match Listener config "tcp" ip p with
              | Err err => mret (fail err)
              | OK (proto, address) =>
                  match net_Listen proto address with
                  | Err err => mret (fail err)
                  | OK addr =>
                      let* _ := go (ServeHTTP addr) in
                      mret (OK {| hs_cvcServer := cvcServer; hs_paths := endpoints; hs_addr := addr |})
                  end
              end
          end
      end
  end.
Definition HTTPServer_Shutdown (s : HTTPServer) : M W unit :=
  let* _ := lift (λ _, CVCServer_Shutdown (hs_cvcServer s)) in mret tt.

Definition setupCVCServer (bindAddr : string) : M W (result HTTPServer) :=
  if bool_decide (bindAddr = "") then exits "bindAddr does not have an IP configure, check the `bind` container arg"
  else
    let config := DefaultServerConfig {{ cfg_BindAddr := bindAddr }} {{ cfg_Port := Some port }} in
    let* config := lift (λ _, NormalizeAddrs config) in
    match config with
    | Err err => mret (Err (Wrapf err "failed to setup CVC Server" []))
    | OK config =>
        let cvcServer := NewCVCServer (Some config) in
        let* r := NewHTTPServer cvcServer in
        match r with
        | Err err => let* _ := lift (λ _, CVCServer_Shutdown cvcServer) in mret (Err err)
        | OK s => mret (OK s)
        end
    end.

(** [defer srvOptions.httpServer.Shutdown()] *)
Definition with_server {A} (s : HTTPServer) (m : M W A) : M W A :=
  λ w, let '(r, w') := m w in
       match HTTPServer_Shutdown s w' with (Ret _, w'') => (r, w'') | (Panic why, w'') => (Panic why, w'') end.

Definition Start (kubeconfig bindAddr openebsNamespace : string) (leaderElection : bool)
  (leaderElectionNamespace : string) : M W (option error) :=
  match clients kubeconfig with
  | Some err => mret (Some err)
  | None =>
      let* r := setupCVCServer bindAddr in
      match r with
      | Err err => mret (Some (Wrapf err "failed to setupCVCServer" []))
      | OK s =>
          with_server s
            (if bool_decide (openebsNamespace = "") then
               mret (Some (Errorf "failed to get openebs namespace got empty" []))
             else
               match AddToScheme with
               | Some err => mret (Some (Wrapf err "error building controller instance" []))
               | None =>
                   run_elected leaderElection leaderElectionLockName leaderElectionNamespace
                     (run_until_signal "CStorVolumeConfig")
               end)
      end
  end.
End server.
End ConfigOperator.

(** ** The pool manager (cmd/pool-manager) *)

Module PoolManagerProgram.
Definition NumThreads : nat := 1.
Section start.
Context {W : Type} `{!Runtime W} `{!Clock W} `{!Shell W}.
(** Start, which returns no result while it waits for more than [n] attempts.  common.Init, which
    creates the mutex and sets the runner, is the initial state of [Process] and [Runner]. *)
Definition Start (kubeconfig : string) (n : nat) : M W (option (option error)) :=
  match clients kubeconfig with
  | Some err => mret (Some (Some err))
  | None =>
      let* up := CheckForZreplInitial InitialZreplRetryInterval n in
      if negb up then mret None
      else
        let* _ := go (Informers "kubernetes") in
        let* _ := go (Informers "openebs") in
        let* _ := go (RunController "CStorPoolInstance" NumThreads) in
        let* found := CheckForCStorPool n in
        if negb found then mret None
        else
          let* _ := go (RunController "CStorVolumeReplica" NumThreads) in
          let* _ := go (RunController "CStorBackup" NumThreads) in
          let* _ := go (RunController "CStorRestore" NumThreads) in
          let* _ := step wait_group in
          mret (Some None)
  end.
End start.
End PoolManagerProgram.

(** ** The volume manager (cmd/volume-manager, pkg/controllers/volume-mgmt/start.go) *)

Module VolumeManagerProgram.
Definition NumThreads : nat := 1.
Definition start {W} `{!Runtime W} : M W unit :=
  let* _ := go (Server "target") in
  let* _ := go (Server "snapshots") in
  let* _ := go (Server "controllers") in
  step wait_group.

Section controllers.
Context {W : Type} `{!Runtime W} `{!Clock W} `{!ResourceClient W CStorVolume}.
Definition StartControllers (kubeconfig : string) (n : nat) : M W (option unit) :=
  match getClusterConfig_in_cluster_first kubeconfig with
  | Err _ => exits "%s"
  | OK cfg =>
      match build_clients cfg with
      | Some _ => exits "Error building clientset: %s"
      | None =>
          let* _ := step util_CheckForIscsi in
          let* found := CheckForCStorVolumeCRD n in
          if negb found then mret None
          else
            let* _ := go (Informers "kubernetes") in
            let* _ := go (Informers "openebs") in
            let* _ := go (RunController "CStorVolume" NumThreads) in
            let* _ := step wait_group in
            mret (Some tt)
      end
  end.
End controllers.

(** What the socket accepts: a connection with its request or an error, of which some are retried. *)
Inductive accepted := Connection (request : list (string * option error)) | AcceptError (err : Errno).

Section target_server.
Context {W : Type} `{!Runtime W} `{!Clock W}.
(** types.TargetNamespace of openebs/api, os.RemoveAll and net.Listen *)
Context (TargetNamespace : W → string) (os_RemoveAll net_Listen_unix : option error).

Definition namespace_probe : M W bool := reads (λ w, negb (bool_decide (TargetNamespace w = ""))).

Fixpoint accept_loop (l : list accepted) : M W unit :=
  match l with
  | [] => mret tt
  | Connection request :: l' => let* _ := go (ServeTarget request) in accept_loop l'
  | AcceptError err :: l' =>
      if IsSafeToRetry (Some err) then accept_loop l' else exits "failed to accept error: {%v}"
  end.
Definition StartTargetServer (kubeconfig : string) (n : nat) (l : list accepted) : M W (option unit) :=
  let* known := poll 3 namespace_probe n in
  if negb known then mret None
  else
    match os_RemoveAll, net_Listen_unix with
    | Some _, _ => exits "failed to clear path: {%v}"
    | None, Some _ => exits "listen error: {%v}"
    | None, None =>
        match getClusterConfig kubeconfig with
        | Err _ => exits "exit status 1"
        | OK cfg =>
            match clientset_NewForConfig cfg with
            | Some _ => exits "exit status 1"
            | None => let* _ := accept_loop l in mret (Some tt)
            end
        end
    end.
End target_server.
End VolumeManagerProgram.

(** ** The webhook (cmd/webhook) *)

Module WebhookProgram.
Section main.
Context {W : Type} `{!Runtime W} `{OpenebsApi} `{VolumeApi} `{PodEnv} `{BuildInfo} `{!Env W} `{!Crypto W}.
Context `{!ResourceClient W Secret} `{!ResourceClient W Service} `{!ResourceClient W Deployment}.
Context `{!ResourceClient W ValidatingWebhookConfiguration}.
Context (x509_pool : string → bool) (tls_pair : string → string → option error).

(** The variable kubeconfig of main is not set by a flag. *)
Definition main : M W unit :=
  match flag_Set "logtostderr" "true" with
  | Some _ => exits "Failed to set logtostderr flag: %s"
  | None =>
      match getClusterConfig_in_cluster_first "" with
      | Err _ => exits "Error building kubeconfig: %s"
      | OK cfg =>
          match build_clients cfg with
          | Some _ => exits "Error building clientset: %s"
          | None =>
              let* owner := reads GetAdmissionReference in
              match owner with
              | Err _ => exits "failed to get a reference of the admission deployment object"
              | OK owner =>
                  let* validatorErr := InitValidationServer owner in
                  match validatorErr with
                  | Some _ => exits "failed to initialize validation server"
                  | None =>
                      let* wh := reads (New_certificates x509_pool tls_pair) in
                      match wh with
                      | Err _ => exits "failed to create validation webhook: %s"
                      | OK _ => let* _ := go (ServeHTTP "/validate") in step receive_stop
                      end
                  end
              end
          end
      end
  end.
End main.
End WebhookProgram.

(** ** What the loops and the controllers guarantee *)

Section facts.
Context {W : Type} `{!Runtime W} `{!Clock W}.

Lemma poll_unfold interval (probe : M W bool) n :
  poll interval probe (S n) =
    (let* ok := probe in if ok : bool then mret true else let* _ := sleep interval in poll interval probe n).
Proof. reflexivity. Qed.

(** A wait that has ended saw its probe succeed, and ends with any more attempts as well. *)
Lemma poll_found interval (probe : M W bool) n w w' :
  poll interval probe n w = (Ret true, w') → ∃ w1, probe w1 = (Ret true, w').
Proof.
  revert w. induction n as [|n IH]; intros w; [done|]. cbn [poll].
  intros (ok & w1 & Hp & Hr)%M_bind_Ret. destruct ok.
  - apply mret_run in Hr as [_ ->]. by exists w.
  - apply M_bind_Ret in Hr as (_ & w2 & _ & Hr). by eapply IH.
Qed.
Lemma poll_more interval (probe : M W bool) n m w w' :
  n ≤ m → poll interval probe n w = (Ret true, w') → poll interval probe m w = (Ret true, w').
Proof.
  revert m w. induction n as [|n IH]; intros m w Hle; [done|]. destruct m as [|m]; [lia|]. cbn [poll].
  intros (ok & w1 & Hp & Hr)%M_bind_Ret. apply M_bind_Ret. exists ok, w1. split; [done|]. destruct ok; [done|].
  apply M_bind_Ret in Hr as (u & w2 & Hs & Hr). apply M_bind_Ret. exists u, w2. split; [done|]. apply IH; [lia|done].
Qed.
(** A wait whose probe succeeds after [k] pauses ends with [k + 1] attempts. *)
Lemma poll_ends interval (f : W → bool) k w :
  f (Nat.iter k (time_Sleep interval) w) = true →
  ∃ j, j ≤ k ∧ poll interval (reads f) (S k) w = (Ret true, Nat.iter j (time_Sleep interval) w).
Proof.
  revert w. induction k as [|k IH]; intros w Hf.
  - exists 0. split; [done|]. cbn. unfold mbind, M_bind, reads. cbn in Hf. by rewrite Hf.
  - rewrite poll_unfold. unfold mbind at 1, M_bind at 1, reads at 1. destruct (f w) eqn:Hw; [exists 0; split; [lia|done]|].
    destruct (IH (time_Sleep interval w)) as (j & Hj & Hp).
    { by rewrite Nat.iter_succ_r in Hf. }
    exists (S j). split; [lia|]. unfold mbind, M_bind, sleep. rewrite Hp. f_equal. by rewrite Nat.iter_succ_r.
Qed.

(** The wait for the definition of the replicas ends exactly when they can be listed. *)
Lemma crd_wait_ends `{!ResourceClient W CStorVolumeReplica} k w l :
  rList (Obj:=CStorVolumeReplica) (Nat.iter k (time_Sleep CRDRetryInterval) w) "default" "" = OK l →
  ∃ j, j ≤ k ∧ CheckForCStorVolumeReplicaCRD (S k) w = (Ret true, Nat.iter j (time_Sleep CRDRetryInterval) w).
Proof. intros Hl. apply poll_ends. by rewrite Hl. Qed.

(** The wait for a pool never waits: a text is never split into an empty list. *)
Lemma CheckForCStorPool_returns `{!Shell W} n w : ∃ w', CheckForCStorPool (S n) w = (Ret true, w').
Proof.
  unfold CheckForCStorPool. cbn [poll].
  assert (∃ w', pool_probe w = (Ret true, w')) as [w' Hp].
  { unfold pool_probe, pget.Execute, execute, execute_by, mbind, M_bind, call.
    destruct (pget.Build _) as [b err]. destruct err.
    - exists w. cbn. reflexivity.
    - destruct (pget.Executor (object b)) as [[]|]; unfold Executor_Execute, Zcmd_Execute, call;
        destruct (bash (pget.Command (object b)) w) as [o w1]; exists w1; cbn -[split_on raw];
        destruct (split_on_cons "010"%char (raw o).1) as (h & t & ->); reflexivity. }
  exists w'. unfold mbind, M_bind. by rewrite Hp.
Qed.
(** So the pool manager starts all controllers when zpool status succeeds, with or without a pool. *)
Lemma pool_manager_starts `{!Shell W} kubeconfig n w w1 :
  clients kubeconfig = None → CheckForZreplInitial InitialZreplRetryInterval (S n) w = (Ret true, w1) →
  ∃ w2, PoolManagerProgram.Start kubeconfig (S n) w = (Ret (Some None),
    wait_group (go_start (RunController "CStorRestore" 1) (go_start (RunController "CStorBackup" 1)
      (go_start (RunController "CStorVolumeReplica" 1) w2)))).
Proof.
  intros Hc Hz. unfold PoolManagerProgram.Start. rewrite Hc. unfold mbind at 1, M_bind at 1. rewrite Hz. cbn [negb].
  unfold go, step, mbind, M_bind.
  destruct (CheckForCStorPool_returns n (go_start (RunController "CStorPoolInstance" PoolManagerProgram.NumThreads)
    (go_start (Informers "openebs") (go_start (Informers "kubernetes") w1)))) as [w2 ->]. by exists w2.
Qed.

(** A controller starts workers only after its cache is filled, and always closes its queue. *)
Lemma run_controller_run c (stopping : M W unit) n w :
  ∃ w1 ok, cache_WaitForCacheSync c w = (ok, w1) ∧
  if ok : bool
  then ∃ r w2, stopping (receive_stop (Nat.iter n (go_start (Worker c)) w1)) = (r, w2) ∧
         run_controller c stopping n w =
           (match r with Ret _ => Ret None | Panic why => Panic why end, workqueue_ShutDown c w2)
  else run_controller c stopping n w =
         (Ret (Some (Errorf "failed to wait for caches to sync" [])), workqueue_ShutDown c w1).
Proof.
  unfold run_controller, with_shutdown, mbind, M_bind, call, step.
  destruct (cache_WaitForCacheSync c w) as [ok w1]. exists w1, ok. split; [done|]. destruct ok; cbn [negb]; [|done].
  assert (Ht : ∀ w0, times n (go (Worker c)) w0 = (Ret tt, Nat.iter n (go_start (Worker c)) w0)).
  { induction n as [|n IH]; intros w0; [done|]. cbn [times]. unfold mbind, M_bind, go at 1.
    rewrite IH. f_equal. by rewrite Nat.iter_succ_r. }
  rewrite Ht. destruct (stopping _) as [r w2]. exists r, w2. split; [done|]. by destruct r as [[]|why].
Qed.
End facts.
