(* ===== verification/TargetFacts.v ===== *)
(** * TargetFacts: the configuration file of a target, read back, and the handlers of volumes

    A reader of the configuration file, and what it finds in the file that is written for a
    volume; what the commands to the target contain; in which order the volume manager acts. *)

From stdpp Require Import base gmap strings list sets pretty sorting.
From Stdlib Require Import Ascii ZArith Lia.
From coqutil Require Import Datatypes.RecordSetters.
From S2P Require Import Prelude Steps Api VolumeApi Zcmd PoolApi CspiSync TargetApi VolumeTarget VolumeMgmt.
Import DoubleBraceUpdate.

(** ** Numbers are words *)

Definition word_char (a : ascii) : bool := literal a && negb (Ascii.eqb a space).

Lemma pretty_char_word x : word_char (pretty_N_char x) = true.
Proof. unfold pretty_N_char. by repeat case_match. Qed.

Lemma pretty_go_chars x s :
  all_chars word_char s = true → all_chars word_char (pretty_N_go x s) = true.
Proof.
  revert s. induction (N.lt_wf_0 x) as [x _ IH]; intros s Hs.
  destruct (decide (x = 0)%N) as [->|Hx]; [by rewrite pretty_N_go_0|].
  rewrite pretty_N_go_step by lia. apply IH; [apply N.div_lt; lia|].
  cbn. by rewrite pretty_char_word, Hs.
Qed.

Lemma pretty_go_nonempty x s : s ≠ "" → pretty_N_go x s ≠ "".
Proof.
  revert s. induction (N.lt_wf_0 x) as [x _ IH]; intros s Hs.
  destruct (decide (x = 0)%N) as [->|Hx]; [by rewrite pretty_N_go_0|].
  rewrite pretty_N_go_step by lia. apply IH; [apply N.div_lt; lia|done].
Qed.

Lemma word_pretty_N (x : N) : word (pretty x).
Proof.
  unfold pretty, pretty_N. case_decide as Hx; [by split|]. split.
  - rewrite pretty_N_go_step by lia. by apply pretty_go_nonempty.
  - by apply pretty_go_chars.
Qed.

Lemma word_pretty_Z (z : Z) : word (pretty z).
Proof.
  destruct z as [|p|p]; [by split|apply (word_pretty_N (N.pos p))|].
  destruct (word_pretty_N (N.pos p)) as [_ Hw]. by split.
Qed.

(** ** Lines of text *)

Definition one_line (s : string) : Prop := newline ∉ bytes s.

Lemma one_line_chars (P : ascii → bool) s : P newline = false → all_chars P s = true → one_line s.
Proof.
  intros HP Hs Hin. induction s as [|a s IH]; [by apply not_elem_of_nil in Hin|].
  cbn in Hs. apply andb_true_iff in Hs as [Ha Hs].
  apply elem_of_cons in Hin as [<-|Hin]; [congruence|by apply IH].
Qed.
Lemma one_line_word s : word s → one_line s.
Proof. intros [_ Hs]. by eapply one_line_chars; [|done]. Qed.
Lemma one_line_app s t : one_line s → one_line t → one_line (s +:+ t).
Proof. unfold one_line. rewrite bytes_app, elem_of_app. tauto. Qed.

Definition one_lineb (s : string) : bool := all_chars (λ a, negb (Ascii.eqb a newline)) s.
Lemma one_line_true s : one_lineb s = true → one_line s.
Proof. by apply one_line_chars. Qed.

Lemma lines_unlines l : Forall one_line l → lines (unlines l) = l ++ [""].
Proof.
  induction 1 as [|s l Hs _ IH]; [done|]. unfold lines in *.
  change (unlines (s :: l)) with (s +:+ String newline (unlines l)). by rewrite split_on_app, IH.
Qed.

(** ** Reading a configuration file *)

Definition conf_words (text : string) : list (list string) := words <$> lines text.
Definition conf_value (key : string) (conf : list (list string)) : option (list string) :=
  match first_such (λ ws, bool_decide (head ws = Some key)) conf with
  | Some (_ :: values) => Some values
  | _ => None
  end.
Definition conf_replica (ws : list string) : option (string * string) :=
  match ws with [key; k; v] => if bool_decide (key = "Replica") then Some (k, v) else None | _ => None end.
Definition conf_replicas (conf : list (list string)) : list (string * string) := omap conf_replica conf.

(** The words of a key and what follows it. *)
Lemma words_key (k x : string) : words ((k +:+ " ") +:+ x) = words k ++ words x.
Proof. by rewrite str_app_assoc, words_space. Qed.

(** ** The file of a volume *)

Ltac line_auto :=
  first [ by apply one_line_true | done | by apply one_line_word | by apply one_line_word, word_pretty_Z
        | apply one_line_app; line_auto ].
Ltac lines_auto :=
  lazymatch goal with
  | |- Forall _ [] => apply Forall_nil; exact I
  | |- Forall _ (_ :: _) => apply Forall_cons; split; [line_auto|lines_auto]
  | |- Forall _ ?l => let l' := eval hnf in l in change l with l'; lines_auto
  end.

Section conf.
Context `{VolumeApi}.

Lemma portal_words ip : word ip →
  words <$> portal_sections ip =
  [["#"; "UnitControl"; "section"]; ["[UnitControl]"]; ["AuthMethod"; "None"]; ["AuthGroup"; "None"];
   ["Portal"; "UC1"; ip +:+ ":3261"]; ["Netmask"; ip +:+ "/8"]; [];
   ["#"; "PortalGroup"; "section"]; ["[PortalGroup1]"]; ["Portal"; "DA1"; ip +:+ ":3260"]; [];
   ["#"; "InitiatorGroup"; "section"]; ["[InitiatorGroup1]"]; ["InitiatorName"; quoted "ALL"];
   ["Netmask"; quoted "ALL"]; []; ["[InitiatorGroup2]"]; ["InitiatorName"; quoted "None"];
   ["Netmask"; quoted "None"]; []].
Proof.
  intros Hip.
  assert (∀ x, word x → words (ip +:+ x) = [ip +:+ x]) as Hw
    by (intros x Hx; by apply words_word, word_app).
  unfold portal_sections. cbn [fmap list_fmap].
  rewrite (words_key "  Portal UC1" (ip +:+ ":3261") : words ("  Portal UC1 " +:+ ip +:+ ":3261") = _).
  rewrite (words_key "  Portal DA1" (ip +:+ ":3260") : words ("  Portal DA1 " +:+ ip +:+ ":3260") = _).
  rewrite (words_key "  Netmask" (ip +:+ "/8") : words ("  Netmask " +:+ ip +:+ "/8") = _).
  by rewrite !Hw by (by split).
Qed.

(** The names and texts that a configuration file is written for. *)
Definition conf_ok (cv : CStorVolume) : Prop :=
  word (name cv) ∧ word (cv_TargetIP cv) ∧ word (Quantity_String (cv_Capacity cv)) ∧
  one_line (uid cv) ∧ map_Forall (λ k v, word k ∧ word v) (cv_KnownReplicas cv).

Lemma unit_words cv : conf_ok cv →
  words <$> unit_section cv =
  [["#"; "LogicalUnit"; "section"]; ["[LogicalUnit1]"]; ["TargetName"; name cv];
   ["TargetAlias"; "nicknamefor-" +:+ name cv]; ["Mapping"; "PortalGroup1"; "InitiatorGroup1"];
   ["AuthMethod"; "None"]; ["AuthGroup"; "None"]; ["UseDigest"; "Auto"]; ["ReadOnly"; "No"];
   ["DesiredReplicationFactor"; pretty (cv_DesiredReplicationFactor cv)];
   ["ReplicationFactor"; pretty (cv_ReplicationFactor cv)];
   ["ConsistencyFactor"; pretty (cv_ConsistencyFactor cv)]; ["UnitType"; "Disk"]; ["UnitOnline"; "Yes"];
   ["BlockLength"; "512"]; ["QueueDepth"; "32"]; ["Luworkers"; "6"];
   ["UnitInquiry"; quoted "OpenEBS"; quoted "iscsi"; quoted "0"] ++ words (quoted (uid cv));
   ["PhysRecordLength"; "4096"]; ["LUN0"; "Storage"; Quantity_String (cv_Capacity cv); "32k"];
   ["LUN0"; "Option"; "Unmap"; "Disable"]; ["LUN0"; "Option"; "WZero"; "Disable"];
   ["LUN0"; "Option"; "ATS"; "Disable"]; ["LUN0"; "Option"; "XCOPY"; "Disable"]].
Proof.
  intros (Hn & _ & Hc & _). unfold unit_section. cbn [fmap list_fmap].
  rewrite (words_key "  TargetName" (name cv) : words ("  TargetName " +:+ name cv) = _).
  rewrite (words_key "  TargetAlias" ("nicknamefor-" +:+ name cv)
    : words ("  TargetAlias nicknamefor-" +:+ name cv) = _).
  rewrite (words_key "  DesiredReplicationFactor" _
    : words ("  DesiredReplicationFactor " +:+ pretty (cv_DesiredReplicationFactor cv)) = _).
  rewrite (words_key "  ReplicationFactor" _
    : words ("  ReplicationFactor " +:+ pretty (cv_ReplicationFactor cv)) = _).
  rewrite (words_key "  ConsistencyFactor" _
    : words ("  ConsistencyFactor " +:+ pretty (cv_ConsistencyFactor cv)) = _).
  set (q := quoted (uid cv)).
  change (words ("  UnitInquiry " +:+ quoted "OpenEBS" +:+ " " +:+ quoted "iscsi" +:+ " " +:+ quoted "0"
    +:+ " " +:+ q)) with (words ((("  UnitInquiry " +:+ quoted "OpenEBS" +:+ " " +:+ quoted "iscsi" +:+ " "
    +:+ quoted "0") +:+ " ") +:+ q)).
  rewrite words_key.
  rewrite (words_key "  LUN0 Storage" (Quantity_String (cv_Capacity cv) +:+ " 32k")
    : words ("  LUN0 Storage " +:+ Quantity_String (cv_Capacity cv) +:+ " 32k") = _).
  rewrite (words_space (Quantity_String (cv_Capacity cv)) "32k" : words (_ +:+ " 32k") = _).
  rewrite (words_word _ Hn), (words_word _ Hc), !(words_word (pretty _)) by apply word_pretty_Z.
  by rewrite (words_word ("nicknamefor-" +:+ name cv)) by (by apply (word_app "nicknamefor-"); [split|]).
Qed.

Lemma replica_words r : word r.1 → word r.2 → words (replica_line r) = ["Replica"; r.1; r.2].
Proof.
  intros Hk Hv. unfold replica_line.
  rewrite (words_key "  Replica" (r.1 +:+ " " +:+ r.2) : words ("  Replica " +:+ _) = _), words_space.
  by rewrite (words_word _ Hk), (words_word _ Hv).
Qed.

Lemma sorted_entries_perm m : sorted_entries m ≡ₚ map_to_list m.
Proof. apply merge_sort_Permutation. Qed.

Lemma sorted_entries_words m : map_Forall (λ k v, word k ∧ word v) m →
  Forall (λ r, word r.1 ∧ word r.2) (sorted_entries m).
Proof.
  intros Hm. rewrite sorted_entries_perm. apply Forall_forall. intros [k v] Hin.
  apply elem_of_map_to_list in Hin. by apply Hm.
Qed.

Lemma conf_one_line cv : conf_ok cv → Forall one_line (istgtConfFile cv).
Proof.
  intros (Hn & Hip & Hc & Hu & Hr). unfold istgtConfFile.
  apply Forall_app; split; [|apply Forall_app; split; [|apply Forall_app; split]].
  - lines_auto.
  - lines_auto.
  - unfold quoted. lines_auto.
  - apply Forall_fmap. eapply Forall_impl; [by apply sorted_entries_words|]. intros r [Hk Hv].
    change (one_line (replica_line r)). unfold replica_line. line_auto.
Qed.
End conf.

Section conf_read.
Context `{VolumeApi}.

Definition conf_list (cv : CStorVolume) : list (list string) :=
  (words <$> global_section) ++ (words <$> portal_sections (cv_TargetIP cv)) ++
  (words <$> unit_section cv) ++ ((λ r, ["Replica"; r.1; r.2]) <$> sorted_entries (cv_KnownReplicas cv)) ++ [[]].

Lemma conf_words_file cv : conf_ok cv → conf_words (unlines (istgtConfFile cv)) = conf_list cv.
Proof.
  intros Hcv. unfold conf_words. rewrite lines_unlines by by apply conf_one_line.
  unfold istgtConfFile, conf_list. rewrite !fmap_app, <-!(assoc_L (++)). do 3 f_equal.
  f_equal. rewrite <-list_fmap_compose. apply list_fmap_ext. intros i r Hr.
  destruct Hcv as (_ & _ & _ & _ & Hk). apply sorted_entries_words in Hk.
  rewrite Forall_lookup in Hk. destruct (Hk i r Hr). by apply replica_words.
Qed.

(** What a configuration file says of a volume. *)
Definition conf_describes (cv : CStorVolume) (conf : list (list string)) : Prop :=
  conf_value "TargetName" conf = Some [name cv] ∧
  conf_value "Portal" conf = Some ["UC1"; cv_TargetIP cv +:+ ":3261"] ∧
  conf_value "DesiredReplicationFactor" conf = Some [pretty (cv_DesiredReplicationFactor cv)] ∧
  conf_value "ReplicationFactor" conf = Some [pretty (cv_ReplicationFactor cv)] ∧
  conf_value "ConsistencyFactor" conf = Some [pretty (cv_ConsistencyFactor cv)] ∧
  conf_value "LUN0" conf = Some ["Storage"; Quantity_String (cv_Capacity cv); "32k"] ∧
  conf_replicas conf ≡ₚ map_to_list (cv_KnownReplicas cv).

Lemma conf_replicas_lines l : conf_replicas ((λ r, ["Replica"; r.1; r.2]) <$> l) = l.
Proof. induction l as [|[k v] l IH]; [done|]. change (conf_replicas ?x) with (omap conf_replica x) in *. cbn. by f_equal. Qed.

Lemma conf_list_describes cv : conf_ok cv → conf_describes cv (conf_list cv).
Proof.
  intros Hcv. unfold conf_describes, conf_list.
  rewrite portal_words by apply Hcv. rewrite unit_words by done.
  split_and!; [reflexivity..|].
  unfold conf_replicas. rewrite !omap_app. change (omap conf_replica [[]]) with (@nil (string * string)).
  rewrite app_nil_r.
  change (omap conf_replica ((λ r : string * string, ["Replica"; r.1; r.2]) <$> ?l))
    with (conf_replicas ((λ r, ["Replica"; r.1; r.2]) <$> l)).
  rewrite conf_replicas_lines. apply sorted_entries_perm.
Qed.

(** A desired replication factor of zero stands for the replication factor. *)
Definition effective (cv : CStorVolume) : CStorVolume :=
  if (cv_DesiredReplicationFactor cv =? 0)%Z
  then cv {{ cv_DesiredReplicationFactor := cv_ReplicationFactor cv }} else cv.

Lemma CreateIstgtConf_readable cv : conf_ok cv →
  ∃ text, CreateIstgtConf cv = OK text ∧ conf_describes (effective cv) (conf_words text).
Proof.
  intros Hcv. eexists. split; [reflexivity|]. fold (effective cv).
  assert (conf_ok (effective cv)) as He by (unfold effective; by case_match).
  rewrite conf_words_file by done. by apply conf_list_describes.
Qed.
End conf_read.

(** ** The command that drops a replica *)

Section scale_down.
Context {W : Type} `{OpenebsApi} `{VolumeApi} `{PoolApi} `{TargetApi} `{PodEnv} `{GoRuntime} `{BuildInfo}.
Context `{!Env W} `{!Target W} `{!ResourceClient W CStorVolume} `{!ResourceClient W Event_}.

Lemma scale_down_words cv :
  word IstgtDRFCmd → word (name cv) → map_Forall (λ k _, word k) (cv_KnownReplicas cv) →
  ∃ ids, shell_words (GetScaleDownCommand cv) =
           Some ([IstgtDRFCmd; name cv; pretty (cv_DesiredReplicationFactor cv)] ++ ids) ∧
         ids ≡ₚ (map_to_list (cv_KnownReplicas cv)).*1.
Proof.
  intros Hd Hn Hk. exists (go_range "GetScaleDownCommand" (cv_KnownReplicas cv)).*1. split.
  - assert (∀ l : list (string * string), l ≫= (λ '(k, _), [k]) = l.*1) as Hb.
    { intros l. induction l as [|[k v] l IH]; cbn; [done|]. by f_equal. }
    rewrite <-Hb. eapply reads_shell. unfold GetScaleDownCommand.
    eapply (reads_fold (λ c '(k, _), c +:+ k +:+ " ") (λ '(k, _), [k])).
    + intros c ws [k v] Hin Hc. apply (reads_app c ws (k +:+ " ") [k]); [done|].
      apply reads_word_space. apply go_range_lookup in Hin. by eapply Hk.
    + apply (reads_words _ [name cv; pretty _]); [done|].
      apply (reads_words _ [pretty _]); [done|]. apply reads_word_space, word_pretty_Z.
  - by rewrite go_range_perm.
Qed.

(** A client answers an update with the object that was sent, up to its version. *)
Class VolumeClient : Prop := {
  update_volume : ∀ ns (o o' : CStorVolume) (w w' : W), rUpdate ns o w = (OK o', w') →
    cv_spec o' = cv_spec o ∧ name o' = name o ∧ namespace o' = namespace o;
}.

(** The factors that are written for a desired replication factor. *)
Definition with_factors (cv : CStorVolume) : CStorVolume :=
  cv {{ cv_ReplicationFactor := cv_DesiredReplicationFactor cv }}
     {{ cv_ConsistencyFactor := (Z.quot (cv_DesiredReplicationFactor cv) 2 + 1)%Z }}.

(** Between the check of the volume and the command: nothing, or the file and then the object
    get the lower factors. *)
Definition lowered (cv : CStorVolume) (w : W) (cv1 : CStorVolume) (w1 : W) : Prop :=
  if (cv_DesiredReplicationFactor cv <? cv_ReplicationFactor cv)%Z then
    ∃ wl wf wu, ConfFile_Lock w = (Ret tt, wl) ∧
      file_UpdateOrAppendMultipleLines types_IstgtConfPath
        (BuildScaleDownConfigData (GetRemovingReplicaID cv) cv) wl = (None, wf) ∧
      ConfFile_Unlock wf = (Ret tt, wu) ∧
      rUpdate (namespace cv) (with_factors cv) wu = (OK cv1, w1)
  else cv1 = cv ∧ w1 = w.

Lemma lower_factors_run cv w cv1 w1 :
  lower_factors cv (GetRemovingReplicaID cv) w = (Ret (OK cv1), w1) → lowered cv w cv1 w1.
Proof.
  unfold lower_factors, lowered. destruct (_ <? _)%Z; [|by intros [= -> ->]].
  intros Hr. apply M_bind_Ret in Hr as ([] & wl & Hl & Hr).
  apply M_bind_Ret in Hr as (err & wf & Hf & Hr). unfold call in Hf.
  destruct (file_UpdateOrAppendMultipleLines _ _ wl) as [e wf'] eqn:He. injection Hf as -> ->.
  apply M_bind_Ret in Hr as ([] & wu & Hu & Hr).
  destruct err as [err|]; [by injection Hr|].
  apply M_bind_Ret in Hr as (r & wr & Hc & Hr). unfold call in Hc.
  destruct (rUpdate _ _ wu) as [r' wr'] eqn:Hup. injection Hc as -> ->.
  destruct r as [o|e]; [|by injection Hr]. injection Hr as -> ->. by exists wl, wf, wu.
Qed.

Lemma drop_replica_run cv w cv' w' :
  drop_replica cv w = (Ret (OK cv'), w') →
  ∃ resp w1, SendCommand (GetScaleDownCommand cv) w = (OK resp, w1) ∧ rejected resp = None ∧
    rUpdate (namespace cv) (cv {{ cv_Status_KnownReplicas := cv_KnownReplicas cv }}) w1 = (OK cv', w').
Proof.
  unfold drop_replica, ExecuteDesiredReplicationFactorCommand. intros Hr.
  apply M_bind_Ret in Hr as (err & w1 & He & Hr).
  apply M_bind_Ret in He as (r & w1' & Hc & He). unfold call in Hc.
  destruct (SendCommand _ w) as [r' ws] eqn:Hs. injection Hc as -> ->.
  destruct r as [resp|e]; [|by injection He as <- <-].
  destruct (rejected resp) eqn:Hrej; [by injection He as <- <-|]. injection He as <- <-.
  apply M_bind_Ret in Hr as (r & w2 & Hc & Hr). unfold call in Hc.
  destruct (rUpdate _ _ w1') as [r' w2'] eqn:Hup. injection Hc as -> ->.
  exists resp, w1'. destruct r as [o|e]; [|by injection Hr]. by injection Hr as -> ->.
Qed.

Lemma scale_down_run cv w r w' :
  triggerScaleDownProcess cv w = (Ret r, w') →
  ∃ s w1, GetVolumeStatus w = (Ret s, w1) ∧
    match s with
    | OK st =>
        if bool_decide (cvst_Status st = CVStatusHealthy) && AreSpecReplicasHealthy st cv &&
           negb (bool_decide (GetRemovingReplicaID cv = ""))
        then (let* r := lower_factors cv (GetRemovingReplicaID cv) in
              match r with Err err => mret (Err err) | OK cv => drop_replica cv end) w1 = (Ret r, w')
        else (∃ e, r = Err e) ∧ w' = w1
    | Err e => r = Err e ∧ w' = w1
    end.
Proof.
  unfold triggerScaleDownProcess. intros Hr. apply M_bind_Ret in Hr as (s & w1 & Hs & Hr).
  exists s, w1. split; [done|]. destruct s as [st|e]; [|by injection Hr as <- <-].
  case_bool_decide; cbn in *; [|injection Hr as <- <-; eauto].
  destruct (AreSpecReplicasHealthy st cv); cbn in *; [|injection Hr as <- <-; eauto].
  case_bool_decide; cbn in *; [injection Hr as <- <-; eauto|done].
Qed.
End scale_down.

Section orders.
Context {W : Type} `{OpenebsApi} `{VolumeApi} `{PoolApi} `{TargetApi} `{PodEnv} `{GoRuntime} `{BuildInfo}.
Context `{!Env W} `{!Target W} `{!ResourceClient W CStorVolume} `{!ResourceClient W Event_}.

(** What the object of a scale down looks like when the command is sent. *)
Lemma lowered_spec `{!VolumeClient (W:=W)} cv w cv1 w1 :
  lowered cv w cv1 w1 →
  name cv1 = name cv ∧ cv_KnownReplicas cv1 = cv_KnownReplicas cv ∧
  cv_DesiredReplicationFactor cv1 = cv_DesiredReplicationFactor cv ∧
  ((cv_DesiredReplicationFactor cv < cv_ReplicationFactor cv)%Z →
   cv_ReplicationFactor cv1 = cv_DesiredReplicationFactor cv ∧
   ((0 < cv_DesiredReplicationFactor cv)%Z →
    (cv_ReplicationFactor cv1 < 2 * cv_ConsistencyFactor cv1)%Z ∧
    (cv_ConsistencyFactor cv1 ≤ cv_ReplicationFactor cv1)%Z)).
Proof.
  unfold lowered. destruct (Z.ltb_spec (cv_DesiredReplicationFactor cv) (cv_ReplicationFactor cv)) as [Hlt|Hge].
  - intros (wl & wf & wu & _ & _ & _ & Hu). apply update_volume in Hu as (Hs & Hn & _).
    unfold cv_spec in Hs. injection Hs as _ _ _ _ _ Hrf Hd Hcf Hk. cbn in *. unfold constant in *.
    split_and!; [done..|]. intros _. split; [done|]. intros Hpos. rewrite Hrf, Hcf.
    rewrite Z.quot_div_nonneg by lia.
    pose proof (Z.div_mod (cv_DesiredReplicationFactor cv) 2 ltac:(lia)).
    pose proof (Z.mod_pos_bound (cv_DesiredReplicationFactor cv) 2 ltac:(lia)). lia.
  - intros [-> ->]. split_and!; [done..|]. lia.
Qed.

Lemma scale_down_dropped cv w cv' w' :
  triggerScaleDownProcess cv w = (Ret (OK cv'), w') →
  ∃ st w1 cv1 w2 resp w3,
    GetVolumeStatus w = (Ret (OK st), w1) ∧ cvst_Status st = CVStatusHealthy ∧
    AreSpecReplicasHealthy st cv = true ∧ GetRemovingReplicaID cv ≠ "" ∧
    lowered cv w1 cv1 w2 ∧
    SendCommand (GetScaleDownCommand cv1) w2 = (OK resp, w3) ∧ rejected resp = None ∧
    rUpdate (namespace cv1) (cv1 {{ cv_Status_KnownReplicas := cv_KnownReplicas cv1 }}) w3 = (OK cv', w').
Proof.
  intros Hr. apply scale_down_run in Hr as ([st|e] & w1 & Hs & Hr); [|by destruct Hr].
  destruct (_ && _) eqn:Hc; [|by destruct Hr as [[e ?] _]].
  apply andb_true_iff in Hc as [[Hh Ha]%andb_true_iff Hi].
  apply bool_decide_eq_true in Hh. apply negb_true_iff, bool_decide_eq_false in Hi.
  apply M_bind_Ret in Hr as ([cv1|e] & w2 & Hl & Hr); [|by injection Hr].
  apply lower_factors_run in Hl. apply drop_replica_run in Hr as (resp & w3 & Hsend & Hrej & Hu).
  by exists st, w1, cv1, w2, resp, w3.
Qed.

Lemma scale_down_refused cv w r w' st w1 :
  triggerScaleDownProcess cv w = (Ret r, w') → GetVolumeStatus w = (Ret (OK st), w1) →
  cvst_Status st ≠ CVStatusHealthy ∨ AreSpecReplicasHealthy st cv = false ∨ GetRemovingReplicaID cv = "" →
  (∃ e, r = Err e) ∧ w' = w1.
Proof.
  intros Hr Hst Hbad. apply scale_down_run in Hr as (s & w1' & Hs & Hr).
  rewrite Hst in Hs. injection Hs as <- <-.
  assert (bool_decide (cvst_Status st = CVStatusHealthy) && AreSpecReplicasHealthy st cv &&
           negb (bool_decide (GetRemovingReplicaID cv = "")) = false) as Hf.
  { destruct Hbad as [Hn|[->| ->]]; [by rewrite bool_decide_false|by rewrite andb_false_r|by rewrite andb_false_r]. }
  by rewrite Hf in Hr.
Qed.

(** ** Resizing *)

Definition storage_line (cv : CStorVolume) : string :=
  "  LUN0 Storage " +:+ Quantity_String (cv_Capacity cv) +:+ " 32K".

(** The target took the resize, and its file has the new size. *)
Definition target_resized (cv : CStorVolume) (w : W) : Prop :=
  ∃ resp w1 wl wf, SendCommand (getResizeCommand cv) w = (OK resp, w1) ∧ rejected resp = None ∧
    ConfFile_Lock w1 = (Ret tt, wl) ∧
    file_Updatefile util_IstgtConfPath (storage_line cv) "LUN0 Storage" wl = (None, wf).

Lemma ResizeTargetVolume_run cv w err w' :
  ResizeTargetVolume cv w = (Ret err, w') → err = None ↔ target_resized cv w.
Proof.
  unfold ResizeTargetVolume, target_resized. intros Hr.
  apply M_bind_Ret in Hr as (r & w1 & Hc & Hr). unfold call in Hc.
  destruct (SendCommand _ w) as [r' ws] eqn:Hs. injection Hc as -> ->.
  destruct r as [resp|e]; [|injection Hr as <- <-; split; [done|]; intros (? & ? & ? & ? & ? & _); congruence].
  destruct (rejected resp) as [x|] eqn:Hrej;
    [injection Hr as <- <-; split; [done|]; intros (? & ? & ? & ? & ? & ? & _); congruence|].
  apply M_bind_Ret in Hr as ([] & wl & Hl & Hr).
  apply M_bind_Ret in Hr as (e & wf & Hf & Hr). unfold call in Hf.
  change ("  LUN0 Storage " +:+ _) with (storage_line cv) in Hf.
  destruct (file_Updatefile _ _ _ wl) as [e' wf'] eqn:Hup. injection Hf as -> ->.
  destruct e as [e|]; apply M_bind_Ret in Hr as ([] & wu & _ & Hr); injection Hr as <- <-.
  - split; [done|]. intros (? & ? & ? & ? & ? & ? & ? & ?). simplify_eq. congruence.
  - split; [|done]. intros _. by exists resp, w1, wl, wf.
Qed.

Context (error_Error : error → string).

Lemma resize_run cv w r w' :
  resizeCStorVolume error_Error cv w = (Ret r, w') →
  ∃ err w1 w2 cv2 w3,
    ResizeTargetVolume cv w = (Ret err, w1) ∧
    cv_spec cv2 = cv_spec cv ∧ cv_meta cv2 = cv_meta cv ∧
    cv_Status_Capacity cv2 = match err with None => cv_Capacity cv | Some _ => cv_Status_Capacity cv end ∧
    cvs_Conditions (cv_State cv2) =
      (let c := GetCVCondition CStorVolumeResizing cv in
       match err with
       | None => DeleteCondition c (cvs_Conditions (cv_State cv))
       | Some err => UpdateCondition (c {{ cvcond_Message := resize_message error_Error cv err }})
                       (cvs_Conditions (cv_State cv))
       end) ∧
    rUpdate (namespace cv) cv2 w2 = (r, w3).
Proof.
  unfold resizeCStorVolume. intros Hr. apply M_bind_Ret in Hr as (err & w1 & He & Hr).
  apply M_bind_Ret in Hr as (cv2 & w2 & Hc & Hr).
  apply M_bind_Ret in Hr as (r2 & w3 & Hu & Hr). unfold call in Hu.
  destruct (rUpdate _ cv2 w2) as [r2' w3'] eqn:Hup. injection Hu as -> ->.
  assert (r2 = r) as ->.
  { destruct r2 as [o|e], err as [err|]; [by injection Hr| |by injection Hr..].
    apply M_bind_Ret in Hr as (? & ? & _ & Hr). by injection Hr. }
  exists err, w1, w2, cv2, w3. split; [done|].
  destruct err as [err|].
  - apply M_bind_Ret in Hc as (? & ? & _ & Hc). injection Hc as <- <-. done.
  - injection Hc as <- <-. done.
Qed.
End orders.

(** ** The answer of the target *)

Lemma index_byte_None a s : index_byte a s = None ↔ a ∉ bytes s.
Proof.
  induction s as [|b s IH]; [split; [intros _; apply not_elem_of_nil|done]|].
  change (bytes (String b s)) with (b :: bytes s). cbn [index_byte].
  destruct (Ascii.eqb_spec a b) as [->|Hne].
  - split; [done|]. intros Hn. destruct Hn. by left.
  - rewrite fmap_None, IH, not_elem_of_cons. tauto.
Qed.

Lemma last_index_byte_None a s : last_index_byte a s = None ↔ a ∉ bytes s.
Proof.
  induction s as [|b s IH]; [split; [intros _; apply not_elem_of_nil|done]|].
  change (bytes (String b s)) with (b :: bytes s). cbn [last_index_byte]. rewrite not_elem_of_cons.
  destruct (last_index_byte a s) as [i|].
  - split; [done|]. intros [_ Hn]. by apply IH in Hn.
  - destruct (Ascii.eqb_spec a b) as [->|Hne]; [by split; [|intros []]|].
    split; [|done]. intros _. split; [done|]. by apply IH.
Qed.

Lemma last_index_byte_lt a s i : last_index_byte a s = Some i → i < String.length s.
Proof.
  revert i. induction s as [|b s IH]; intros i; cbn; [done|].
  destruct (last_index_byte a s) as [j|].
  - intros [= <-]. specialize (IH j eq_refl). lia.
  - destruct (Ascii.eqb a b); [|done]. intros [= <-]. lia.
Qed.

Section status.
Context {W : Type} `{VolumeApi} `{TargetApi} `{!Target W}.

Lemma GetVolumeStatus_answer (w : W) l w1 :
  SendCommand IstgtReplicaCmd w = (OK l, w1) →
  let s := sprint_slice l in
  if decide ("{"%char ∉ bytes s ∧ "}"%char ∈ bytes s)
  then ∃ why, GetVolumeStatus w = (Panic why, w1) else ∃ r, GetVolumeStatus w = (Ret r, w1).
Proof.
  intros Hs s. unfold GetVolumeStatus. erewrite bind_run; [|by unfold call; rewrite Hs].
  cbv beta zeta iota. fold s. pose proof (index_byte_None "{" s) as Hb. pose proof (last_index_byte_None "}" s) as He.
  pose proof (last_index_byte_lt "}" s) as Hlt.
  destruct (index_byte "{" s) as [b|], (last_index_byte "}" s) as [e|]; cbn [index_of].
  - rewrite decide_False by (intros [Hn%Hb _]; done).
    destruct (Z.leb_spec (Z.of_nat e) (Z.of_nat b)); [by eexists|].
    specialize (Hlt e eq_refl). unfold string_slice, lift, mbind, M_bind.
    destruct (Z.ltb_spec (Z.of_nat b) 0); [lia|].
    destruct (Z.ltb_spec (Z.of_nat e + 1) (Z.of_nat b)); [lia|].
    destruct (Z.ltb_spec (Z.of_nat (String.length s)) (Z.of_nat e + 1)); [lia|]. by eexists.
  - rewrite decide_False by (intros [Hn%Hb _]; done).
    destruct (Z.leb_spec (-1) (Z.of_nat b)); [by eexists|lia].
  - rewrite decide_True.
    + destruct (Z.leb_spec (Z.of_nat e) (-1)); [lia|]. by eexists.
    + split; [by apply Hb|]. apply dec_stable. intros Hn%He. done.
  - rewrite decide_False by (intros [_ Hin]; by apply (proj1 He)). by eexists.
Qed.

(** A target that was not configured is reported as created. *)
Lemma CreateVolumeTarget_succeeds cv (w : W) : ∃ w', CreateVolumeTarget cv w = (Ret None, w').
Proof.
  unfold CreateVolumeTarget, CreateIstgtConf. unfold mbind, M_bind, call.
  destruct (file_Write _ _ w) as [e w1]. destruct (SendCommand _ w1) as [r w2]. by exists w2.
Qed.
End status.
