(* ===== verification/PoolLock.v ===== *)
(** * PoolLock: the mutex that the pool and the replica controller share

    Only Mux_Lock and Mux_Unlock change whether SyncResources.Mux is held: every other
    operation of the pool manager [keeps] it.  The tools, the API server and the recorder do not
    change the variables of the process ([ProcessFrame], [ClientFrame]). *)

From stdpp Require Import base gmap strings list sets pretty.
From Stdlib Require Import Ascii ZArith Lia.
From S2P Require Import Prelude Steps Api VolumeApi Version Webhook PoolOps Zcmd Zpool Zfs PoolApi VolumeOps VolumeReplica PoolManager CspiSync ReplicaSync.

Class ProcessFrame (W : Type) `{!Process W} `{!Shell W} `{!Runner W} `{!Env W} : Prop := {
  bash_globals : ∀ c (w : W), globals (bash c w).2 = globals w;
  RunStdoutPipe_globals : ∀ c l (w : W), globals (RunStdoutPipe c l w).2 = globals w;
  RunCombinedOutput_globals : ∀ c l (w : W), globals (RunCombinedOutput c l w).2 = globals w;
  Event_globals : ∀ e (w : W), globals (Event e w) = globals w;
}.
Class ClientFrame (W Obj : Type) `{!Process W} `{!ResourceClient W Obj} : Prop := {
  rUpdate_globals : ∀ ns (o : Obj) (w : W), globals (rUpdate ns o w).2 = globals w;
  rDelete_globals : ∀ ns n (w : W), globals (rDelete (Obj:=Obj) ns n w).2 = globals w;
}.
Class PatchFrame (W Obj : Type) `{!Process W} `{!PatchClient W Obj} : Prop := {
  rPatchObject_globals : ∀ ns n ty b (w : W), globals (rPatchObject (Obj:=Obj) ns n ty b w).2 = globals w;
}.

Section lock.
Context {W : Type} `{OpenebsApi} `{VolumeApi} `{PoolApi} `{PodEnv} `{GoRuntime} `{ZJson} `{BuildInfo}.
Context `{!Shell W} `{!Runner W} `{!Env W} `{!Process W} `{!ProcessLaws W} `{!ProcessFrame W}.
Context `{!ResourceClient W CStorPoolInstance} `{!ResourceClient W BlockDevice}
  `{!ResourceClient W BlockDeviceClaim} `{!ResourceClient W CStorVolumeReplica}
  `{!PatchClient W CStorVolumeReplica}.
Context `{!ClientFrame W CStorPoolInstance} `{!ClientFrame W BlockDeviceClaim}
  `{!ClientFrame W CStorVolumeReplica} `{!PatchFrame W CStorVolumeReplica}.

Definition held (w : W) : bool := g_Locked (globals w).
Definition same_lock : relation W := λ w w', held w' = held w.
#[local] Instance same_lock_preorder : PreOrder same_lock.
Proof. split; [by intros w|]. intros w1 w2 w3. unfold same_lock. congruence. Qed.

(** *** The basic operations *)

Lemma lock_globals f : (∀ g, g_Locked (f g) = g_Locked g) → keeps same_lock (set_globals f).
Proof. intros Hf w. unfold final, set_globals, same_lock, held. cbn. by rewrite globals_with. Qed.
Lemma lock_bash c : keeps same_lock (call (bash c)).
Proof. apply keeps_call. intros w. unfold same_lock, held. by rewrite bash_globals. Qed.
Lemma lock_stdout c l : keeps same_lock (call (RunStdoutPipe c l)).
Proof. apply keeps_call. intros w. unfold same_lock, held. by rewrite RunStdoutPipe_globals. Qed.
Lemma lock_combined c l : keeps same_lock (call (RunCombinedOutput c l)).
Proof. apply keeps_call. intros w. unfold same_lock, held. by rewrite RunCombinedOutput_globals. Qed.
Lemma lock_emit e : keeps same_lock (emit e).
Proof. intros w. unfold final, emit, same_lock, held. cbn. by rewrite Event_globals. Qed.
Lemma lock_update {Obj} `{!ResourceClient W Obj} `{!ClientFrame W Obj} ns (o : Obj) :
  keeps same_lock (call (rUpdate ns o)).
Proof. apply keeps_call. intros w. unfold same_lock, held. by rewrite rUpdate_globals. Qed.
Lemma lock_delete {Obj} `{!ResourceClient W Obj} `{!ClientFrame W Obj} ns n :
  keeps same_lock (call (rDelete (Obj:=Obj) ns n)).
Proof. apply keeps_call. intros w. unfold same_lock, held. by rewrite rDelete_globals. Qed.
Lemma lock_patch ns n ty b : keeps same_lock (call (rPatchObject (Obj:=CStorVolumeReplica) ns n ty b)).
Proof. apply keeps_call. intros w. unfold same_lock, held. by rewrite rPatchObject_globals. Qed.
#[local] Hint Resolve lock_globals lock_bash lock_stdout lock_combined lock_emit lock_update
  lock_delete lock_patch : keeps.

Lemma lock_execute_by {A R} (fail : error → R) build ex (command : A → string) f1 f2 b :
  keeps same_lock (execute_by fail build ex command f1 f2 b).
Proof.
  unfold execute_by. destruct (build b) as [b' err]. destruct err; [keeps_auto|].
  destruct (ex (object b')) as [[]|]; unfold Executor_Execute, Zcmd_Execute; keeps_auto.
Qed.
Lemma lock_execute {A} build ex (command : A → string) f b :
  keeps same_lock (execute build ex command f b).
Proof. apply lock_execute_by. Qed.
Lemma lock_dump b : keeps same_lock (pdump.Execute b).
Proof. unfold pdump.Execute. cbv zeta. refine (keeps_bind _ _ _ _ _); [apply lock_execute_by|keeps_auto]. Qed.
Lemma lock_stats b : keeps same_lock (vstats.Execute b).
Proof. apply lock_execute_by. Qed.
Lemma lock_listsnap b : keeps same_lock (vlistsnap.Execute b).
Proof. apply lock_execute_by. Qed.
#[local] Hint Resolve lock_execute lock_dump lock_stats lock_listsnap : keeps.
#[local] Hint Extern 5 (keeps same_lock _) =>
  unfold vget.Execute, vset.Execute, vlist.Execute, pget.Execute, padd.Execute, pcreate.Execute,
    pdestroy.Execute, plabelclear.Execute, pimport.Execute, preplace.Execute, pset.Execute;
  first [apply lock_execute | apply lock_execute_by] : keeps.

(** *** Datasets of replicas *)

Ltac lock_by op := intros; unfold op; keeps_auto.

Lemma lock_values d l e : keeps same_lock (GetListOfPropertyValues d l e).
Proof. lock_by @GetListOfPropertyValues. Qed.
Lemma lock_getStats e : keeps same_lock (GetStats e).
Proof. lock_by @GetStats. Qed.
Lemma lock_datasets e : keeps same_lock (getReplicaDataSets e).
Proof. lock_by @getReplicaDataSets. Qed.
#[local] Hint Resolve lock_values lock_getStats lock_datasets : keeps.
Lemma lock_counts e : keeps same_lock (GetProvisionedAndHealthyReplicaCount e).
Proof. lock_by @GetProvisionedAndHealthyReplicaCount. Qed.
Lemma lock_Status v : keeps same_lock (Status v).
Proof. lock_by @Status. Qed.
Lemma lock_CreateReplica c n q : keeps same_lock (CreateVolumeReplica c n q).
Proof. lock_by @CreateVolumeReplica. Qed.
Lemma lock_SetTargetIp v ip : keeps same_lock (SetTargetIp v ip).
Proof. lock_by @SetTargetIp. Qed.
Lemma lock_get_value p v : keeps same_lock (get_value p v).
Proof. lock_by @get_value. Qed.
#[local] Hint Resolve lock_counts lock_Status lock_CreateReplica lock_SetTargetIp lock_get_value : keeps.
Lemma lock_GetTargetIp v : keeps same_lock (GetTargetIp v).
Proof. lock_by @GetTargetIp. Qed.
Lemma lock_GetVolumes : keeps same_lock GetVolumes.
Proof. lock_by @GetVolumes. Qed.
Lemma lock_DeleteVolume v : keeps same_lock (DeleteVolume v).
Proof. lock_by @DeleteVolume. Qed.
Lemma lock_Capacity v : keeps same_lock (Capacity v).
Proof. lock_by @Capacity. Qed.
Lemma lock_replicaID v : keeps same_lock (GetReplicaIDFromZFS v).
Proof. lock_by @GetReplicaIDFromZFS. Qed.
Lemma lock_snapshotInfo d n : keeps same_lock (getSnapshotInfo d n).
Proof. lock_by @getSnapshotInfo. Qed.
#[local] Hint Resolve lock_GetTargetIp lock_GetVolumes lock_DeleteVolume lock_Capacity
  lock_replicaID lock_snapshotInfo : keeps.
Lemma lock_add_snapshots d l c : keeps same_lock (add_snapshots d l c).
Proof. revert c. induction l as [|n l IH]; intros c; cbn [add_snapshots]; keeps_auto. Qed.
#[local] Hint Resolve lock_add_snapshots : keeps.
Lemma lock_snapshotList c l : keeps same_lock (addOrDeleteSnapshotListInfo c l).
Proof. lock_by @addOrDeleteSnapshotListInfo. Qed.
Lemma lock_pendingList c : keeps same_lock (getAndAddPendingSnapshotList c).
Proof. unfold getAndAddPendingSnapshotList, getPeerReplicas. keeps_auto. Qed.
#[local] Hint Resolve lock_snapshotList lock_pendingList : keeps.
Lemma lock_snapshots c : keeps same_lock (GetAndUpdateSnapshotInfo c).
Proof. unfold GetAndUpdateSnapshotInfo, GetSnapshotList. keeps_auto. Qed.
#[local] Hint Resolve lock_snapshots : keeps.

(** *** Operations on the pool *)

Lemma lock_PoolName : keeps same_lock PoolName.
Proof. unfold PoolName, get_globals. keeps_auto. Qed.
Lemma lock_event c t r m a : keeps same_lock (cspi_event c t r m a).
Proof. apply lock_emit. Qed.
Lemma lock_path b : keeps same_lock (getPathForBDev b).
Proof. lock_by @getPathForBDev. Qed.
#[local] Hint Resolve lock_PoolName lock_event lock_path : keeps.
Lemma lock_paths l : keeps same_lock (getPathForBdevList l).
Proof. unfold getPathForBdevList, path_step. keeps_auto. Qed.
Lemma lock_present oc n : keeps same_lock (checkIfPoolPresent oc n).
Proof. lock_by @checkIfPoolPresent. Qed.
Lemma lock_zpoolDump oc : keeps same_lock (executeZpoolDump oc).
Proof. lock_by @executeZpoolDump. Qed.
#[local] Hint Resolve lock_paths lock_present lock_zpoolDump : keeps.
Lemma lock_importable oc c : keeps same_lock (checkIfPoolIsImportable oc c).
Proof. lock_by @checkIfPoolIsImportable. Qed.
Lemma lock_addRaidGroup oc r d p : keeps same_lock (addRaidGroup oc r d p).
Proof. lock_by @addRaidGroup. Qed.
Lemma lock_createPool oc c r : keeps same_lock (createPool oc c r).
Proof. lock_by @createPool. Qed.
#[local] Hint Resolve lock_importable lock_addRaidGroup lock_createPool : keeps.
Lemma lock_Create oc c : keeps same_lock (Create oc c).
Proof. unfold Create, add_groups. keeps_auto. Qed.
Lemma lock_Delete oc c : keeps same_lock (Delete oc c).
Proof. unfold Delete, ClearPoolLabel, clear_label. keeps_auto. Qed.
Lemma lock_import_as oc c e : keeps same_lock (import_as oc c e).
Proof. unfold import_as, import_pool. keeps_auto. Qed.
#[local] Hint Resolve lock_Create lock_Delete lock_import_as : keeps.
Lemma lock_Import oc c : keeps same_lock (Import oc c).
Proof. lock_by @Import. Qed.
Lemma lock_imported : keeps same_lock CheckImportedPoolVolume.
Proof. unfold CheckImportedPoolVolume, get_globals. keeps_auto. Qed.
#[local] Hint Resolve lock_Import lock_imported : keeps.

(** *** Changes of the pool *)

Lemma lock_replace oc o n : keeps same_lock (replacePoolVdev oc o n).
Proof. lock_by @replacePoolVdev. Qed.
Lemma lock_resilvering oc p : keeps same_lock (isResilveringInProgress oc p).
Proof. lock_by @isResilveringInProgress. Qed.
Lemma lock_cleanUp o n : keeps same_lock (cleanUpReplacementMarks o n).
Proof. unfold cleanUpReplacementMarks, release_claim. keeps_auto. Qed.
#[local] Hint Resolve lock_replace lock_resilvering lock_cleanUp : keeps.
Lemma lock_finish oc c b cl p d st : keeps same_lock (finish_replacement oc c b cl p d st).
Proof. lock_by @finish_replacement. Qed.
#[local] Hint Resolve lock_finish : keeps.
Lemma lock_replace_device oc c b cl p o st : keeps same_lock (replace_device oc c b cl p o st).
Proof. lock_by @replace_device. Qed.
#[local] Hint Resolve lock_replace_device : keeps.
Lemma lock_device oc c b st : keeps same_lock (update_device oc c b st).
Proof. lock_by @update_device. Qed.
#[local] Hint Resolve lock_device : keeps.
Lemma lock_devices oc c l st : keeps same_lock (update_devices oc c l st).
Proof. revert st. induction l as [|b l IH]; intros st; cbn [update_devices]; keeps_auto. Qed.
#[local] Hint Resolve lock_devices : keeps.
Lemma lock_groups oc c l st : keeps same_lock (update_groups oc c l st).
Proof.
  revert st. induction l as [|b l IH]; intros st; cbn [update_groups]; unfold update_group; keeps_auto.
Qed.
#[local] Hint Resolve lock_groups : keeps.
Lemma lock_condition t s r m : keeps same_lock (NewCSPICondition t s r m).
Proof. lock_by @NewCSPICondition. Qed.
Lemma lock_unused t l : keeps same_lock (unused_devices t l).
Proof. induction l as [|b l IH]; cbn [unused_devices]; keeps_auto. Qed.
#[local] Hint Resolve lock_condition lock_unused : keeps.
Lemma lock_expand oc c t l acc : keeps same_lock (expand_groups oc c t l acc).
Proof.
  revert acc. induction l as [|[[d g] rg] l IH]; intros acc; cbn [expand_groups];
    unfold expand_group; keeps_auto.
Qed.
#[local] Hint Resolve lock_expand : keeps.
Lemma lock_newVdev oc c : keeps same_lock (updateNewVdevFromCSPI oc c).
Proof. unfold updateNewVdevFromCSPI, expansion_condition. keeps_auto. Qed.
#[local] Hint Resolve lock_newVdev : keeps.
Lemma lock_Update oc c : keeps same_lock (Update oc c).
Proof.
  unfold Update, getBlockDeviceClaimList, update_types, update_object, replacement_condition. keeps_auto.
Qed.
#[local] Hint Resolve lock_Update : keeps.

(** *** Status of the pool *)

Lemma lock_unavailable oc c : keeps same_lock (GetUnavailableDiskList oc c).
Proof. unfold GetUnavailableDiskList, unavailable_step. keeps_auto. Qed.
Lemma lock_capacity oc n : keeps same_lock (GetCSPICapacity oc n).
Proof. lock_by @GetCSPICapacity. Qed.
Lemma lock_RDMode oc n b : keeps same_lock (SetPoolRDMode oc n b).
Proof. lock_by @SetPoolRDMode. Qed.
Lemma lock_property oc n p : keeps same_lock (GetVolumePropertyValue oc n p).
Proof. lock_by @GetVolumePropertyValue. Qed.
#[local] Hint Resolve lock_unavailable lock_capacity lock_RDMode lock_property : keeps.
Lemma lock_unset oc d l m u : keeps same_lock (unset_properties oc d l m u).
Proof.
  revert m u. induction l as [|[p v] l IH]; intros m u; cbn [unset_properties]; unfold remember;
    keeps_auto.
  apply lock_globals. intros g. by destruct (g_datasets g !! d).
Qed.
#[local] Hint Resolve lock_unset : keeps.
Lemma lock_store d m : keeps same_lock (store_properties d m).
Proof. unfold store_properties. keeps_auto. Qed.
#[local] Hint Resolve lock_store : keeps.
Lemma lock_setProperties oc c : keeps same_lock (SetPoolProperties oc c).
Proof. unfold SetPoolProperties, SetPoolFSPropertiesIfNot, get_globals. keeps_auto. Qed.
Lemma lock_pool_status oc n : keeps same_lock (pool_status oc n).
Proof. unfold pool_status, pool_GetListOfPropertyValues, pool_property. keeps_auto. Qed.
Lemma lock_ROMode oc s c : keeps same_lock (updateROMode oc s c).
Proof. lock_by @updateROMode. Qed.
Lemma lock_diskCondition oc c : keeps same_lock (addDiskUnavailableCondition oc c).
Proof. lock_by @addDiskUnavailableCondition. Qed.
#[local] Hint Resolve lock_setProperties lock_pool_status lock_ROMode lock_diskCondition : keeps.
Lemma lock_update_pool oc c : keeps same_lock (update_pool oc c).
Proof. unfold update_pool, update, updateStatus. keeps_auto. Qed.
Lemma lock_sync oc c : keeps same_lock (sync_properties oc c).
Proof. lock_by @sync_properties. Qed.
Lemma lock_retry n c d e : keeps same_lock (retry_condition n c d e).
Proof. induction n as [|n IH]; cbn [retry_condition]; unfold UpdateStatusCondition; keeps_auto. Qed.
#[local] Hint Resolve lock_update_pool lock_sync lock_retry : keeps.
Lemma lock_eventually c d : keeps same_lock (UpdateStatusConditionEventually c d).
Proof. unfold UpdateStatusConditionEventually, UpdateStatusCondition. keeps_auto. Qed.
#[local] Hint Resolve lock_eventually : keeps.
Lemma lock_version {Obj} `{HasMeta Obj} `{!ResourceClient W Obj} `{!ClientFrame W Obj} f g h (o : Obj) :
  keeps same_lock (reconcile_version f g h o).
Proof. unfold reconcile_version, finish_version. keeps_auto; done. Qed.
Lemma lock_destroy oc c : keeps same_lock (destroy oc c).
Proof. unfold destroy, removeFinalizer, deletion_failed. keeps_auto. Qed.
#[local] Hint Resolve lock_version lock_destroy : keeps.

(** *** Releasing the mutex *)

(** A run that returns leaves the mutex free, whatever it was before. *)
Definition releases {A} (m : M W A) : Prop := ∀ w a w', m w = (Ret a, w') → held w' = false.
(** A run that starts with a free mutex and returns leaves it free. *)
Definition frees {A} (m : M W A) : Prop :=
  ∀ w a w', held w = false → m w = (Ret a, w') → held w' = false.

Lemma releases_unlock : releases Mux_Unlock.
Proof.
  intros w a w' (g & w1 & [= <- <-] & Hr)%M_bind_Ret. destruct (g_Locked (globals w)); [|done].
  injection Hr as <- <-. unfold held. by rewrite globals_with.
Qed.
Lemma releases_then {A B} (m : M W A) (f : A → M W B) :
  releases m → (∀ a, keeps same_lock (f a)) → releases (m ≫= f).
Proof.
  intros Hm Hf w b w' (a & w1 & Ha & Hb)%M_bind_Ret.
  pose proof (keeps_run _ _ _ _ _ (Hf a) Hb) as ->. by eapply Hm.
Qed.
Lemma releases_bind {A B} (m : M W A) (f : A → M W B) :
  (∀ a, releases (f a)) → releases (m ≫= f).
Proof. intros Hf w b w' (a & w1 & Ha & Hb)%M_bind_Ret. by eapply Hf. Qed.
Lemma frees_releases {A} (m : M W A) : releases m → frees m.
Proof. intros Hm w a w' _. apply Hm. Qed.
Lemma frees_keeps {A} (m : M W A) : keeps same_lock m → frees m.
Proof. intros Hm w a w' Hw Hr. by rewrite (keeps_run _ _ _ _ _ Hm Hr). Qed.
Lemma frees_bind {A B} (m : M W A) (f : A → M W B) : frees m → (∀ a, frees (f a)) → frees (m ≫= f).
Proof. intros Hm Hf w b w' Hw (a & w1 & Ha & Hb)%M_bind_Ret. eapply Hf; [|done]. by eapply Hm. Qed.

Lemma releases_pool oc c : releases (reconcile_pool oc c).
Proof.
  apply releases_bind. intros _. apply releases_bind. intros [[c' imported] err].
  destruct imported; [|destruct (_ || _)].
  - unfold reconcile_imported. destruct err.
    + apply releases_then; [apply releases_unlock|keeps_auto].
    + apply releases_bind. intros _. apply releases_then; [apply releases_unlock|keeps_auto].
  - apply releases_bind. intros [e|].
    + do 2 (apply releases_bind; intros _). apply releases_then; [apply releases_unlock|keeps_auto].
    + apply releases_then; [apply releases_unlock|keeps_auto].
  - apply releases_then; [apply releases_unlock|keeps_auto].
Qed.

Lemma frees_reconcile oc key : frees (reconcile oc key).
Proof.
  unfold reconcile. apply frees_bind.
  { apply frees_keeps. unfold getCSPIObjFromKey. keeps_auto. }
  intros [[cspi|]|err]; [|apply frees_keeps; keeps_auto..].
  destruct (IsReconcileDisabled cspi); [apply frees_keeps; keeps_auto|].
  destruct (cspi_IsDestroyed cspi); [apply frees_keeps; keeps_auto|].
  apply frees_bind; [apply frees_keeps; unfold addPoolProtectionFinalizer; keeps_auto|].
  intros [c|err]; [|apply frees_keeps; keeps_auto].
  unfold reconcile_versioned. apply frees_bind; [apply frees_keeps; unfold cspi_reconcileVersion; keeps_auto|].
  intros [c' [err|]]; [apply frees_keeps; keeps_auto|].
  destruct (validateCSPI c'); [apply frees_keeps; keeps_auto|].
  apply frees_releases, releases_pool.
Qed.

Lemma lock_replicaStatus c n : keeps same_lock (getVolumeReplicaStatus c n).
Proof. lock_by @getVolumeReplicaStatus. Qed.
#[local] Hint Resolve lock_replicaStatus : keeps.

(** The replica controller holds the mutex only to read a variable. *)
Lemma frees_add c n : frees (cVRAddEventHandler c n).
Proof.
  apply frees_releases. apply releases_bind. intros _. apply releases_bind. intros g.
  apply releases_then; [apply releases_unlock|].
  unfold add_or_create, createVolumeReplica, cvr_event, CheckForInitialImportedPoolVol.
  keeps_auto.
Qed.

Lemma frees_syncHandler key op : frees (syncHandler key op).
Proof.
  unfold syncHandler. apply frees_bind.
  { apply frees_keeps. unfold getVolumeReplicaResource. keeps_auto. }
  intros [[cvr|]|err]; [|apply frees_keeps; keeps_auto..].
  apply frees_bind; [apply frees_keeps; unfold cvr_reconcileVersion; keeps_auto|].
  intros [c [err|]]; [apply frees_keeps; unfold cvr_event; keeps_auto|].
  apply frees_bind.
  - unfold cVREventHandler. destruct (CheckValidVolumeReplica c);
      [apply frees_keeps; unfold cvr_event; keeps_auto|].
    apply frees_bind.
    { apply frees_keeps. unfold PoolNameHandler. generalize 3%nat as n.
      induction n as [|n IH]; cbn [pool_attempts]; unfold pool_GetPoolName; keeps_auto. }
    intros [|]; cbn [negb]; [|apply frees_keeps; keeps_auto]. destruct op.
    + apply frees_add.
    + apply frees_keeps. unfold destroy_replica, cvr_removeFinalizer, cvr_event. keeps_auto.
    + unfold sync_replica. destruct (isCVRCreateStatus c); [apply frees_add|apply frees_keeps].
      unfold complete_restore, getCVRStatus, cvr_event. keeps_auto.
    + unfold sync_replica. destruct (isCVRCreateStatus c); [apply frees_add|apply frees_keeps].
      unfold complete_restore, getCVRStatus, cvr_event. keeps_auto.
    + apply frees_keeps. keeps_auto.
  - intros [[c' st] err]. apply frees_keeps. unfold store_status, syncCVRStatus, cvr_event. keeps_auto.
Qed.
End lock.
