(* ===== verification/PoolFacts.v ===== *)
(** * PoolFacts: what the operations on a pool do

    The command that creates a pool, the devices that an update keeps, the properties that are
    remembered and the read-only mode. *)

From stdpp Require Import base gmap strings list sets pretty.
From Stdlib Require Import Ascii ZArith Lia.
From coqutil Require Import Datatypes.RecordSetters.
From S2P Require Import Prelude Steps Api VolumeApi Version Webhook PoolOps Zcmd Zpool Zfs Zspec PoolApi VolumeOps VolumeReplica PoolManager CspiSync PoolLock.
Import DoubleBraceUpdate.

Section facts.
Context {W : Type} `{OpenebsApi} `{VolumeApi} `{PoolApi} `{PodEnv} `{GoRuntime} `{ZJson}.
Context `{!Shell W} `{!Runner W} `{!Env W} `{!Process W} `{!ProcessLaws W}.
Context `{!ResourceClient W CStorPoolInstance} `{!ResourceClient W BlockDevice}
  `{!ResourceClient W BlockDeviceClaim}.

(** ** Paths of devices *)

(** The devices of the list are found and have these paths, at least one each. *)
Definition paths_known (w : W) (paths : string → list string) (l : list CStorPoolInstanceBlockDevice)
  : Prop :=
  ∀ b, b ∈ l → paths (BlockDeviceName b) ≠ [] ∧
    getPathForBDev (BlockDeviceName b) w = (Ret (OK (paths (BlockDeviceName b))), w).

Definition device_names (l : list CStorPoolInstanceBlockDevice) : list string := BlockDeviceName <$> l.

Lemma getPathForBdevList_known w paths l :
  paths_known w paths l →
  ∃ m, getPathForBdevList l w = (Ret (m, None), w) ∧
    ∀ k v, m !! k = Some v ↔ k ∈ device_names l ∧ v = paths k.
Proof.
  intros Hk. unfold getPathForBdevList.
  assert (∀ l0 m0, (∀ b, b ∈ l0 → b ∈ l) → ∃ m, foldM path_step (m0, None) l0 w = (Ret (m, None), w) ∧
    ∀ k v, m !! k = Some v ↔ (k ∈ device_names l0 ∧ v = paths k) ∨ (k ∉ device_names l0 ∧ m0 !! k = Some v))
    as Hl.
  { induction l0 as [|b l0 IH]; intros m0 Hin; cbn [foldM].
    { exists m0. split; [done|]. intros k v. set_solver. }
    destruct (Hk b) as [Hne Hb]; [set_solver|].
    destruct (IH (<[BlockDeviceName b := paths (BlockDeviceName b)]> m0)) as (m & Hm & Hl); [set_solver|].
    exists m. split.
    - rewrite (bind_run _ _ w (<[BlockDeviceName b := paths (BlockDeviceName b)]> m0, None) w); [done|].
      unfold path_step. rewrite (bind_run _ _ _ _ _ Hb). by destruct (paths (BlockDeviceName b)).
    - intros k v. rewrite Hl. unfold device_names in *. rewrite fmap_cons, elem_of_cons.
      destruct (decide (k = BlockDeviceName b)) as [->|Hn].
      + rewrite lookup_insert_eq. destruct (decide (BlockDeviceName b ∈ BlockDeviceName <$> l0)); naive_solver.
      + rewrite lookup_insert_ne by done. naive_solver. }
  destruct (Hl l ∅) as (m & Hm & Hs); [done|]. exists m. split; [done|].
  intros k v. rewrite Hs, lookup_empty. naive_solver.
Qed.

Lemma first_paths_known paths (l : list CStorPoolInstanceBlockDevice) (m : gmap string (list string)) :
  (∀ k v, m !! k = Some v ↔ k ∈ device_names l ∧ v = paths k) →
  (∀ b, b ∈ l → paths (BlockDeviceName b) ≠ []) →
  ∃ vdevs, first_paths m = Ret vdevs ∧
    vdevs ≡ₚ (λ n, default "" (head (paths n))) <$> remove_dups (device_names l).
Proof.
  intros Hm Hne. unfold first_paths.
  assert (go_range "disklist" m ≡ₚ (λ n, (n, paths n)) <$> remove_dups (device_names l)) as Hp.
  { rewrite go_range_perm. apply NoDup_Permutation.
    - apply NoDup_map_to_list.
    - apply NoDup_fmap_2; [by intros ?? [= ->]|apply NoDup_remove_dups].
    - intros [k v]. rewrite elem_of_map_to_list, Hm, list_elem_of_fmap.
      setoid_rewrite elem_of_remove_dups. naive_solver. }
  exists ((λ '(_, v), default "" (head v)) <$> go_range "disklist" m). split.
  - assert (∀ x, x ∈ go_range "disklist" m → x.2 ≠ []) as Hx.
    { intros [k v]. rewrite go_range_lookup, Hm. intros [Hk ->]. apply list_elem_of_fmap in Hk as (b & -> & Hb).
      by apply Hne. }
    revert Hx. generalize (go_range "disklist" m). intros r.
    assert (∀ r acc, (∀ x, x ∈ r → x.2 ≠ []) →
      foldO (λ l '((_, v) : string * list string), let* p := slice_at v 0 in Ret (l ++ [p])) acc r
      = Ret (acc ++ ((λ '(_, v), default "" (head v)) <$> r))) as Hf.
    { clear. induction r as [|[k v] r IH]; intros acc Hx; cbn; [by rewrite app_nil_r|].
      destruct v as [|p v]; [by destruct (Hx (k, [])); [set_solver|]|]. cbn.
      rewrite IH by set_solver. by rewrite <-app_assoc. }
    intros Hx. by rewrite (Hf r []).
  - rewrite Hp, <-list_fmap_compose. done.
Qed.

(** ** Creating a pool *)

Lemma execute_Zcmd {A} set_command (ex : A → option executor) (command get_command : A → string) f
  (b : builder A) (w : W) :
  err b = None →
  (∀ c p, get_command (set_command c p) = c) → (∀ c p, ex (set_command c p) = ex p) →
  ex (object b) = Some Zcmd →
  execute (build_with set_command command) ex get_command f b w =
    (let* o := call (bash (command (object b))) in mret (f o)) w.
Proof.
  intros Hb Hg Hx He. unfold execute, execute_by. rewrite build_with_spec by done.
  cbn [upd object]. rewrite Validate_object, Hx, He, Hg. done.
Qed.

(** The arguments of the command that creates the pool of an instance. *)
Definition create_args (pool compression ptype : string) (vdevs : list string) : list string :=
  ["zpool"; "create"; "-o"; "cachefile=" +:+ CStorPoolBasePath +:+ CacheFileName;
   "-O"; "compression=" +:+ compression; "-O"; "canmount=off"; pool] ++
  (if bool_decide (ptype = "stripe") then [] else [ptype]) ++ vdevs.

Definition create_error (o : output) : option error :=
  match o with
  | (_, None) => None
  | (ret, Some _) => Some (Errorf "Failed to create pool.. %s .. %s" [ret])
  end.

Definition compression_of (cspi : CStorPoolInstance) : string :=
  let c := Compression (cspi_PoolConfig (cspi_Spec cspi)) in if IsEmpty c then "lz4" else c.

Lemma PoolName_run (w : W) : ∃ n w', PoolName w = (Ret n, w').
Proof. unfold PoolName, mbind, M_bind, get_globals, reads. case_bool_decide; by eexists _, _. Qed.

Lemma word_set s : word s → str_set s = true.
Proof. intros [Hs _]. unfold str_set. by rewrite bool_decide_false. Qed.

Lemma word_prefix (p s : string) : word p → word s → word (p +:+ s).
Proof. apply word_app. Qed.

Definition create_object (pool compression ptype : string) (vdevs : list string)
  : pcreate.PoolCreate :=
  {| pcreate.Property := ["cachefile=" +:+ CStorPoolBasePath +:+ CacheFileName];
     pcreate.FSProperty := ["compression=" +:+ compression; "canmount=off"];
     pcreate.Pool := pool; pcreate.Type_ := ptype; pcreate.Vdev := vdevs;
     pcreate.Forcefully := false; pcreate.Command := ""; pcreate.Executor := Some Zcmd |}.

Lemma create_object_words pool compression ptype vdevs :
  word pool → word compression → word ptype → word (CStorPoolBasePath +:+ CacheFileName) →
  Forall word vdevs →
  shell_words (pcreate.command (create_object pool compression ptype vdevs)) =
    Some (create_args pool compression ptype vdevs).
Proof.
  intros Hpool Hc Ht Hcache Hv. erewrite reads_shell.
  2:{ apply pool_create_words; cbn [create_object pcreate.Property pcreate.FSProperty pcreate.Pool
        pcreate.Type_ pcreate.Vdev]; [| |done|by right|done].
      - repeat constructor; (apply word_app; [split; [done|reflexivity]|done]).
      - repeat constructor; try done. by (apply word_app; [split; [done|reflexivity]|]). }
  unfold pool_create_args, create_args, create_object, pcreate.IsTypeSet. cbn -[word].
  rewrite (word_set ptype Ht), andb_true_r. by destruct (bool_decide (ptype = "stripe")).
Qed.

Lemma createPool_command cspi r (w w1 : W) pool paths :
  let ptype := DataRaidGroupType (cspi_PoolConfig (cspi_Spec cspi)) in
  word ptype → word (compression_of cspi) → word pool →
  word (CStorPoolBasePath +:+ CacheFileName) →
  paths_known w paths (CStorPoolInstanceBlockDevices r) →
  (∀ b p, b ∈ CStorPoolInstanceBlockDevices r → p ∈ paths (BlockDeviceName b) → word p) →
  PoolName w = (Ret pool, w1) →
  ∃ c vdevs,
    createPool (Some Zcmd) cspi r w = (let* o := call (bash c) in mret (create_error o)) w1 ∧
    shell_words c = Some (create_args pool (compression_of cspi) ptype vdevs) ∧
    vdevs ≡ₚ (λ n, default "" (head (paths n))) <$> remove_dups (rg_bds r).
Proof.
  intros ptype Ht Hc Hpool Hcache Hk Hw Hn.
  destruct (getPathForBdevList_known w paths _ Hk) as (m & Hm & Hl).
  destruct (first_paths_known paths (CStorPoolInstanceBlockDevices r) m) as (vdevs & Hv & Hp);
    [done|by intros b Hb; apply Hk|].
  exists (pcreate.command (create_object pool (compression_of cspi) ptype vdevs)), vdevs.
  split_and!; [| |done].
  - unfold createPool. fold ptype. replace (IsEmpty ptype) with false
      by (symmetry; apply bool_decide_eq_false; by destruct Ht).
    rewrite (bind_run _ _ _ _ _ Hm). cbn beta iota.
    rewrite (bind_run _ _ w vdevs w) by (unfold lift; by rewrite Hv). cbv zeta. fold (compression_of cspi).
    rewrite (bind_run _ _ _ _ _ Hn). unfold pcreate.Execute, pcreate.Build, mbind at 1, M_bind at 1.
    rewrite execute_Zcmd by done. unfold mbind, M_bind, call.
    replace (object _) with (create_object pool (compression_of cspi) ptype vdevs).
    + destruct (bash _ w1) as [[ret [e|]] w2]; reflexivity.
    + unfold pcreate.WithFSProperty, pcreate.WithProperty, upd. cbn [object].
      rewrite (word_set _ Hc), (word_set _ Hcache). reflexivity.
  - apply create_object_words; [done..|]. apply Forall_forall. intros x Hx.
    rewrite Hp in Hx. apply list_elem_of_fmap in Hx as (n & -> & Hx). rewrite elem_of_remove_dups in Hx.
    apply list_elem_of_fmap in Hx as (b & -> & Hb). destruct (Hk b Hb) as [Hne _].
    apply (Hw b); [done|]. destruct (paths (BlockDeviceName b)); [done|set_solver].
Qed.

(** ** Remembered properties *)

Lemma unset_properties_spec oc d l m unset (w : W) m2 unset2 w' :
  NoDup l.*1 →
  unset_properties oc d l m unset w = (Ret (OK (m2, unset2)), w') →
  (∀ k v, (k, v) ∈ l → m2 !! k = Some v ∨ unset2 !! k = Some v) ∧
  (∀ k, k ∉ l.*1 → m2 !! k = m !! k ∧ unset2 !! k = unset !! k) ∧
  (∀ k v, unset2 !! k = Some v → unset !! k = Some v ∨ (k, v) ∈ l).
Proof.
  revert m unset w. induction l as [|[k v] l IH]; intros m unset w; cbn [unset_properties].
  { intros _ [[= -> ->] _]%mret_run. set_solver. }
  cbn. intros [Hk Hl]%NoDup_cons. case_bool_decide as Hm.
  { intros (Ha & Hb & Hc)%IH; [|done]. destruct (Hb k Hk) as [Hb1 _]. split_and!; [|set_solver..].
    intros k' v' [[= -> ->]|Hin]%elem_of_cons; [left; congruence|auto]. }
  intros (r & w1 & _ & Hr)%M_bind_Ret. destruct r as [val|e]; [|by apply mret_run in Hr as [[=] _]].
  case_bool_decide as Hv.
  - apply M_bind_Ret in Hr as (m1 & w2 & Hm1 & Hr). unfold remember in Hm1.
    apply M_bind_Ret in Hm1 as (u & w3 & _ & Hm1). apply mret_run in Hm1 as [[= ->] ->].
    apply IH in Hr as (Ha & Hb & Hc); [|done]. destruct (Hb k Hk) as [Hb1 _].
    rewrite lookup_insert_eq in Hb1. split_and!.
    + intros k' v' [[= -> ->]|Hin]%elem_of_cons; [by left|auto].
    + intros k' Hk'. destruct (Hb k') as [-> ->]; [set_solver|]. rewrite lookup_insert_ne by set_solver. done.
    + set_solver.
  - apply IH in Hr as (Ha & Hb & Hc); [|done]. destruct (Hb k Hk) as [_ Hb2].
    rewrite lookup_insert_eq in Hb2. split_and!.
    + intros k' v' [[= -> ->]|Hin]%elem_of_cons; [by right|auto].
    + intros k' Hk'. destruct (Hb k') as [-> ->]; [set_solver|]. rewrite lookup_insert_ne by set_solver. done.
    + intros k' v' [Hin|Hin]%Hc; [|set_solver]. destruct (decide (k' = k)) as [->|Hne].
      * rewrite lookup_insert_eq in Hin. injection Hin as ->. set_solver.
      * rewrite lookup_insert_ne in Hin by done. auto.
Qed.

Lemma unset_properties_known oc d l m (w : W) :
  (∀ k v, (k, v) ∈ l → m !! k = Some v) →
  unset_properties oc d l m ∅ w = (Ret (OK (m, ∅)), w).
Proof.
  induction l as [|[k v] l IH]; intros Hm; cbn [unset_properties]; [done|].
  rewrite bool_decide_true by (apply Hm; set_solver). apply IH. set_solver.
Qed.

Lemma lookup_inserts (l : list (string * string)) (m : gmap string string) k :
  NoDup l.*1 →
  foldl (λ m '(key, value), <[key := value]> m) m l !! k =
    match (list_to_map l : gmap string string) !! k with Some v => Some v | None => m !! k end.
Proof.
  revert m. induction l as [|[k' v] l IH]; intros m; cbn; [by rewrite lookup_empty|].
  intros [Hk Hl]%NoDup_cons. rewrite IH by done. destruct (decide (k = k')) as [->|Hne].
  - rewrite lookup_insert_eq, not_elem_of_list_to_map_1 by done. by rewrite lookup_insert_eq.
  - by rewrite !lookup_insert_ne by done.
Qed.

Lemma NoDup_range_keys {A} site (m : gmap string A) : NoDup (go_range site m).*1.
Proof. rewrite go_range_perm. apply NoDup_fst_map_to_list. Qed.

Lemma lookup_range_map {A} site (m : gmap string A) : list_to_map (go_range site m) = m.
Proof.
  rewrite (list_to_map_proper _ (map_to_list m)); [apply list_to_map_to_list| |apply go_range_perm].
  apply NoDup_range_keys.
Qed.

(** After a run without an error the desired properties are remembered. *)
Lemma SetPoolFSProperties_stores oc d desired (w w' : W) :
  SetPoolFSPropertiesIfNot oc d desired w = (Ret None, w') →
  ∃ m, g_datasets (globals w') !! d = Some m ∧ desired ⊆ m.
Proof.
  unfold SetPoolFSPropertiesIfNot. intros (g & w1 & [= <- <-] & Hr)%M_bind_Ret. cbv zeta in Hr.
  apply M_bind_Ret in Hr as (r & w2 & Hu & Hr). destruct r as [[m unset]|e]; [|by apply mret_run in Hr as [[=] _]].
  apply unset_properties_spec in Hu as (Ha & _ & Hc); [|apply NoDup_range_keys].
  case_bool_decide as He.
  - subst unset. apply M_bind_Ret in Hr as (u & w3 & [= <- <-] & Hr). apply mret_run in Hr as [_ ->].
    exists m. rewrite globals_with. cbn. rewrite lookup_insert_eq. split; [done|].
    apply map_subseteq_spec. intros k v Hk. destruct (Ha k v); [by apply go_range_lookup|done|].
    by rewrite lookup_empty in *.
  - apply M_bind_Ret in Hr as ([ret [err|]] & w3 & _ & Hr); [by apply mret_run in Hr as [[=] _]|].
    apply M_bind_Ret in Hr as (u & w4 & [= <- <-] & Hr). apply mret_run in Hr as [_ ->].
    eexists. rewrite globals_with. cbn. rewrite lookup_insert_eq. split; [done|].
    apply map_subseteq_spec. intros k v Hk. rewrite lookup_inserts by apply NoDup_range_keys.
    rewrite lookup_range_map. destruct (unset !! k) as [v'|] eqn:Hun.
    + destruct (Hc k v' Hun) as [Hx|Hx]; [by rewrite lookup_empty in Hx|].
      apply go_range_lookup in Hx. congruence.
    + destruct (Ha k v); [by apply go_range_lookup|done|congruence].
Qed.

(** With remembered properties no command is run and nothing changes. *)
Lemma SetPoolFSProperties_known oc d desired m (w : W) :
  g_datasets (globals w) !! d = Some m → desired ⊆ m →
  SetPoolFSPropertiesIfNot oc d desired w = (Ret None, w).
Proof.
  intros Hm Hs. unfold SetPoolFSPropertiesIfNot. rewrite (bind_run _ _ w (globals w) w) by done.
  rewrite Hm. cbn [default]. rewrite (bind_run _ _ w (OK (m, ∅)) w).
  - rewrite bool_decide_true by done. rewrite (bind_run _ _ w tt w); [done|].
    unfold store_properties, set_globals. f_equal. unfold g_with_datasets.
    rewrite insert_id by done. etrans; [|apply with_globals_same]. f_equal. by destruct (globals w).
  - apply unset_properties_known. intros k v Hk%go_range_lookup. by eapply lookup_weaken.
Qed.

(** ** The read-only mode *)

Definition used_bytes (st : CStorPoolInstanceStatus) : Z := Quantity_Value (cap_Used (csps_Capacity st)).
Definition free_bytes (st : CStorPoolInstanceStatus) : Z := Quantity_Value (cap_Free (csps_Capacity st)).
Definition ro_limit (cspi : CStorPoolInstance) : Z :=
  default defaultROThreshold (ROThresholdLimit (cspi_PoolConfig (cspi_Spec cspi))).

(** Whether the pool has to be read-only: the share of the used bytes, in percent and rounded
    down, reaches a limit below 100. *)
Definition must_be_readonly (limit used total : Z) : bool :=
  (limit <=? used * 100 / total)%Z && negb (limit =? 100)%Z.

Lemma int64_id x : (- 2 ^ 63 ≤ x < 2 ^ 63)%Z → int64 x = x.
Proof. intros Hx. unfold int64. rewrite Z.mod_small; lia. Qed.

Lemma div64_exact a b : (0 ≤ a < 2 ^ 63)%Z → (0 < b)%Z → div64 a b = Ret (a / b)%Z.
Proof.
  intros Ha Hb. unfold div64. destruct (Z.eqb_spec b 0); [lia|]. f_equal.
  rewrite Z.quot_div_nonneg by lia. apply int64_id.
  pose proof (Z.div_pos a b). pose proof (Z.div_le_upper_bound a b a). nia.
Qed.

Lemma execute_returns {A} (build : builder A → builder A * option error) ex command f b (w : W) :
  ∃ o w', execute build ex command f b w = (Ret o, w').
Proof.
  unfold execute, execute_by. destruct (build b) as [b' [e|]]; [by eexists _, _|].
  destruct (ex (object b')) as [[]|]; cbn; unfold Zcmd_Execute, mbind, M_bind, call;
    destruct (bash _ w); by eexists _, _.
Qed.

Lemma SetPoolRDMode_returns oc pool mode (w : W) : ∃ err w', SetPoolRDMode oc pool mode w = (Ret err, w').
Proof.
  unfold SetPoolRDMode. unfold pset.Execute.
  match goal with |- context [execute ?b ?e ?c ?f ?x] =>
    destruct (execute_returns b e c f x w) as ([ret e'] & w' & Hr) end.
  rewrite (bind_run _ _ _ _ _ Hr). destruct e'; by eexists _, _.
Qed.

(** The result of the switch to a mode. *)
Definition switched (oc : option executor) (pool : string) (mode : bool) (st st' : CStorPoolInstanceStatus)
  (w w' : W) : Prop :=
  ∃ err w2, SetPoolRDMode oc pool mode w = (Ret err, w2) ∧
    match err with
    | Some _ => st' = st ∧ w' = w2
    | None => st' = st {{ csps_ReadOnly := mode }} ∧ ∃ e, w' = Event e w2
    end.

Lemma updateROMode_spec oc st cspi (w w1 : W) pool :
  PoolName w = (Ret pool, w1) →
  (0 ≤ free_bytes st)%Z → (0 ≤ used_bytes st)%Z → (used_bytes st * 100 < 2 ^ 63)%Z →
  (0 < free_bytes st + used_bytes st < 2 ^ 63)%Z →
  let want := must_be_readonly (ro_limit cspi) (used_bytes st) (free_bytes st + used_bytes st) in
  ∃ st' w', updateROMode oc st cspi w = (Ret st', w') ∧
    if bool_decide (csps_ReadOnly st = want) then st' = st ∧ w' = w1
    else switched oc pool want st st' w1 w'.
Proof.
  intros Hn Hf Hu Hm Ht want. unfold updateROMode. fold (used_bytes st) (free_bytes st) (ro_limit cspi).
  cbv zeta. rewrite (bind_run _ _ _ _ _ Hn).
  rewrite (bind_run _ _ w1 (used_bytes st * 100 / (free_bytes st + used_bytes st))%Z w1).
  2:{ unfold lift. rewrite !int64_id, div64_exact by lia. done. }
  fold (must_be_readonly (ro_limit cspi) (used_bytes st) (free_bytes st + used_bytes st)). fold want.
  destruct want, (csps_ReadOnly st); cbn [bool_decide decide_rel bool_eq_dec decide].
  - by eexists _, _.
  - destruct (SetPoolRDMode_returns oc pool true w1) as (err & w2 & Hs). rewrite (bind_run _ _ _ _ _ Hs).
    destruct err; eexists _, _; (split; [done|]); eexists _, _; (split; [exact Hs|]); [done|].
    split; [done|by eexists].
  - destruct (SetPoolRDMode_returns oc pool false w1) as (err & w2 & Hs). rewrite (bind_run _ _ _ _ _ Hs).
    destruct err; eexists _, _; (split; [done|]); eexists _, _; (split; [exact Hs|]); [done|].
    split; [done|by eexists].
  - by eexists _, _.
Qed.

(** A pool without capacity makes the division panic. *)
Lemma updateROMode_panics oc st cspi (w w1 : W) pool :
  PoolName w = (Ret pool, w1) → (free_bytes st + used_bytes st = 0)%Z →
  updateROMode oc st cspi w = (Panic "integer divide by zero", w1).
Proof.
  intros Hn Ht. unfold updateROMode. fold (used_bytes st) (free_bytes st). cbv zeta.
  rewrite (bind_run _ _ _ _ _ Hn), Ht. done.
Qed.

(** ** Devices of an updated instance *)

Definition unlink_bd (b : CStorPoolInstanceBlockDevice) : CStorPoolInstanceBlockDevice :=
  {| BlockDeviceName := BlockDeviceName b; bd_Capacity := bd_Capacity b; DevLink := "" |}.
Definition unlink_rg (rg : RaidGroup) : RaidGroup :=
  {| CStorPoolInstanceBlockDevices := unlink_bd <$> CStorPoolInstanceBlockDevices rg |}.
(** A specification without the links of its devices. *)
Definition unlinked (s : CStorPoolInstanceSpec) : CStorPoolInstanceSpec :=
  {| cspi_HostName := cspi_HostName s; cspi_NodeSelector := cspi_NodeSelector s;
     cspi_PoolConfig := cspi_PoolConfig s;
     cspi_DataRaidGroups := unlink_rg <$> cspi_DataRaidGroups s;
     cspi_WriteCacheRaidGroups := unlink_rg <$> cspi_WriteCacheRaidGroups s |}.

(** How the loops change their variables: the flags are only set, and a device is counted when
    its replacement starts and is not yet finished. *)
Definition progress (st st' : update_state) : Prop :=
  (isRaidGroupChanged st = true → isRaidGroupChanged st' = true) ∧
  (isObjChanged st = true → isObjChanged st' = true) ∧
  (isReplacementTriggered st = true → isReplacementTriggered st' = true) ∧
  (replacingBlockDeviceCount st ≤ replacingBlockDeviceCount st')%Z.

Lemma progress_refl st : progress st st.
Proof. repeat split; auto; lia. Qed.
Lemma progress_trans st1 st2 st3 : progress st1 st2 → progress st2 st3 → progress st1 st3.
Proof. unfold progress. intuition lia. Qed.

Lemma finish_replacement_spec oc cspi bdev claim pred disk st (w w' : W) st' :
  finish_replacement oc cspi bdev claim pred disk st w = (Ret st', w') →
  isRaidGroupChanged st' = isRaidGroupChanged st ∧ isObjChanged st' = isObjChanged st ∧
  (isReplacementTriggered st = true → isReplacementTriggered st' = true) ∧
  (st' = st ∨ pred ≠ "" ∧ (replacingBlockDeviceCount st - 1 ≤ replacingBlockDeviceCount st')%Z).
Proof.
  destruct st as [cl er g o t n]. unfold finish_replacement, IsEmpty. case_bool_decide as Hp; [by intros [[= ->] _]%mret_run; auto|].
  intros ([|] & w1 & _ & Hr)%M_bind_Ret; [by apply mret_run in Hr as [[= ->] _]; auto|].
  apply M_bind_Ret in Hr as ([c [e|]] & w2 & _ & Hr).
  - apply mret_run in Hr as [[= ->] _]. cbn. split_and!; [done..|]. right. split; [done|lia].
  - apply M_bind_Ret in Hr as (u & w3 & _ & Hr). apply mret_run in Hr as [[= ->] _]. cbn.
    split_and!; [done..|]. right. split; [done|lia].
Qed.

Lemma replace_device_spec oc cspi bdev claim pred old st (w w' : W) bdev' st' :
  replace_device oc cspi bdev claim pred old st w = (Ret (bdev', st'), w') →
  unlink_bd bdev' = unlink_bd bdev ∧
  (bdev' ≠ bdev → isRaidGroupChanged st' = true) ∧
  (isRaidGroupChanged st = true → isRaidGroupChanged st' = true) ∧
  (isObjChanged st = true → isObjChanged st' = true) ∧
  (isReplacementTriggered st = true → isReplacementTriggered st' = true) ∧
  (replacingBlockDeviceCount st - (if bool_decide (pred = "") then 0 else 1)
     ≤ replacingBlockDeviceCount st')%Z.
Proof.
  destruct st as [cl er g o t n]. unfold replace_device. cbv zeta. intros ([newPath|e] & w1 & _ & Hr)%M_bind_Ret.
  - apply M_bind_Ret in Hr as ([disk|e] & w2 & _ & Hr).
    2:{ apply mret_run in Hr as [[= -> ->] _]. cbn. split_and!; [done..|]. case_bool_decide; lia. }
    apply M_bind_Ret in Hr as (u & w3 & _ & Hr). apply M_bind_Ret in Hr as (st1 & w4 & Hf & Hr).
    apply mret_run in Hr as [[= -> ->] _]. apply finish_replacement_spec in Hf as (Hg & Ho & Ht & Hc).
    destruct (negb (IsEmpty disk) && negb (bool_decide (disk = DevLink bdev))); cbn in *.
    + rewrite Hg, Ho. split_and!; [done..|]. destruct Hc as [->|[Hp Hc]]; cbn in *; [case_bool_decide; lia|].
      rewrite bool_decide_false by done. lia.
    + rewrite Hg, Ho. split_and!; [done..|]. destruct Hc as [->|[Hp Hc]]; cbn in *; [case_bool_decide; lia|].
      rewrite bool_decide_false by done. lia.
  - apply M_bind_Ret in Hr as (u & w3 & _ & Hr). apply M_bind_Ret in Hr as (st1 & w4 & Hf & Hr).
    apply mret_run in Hr as [[= -> ->] _]. apply finish_replacement_spec in Hf as (Hg & Ho & Ht & Hc).
    cbn in *. rewrite Hg, Ho. split_and!; [done..|].
    destruct Hc as [->|[Hp Hc]]; cbn in *; [case_bool_decide; lia|]. rewrite bool_decide_false by done. lia.
Qed.

Lemma update_device_spec oc cspi bdev st (w w' : W) bdev' st' :
  update_device oc cspi bdev st w = (Ret (bdev', st'), w') →
  unlink_bd bdev' = unlink_bd bdev ∧ (bdev' ≠ bdev → isRaidGroupChanged st' = true) ∧ progress st st'.
Proof.
  destruct st as [cl er g o t n]. unfold update_device. destruct (GetBlockDeviceClaimFromBDName _ _) as [claim|e].
  2:{ intros [[= -> ->] _]%mret_run. split_and!; [done..|]. repeat split; cbn; auto; lia. }
  unfold IsEmpty. case_bool_decide as Hp.
  - intros (Hu & Hb & Hg & Ho & Ht & Hc)%replace_device_spec.
    rewrite bool_decide_true in Hc by done. cbn in *.
    split_and!; [done..|]. repeat split; cbn; auto; lia.
  - intros ([old|e] & w1 & _ & Hr)%M_bind_Ret.
    2:{ apply mret_run in Hr as [[= -> ->] _]. split_and!; [done..|]. repeat split; cbn; auto; lia. }
    apply replace_device_spec in Hr as (Hu & Hb & Hg & Ho & Ht & Hc). cbn in *.
    rewrite bool_decide_false in Hc by done. split_and!; [done..|]. repeat split; cbn; auto; lia.
Qed.

Lemma update_devices_spec oc cspi l st (w w' : W) l' st' :
  update_devices oc cspi l st w = (Ret (l', st'), w') →
  unlink_bd <$> l' = unlink_bd <$> l ∧ (l' ≠ l → isRaidGroupChanged st' = true) ∧ progress st st'.
Proof.
  revert st w l' st' w'. induction l as [|b l IH]; intros st w l' st' w'; cbn [update_devices].
  { intros [[= -> ->] _]%mret_run. split_and!; [done..|apply progress_refl]. }
  intros ([b' st1] & w1 & (Hu & Hb & Hp)%update_device_spec & Hr)%M_bind_Ret.
  apply M_bind_Ret in Hr as ([l1 st2] & w2 & (Hu' & Hb' & Hp')%IH & Hr).
  apply mret_run in Hr as [[= -> ->] _]. cbn. rewrite Hu, Hu'. split_and!; [done| |by eapply progress_trans].
  intros Hne. destruct (decide (b' = b)) as [->|Hn]; [apply Hb'; congruence|]. apply Hp'. auto.
Qed.

Lemma update_groups_spec oc cspi l st (w w' : W) l' st' :
  update_groups oc cspi l st w = (Ret (l', st'), w') →
  unlink_rg <$> l' = unlink_rg <$> l ∧ (l' ≠ l → isObjChanged st' = true) ∧
  (isObjChanged st = true → isObjChanged st' = true) ∧
  (isReplacementTriggered st = true → isReplacementTriggered st' = true) ∧
  (replacingBlockDeviceCount st ≤ replacingBlockDeviceCount st')%Z.
Proof.
  revert st w l' st' w'. induction l as [|rg l IH]; intros st w l' st' w'; cbn [update_groups].
  { intros [[= -> ->] _]%mret_run. split_and!; [done..|lia]. }
  destruct st as [cl er g o t n]. intros ([rg' st1] & w1 & Hg & Hr)%M_bind_Ret.
  apply M_bind_Ret in Hr as ([l1 st2] & w2 & (Hu' & Hb' & Ho' & Ht' & Hc')%IH & Hr).
  apply mret_run in Hr as [[= -> ->] _]. unfold update_group in Hg.
  apply M_bind_Ret in Hg as ([bdevs st3] & w3 & (Hu & Hb & Hp)%update_devices_spec & Hr).
  apply mret_run in Hr as [[= -> ->] _]. destruct Hp as (_ & Ho & Ht & Hc). destruct st3 as [cl' er' g' o' t' n']. cbn in *.
  cbn. rewrite Hu'. unfold unlink_rg at 1. cbn. rewrite Hu. split_and!; [done|..].
  - intros Hne. destruct (decide (bdevs = CStorPoolInstanceBlockDevices rg)) as [->|Hn].
    + apply Hb'. intros ->. apply Hne. by destruct rg.
    + apply Ho'. by rewrite (Hb Hn).
  - intros Hs. apply Ho'. destruct g'; [done|auto].
  - intros Hs. apply Ht'. destruct g'; cbn; auto.
  - etrans; [exact Hc|]. by destruct g'.
Qed.

Definition groups_of (dt : string) (cspi : CStorPoolInstance) : list RaidGroup :=
  if bool_decide (dt = DeviceTypeData) then cspi_DataRaidGroups (cspi_Spec cspi)
  else cspi_WriteCacheRaidGroups (cspi_Spec cspi).

Lemma config_groups cspi site dt c :
  (dt, c) ∈ go_range site (getRaidGroupsConfigMap cspi) →
  (dt = DeviceTypeData ∨ dt = DeviceTypeWriteCache) ∧ RaidGroups c = groups_of dt cspi.
Proof.
  rewrite go_range_lookup. unfold getRaidGroupsConfigMap. cbv zeta. intros Hl.
  apply lookup_insert_Some in Hl as [[<- <-]|[Hne [<- <-]%lookup_singleton_Some]]; auto.
Qed.

Lemma share_same dt cspi : share_groups dt (groups_of dt cspi) cspi = cspi.
Proof.
  destruct cspi as [m s st v]. destruct s. unfold share_groups, groups_of. by case_bool_decide.
Qed.

Lemma unlinked_share dt rgs cspi :
  unlink_rg <$> rgs = unlink_rg <$> groups_of dt cspi →
  unlinked (cspi_Spec (share_groups dt rgs cspi)) = unlinked (cspi_Spec cspi).
Proof.
  destruct cspi as [m s st v]. destruct s. unfold share_groups, groups_of, unlinked.
  case_bool_decide; cbn; unfold constant; by intros ->.
Qed.

Lemma groups_of_share dt dt' rgs cspi :
  (dt = DeviceTypeData ∨ dt = DeviceTypeWriteCache) → (dt' = DeviceTypeData ∨ dt' = DeviceTypeWriteCache) →
  dt ≠ dt' → groups_of dt' (share_groups dt rgs cspi) = groups_of dt' cspi.
Proof. destruct cspi as [m s st v]. destruct s. intros [->| ->] [->| ->] Hne; done. Qed.

(** The parts of an instance apart from its specification. *)
Definition frame (cspi : CStorPoolInstance) : ObjectMeta * CStorPoolInstanceStatus * VersionDetails :=
  (cspi_meta cspi, cspi_Status cspi, cspi_VersionDetails cspi).

Lemma update_types_spec oc configs cspi st (w w' : W) cspi' st' :
  NoDup configs.*1 →
  (∀ dt c, (dt, c) ∈ configs →
     (dt = DeviceTypeData ∨ dt = DeviceTypeWriteCache) ∧ RaidGroups c = groups_of dt cspi) →
  update_types oc cspi configs st w = (Ret (cspi', st'), w') →
  unlinked (cspi_Spec cspi') = unlinked (cspi_Spec cspi) ∧ frame cspi' = frame cspi ∧
  (cspi' ≠ cspi → isObjChanged st' = true) ∧
  (isObjChanged st = true → isObjChanged st' = true) ∧
  (replacingBlockDeviceCount st ≤ replacingBlockDeviceCount st')%Z.
Proof.
  unfold update_types. revert cspi st w. induction configs as [|[dt c] configs IH]; intros cspi st w.
  { intros _ _ [[= -> ->] _]%mret_run. split_and!; [done..|lia]. }
  cbn [foldM fmap list_fmap]. intros [Hdt Hnd]%NoDup_cons Hc (x & w1 & Hx & Hr)%M_bind_Ret. cbn beta iota in Hx.
  apply M_bind_Ret in Hx as ([rgs st1] & w2 & Hg & Hx). apply mret_run in Hx as [[= ->] ->].
  apply update_groups_spec in Hg as (Hu & Hch & Ho & _ & Hn).
  destruct (Hc dt c) as [Hty Hgr]; [set_solver|]. rewrite Hgr in Hu, Hch.
  apply IH in Hr as (Hu' & Hf' & Hch' & Ho' & Hn'); [|done|].
  - split_and!; [|by rewrite Hf'| |auto|lia].
    + rewrite Hu'. by apply unlinked_share.
    + intros Hne. destruct (decide (rgs = groups_of dt cspi)) as [->|Hd]; [|auto].
      rewrite share_same in Hch'. auto.
  - intros dt' c' Hin. destruct (Hc dt' c') as [Hty' Hgr']; [set_solver|]. split; [done|].
    rewrite groups_of_share; [done..|]. intros ->. apply Hdt. apply list_elem_of_fmap. by exists (dt', c').
Qed.

(** The API server returns the specification that it was given. *)
Class SpecClient : Prop := {
  rUpdate_spec : ∀ ns (o o' : CStorPoolInstance) (w w' : W),
    rUpdate ns o w = (OK o', w') → cspi_Spec o' = cspi_Spec o;
}.
Context `{!SpecClient}.

Lemma call_update_spec ns (o : CStorPoolInstance) (w w' : W) r :
  call (rUpdate ns o) w = (Ret r, w') →
  match r with OK o' => cspi_Spec o' = cspi_Spec o | Err _ => True end.
Proof.
  unfold call. destruct (rUpdate ns o w) as [r' w1] eqn:Hu. intros [= <- <-].
  destruct r'; [by eapply rUpdate_spec|done].
Qed.

Lemma update_object_spec cspi st (w w' : W) cspi' err :
  update_object cspi st w = (Ret (cspi', err), w') → cspi_Spec cspi' = cspi_Spec cspi.
Proof.
  unfold update_object. intros (c & w1 & Hc & Hr)%M_bind_Ret.
  assert (cspi_Spec c = cspi_Spec cspi) as Hs.
  { destruct (isReplacementTriggered st); [|by apply mret_run in Hc as [[= ->] _]].
    apply M_bind_Ret in Hc as (cond & w2 & _ & Hc). by apply mret_run in Hc as [[= ->] _]. }
  destruct (_ || _); [|by apply mret_run in Hr as [[= -> _] _]].
  apply M_bind_Ret in Hr as (r & w2 & Hu%call_update_spec & Hr).
  destruct r; apply mret_run in Hr as [[= -> _] _]; congruence.
Qed.

Lemma updateNewVdev_spec oc cspi (w w' : W) c c' err :
  updateNewVdevFromCSPI oc cspi w = (Ret (c, c', err), w') →
  cspi_Spec c = cspi_Spec cspi ∧ cspi_Spec c' = cspi_Spec cspi.
Proof.
  unfold updateNewVdevFromCSPI. intros ([t [e|]] & w1 & _ & Hr)%M_bind_Ret;
    [by apply mret_run in Hr as [[= -> -> _] _]|].
  apply M_bind_Ret in Hr as ([[tr er]|e] & w2 & _ & Hr); [|by apply mret_run in Hr as [[= -> -> _] _]].
  apply M_bind_Ret in Hr as ([cond|] & w3 & _ & Hr); [|by apply mret_run in Hr as [[= -> -> _] _]].
  cbv zeta in Hr. apply M_bind_Ret in Hr as (r & w4 & Hu%call_update_spec & Hr).
  destruct r; by apply mret_run in Hr as [[= -> -> _] _].
Qed.

(** Update changes nothing in the specification but links of devices. *)
Lemma Update_devices oc cspi (w w' : W) cspi' err :
  Update oc cspi w = (Ret (cspi', err), w') → unlinked (cspi_Spec cspi') = unlinked (cspi_Spec cspi).
Proof.
  unfold Update. intros ([claims|e] & w1 & _ & Hr)%M_bind_Ret; [|by apply mret_run in Hr as [[= -> _] _]].
  cbv zeta in Hr. apply M_bind_Ret in Hr as ([c st] & w2 & Hu & Hr).
  apply update_types_spec in Hu as (Hl & _); [|apply NoDup_range_keys|intros ???; by eapply config_groups].
  apply M_bind_Ret in Hr as ([c2 err2] & w3 & Ho%update_object_spec & Hr).
  apply M_bind_Ret in Hr as ([[c3 c4] er] & w4 & [Hc3 Hc4]%updateNewVdev_spec & Hr).
  rewrite <-Hl. destruct er as [er|].
  - apply M_bind_Ret in Hr as (u & w5 & _ & Hr). apply mret_run in Hr as [[= -> _] _]. congruence.
  - apply mret_run in Hr as [[= -> _] _]. congruence.
Qed.
End facts.
