(* ===== verification/PoolMemory.v ===== *)
(** * PoolMemory: a pool manager in the in-memory cluster

    The cluster of [Memory] with the variables of the process and with zfs tools that are a
    function of the commands run so far and of the command; the commands are logged.  The
    outputs that are JSON in reality are lines here: paths of devices, statistics of volumes,
    names of snapshots. *)

From stdpp Require Import base gmap strings list sets pretty.
From Stdlib Require Import Ascii ZArith Lia.
From S2P Require Import Prelude Api Memory VolumeApi VolumeMemory Zcmd Zpool Zfs PoolApi VolumeReplica PoolManager CspiSync ReplicaSync PoolLock PoolFacts.

Record pool_world := {
  pw_base : cluster;
  pw_globals : pool_globals;
  pw_tool : list string → string → output;
  pw_log : list string;
}.

Definition pw_with_base (b : cluster) (c : pool_world) : pool_world :=
  {| pw_base := b; pw_globals := pw_globals c; pw_tool := pw_tool c; pw_log := pw_log c |}.

#[export] Instance pool_stored {Obj} `{!Stored cluster Obj} : Stored pool_world Obj :=
  {| store_of c := store_of (pw_base c);
     with_store m c := pw_with_base (with_store m (pw_base c)) c |}.

#[export] Instance pool_env : Env pool_world := {|
  rand_String n c := let '(s, b) := rand_String n (pw_base c) in (s, pw_with_base b c);
  Now c := Now (pw_base c);
  Event e c := pw_with_base (Event e (pw_base c)) c;
  rPatch ns n bytes c := let '(r, b) := rPatch ns n bytes (pw_base c) in (r, pw_with_base b c);
|}.

#[export] Instance pool_process : Process pool_world := {|
  globals := pw_globals;
  with_globals g c :=
    {| pw_base := pw_base c; pw_globals := g; pw_tool := pw_tool c; pw_log := pw_log c |};
|}.
#[export] Instance pool_process_laws : ProcessLaws pool_world.
Proof. split; intros; [done..|by destruct w]. Qed.

Definition pool_bash (c : string) (w : pool_world) : output * pool_world :=
  (pw_tool w (pw_log w) c,
   {| pw_base := pw_base w; pw_globals := pw_globals w; pw_tool := pw_tool w; pw_log := pw_log w ++ [c] |}).
#[export] Instance pool_shell : Shell pool_world := {| bash := pool_bash |}.
#[export] Instance pool_runner : Runner pool_world := {|
  RunStdoutPipe c l := pool_bash (join " " (c :: l));
  RunCombinedOutput c l := pool_bash (join " " (c :: l));
|}.
#[export] Instance pool_frame : ProcessFrame pool_world.
Proof. by split. Qed.

#[export] Instance pool_clients {Obj} `{HasMeta Obj} `{!Stored cluster Obj} :
  ClientFrame pool_world Obj.
Proof.
  split; intros; cbn; repeat case_match; try done; by repeat case_match.
Qed.

(** The one patch of the pool manager removes the finalizers of a replica. *)
#[export] Instance cvr_patches : PatchClient pool_world CStorVolumeReplica := {|
  rPatchObject ns n _ _ w :=
    match store_of (Obj:=CStorVolumeReplica) w !! (ns, n) with
    | None => (Err (APIError NotFound n), w)
    | Some o =>
        let o := with_meta (meta_with_finalizers [] (meta o)) o in
        (OK o, with_store (<[(ns, n) := o]> (store_of w)) w)
    end;
|}.
#[export] Instance cvr_patch_frame : PatchFrame pool_world CStorVolumeReplica.
Proof. split. intros. cbn. by case_match. Qed.

#[export] Instance pool_spec_client : SpecClient (W:=pool_world).
Proof.
  split. intros ns o o' w w'. cbn. repeat case_match; intros [= <- _]; done.
Qed.

(** The pod of the pool p1. *)
#[export] Instance pool_pod : PodEnv := {|
  os_LookupEnv n := if bool_decide (n = "OPENEBS_IO_POOL_NAME") then Some "p1" else None;
  GetServiceAccountName := "openebs-maya-operator";
  GetOpenEBSImagePullSecrets := "";
  GetImagePullSecrets _ := [];
  GetOpenebsBaseDirPath := "/var/openebs";
|}.

(** ** Outputs *)

Definition healthy_vdev (path : string) : Vdev := mkVdev path 1 [0; 7; 0]%Z [] [].
Definition fields_of (s : string) : list (list string) :=
  filter (λ l, l ≠ []) (strings_Fields <$> lines s).

#[export] Instance line_json : ZJson := {|
  json_Topology s :=
    ({| VdevTree_ := {| Topvdev := healthy_vdev <$> (concat (fields_of s)); Spares := []; Readcache := [] |} |},
     None);
  json_ZFSStats s :=
    ({| zfs_Stats := fields_of s ≫= λ l,
          match l with
          | [n; st; q] => [{| stats_Name := n; stats_Status := st; RebuildStatus := "";
                              Quorum := if bool_decide (q = "1") then 1%Z else 0%Z |}]
          | _ => []
          end |}, None);
  json_SnapshotList s :=
    ({| sl_Name := ""; SnapList := list_to_map ((λ n, (n, "")) <$> concat (fields_of s)) |}, None);
|}.

(** ** A reference implementation of the helpers *)

Fixpoint find_vdev (path : string) (v : Vdev) : option Vdev :=
  match v with
  | mkVdev p _ _ _ children =>
      if bool_decide (p = path) then Some v
      else (fix search l :=
              match l with
              | [] => None
              | c :: l' => match find_vdev path c with Some r => Some r | None => search l' end
              end) children
  end.

Definition int64_range (x : Z) : Z := Z.max (- 2 ^ 63) (Z.min (2 ^ 63 - 1) x).
Definition quantity (n : Z) : Quantity := {| q_i := (n, 0%Z); q_d := None; q_s := ""; q_Format := "DecimalSI" |}.

#[export] Instance ref_pool_api : PoolApi := {|
  OpenEBSCStorExistingPoolName := "cstor.openebs.io/existing-pool-name";
  CStorPoolBasePath := "/var/openebs/cstor-pool/";
  CacheFileName := "pool.cache";
  CStorPoolStatusPending := "PENDING";
  CStorPoolStatusDeletionFailed := "DeletionFailed";
  CSPIPoolExpansion := "PoolExpansion";
  CSPIDiskReplacement := "DiskReplacement";
  CSPIDiskUnavailable := "DiskUnavailable";
  CSPIPoolLost := "PoolLost";
  PoolStriped := "stripe";
  CVRStatusInit := "Init";
  CVRStatusOnline := "Healthy";
  CVRStatusOffline := "Offline";
  CVRStatusDegraded := "Degraded";
  CVRStatusNewReplicaDegraded := "NewReplicaDegraded";
  CVRStatusRebuilding := "Rebuilding";
  CVRStatusReconstructingNewReplica := "ReconstructingNewReplica";
  CVRStatusError := "Error";
  CVRStatusDeletionFailed := "DeletionFailed";
  CVRStatusInvalid := "Invalid";
  cspi_IsDestroyed c := negb (bool_decide (om_deletion (cspi_meta c) = None));
  cspi_IsEmptyStatus c := bool_decide (cspi_Phase c = "");
  cspi_IsPendingStatus c := bool_decide (cspi_Phase c = "PENDING");
  cspi_HasAnnotation k v c := bool_decide (annotations c !! k = Some v);
  GetAllRaidGroups c := cspi_DataRaidGroups (cspi_Spec c) ++ cspi_WriteCacheRaidGroups (cspi_Spec c);
  bdc_RemoveFinalizer f c :=
    bdc_with_meta (meta_with_finalizers (filter (λ x, x ≠ f) (finalizers c)) (bdc_meta c)) c;
  GetBlockDeviceClaimFromBDName l bd :=
    match first_such (λ c, bool_decide (bdc_BlockDeviceName c = bd)) l with
    | Some c => OK c
    | None => Err (Errorf "claim of blockdevice %s doesn't exist in claim list" [bd])
    end;
  VdevStateIndex := 1;
  VdevScanProcessedIndex := 2;
  VdevScanStatsStateIndex := 1;
  VdevScanStatsScanFuncIndex := 0;
  VdevStateHealthy := 7;
  PoolScanFinished := 2;
  PoolScanFuncResilver := 2;
  GetVdevFromPath path l := head (omap (find_vdev path) l);
  GetVdevState _ := "";
  PoolOperator := "zpool";
  util_Namespace := "NAMESPACE";
  util_GetEnv n :=
    if bool_decide (n = "NAMESPACE") || bool_decide (n = "OPENEBS_NAMESPACE") then "openebs" else "";
  resource_ParseQuantity s := match parse_quantity s with OK n => OK (quantity n) | Err e => Err e end;
  Quantity_Value q := int64_range (fst (q_i q));
  Quantity_Add q r := quantity (fst (q_i q) + fst (q_i r));
  cache_SplitMetaNamespaceKey key :=
    match split_on "/"%char key with
    | [n] => OK ("", n)
    | [ns; n] => OK (ns, n)
    | _ => Err (Errorf "unexpected key format: %q" [key])
    end;
  cache_MetaNamespaceKeyFunc m :=
    OK (if bool_decide (om_namespace m = "") then om_name m else om_namespace m +:+ "/" +:+ om_name m);
|}.

#[export] Instance ref_pool_api_laws : PoolApiLaws.
Proof.
  split; cbn.
  - intros l bd c. destruct (first_such _ l) as [c'|] eqn:Hf; [|done]. intros [= ->].
    apply first_such_Some in Hf as [Hin Hb]. by apply bool_decide_eq_true in Hb.
  - intros f c x. unfold finalizers. cbn. rewrite list_elem_of_filter. tauto.
  - done.
  - intros q. unfold int64_range. lia.
Qed.
