(* ===== verification/TargetMemory.v ===== *)
(** * TargetMemory: a volume manager in the in-memory cluster

    The cluster of [VolumeMemory] with events, the lines of the configuration file of the target,
    and a target whose answers are a function of the command; the commands are logged.  The
    status that is JSON in reality is a list of words here: the name of the volume, its status
    and the identifiers of its healthy replicas. *)

From stdpp Require Import base gmap strings list sets pretty.
From Stdlib Require Import Ascii ZArith Lia.
From coqutil Require Import Datatypes.RecordSetters.
From S2P Require Import Prelude Api Memory VolumeApi VolumeMemory Zcmd PoolApi TargetApi VolumeTarget VolumeMgmt TargetFacts.
Import DoubleBraceUpdate.

Record target_world := {
  tw_base : volume_cluster;
  tw_events : gmap (string * string) Event_;
  tw_globals : target_globals;
  tw_conf : list string;
  tw_answer : string → result (list string);
  tw_log : list string;
}.

#[export] Instance target_stored {Obj} `{!Stored volume_cluster Obj} : Stored target_world Obj :=
  {| store_of c := store_of (tw_base c);
     with_store m c := c {{ tw_base ::= with_store m }} |}.
#[export] Instance target_events : Stored target_world Event_ :=
  {| store_of := tw_events; with_store m c := c {{ tw_events := m }} |}.

#[export] Instance target_env : Env target_world := {|
  rand_String n c := let '(s, b) := rand_String n (tw_base c) in (s, c {{ tw_base := b }});
  Now c := Now (tw_base c);
  Event e c := c {{ tw_base ::= Event e }};
  rPatch ns n bytes c := let '(r, b) := rPatch ns n bytes (tw_base c) in (r, c {{ tw_base := b }});
|}.

(** Replacing the lines that have a key, and appending one when there is none. *)
Definition set_line (key line : string) (conf : list string) : list string :=
  (λ l, if strings_Contains l key then line else l) <$> conf.
Definition put_line (conf : list string) (kv : string * string) : list string :=
  if existsb (λ l, strings_Contains l kv.1) conf then set_line kv.1 kv.2 conf else conf ++ [kv.2].

#[export] Instance memory_target : Target target_world := {|
  SendCommand c w := (tw_answer w c, w {{ tw_log ::= (λ l, l ++ [c]) }});
  file_Write _ data w := (None, w {{ tw_conf := lines data }});
  file_Updatefile _ line key w := (None, w {{ tw_conf ::= set_line key line }});
  file_UpdateOrAppendMultipleLines _ m w :=
    (None, w {{ tw_conf ::= (λ conf, foldl put_line conf (map_to_list m)) }});
  tglobals := tw_globals;
  with_tglobals g w := w {{ tw_globals := g }};
|}.
#[export] Instance memory_target_laws : TargetLaws target_world.
Proof. by split. Qed.

#[export] Instance memory_volume_client : VolumeClient (W:=target_world).
Proof. split. intros ns o o' w w'. cbn. repeat case_match; intros [= <- _]; done. Qed.

(** ** A reference implementation of the helpers *)

Definition parse_status (s : string) : result (list CVStatus) :=
  match strings_Fields (String.substring 1 (String.length s - 2) s) with
  | n :: st :: ids =>
      OK [{| cvst_Name := n; cvst_Status := st;
             cvst_ReplicaStatuses := (λ i, {| rep_ID := i; rep_Mode := "Healthy" |}) <$> ids |}]
  | _ => Err (Errorf "unexpected end of JSON input" [])
  end.

#[export] Instance ref_target_api : TargetApi := {|
  util_IstgtConfPath := "/usr/local/etc/istgt/istgt.conf";
  types_IstgtConfPath := "/usr/local/etc/istgt/istgt.conf";
  IstgtReplicaCmd := "REPLICA";
  IstgtRefreshCmd := "REFRESH";
  IstgtResizeCmd := "RESIZE";
  IstgtDRFCmd := "DRF";
  DesiredReplicationFactorKey := "  DesiredReplicationFactor";
  IoWaitTime := 10;
  TotalWaitTime := 60;
  CStorVolumeKind := "CStorVolume";
  CStorAPIVersion := "cstor.openebs.io/v1";
  CStorVolumeResizing := "Resizing";
  CVStatusOffline := "Offline";
  IsResizePending cv := (cv_Status_Capacity cv <? cv_Capacity cv)%Z;
  IsDRFPending cv :=
    bool_decide (size (cv_KnownReplicas cv) < size (cv_Status_KnownReplicas cv)) ||
    (cv_ReplicationFactor cv <? cv_DesiredReplicationFactor cv)%Z;
  IsConditionPresent t cv := existsb (λ c, bool_decide (cvcond_Type c = t)) (cvs_Conditions (cv_State cv));
  GetCVCondition t cv :=
    default {| cvcond_Type := ""; cvcond_Status := ""; cvcond_LastTransitionTime := 0; cvcond_Reason := "";
               cvcond_Message := "" |}
      (first_such (λ c, bool_decide (cvcond_Type c = t)) (cvs_Conditions (cv_State cv)));
  GetResizeCondition now :=
    {| cvcond_Type := "Resizing"; cvcond_Status := "InProgress"; cvcond_LastTransitionTime := now;
       cvcond_Reason := "Capacity changed"; cvcond_Message := "" |};
  AddCondition c l := l ++ [c];
  UpdateCondition c l := (λ x, if bool_decide (cvcond_Type x = cvcond_Type c) then c else x) <$> l;
  DeleteCondition c l := filter (λ x, cvcond_Type x ≠ cvcond_Type c) l;
  AreSpecReplicasHealthy st cv :=
    forallb (λ kv, existsb (λ r, bool_decide (rep_ID r = kv.1 ∧ rep_Mode r = "Healthy")) (cvst_ReplicaStatuses st))
      (map_to_list (cv_KnownReplicas cv));
  GetRemovingReplicaID cv :=
    match map_to_list (filter (λ kv, cv_KnownReplicas cv !! kv.1 = None) (cv_Status_KnownReplicas cv)) with
    | (k, _) :: _ => k
    | [] => ""
    end;
  BuildScaleDownConfigData id cv :=
    {["  ReplicationFactor" := "  ReplicationFactor " +:+ pretty (cv_DesiredReplicationFactor cv);
      "Replica " +:+ id := ""]};
  json_CVStatusResponse := parse_status;
|}.

#[export] Instance target_pod : PodEnv := {|
  os_LookupEnv n := if bool_decide (n = "OPENEBS_IO_CSTOR_VOLUME_ID") then Some "v-1" else None;
  GetServiceAccountName := "openebs-maya-operator";
  GetOpenEBSImagePullSecrets := "";
  GetImagePullSecrets _ := [];
  GetOpenebsBaseDirPath := "/var/openebs";
|}.
