(* ===== verification/BackupFacts.v ===== *)
(** * BackupFacts: laws of the clients, and lemmas on backups and restores

    [ObjectStore] says what the typed client of one kind of object promises when it is the only
    one that writes, [Apart] that writes of one kind leave the objects of another kind alone.
    The lemmas follow a handler from the world it starts in to the world it leaves. *)

From stdpp Require Import base gmap strings list sets relations.
From Stdlib Require Import Ascii ZArith Lia.
From coqutil Require Import Datatypes.RecordSetters.
From S2P Require Import Prelude Steps Api VolumeApi Zcmd PoolApi BackupApi VolumeReplica CspiSync ReplicaSync Backup Restore Snapshot HttpServer BackupRest RestoreRest.
Import DoubleBraceUpdate.

(** ** Laws *)

(** The metadata of an object can be read and replaced. *)
Class MetaLaws (Obj : Type) `{HasMeta Obj} : Prop := {
  meta_with : ∀ m (o : Obj), meta (with_meta m o) = m;
  with_meta_same : ∀ o : Obj, with_meta (meta o) o = o;
  with_meta_twice : ∀ m m' (o : Obj), with_meta m (with_meta m' o) = with_meta m o;
}.
#[export] Instance bkp_MetaLaws : MetaLaws CStorBackup.
Proof. split; intros; by try destruct o. Qed.
#[export] Instance abkp_MetaLaws : MetaLaws V1Alpha1CStorBackup.
Proof. split; intros; by try destruct o. Qed.
#[export] Instance cb_MetaLaws : MetaLaws CStorCompletedBackup.
Proof. split; intros; by try destruct o. Qed.
#[export] Instance acb_MetaLaws : MetaLaws V1Alpha1CStorCompletedBackup.
Proof. split; intros; by try destruct o. Qed.
#[export] Instance rst_MetaLaws : MetaLaws CStorRestore.
Proof. split; intros; by try destruct o. Qed.
#[export] Instance arst_MetaLaws : MetaLaws V1Alpha1CStorRestore.
Proof. split; intros; by try destruct o. Qed.

(** An object as it is stored, with a resource version. *)
Definition stamped {Obj} `{HasMeta Obj} (rv : string) (o : Obj) : Obj :=
  with_meta (meta_with_resourceVersion rv (meta o)) o.

(** The API server, for one kind of object: an object is found under its own name; an accepted
    update replaces it (one that is being deleted may be gone); a create never replaces one; what
    is not accepted changes nothing. *)
Class ObjectStore (W Obj : Type) `{HasMeta Obj} `{!ResourceClient W Obj} : Prop := {
  os_get : ∀ w ns n (o : Obj), rGet w ns n = OK o → name o = n ∧ namespace o = ns;
  os_list : ∀ w ns sel (l : list Obj) o,
    rList w ns sel = OK l → o ∈ l → rGet w (namespace o) (name o) = OK o;
  os_list_keys : ∀ w ns sel (l : list Obj),
    rList w ns sel = OK l → NoDup ((λ o, (namespace o, name o)) <$> l);
  os_update : ∀ (o o' : Obj) w w', rUpdate (namespace o) o w = (OK o', w') →
    (∃ o0 : Obj, rGet w (namespace o) (name o) = OK o0) ∧
    ((∃ rv, rGet w' (namespace o) (name o) = OK (stamped rv o)) ∨
     om_deletion (meta o) ≠ None ∧ ∃ e, rGet (Obj:=Obj) w' (namespace o) (name o) = Err e);
  os_update_other : ∀ ns (o : Obj) w ns' n', (ns', n') ≠ (ns, name o) →
    rGet (Obj:=Obj) (rUpdate ns o w).2 ns' n' = rGet w ns' n';
  os_update_fail : ∀ ns (o : Obj) w e w', rUpdate ns o w = (Err e, w') →
    ∀ ns' n', rGet (Obj:=Obj) w' ns' n' = rGet w ns' n';
  os_create : ∀ (o o' : Obj) w w', rCreate (namespace o) o w = (OK o', w') →
    (∃ e, rGet (Obj:=Obj) w (namespace o) (name o) = Err e) ∧
    ∃ rv, rGet w' (namespace o) (name o) = OK (stamped rv o);
  os_create_other : ∀ ns (o : Obj) w ns' n', (ns', n') ≠ (ns, name o) →
    rGet (Obj:=Obj) (rCreate ns o w).2 ns' n' = rGet w ns' n';
  os_create_fail : ∀ ns (o : Obj) w e w', rCreate ns o w = (Err e, w') →
    ∀ ns' n', rGet (Obj:=Obj) w' ns' n' = rGet w ns' n';
  os_delete : ∀ ns n w ns' n' (o : Obj), rGet (rDelete (Obj:=Obj) ns n w).2 ns' n' = OK o →
    ∃ d, (∃ o0 : Obj, rGet w ns' n' = OK o0 ∧ o = with_meta (meta_with_deletion d (meta o0)) o0);
  os_delete_other : ∀ ns n w ns' n', (ns', n') ≠ (ns, n) →
    rGet (Obj:=Obj) (rDelete (Obj:=Obj) ns n w).2 ns' n' = rGet w ns' n';
}.

(** Writes of objects of kind [B] do not change the objects of kind [A]. *)
Class Apart (W A B : Type) `{!ResourceClient W A} `{!ResourceClient W B} : Prop := {
  apart_create : ∀ ns (b : B) w ns' n, rGet (Obj:=A) (rCreate ns b w).2 ns' n = rGet w ns' n;
  apart_update : ∀ ns (b : B) w ns' n, rGet (Obj:=A) (rUpdate ns b w).2 ns' n = rGet w ns' n;
  apart_delete : ∀ ns k w ns' n, rGet (Obj:=A) (rDelete (Obj:=B) ns k w).2 ns' n = rGet w ns' n;
}.

(** The objects of a kind are the same in two worlds. *)
Definition same (W Obj : Type) `{!ResourceClient W Obj} (w w' : W) : Prop :=
  ∀ ns n, rGet (Obj:=Obj) w' ns n = rGet w ns n.
#[export] Instance same_preorder W Obj `{!ResourceClient W Obj} : PreOrder (same W Obj).
Proof. split; [by intros w ns n|]. intros w1 w2 w3 H1 H2 ns n. by rewrite H2. Qed.

(** Events, commands and pauses do not change the objects of a kind: no other process writes
    meanwhile. *)
Class Quiet (W Obj : Type) `{!ResourceClient W Obj} `{!Env W} `{!Runner W} `{!Clock W} : Prop := {
  quiet_Event : ∀ e w, same W Obj w (Event e w);
  quiet_Run : ∀ c l w, same W Obj w (RunCombinedOutput c l w).2;
  quiet_Sleep : ∀ s w, same W Obj w (time_Sleep s w);
}.

Section client_facts.
Context {W Obj : Type} `{!ResourceClient W Obj}.

Lemma keeps_same_update {B} `{!ResourceClient W B} `{!Apart W Obj B} ns (b : B) :
  keeps (same W Obj) (call (rUpdate ns b)).
Proof. apply keeps_call. intros w ns' n. apply apart_update. Qed.
Lemma keeps_same_create {B} `{!ResourceClient W B} `{!Apart W Obj B} ns (b : B) :
  keeps (same W Obj) (call (rCreate ns b)).
Proof. apply keeps_call. intros w ns' n. apply apart_create. Qed.
Lemma keeps_same_delete {B} `{!ResourceClient W B} `{!Apart W Obj B} ns k :
  keeps (same W Obj) (call (rDelete (Obj:=B) ns k)).
Proof. apply keeps_call. intros w ns' n. apply apart_delete. Qed.

Context `{!Env W} `{!Runner W} `{!Clock W} `{!Quiet W Obj}.
Lemma keeps_same_emit e : keeps (same W Obj) (emit e).
Proof. intros w. apply quiet_Event. Qed.
Lemma keeps_same_run c l : keeps (same W Obj) (call (RunCombinedOutput c l)).
Proof. apply keeps_call. intros w. apply quiet_Run. Qed.
Lemma keeps_same_sleep s : keeps (same W Obj) (sleep s).
Proof. intros w. apply quiet_Sleep. Qed.
End client_facts.
#[export] Hint Resolve keeps_same_update keeps_same_create keeps_same_delete keeps_same_emit keeps_same_run keeps_same_sleep : keeps.

(** An invariant of a loop, for the elements of its list. *)
Lemma forM_inv_in {W A} (P : W → Prop) (f : A → M W unit) l w :
  (∀ a w0, a ∈ l → P w0 → P (final (f a) w0)) → P w → P (final (forM f l) w).
Proof.
  revert w. induction l as [|x l IH]; intros w Hf Hw; [done|]. unfold final. cbn. unfold mbind, M_bind.
  pose proof (Hf x w ltac:(set_solver) Hw) as H1. unfold final in H1.
  destruct (f x w) as [[b|s] w1]; [|done]. apply IH; [|done]. intros a w0 Ha. apply Hf. set_solver.
Qed.

(** ** Transfers *)

Section transfer_facts.
Context {W : Type} `{PodEnv} `{!Runner W} `{!Clock W}.

(** [k] attempts that failed, each followed by a pause; [last] is the output of the last one. *)
Inductive failed_attempts (delay : Z) (cmd : list string) : nat → output → W → output → W → Prop :=
| no_attempt last w : failed_attempts delay cmd 0 last w last w
| one_attempt k last w out e w1 last' w' :
    RunCombinedOutput ExecuteScript cmd w = ((out, Some e), w1) →
    failed_attempts delay cmd k (out, Some e) (time_Sleep delay w1) last' w' →
    failed_attempts delay cmd (S k) last w last' w'.

(** The loop stops at the first success, and after [left] failures. *)
Lemma transfer_attempts_spec delay cmd left last w :
  (∃ k last' w1 out w', k < left ∧ failed_attempts delay cmd k last w last' w1 ∧
     RunCombinedOutput ExecuteScript cmd w1 = ((out, None), w') ∧
     transfer_attempts delay cmd left last w = (Ret (out, None), w')) ∨
  (∃ last' w', failed_attempts delay cmd left last w last' w' ∧
     transfer_attempts delay cmd left last w = (Ret last', w')).
Proof.
  revert last w. induction left as [|left IH]; intros last w.
  { right. exists last, w. split; [constructor|done]. }
  cbn. unfold mbind, M_bind, call.
  destruct (RunCombinedOutput ExecuteScript cmd w) as [[out [e|]] w1] eqn:Hrun; cbn.
  - destruct (IH (out, Some e) (time_Sleep delay w1)) as
      [(k & last' & w2 & out' & w' & Hk & Hf & Hr & Ht)|(last' & w' & Hf & Ht)].
    + left. exists (S k), last', w2, out', w'. repeat split; [lia| |done|done].
      by eapply one_attempt.
    + right. exists last', w'. split; [by eapply one_attempt|done].
  - left. exists 0, last, w, out, w1. repeat split; [lia|constructor|done].
Qed.

Lemma failed_attempts_error delay cmd k last w last' w' :
  failed_attempts delay cmd (S k) last w last' w' → ∃ out e, last' = (out, Some e).
Proof.
  remember (S k) as m eqn:Hm. intros Hf. revert k Hm.
  induction Hf as [|k0 last w out e w1 last' w' Hr Hf IH]; intros k Hm; [done|].
  destruct k0 as [|k0]; [inversion Hf; subst; eauto|by eapply IH].
Qed.
End transfer_facts.

(** ** Handlers that write one object *)

Section one_object.
Context {W Obj : Type} `{HasMeta Obj} `{!ResourceClient W Obj} `{!ObjectStore W Obj}.

(** All objects but one are the same. *)
Definition only_at (k : string * string) (w w' : W) : Prop :=
  ∀ ns n, (ns, n) ≠ k → rGet (Obj:=Obj) w' ns n = rGet w ns n.
#[export] Instance only_at_preorder k : PreOrder (only_at k).
Proof. split; [by intros w ns n|]. intros w1 w2 w3 H1 H2 ns n Hk. rewrite H2 by done. by apply H1. Qed.

Lemma keeps_same_only_at {A} k (m : M W A) : keeps (same W Obj) m → keeps (only_at k) m.
Proof. intros Hm w ns n _. apply Hm. Qed.
Lemma keeps_only_at_update k ns (o : Obj) : (ns, name o) = k → keeps (only_at k) (call (rUpdate ns o)).
Proof. intros <-. apply keeps_call. intros w ns' n' Hk. by apply os_update_other. Qed.

(** What is read is found under its name. *)
Lemma keeps_get {A} (R : relation W) `{!PreOrder R} ns n (f : result Obj → M W A) :
  (∀ e, keeps R (f (Err e))) →
  (∀ o, name o = n → namespace o = ns → keeps R (f (OK o))) →
  keeps R (reads (λ w, rGet w ns n) ≫= f).
Proof.
  intros He Ho w. unfold final, mbind, M_bind, reads.
  destruct (rGet w ns n) as [o|e] eqn:Hg; [|apply He].
  destruct (os_get _ _ _ _ Hg). by apply Ho.
Qed.
End one_object.

(** ** The status of a backup *)

Section backup_status.
Context {W : Type} `{OpenebsApi} `{VolumeApi} `{PoolApi} `{BackupApiLaws} `{PodEnv}.
Context `{!Runner W} `{!Clock W} `{!Env W}.
Context `{!ResourceClient W CStorBackup} `{!ResourceClient W CStorCompletedBackup}.
Context `{!ResourceClient W V1Alpha1CStorBackup} `{!ResourceClient W V1Alpha1CStorCompletedBackup}.
Context `{!ResourceClient W CStorVolumeReplica} `{!ResourceClient W CStorPoolInstance}.
Context `{!ResourceClient W CStorVolume} `{!ResourceClient W Pod} `{!ResourceClient W Node}.
Context `{!Codec CStorBackup} `{!ObjectStore W CStorBackup} `{!Quiet W CStorBackup}.
Context `{!Apart W CStorBackup CStorCompletedBackup} `{!Apart W CStorBackup V1Alpha1CStorCompletedBackup}.
Context `{!Apart W CStorBackup V1Alpha1CStorBackup}.
Context (snapshotter : option (Snapshotter W)) (json_Marshal_backup : backupHelper → result string).
Context (resp_Write : string → option error).

(** The snapshotter writes no backups. *)
Definition quiet_snapshotter : Prop :=
  ∀ c ip vol snap, snapshotter = Some c →
    keeps (same W CStorBackup) (snap_CreateSnapshot c ip vol snap) ∧
    keeps (same W CStorBackup) (snap_DestroySnapshot c ip vol snap).

Definition status_at (w : W) (k : string * string) : option string :=
  match rGet (Obj:=CStorBackup) w k.1 k.2 with OK b => Some (bkp_Status b) | Err _ => None end.
Definition completed (s : string) : Prop := s = BKPCStorStatusDone ∨ s = BKPCStorStatusFailed.

(** The steps of the processes that write backups: an event in the pool manager, its start and a
    request to the REST server. *)
Inductive backup_step (w : W) : W → Prop :=
| step_event key op : backup_step w (final (BackupController.syncHandler key op) w)
| step_start : backup_step w (final BackupController.cleanupOldBackup w)
| step_request req :
    backup_step w (final (backupV1alpha1SpecificRequest snapshotter json_Marshal_backup resp_Write req) w).

Lemma completed_predicates b :
  bkp_IsSucceeded b || bkp_IsFailed b = true ↔ completed (bkp_Status b).
Proof.
  unfold completed. rewrite bkp_IsSucceeded_spec, bkp_IsFailed_spec, orb_true_iff, !bool_decide_eq_true. done.
Qed.
Lemma status_at_same k w w' : same W CStorBackup w w' → status_at w' k = status_at w k.
Proof. intros Hs. unfold status_at. by rewrite Hs. Qed.
Lemma status_at_other k k' w w' :
  only_at (Obj:=CStorBackup) k' w w' → k ≠ k' → status_at w' k = status_at w k.
Proof. intros Ho Hk. unfold status_at. rewrite Ho; [done|by destruct k]. Qed.

Lemma transfer_same (R : relation W) `{!PreOrder R} delay cmd left last :
  (∀ c l, keeps R (call (RunCombinedOutput c l))) → (∀ s, keeps R (sleep s)) →
  keeps R (transfer_attempts delay cmd left last).
Proof.
  intros Hr Hs. revert last. induction left as [|left IH]; intros last; cbn; [apply keeps_mret; apply _|].
  keeps_auto; auto.
Qed.
Lemma CreateVolumeBackup_same b : keeps (same W CStorBackup) (CreateVolumeBackup b).
Proof. unfold CreateVolumeBackup. keeps_auto. apply transfer_same; eauto with keeps. apply _. Qed.
Lemma updateCStorCompletedBackup_same b :
  keeps (same W CStorBackup) (BackupController.updateCStorCompletedBackup b).
Proof. unfold BackupController.updateCStorCompletedBackup. keeps_auto. Qed.

Lemma eventHandler_only_at op b :
  keeps (only_at (Obj:=CStorBackup) (namespace b, name b)) (BackupController.eventHandler op b).
Proof.
  unfold BackupController.eventHandler, BackupController.addEventHandler,
    BackupController.syncEventHandler, BackupController.bkp_event.
  keeps_auto; try (apply keeps_same_only_at; eauto using CreateVolumeBackup_same,
    updateCStorCompletedBackup_same with keeps; fail).
  by apply keeps_only_at_update.
Qed.

Lemma getCStorBackupResource_run key w :
  BackupController.getCStorBackupResource key w =
    (Ret match cache_SplitMetaNamespaceKey key with
         | Err _ => OK None
         | OK (ns, n) =>
             match rGet w ns n with
             | OK b => OK (Some b)
             | Err e => if IsNotFound e then OK None else Err e
             end
         end, w).
Proof.
  unfold BackupController.getCStorBackupResource. case_match; [|done]. case_match.
  unfold mbind, M_bind, reads. by case_match.
Qed.

(** One event of a backup writes that backup only. *)
Lemma syncHandler_writes key op w :
  same W CStorBackup w (final (BackupController.syncHandler key op) w) ∨
  ∃ b, rGet w (namespace b) (name b) = OK b ∧ ¬ completed (bkp_Status b) ∧
    only_at (Obj:=CStorBackup) (namespace b, name b) w (final (BackupController.syncHandler key op) w).
Proof.
  unfold final, BackupController.syncHandler.
  rewrite (bind_run _ _ _ _ _ (getCStorBackupResource_run key w)).
  destruct (cache_SplitMetaNamespaceKey key) as [[ns n]|e]; [|left; reflexivity].
  destruct (rGet w ns n) as [b|e] eqn:Hg; [|left; destruct (IsNotFound e); reflexivity].
  destruct (bkp_IsSucceeded b || bkp_IsFailed b) eqn:Hc; [left; reflexivity|right].
  destruct (os_get _ _ _ _ Hg) as [<- <-]. exists b. split; [done|]. split.
  { rewrite <-completed_predicates. by rewrite Hc. }
  clear Hg. revert w.
  match goal with |- ∀ w, only_at ?k w (?m w).2 => change (keeps (only_at (Obj:=CStorBackup) k) m) end.
  apply keeps_bind; [apply _|apply eventHandler_only_at|]. intros [status err].
  case_bool_decide; [apply keeps_mret; apply _|].
  apply keeps_get; [apply _|intros e; apply keeps_mret; apply _|]. intros nb Hn Hns.
  apply keeps_bind; [apply _| |intros ?; apply keeps_mret; apply _].
  apply keeps_only_at_update. by rewrite <-Hn, <-Hns.
Qed.

(** A backup that is completed keeps its status or goes. *)
Definition settled_at (k : string * string) (s : string) (w : W) : Prop :=
  status_at w k = None ∨ status_at w k = Some s.

Lemma settled_same k s w w' : same W CStorBackup w w' → settled_at k s w → settled_at k s w'.
Proof. intros Hs. unfold settled_at. by rewrite (status_at_same _ _ _ Hs). Qed.
Lemma settled_only_at k k' s w w' :
  only_at (Obj:=CStorBackup) k' w w' → k ≠ k' → settled_at k s w → settled_at k s w'.
Proof. intros Ho Hk. unfold settled_at. by rewrite (status_at_other _ _ _ _ Ho Hk). Qed.

(** An update with a status leaves that status, the one before, or no backup. *)
Lemma update_settled s b w :
  bkp_Status b = s → settled_at (namespace b, name b) s w →
  settled_at (namespace b, name b) s (rUpdate (namespace b) b w).2.
Proof.
  intros Hs Hw. destruct (rUpdate (namespace b) b w) as [[b'|e] w'] eqn:Hu; cbn.
  - destruct (os_update _ _ _ _ Hu) as [_ [[rv Hg]|(_ & e & Hg)]]; unfold settled_at, status_at; cbn; rewrite Hg.
    + right. by rewrite <-Hs.
    + by left.
  - eapply settled_same; [|done]. intros ns n. by eapply os_update_fail.
Qed.

Lemma updateBackupStatus_only_at b s :
  keeps (only_at (Obj:=CStorBackup) (namespace b, name b)) (BackupController.updateBackupStatus b s).
Proof.
  unfold BackupController.updateBackupStatus. apply keeps_bind; [apply _| |intros; apply keeps_mret; apply _].
  by apply keeps_only_at_update.
Qed.
Lemma cleanup_backup_only_at b :
  keeps (only_at (Obj:=CStorBackup) (namespace b, name b)) (BackupController.cleanup_backup b).
Proof.
  unfold BackupController.cleanup_backup, BackupController.findLastBackupStat.
  keeps_auto; apply updateBackupStatus_only_at.
Qed.

Lemma statuses_differ : BKPCStorStatusInProgress ≠ BKPCStorStatusDone ∧ BKPCStorStatusInProgress ≠ BKPCStorStatusFailed.
Proof. pose proof backup_statuses as Hd. rewrite !NoDup_cons in Hd. set_solver. Qed.

Lemma cleanupOldBackup_settled k s w :
  completed s → status_at w k = Some s → settled_at k s (final BackupController.cleanupOldBackup w).
Proof.
  intros Hc Hs. unfold BackupController.cleanupOldBackup, final, mbind, M_bind, reads.
  destruct (rList w "" _) as [l|e] eqn:Hl; [|by right].
  apply (forM_inv_in (settled_at k s)); [|by right]. intros b w1 Hb Hw1.
  pose proof (os_list _ _ _ _ _ Hl Hb) as Hg.
  destruct (decide (k = (namespace b, name b))) as [->|Hne];
    [|eapply settled_only_at; [apply cleanup_backup_only_at|done|done]].
  unfold status_at in Hs. cbn in Hs. rewrite Hg in Hs. injection Hs as Hs.
  destruct statuses_differ as [H1' H2']. unfold final, BackupController.cleanup_backup.
  rewrite bool_decide_eq_false_2 by (destruct Hc; congruence). case_bool_decide as Hd; [done|].
  unfold BackupController.updateBackupStatus, mbind, M_bind, call.
  assert (s = BKPCStorStatusFailed) as Hf by (destruct Hc; congruence).
  pose proof (update_settled s (bkp_with_status BKPCStorStatusFailed b) w1) as Hu.
  assert (bkp_with_status BKPCStorStatusFailed b = b) as Hb' by (rewrite <-Hf, <-Hs; by destruct b).
  rewrite Hb' in Hu |- *.
  specialize (Hu Hs Hw1). by destruct (rUpdate _ _ w1).
Qed.

(** *** Requests *)

Lemma settle_stalled_settled k s w h :
  completed s → status_at w k = Some s →
  (∀ b, h = V1Backup b → rGet w (namespace b) (name b) = OK b) →
  settled_at k s (final (settle_stalled h) w).
Proof.
  intros Hc Hs Hh. unfold settle_stalled.
  destruct (isBackupCompleted h) eqn:Hcomp; cbn [negb]; [by right|].
  destruct h as [a|b].
  - eapply settled_same; [|by right]. revert w Hs Hh. intros w _ _. revert w.
    match goal with |- ∀ w, same _ _ w (final ?m w) => change (keeps (same W CStorBackup) m) end.
    unfold findLastBackupStat, updateBackupStatus, v1Alpha1BackupWrapper.findLastBackupStat,
      v1Alpha1BackupWrapper.updateBackupStatus. keeps_auto.
  - specialize (Hh b eq_refl).
    eapply (settled_only_at _ (namespace b, name b)); [| |by right].
    + revert w Hs Hh. intros w _ _. revert w.
      match goal with |- ∀ w, only_at ?k w (final ?m w) => change (keeps (only_at (Obj:=CStorBackup) k) m) end.
      unfold findLastBackupStat, updateBackupStatus, v1BackupWrapper.findLastBackupStat,
        v1BackupWrapper.updateBackupStatus. keeps_auto; by apply keeps_only_at_update.
    + intros ->. unfold status_at in Hs. cbn in Hs. rewrite Hh in Hs. injection Hs as Hs.
      cbn in Hcomp. unfold v1BackupWrapper.isBackupCompleted in Hcomp.
      rewrite orb_comm in Hcomp. rewrite <-Hs, <-completed_predicates in Hc. congruence.
Qed.

Lemma backup_get_settled req k s w :
  completed s → status_at w k = Some s → settled_at k s (final (backup_get json_Marshal_backup resp_Write req) w).
Proof.
  intros Hc Hs. unfold backup_get.
  destruct (decodeBody req) as [b|e]; [|by right]. repeat (case_match; [by right|]).
  unfold final, mbind at 1, M_bind at 1, reads at 1.
  destruct (getBackupInterface _ _ w) as [[h|]|e] eqn:Hh; [|by right..].
  assert (Hset : settled_at k s (final (settle_stalled h) w)).
  { apply settle_stalled_settled; [done..|]. intros b' ->. unfold getBackupInterface in Hh.
    destruct (rGet (Obj:=V1Alpha1CStorBackup) w _ _) as [a|e]; [done|]. destruct (IsNotFound e); [|done].
    destruct (rGet (Obj:=CStorBackup) w _ _) as [b1|e1] eqn:Hg; [|by destruct (IsNotFound e1)].
    injection Hh as ->. destruct (os_get _ _ _ _ Hg) as [Hn Hns]. by rewrite Hn, Hns. }
  unfold final in Hset. unfold mbind, M_bind. destruct (settle_stalled h w) as [[h'|why] w'] eqn:Hst; cbn in Hset |- *;
    [|done]. by repeat case_match.
Qed.

Lemma snapshot_same (s : Snapshot W) :
  quiet_snapshotter → ss_SnapClient s = snapshotter →
  keeps (same W CStorBackup) (CreateSnapshot s) ∧ keeps (same W CStorBackup) (DeleteSnapshot s).
Proof.
  intros Hq Hs. unfold CreateSnapshot, DeleteSnapshot, getVolumeIP. rewrite Hs.
  destruct snapshotter as [c|] eqn:Hc; [|split; keeps_auto].
  split; keeps_auto; by apply (Hq c).
Qed.
Lemma getOrCreateLastBackupSnap_same h : keeps (same W CStorBackup) (getOrCreateLastBackupSnap h).
Proof.
  destruct h; cbn; unfold v1Alpha1BackupWrapper.getOrCreateLastBackupSnap,
    v1BackupWrapper.getOrCreateLastBackupSnap; keeps_auto.
Qed.
Lemma deleteCompletedBackup_same h n ns snap : keeps (same W CStorBackup) (deleteCompletedBackup h n ns snap).
Proof.
  destruct h; cbn; unfold v1Alpha1BackupWrapper.deleteCompletedBackup,
    v1BackupWrapper.deleteCompletedBackup; keeps_auto.
Qed.

(** A new backup does not take the place of one that exists. *)
Definition grows (w w' : W) : Prop :=
  ∀ ns n (b : CStorBackup), rGet w ns n = OK b → rGet w' ns n = OK b.
#[local] Instance grows_preorder : PreOrder grows.
Proof. split; [by intros w ns n b|]. intros w1 w2 w3 H1' H2' ns n b Hg. auto. Qed.
Lemma keeps_same_grows {A} (m : M W A) : keeps (same W CStorBackup) m → keeps grows m.
Proof. intros Hm w ns n b Hg. by rewrite (Hm w). Qed.
Lemma create_grows (b : CStorBackup) : keeps grows (call (rCreate (namespace b) b)).
Proof.
  apply keeps_call. intros w ns n b0 Hg.
  destruct (decide ((ns, n) = (namespace b, name b))) as [[= -> ->]|Hne].
  - destruct (rCreate (namespace b) b w) as [[b'|e] w'] eqn:Hc; cbn.
    + destruct (os_create _ _ _ _ Hc) as [[e He] _]. congruence.
    + by rewrite (os_create_fail _ _ _ _ _ Hc).
  - by rewrite os_create_other.
Qed.
Lemma createBackupResource_grows h : keeps grows (createBackupResource h).
Proof.
  destruct h; cbn; unfold v1Alpha1BackupWrapper.createBackupResource, v1BackupWrapper.createBackupResource.
  - apply keeps_same_grows. keeps_auto.
  - apply keeps_bind; [apply _|apply create_grows|intros; apply keeps_mret; apply _].
Qed.
Lemma create_remote_grows b : keeps grows (create_remote b).
Proof.
  unfold create_remote. keeps_auto; [|apply createBackupResource_grows].
  apply keeps_same_grows, getOrCreateLastBackupSnap_same.
Qed.
Lemma backup_create_grows req : quiet_snapshotter → keeps grows (backup_create snapshotter req).
Proof.
  intros Hq. unfold backup_create. keeps_auto; [|apply create_remote_grows].
  apply keeps_same_grows. by apply snapshot_same.
Qed.

(** A deletion changes no status. *)
Definition shrinks (w w' : W) : Prop :=
  ∀ k s, status_at w' k = Some s → status_at w k = Some s.
#[local] Instance shrinks_preorder : PreOrder shrinks.
Proof. split; [by intros w k s|]. intros w1 w2 w3 H1' H2' k s Hg. auto. Qed.
Lemma keeps_same_shrinks {A} (m : M W A) : keeps (same W CStorBackup) m → keeps shrinks m.
Proof. intros Hm w k s. by rewrite (status_at_same _ _ _ (Hm w)). Qed.
Lemma delete_shrinks ns n : keeps shrinks (call (rDelete (Obj:=CStorBackup) ns n)).
Proof.
  apply keeps_call. intros w k s. unfold status_at.
  destruct (rGet (rDelete ns n w).2 k.1 k.2) as [b|e] eqn:Hg; [|done].
  destruct (os_delete _ _ _ _ _ _ Hg) as (d & b0 & Hb0 & ->). by rewrite Hb0.
Qed.
Lemma backup_delete_shrinks req : quiet_snapshotter → keeps shrinks (backup_delete snapshotter req).
Proof.
  intros Hq. unfold backup_delete, deleteBackup. keeps_auto.
  - apply keeps_same_shrinks, deleteCompletedBackup_same.
  - apply keeps_same_shrinks. by apply snapshot_same.
  - match goal with |- keeps _ (helper_deleteBackup ?h _ _) => destruct h end; cbn;
      unfold v1Alpha1BackupWrapper.deleteBackup, v1BackupWrapper.deleteBackup.
    + apply keeps_same_shrinks. keeps_auto.
    + keeps_auto. apply delete_shrinks.
Qed.

Lemma request_settled req k s w :
  quiet_snapshotter → completed s → status_at w k = Some s →
  settled_at k s (final (backupV1alpha1SpecificRequest snapshotter json_Marshal_backup resp_Write req) w).
Proof.
  intros Hq Hc Hs. unfold backupV1alpha1SpecificRequest. case_bool_decide; [|case_bool_decide; [|case_bool_decide]].
  - right. unfold status_at in Hs |- *. destruct (rGet w k.1 k.2) as [b|] eqn:Hg; [|done].
    by rewrite (backup_create_grows req Hq w _ _ _ Hg).
  - by apply backup_get_settled.
  - pose proof (backup_delete_shrinks req Hq w k) as Hd.
    destruct (status_at (final _ w) k) as [s'|] eqn:Hs'; [|by left].
    right. rewrite Hs'. specialize (Hd s' eq_refl). congruence.
  - by right.
Qed.

Lemma step_settled w w' k s :
  quiet_snapshotter → backup_step w w' → completed s → status_at w k = Some s → settled_at k s w'.
Proof.
  intros Hq Hstep Hc Hs. destruct Hstep as [key op| |req].
  - destruct (syncHandler_writes key op w) as [Hsame|(b & Hg & Hn & Ho)].
    + eapply settled_same; [done|by right].
    + eapply settled_only_at; [done| |by right]. intros ->. unfold status_at in Hs. cbn in Hs.
      rewrite Hg in Hs. injection Hs as <-. done.
  - by apply cleanupOldBackup_settled.
  - by apply request_settled.
Qed.
End backup_status.

(** ** The history of a schedule *)

Section backup_history.
Context {W : Type} `{PoolApi} `{BackupApiLaws} `{PodEnv} `{!Runner W} `{!Clock W} `{!Env W}.
Context `{!ResourceClient W CStorBackup} `{!ResourceClient W CStorCompletedBackup}.
Context `{!ResourceClient W V1Alpha1CStorCompletedBackup}.
Context `{!ObjectStore W CStorBackup} `{!ObjectStore W CStorCompletedBackup}.
Context `{!ObjectStore W V1Alpha1CStorCompletedBackup}.
Context `{!Quiet W CStorBackup} `{!Quiet W CStorCompletedBackup} `{!Quiet W V1Alpha1CStorCompletedBackup}.
Context `{!Apart W CStorBackup CStorCompletedBackup} `{!Apart W CStorBackup V1Alpha1CStorCompletedBackup}.
Context `{!Apart W CStorCompletedBackup CStorBackup} `{!Apart W V1Alpha1CStorCompletedBackup CStorBackup}.
Context `{!Apart W V1Alpha1CStorCompletedBackup CStorCompletedBackup}.
Context `{!Apart W CStorCompletedBackup V1Alpha1CStorCompletedBackup}.

(** The last two snapshots of a schedule that were backed up: the v1alpha1 object counts first. *)
Definition last_two (w : W) (ns n : string) : option (string * string) :=
  match rGet (Obj:=V1Alpha1CStorCompletedBackup) w ns n with
  | OK a => Some (bs_PrevSnapName (acb_Spec a), bs_SnapName (acb_Spec a))
  | Err _ =>
      match rGet (Obj:=CStorCompletedBackup) w ns n with
      | OK c => Some (cb_LastSnapName c, cb_SecondLastSnapName c)
      | Err _ => None
      end
  end.
Definition recent (h : list string) : string * string := (hd "" h, hd "" (tl h)).

(** What a backup of a snapshot does, on its status and the snapshots of the schedule, the
    latest first. *)
Inductive backup_spec (snap : string) : string * list string → string * list string → Prop :=
| spec_init h : backup_spec snap (BKPCStorStatusPending, h) (BKPCStorStatusInit, h)
| spec_start h : backup_spec snap (BKPCStorStatusInit, h) (BKPCStorStatusInProgress, h)
| spec_record h : backup_spec snap (BKPCStorStatusInProgress, h) (BKPCStorStatusInProgress, snap :: h)
| spec_done h : backup_spec snap (BKPCStorStatusInProgress, snap :: h) (BKPCStorStatusDone, snap :: h)
| spec_failed h : backup_spec snap (BKPCStorStatusInProgress, h) (BKPCStorStatusFailed, h)
| spec_invalid s h : ¬ completed s → backup_spec snap (s, h) (BKPCStorStatusInvalid, h).

(** No object of the backup is being deleted. *)
Definition stays {Obj} `{HasMeta Obj} (o : Obj) : Prop := om_deletion (meta o) = None.
Definition history_stays (w : W) (ns n : string) : Prop :=
  (∀ a, rGet (Obj:=V1Alpha1CStorCompletedBackup) w ns n = OK a → stays a) ∧
  (∀ c, rGet (Obj:=CStorCompletedBackup) w ns n = OK c → stays c).

(** The abstraction: the backup [b0], found under its name with a status, and its history. *)
Definition abs (b0 : CStorBackup) (w : W) (s : string) (h : list string) : Prop :=
  (∃ b, rGet w (namespace b0) (name b0) = OK b ∧ bkp_Spec b = bkp_Spec b0 ∧ stays b ∧ bkp_Status b = s) ∧
  last_two w (namespace b0) (BackupController.lastbkpname b0) = Some (recent h) ∧
  history_stays w (namespace b0) (BackupController.lastbkpname b0).

Definition same_all (w w' : W) : Prop :=
  same W CStorBackup w w' ∧ same W CStorCompletedBackup w w' ∧ same W V1Alpha1CStorCompletedBackup w w'.
#[local] Instance same_all_preorder : PreOrder same_all.
Proof. split; [done|]. intros ??? (?&?&?) (?&?&?). split_and!; by etrans. Qed.
Lemma same_all_keeps {A} (m : M W A) :
  keeps (same W CStorBackup) m → keeps (same W CStorCompletedBackup) m →
  keeps (same W V1Alpha1CStorCompletedBackup) m → keeps same_all m.
Proof. intros ? ? ? w. split_and!; auto. Qed.

Lemma history_same b0 w w' :
  same W CStorCompletedBackup w w' → same W V1Alpha1CStorCompletedBackup w w' →
  last_two w' (namespace b0) (BackupController.lastbkpname b0) =
    last_two w (namespace b0) (BackupController.lastbkpname b0) ∧
  (history_stays w (namespace b0) (BackupController.lastbkpname b0) →
   history_stays w' (namespace b0) (BackupController.lastbkpname b0)).
Proof. intros Hc Ha. unfold last_two, history_stays. by rewrite Hc, Ha. Qed.
Lemma abs_same b0 w w' s h : same_all w w' → abs b0 w s h → abs b0 w' s h.
Proof.
  intros (Hb & Hc & Ha) (H1' & H2' & H3'). destruct (history_same b0 w w' Hc Ha) as [Hl Hst].
  unfold abs. rewrite Hl. split; [by rewrite Hb|auto].
Qed.

Lemma transfer_same_all b : keeps same_all (CreateVolumeBackup b).
Proof. apply same_all_keeps; unfold CreateVolumeBackup; keeps_auto; apply transfer_same; eauto with keeps; apply _. Qed.
Lemma event_same_all b t r m : keeps same_all (BackupController.bkp_event b t r m).
Proof. apply same_all_keeps; unfold BackupController.bkp_event; eauto with keeps. Qed.

(** An update of the backup with a status leaves the one before or stores the new one. *)
Lemma update_abs b0 b st w s h :
  abs b0 w s h → name b = name b0 → namespace b = namespace b0 → bkp_Spec b = bkp_Spec b0 → stays b →
  let '(r, w') := rUpdate (namespace b) (bkp_with_status st b) w in
  match r with OK _ => abs b0 w' st h | Err _ => abs b0 w' s h end.
Proof.
  intros (Hb & Hl & Hh) Hn Hns Hsp Hst.
  assert (Hc : same W CStorCompletedBackup w (rUpdate (namespace b) (bkp_with_status st b) w).2).
  { intros ??. apply apart_update. }
  assert (Ha : same W V1Alpha1CStorCompletedBackup w (rUpdate (namespace b) (bkp_with_status st b) w).2).
  { intros ??. apply apart_update. }
  destruct (history_same b0 _ _ Hc Ha) as [Hl' Hh'].
  destruct (rUpdate (namespace b) (bkp_with_status st b) w) as [[b'|e] w'] eqn:Hu; cbn in Hl', Hh' |- *.
  - split; [|split; [by rewrite Hl'|auto]].
    change (namespace b) with (namespace (bkp_with_status st b)) in Hu.
    destruct (os_update (bkp_with_status st b) _ _ _ Hu) as [_ [[rv Hg]|(Hd & _)]].
    + exists (stamped rv (bkp_with_status st b)). rewrite <-Hn, <-Hns. split_and!; [exact Hg|done..].
    + by destruct Hd.
  - split; [|split; [by rewrite Hl'|auto]]. destruct Hb as (b1 & Hg & Hb). exists b1. split; [|done].
    by rewrite (os_update_fail _ _ _ _ _ Hu).
Qed.

(** The history gets the snapshot exactly when the update is accepted. *)
Lemma record_abs b0 w s h :
  abs b0 w s h →
  ∃ r w', BackupController.updateCStorCompletedBackup b0 w = (Ret r, w') ∧
    abs b0 w' s (match r with None => bs_SnapName (bkp_Spec b0) :: h | Some _ => h end).
Proof.
  intros Habs. pose proof Habs as (Hb & Hl & Hst1 & Hst2).
  unfold BackupController.updateCStorCompletedBackup, mbind, M_bind, reads, call.
  unfold last_two in Hl. set (k := BackupController.lastbkpname b0) in *.
  destruct (rGet (Obj:=V1Alpha1CStorCompletedBackup) w (namespace b0) k) as [a|e] eqn:Ha.
  - destruct (os_get _ _ _ _ Ha) as [Hn Hns].
    set (a' := BackupController.acb_rotate (bs_SnapName (bkp_Spec b0)) a).
    assert (Hb' : same W CStorBackup w (rUpdate (namespace b0) a' w).2) by (intros ??; apply apart_update).
    assert (Hc' : same W CStorCompletedBackup w (rUpdate (namespace b0) a' w).2) by (intros ??; apply apart_update).
    destruct (rUpdate (namespace b0) a' w) as [[o|err] w'] eqn:Hu; cbn in Hb', Hc'.
    + exists None, w'. split; [done|].
      assert (∃ rv, rGet w' (namespace b0) k = OK (stamped rv a')) as [rv Hg].
      { rewrite <-Hn, <-Hns in *. change (namespace a) with (namespace a') in Hu.
        destruct (os_update a' _ _ _ Hu) as [_ [Hg|(Hd & _)]]; [done|]. destruct Hd. exact (Hst1 a eq_refl). }
      unfold abs, last_two, history_stays. fold k. rewrite Hb', Hc', Hg. split; [done|]. split.
      * injection Hl as Hl1 Hl2. unfold recent. cbn [hd tl]. by rewrite <-Hl1.
      * split; [intros ? [= <-]; exact (Hst1 a eq_refl)|done].
    + exists (Some err), w'. split; [done|]. eapply abs_same; [|done]. split_and!; [done..|].
      intros ns n. by eapply os_update_fail.
  - destruct (rGet (Obj:=CStorCompletedBackup) w (namespace b0) k) as [c|e'] eqn:Hc; [|done].
    destruct (os_get _ _ _ _ Hc) as [Hn Hns].
    set (c' := BackupController.cb_rotate (bs_SnapName (bkp_Spec b0)) c).
    assert (Hb' : same W CStorBackup w (rUpdate (namespace b0) c' w).2) by (intros ??; apply apart_update).
    assert (Ha' : same W V1Alpha1CStorCompletedBackup w (rUpdate (namespace b0) c' w).2) by (intros ??; apply apart_update).
    destruct (rUpdate (namespace b0) c' w) as [[o|err] w'] eqn:Hu; cbn in Hb', Ha'.
    + exists None, w'. split; [done|].
      assert (∃ rv, rGet w' (namespace b0) k = OK (stamped rv c')) as [rv Hg].
      { rewrite <-Hn, <-Hns in *. change (namespace c) with (namespace c') in Hu.
        destruct (os_update c' _ _ _ Hu) as [_ [Hg|(Hd & _)]]; [done|]. destruct Hd. exact (Hst2 c eq_refl). }
      unfold abs, last_two, history_stays. fold k. rewrite Hb', Ha', Ha, Hg. split; [done|]. split.
      * injection Hl as Hl1 Hl2. unfold recent. cbn [hd tl]. by rewrite <-Hl1.
      * split; [done|]. intros ? [= <-]. exact (Hst2 c eq_refl).
    + exists (Some err), w'. split; [done|]. eapply abs_same; [|done]. split_and!; [done| |done].
      intros ns n. by eapply os_update_fail.
Qed.

(** The end of the handler: the status is stored, or the one before stays. *)
Definition store_status (b : CStorBackup) (new : string) : M W (option error) :=
  let* r := reads (λ w, rGet (Obj:=CStorBackup) w (namespace b) (name b)) in
  match r with
  | Err err => mret (Some err)
  | OK nbkp =>
      let nbkp := bkp_with_status new nbkp in
      let* r := call (rUpdate (namespace nbkp) nbkp) in
      mret (match r with OK _ => None | Err err => Some err end)
  end.
Lemma store_status_abs b0 b new w s h :
  name b = name b0 → namespace b = namespace b0 → abs b0 w s h →
  ∃ r w' s', store_status b new w = (Ret r, w') ∧ abs b0 w' s' h ∧ (s' = s ∨ s' = new).
Proof.
  intros Hn Hns Habs. pose proof Habs as ((b1 & Hg & Hsp & Hst & Hs) & _).
  unfold store_status, mbind, M_bind, reads, call. rewrite Hn, Hns, Hg.
  destruct (os_get _ _ _ _ Hg) as [Hn1 Hns1].
  pose proof (update_abs b0 b1 new w s h Habs Hn1 Hns1 Hsp Hst) as Hu.
  change (namespace (bkp_with_status new b1)) with (namespace b1).
  destruct (rUpdate (namespace b1) (bkp_with_status new b1) w) as [[o|e] w']; eauto 10.
Qed.

Lemma not_completed_statuses :
  ¬ completed BKPCStorStatusPending ∧ ¬ completed BKPCStorStatusInit ∧ ¬ completed BKPCStorStatusInProgress.
Proof. pose proof backup_statuses as Hd. rewrite !NoDup_cons in Hd. unfold completed. set_solver. Qed.
Lemma statuses_not_empty :
  BKPCStorStatusInit ≠ "" ∧ BKPCStorStatusInvalid ≠ "" ∧ BKPCStorStatusFailed ≠ "" ∧ BKPCStorStatusDone ≠ "".
Proof. pose proof backup_statuses as Hd. rewrite !NoDup_cons in Hd. set_solver. Qed.

(** The simulation of one handler of an event: the status it returns, and the world it leaves. *)
Definition handled (b : CStorBackup) (w : W) (h : list string) (m : M W (string * option error)) : Prop :=
  let steps s h' := rtc (backup_spec (bs_SnapName (bkp_Spec b))) (bkp_Status b, h) (s, h') in
  match m w with
  | (Panic _, w') => ∃ s, abs b w' s h ∧ steps s h
  | (Ret (new, err), w') =>
      ∃ s h', abs b w' s h' ∧ steps s h' ∧
        (new ≠ "" → steps (match err with Some _ => BKPCStorStatusFailed | None => new end) h')
  end.

Lemma addEventHandler_handled b w h :
  abs b w (bkp_Status b) h → ¬ completed (bkp_Status b) → handled b w h (BackupController.addEventHandler b).
Proof.
  intros Habs Hc. unfold handled, BackupController.addEventHandler. rewrite bkp_IsPending_spec.
  case_bool_decide as Hp; cbn [negb].
  - pose proof (abs_same _ _ _ _ _ (event_same_all b "Normal" "Update" "initilized backup process" w) Habs) as Hw.
    unfold mbind, M_bind. unfold final in Hw. unfold BackupController.bkp_event, emit in *. cbn in Hw |- *.
    eexists _, h. split; [exact Hw|]. split; [done|]. intros _. rewrite Hp. apply rtc_once, spec_init.
  - cbn. eexists _, h. split; [exact Habs|]. split; [done|]. intros _. by apply rtc_once, spec_invalid.
Qed.

(** A part of a handler that writes no object leaves the abstraction. *)
Lemma abs_after {A} b0 (m : M W A) w s h r w' :
  keeps same_all m → abs b0 w s h → m w = (r, w') → abs b0 w' s h.
Proof. intros Hm Habs Hr. eapply abs_same; [exact (keeps_run _ _ _ _ _ Hm Hr)|done]. Qed.

Lemma syncEventHandler_handled b w h :
  abs b w (bkp_Status b) h → stays b → handled b w h (BackupController.syncEventHandler b).
Proof.
  intros Habs Hst. unfold handled, BackupController.syncEventHandler. rewrite bkp_IsInInit_spec.
  case_bool_decide as Hi; [|cbn; eexists _, h; split; [exact Habs|by split]]. rewrite Hi in Habs |- *.
  set (b' := bkp_with_status BKPCStorStatusInProgress b).
  pose proof (update_abs b b BKPCStorStatusInProgress w _ h Habs eq_refl eq_refl eq_refl Hst) as Hu.
  fold b' in Hu. unfold mbind at 1, M_bind at 1, call at 1. change (namespace b') with (namespace b).
  destruct (rUpdate (namespace b) b' w) as [[o|e] w1]; cbn zeta beta iota; [|cbn; eexists _, h; split; [exact Hu|by split]].
  assert (Hstart : rtc (backup_spec (bs_SnapName (bkp_Spec b))) (BKPCStorStatusInit, h) (BKPCStorStatusInProgress, h))
    by apply rtc_once, spec_start.
  unfold mbind at 1, M_bind at 1.
  destruct (CreateVolumeBackup b' w1) as [[[err|]|why] w2] eqn:Hcv;
    pose proof (abs_after _ _ _ _ _ _ _ (transfer_same_all b') Hu Hcv) as Hw2; [| |eexists; split; [exact Hw2|done]].
  - cbn. eexists _, h. split; [eapply abs_same; [|exact Hw2]; apply (event_same_all b' "Warning" "Backup"
      "failed to create backup error: %s" w2)|]. split; [done|]. intros _. eapply rtc_r; [done|apply spec_failed].
  - unfold mbind at 1, M_bind at 1.
    destruct (BackupController.bkp_event b' _ _ _ w2) as [[[]|why] w3] eqn:Hev;
      pose proof (abs_after _ _ _ _ _ _ _ (event_same_all b' _ _ _) Hw2 Hev) as Hw3; [|eexists; split; [exact Hw3|done]].
    destruct (record_abs b w3 _ h Hw3) as (r & w4 & Hr & Hw4).
    unfold mbind at 1, M_bind at 1.
    change (BackupController.updateCStorCompletedBackup b') with (BackupController.updateCStorCompletedBackup (W:=W) b).
    rewrite Hr. destruct r as [err|]; cbn.
    + eexists _, h. split; [exact Hw4|]. split; [done|]. intros _. eapply rtc_r; [done|apply spec_failed].
    + eexists _, _. split; [exact Hw4|].
      assert (Hrec : rtc (backup_spec (bs_SnapName (bkp_Spec b))) (BKPCStorStatusInit, h)
        (BKPCStorStatusInProgress, bs_SnapName (bkp_Spec b) :: h)) by (eapply rtc_r; [done|apply spec_record]).
      split; [done|]. intros _. eapply rtc_r; [exact Hrec|apply spec_done].
Qed.

Lemma eventHandler_handled op b w h :
  abs b w (bkp_Status b) h → stays b → ¬ completed (bkp_Status b) →
  handled b w h (BackupController.eventHandler op b).
Proof.
  intros Habs Hst Hc. destruct op; cbn;
    [by apply addEventHandler_handled|by exists (bkp_Status b), h| |by apply syncEventHandler_handled|];
    unfold handled; cbn; exists (bkp_Status b), h; (split; [done|split; [done|]]); intros _;
    by apply rtc_once, spec_invalid.
Qed.

(** An event of a backup is a run of the specification. *)
Lemma syncHandler_refines key op b w h :
  cache_SplitMetaNamespaceKey key = OK (namespace b, name b) →
  rGet w (namespace b) (name b) = OK b → abs b w (bkp_Status b) h →
  ∃ s' h', abs b (final (BackupController.syncHandler key op) w) s' h' ∧
    rtc (backup_spec (bs_SnapName (bkp_Spec b))) (bkp_Status b, h) (s', h').
Proof.
  intros Hk Hg Habs. unfold final, BackupController.syncHandler.
  rewrite (bind_run _ _ _ _ _ (getCStorBackupResource_run key w)), Hk, Hg.
  destruct (bkp_IsSucceeded b || bkp_IsFailed b) eqn:Hc; [by exists (bkp_Status b), h|].
  assert (Hst : stays b). { destruct Habs as [(b1 & Hg1 & _ & Hst & _) _]. congruence. }
  assert (Hnc : ¬ completed (bkp_Status b)) by (rewrite <-completed_predicates; by rewrite Hc).
  pose proof (eventHandler_handled op b w h Habs Hst Hnc) as Hh. unfold handled in Hh.
  unfold mbind at 1, M_bind at 1.
  destruct (BackupController.eventHandler op b w) as [[[new err]|why] w1];
    [|destruct Hh as (s & Hs & Hsteps); by exists s, h].
  destruct Hh as (s & h' & Hs & Hsteps & Hnew).
  case_bool_decide as Hne; [by exists s, h'|]. specialize (Hnew Hne).
  match goal with |- context [BKPCStorStatusFailed] =>
    set (st := match err with Some _ => BKPCStorStatusFailed | None => new end) in * end.
  destruct (store_status_abs b b st w1 s h' eq_refl eq_refl Hs) as (r & w' & s' & Hr & Hw' & Hor).
  unfold store_status in Hr. rewrite Hr. exists s', h'. split; [done|]. by destruct Hor as [->| ->].
Qed.

(** A backup that is done is the latest of its schedule. *)
Lemma spec_done_latest snap s h h' :
  s ≠ BKPCStorStatusDone → rtc (backup_spec snap) (s, h) (BKPCStorStatusDone, h') → hd "" h' = snap.
Proof.
  intros Hs Hr. apply rtc_inv_r in Hr as [[= -> ->]|([s1 h1] & _ & Hl)]; [done|].
  pose proof backup_statuses as Hd. rewrite !NoDup_cons in Hd. inversion Hl; subst; try done; set_solver.
Qed.
End backup_history.

(** ** The next backup of a schedule *)

Section next_backup.
Context {W : Type} `{OpenebsApi} `{VolumeApi} `{PoolApi} `{BackupApiLaws}.
Context `{!ResourceClient W CStorBackup} `{!ResourceClient W CStorCompletedBackup}.
Context `{!ResourceClient W V1Alpha1CStorBackup} `{!ResourceClient W V1Alpha1CStorCompletedBackup}.
Context `{!ResourceClient W CStorVolumeReplica} `{!ResourceClient W CStorPoolInstance}.
Context `{!ObjectStore W CStorBackup} `{!ObjectStore W V1Alpha1CStorBackup}.

(** The schedule has one completed backup, of one of the versions. *)
Definition one_history (w : W) (ns n : string) : Prop :=
  (∃ e, rGet (Obj:=CStorCompletedBackup) w ns n = Err e) ∨
  (∃ e, rGet (Obj:=V1Alpha1CStorCompletedBackup) w ns n = Err e).

Lemma last_snap_run (h : backupHelper) ns n w l :
  one_history w ns n → last_two w ns n = Some (recent l) →
  match h with
  | V1Alpha1Backup b => namespace b = ns ∧ v1Alpha1BackupWrapper.lastbkpname b = n
  | V1Backup b => namespace b = ns ∧ v1BackupWrapper.lastbkpname b = n
  end →
  ∀ snap w', getOrCreateLastBackupSnap h w = (Ret (OK snap), w') → snap = hd "" l ∧ w' = w.
Proof.
  intros Hone Hl Hh snap w'. unfold last_two in Hl. destruct h as [b|b], Hh as [<- <-]; cbn;
    unfold v1Alpha1BackupWrapper.getOrCreateLastBackupSnap, v1BackupWrapper.getOrCreateLastBackupSnap,
      mbind, M_bind, reads, call;
    destruct (rGet (Obj:=CStorCompletedBackup) w _ _) as [c|e1] eqn:Hc;
    destruct (rGet (Obj:=V1Alpha1CStorCompletedBackup) w _ _) as [a|e2] eqn:Ha;
    destruct Hone as [[e He]|[e He]]; simplify_eq; try congruence;
    unfold recent in *; repeat case_match; intros; unfold mret, M_ret in *; simplify_eq; done.
Qed.

(** What a create request stores: the spec with the latest snapshot, pending, for the pool of a
    healthy replica. *)
Definition stored_pending (spec : CStorBackupSpec) (prev : string) (ns n : string) (w : W) : Prop :=
  let spec' := spec {{ bs_PrevSnapName := prev }} in
  (∃ b, rGet (Obj:=CStorBackup) w ns n = OK b ∧ bkp_Spec b = spec' ∧ bkp_Status b = BKPCStorStatusPending) ∨
  (∃ b, rGet (Obj:=V1Alpha1CStorBackup) w ns n = OK b ∧ abkp_Spec b = spec' ∧ abkp_Status b = BKPCStorStatusPending).

Lemma create_run {Obj} `{HasMeta Obj} `{!ResourceClient W Obj} `{!ObjectStore W Obj} (o : Obj) w r w' :
  call (rCreate (namespace o) o) w = (Ret (OK r), w') →
  ∃ rv, rGet w' (namespace o) (name o) = OK (stamped rv o).
Proof.
  unfold call. destruct (rCreate (namespace o) o w) as [[o'|e] w1] eqn:Hc; [|done]. intros [= -> ->].
  by destruct (os_create _ _ _ _ Hc).
Qed.

Lemma createBackupResource_run (h : backupHelper) w w' :
  createBackupResource h w = (Ret None, w') →
  match h with
  | V1Alpha1Backup b => ∃ rv, rGet w' (namespace b) (name b) = OK (stamped rv b)
  | V1Backup b => ∃ rv, rGet w' (namespace b) (name b) = OK (stamped rv b)
  end.
Proof.
  destruct h as [b|b]; cbn [createBackupResource];
    unfold v1Alpha1BackupWrapper.createBackupResource, v1BackupWrapper.createBackupResource;
    intros (r & w1 & Hc & Hr)%M_bind_Ret; destruct r; unfold mret, M_ret in Hr; simplify_eq;
    by eapply create_run.
Qed.

(** The interface for a pool is made of the backup, in one of the versions. *)
Lemma interface_of_backup v b h :
  getBackupInterfaceFromPoolVersion v b = OK h → h = V1Alpha1Backup (getV1Alpha1BackupFromV1 b) ∨ h = V1Backup b.
Proof.
  unfold getBackupInterfaceFromPoolVersion. destruct (parse_pool_version v) as [g|e].
  - destruct (below_minV1SupportedVersion g); intros [= <-]; auto.
  - case_match; [done|]. intros [= <-]. auto.
Qed.

Lemma create_remote_stores b w l a w' :
  let s := bkp_Spec b in
  let sched := bs_BackupName s +:+ "-" +:+ bs_VolumeName s in
  one_history w (namespace b) sched → last_two w (namespace b) sched = Some (recent l) →
  create_remote b w = (Ret (answered a), w') →
  stored_pending s (hd "" l) (namespace b) (bs_SnapName s +:+ "-" +:+ bs_VolumeName s) w'.
Proof.
  intros s sched Hone Hl. unfold create_remote. unfold mbind at 1, M_bind at 1, reads at 1.
  destruct (findHealthyCVR _ _ w) as [cvr|e]; [|done].
  set (b' := set_labels _ _). unfold mbind at 1, M_bind at 1, reads at 1.
  assert (Hn : name b' = bs_SnapName s +:+ "-" +:+ bs_VolumeName s) by done.
  assert (Hns : namespace b' = namespace b) by done. assert (Hsp : bkp_Spec b' = s) by by destruct b.
  clearbody b'. destruct (getPoolVersion _ _ w) as [v|e]; [|done].
  destruct (getBackupInterfaceFromPoolVersion v b') as [h|e] eqn:Hi; [|done].
  intros (r & w1 & Hlast & Hr)%M_bind_Ret. destruct r as [snap|e]; [|done].
  apply interface_of_backup in Hi.
  assert (snap = hd "" l ∧ w1 = w) as [-> ->].
  { eapply (last_snap_run h (namespace b) sched); [done..| |done].
    destruct Hi as [-> | ->]; unfold v1Alpha1BackupWrapper.lastbkpname, v1BackupWrapper.lastbkpname; cbn -[String.append];
      rewrite <-Hns; by rewrite Hsp. }
  apply M_bind_Ret in Hr as (err & w2 & Hc & Hr). destruct err; [done|].
  assert (w2 = w') as -> by (unfold mret, M_ret in Hr; by simplify_eq).
  apply createBackupResource_run in Hc. rewrite <-Hns, <-Hn. unfold stored_pending.
  destruct Hi as [-> | ->]; cbn in Hc; destruct Hc as [rv Hg]; [right|left]; eexists; (split; [exact Hg|]);
    cbn; rewrite <-?backup_pending_same, <-Hsp; split; try done; by destruct b' as [? []].
Qed.
End next_backup.
