(* ===== verification/RestoreFacts.v ===== *)
(** * RestoreFacts: lemmas on restores

    The statuses that the restore controller and the REST endpoint store, the status that is
    reported for the restores of a volume, and the restores that a request creates. *)

From stdpp Require Import base gmap strings list sets relations.
From Stdlib Require Import Ascii ZArith Lia.
From coqutil Require Import Datatypes.RecordSetters.
From S2P Require Import Prelude Steps Api Version VolumeApi Zcmd PoolApi BackupApi VolumeReplica CspiSync ReplicaSync Backup Restore Snapshot HttpServer BackupRest RestoreRest BackupFacts.
Import DoubleBraceUpdate.

(** Every value that a computation returns has a property. *)
Definition returns {W A} (P : A → Prop) (m : M W A) : Prop :=
  ∀ w a w', m w = (Ret a, w') → P a.
Lemma keeps_bind_returns {W A B} (R : relation W) `{!PreOrder R} (P : A → Prop) (m : M W A) (f : A → M W B) :
  keeps R m → returns P m → (∀ a, P a → keeps R (f a)) → keeps R (m ≫= f).
Proof.
  intros Hm Hp Hf w. unfold final, mbind, M_bind. specialize (Hm w). unfold final in Hm.
  destruct (m w) as [[a|s] w1] eqn:Hr; [|done]. etrans; [apply Hm|]. apply Hf. by eapply Hp.
Qed.

(** ** The statuses of restores *)

Section restore_types.
Context {W : Type} `{OpenebsApi} `{VolumeApi} `{PoolApi} `{BackupApi} `{PodEnv} `{BuildInfo}.
Context `{!Runner W} `{!Clock W} `{!Env W} `{!Uuid W}.
Context `{!ResourceClient W CStorRestore} `{!ResourceClient W V1Alpha1CStorRestore}.
Context `{!ResourceClient W CStorVolumeReplica} `{!ResourceClient W CStorPoolInstance}.
Context `{!ResourceClient W CStorVolume} `{!ResourceClient W CStorVolumeConfig}.
Context `{!ResourceClient W StorageClass} `{!ResourceClient W Pod} `{!ResourceClient W Node}.
Context `{!Codec CStorRestore} `{!ObjectStore W CStorRestore} `{!Quiet W CStorRestore}.
Context `{!Apart W CStorRestore V1Alpha1CStorRestore} `{!Apart W CStorRestore CStorVolumeConfig}.
Context (json_Marshal_status : string → result string) (resp_Write : string → option error).

(** package uuid writes no restores. *)
Definition quiet_uuid : Prop := ∀ w, same W CStorRestore w (uuid_NewUUID w).2.

(** The values of CStorRestoreStatus. *)
Definition restore_status : gset string :=
  {[RSTCStorStatusEmpty; RSTCStorStatusDone; RSTCStorStatusFailed; RSTCStorStatusInit;
    RSTCStorStatusPending; RSTCStorStatusInProgress; RSTCStorStatusInvalid]}.
Definition typed (w : W) : Prop :=
  ∀ ns n (r : CStorRestore), rGet w ns n = OK r → rst_Status r ∈ restore_status.

(** The steps of the processes that write restores. *)
Inductive restore_step (w : W) : W → Prop :=
| restore_event key op : restore_step w (final (RestoreController.syncHandler key op) w)
| restore_start : restore_step w (final RestoreController.cleanupOldRestore w)
| restore_request req :
    restore_step w (final (restoreV1alpha1SpecificRequest json_Marshal_status resp_Write req) w).

Definition typing (w w' : W) : Prop := typed w → typed w'.
#[local] Instance typing_preorder : PreOrder typing.
Proof. split; [by intros w Hw|]. intros w1 w2 w3 Ha Hb Hw. auto. Qed.
Lemma same_typing {A} (m : M W A) : keeps (same W CStorRestore) m → keeps typing m.
Proof. intros Hm w Hw ns n r Hg. apply (Hw ns n). by rewrite <-(Hm w). Qed.

Lemma update_typing (r : CStorRestore) : rst_Status r ∈ restore_status → keeps typing (call (rUpdate (namespace r) r)).
Proof.
  intros Hs. apply keeps_call. intros w Hw ns n r' Hg.
  destruct (decide ((ns, n) = (namespace r, name r))) as [[= -> ->]|Hne];
    [|rewrite os_update_other in Hg by done; by eapply Hw].
  destruct (rUpdate (namespace r) r w) as [[o|e] w'] eqn:Hu; cbn in Hg.
  - destruct (os_update _ _ _ _ Hu) as [_ [[rv Hg']|(_ & e & Hg')]]; [|congruence].
    rewrite Hg' in Hg. by injection Hg as <-.
  - rewrite (os_update_fail _ _ _ _ _ Hu) in Hg. by eapply Hw.
Qed.
Lemma create_typing (r : CStorRestore) : rst_Status r ∈ restore_status → keeps typing (call (rCreate (namespace r) r)).
Proof.
  intros Hs. apply keeps_call. intros w Hw ns n r' Hg.
  destruct (decide ((ns, n) = (namespace r, name r))) as [[= -> ->]|Hne];
    [|rewrite os_create_other in Hg by done; by eapply Hw].
  destruct (rCreate (namespace r) r w) as [[o|e] w'] eqn:Hu; cbn in Hg.
  - destruct (os_create _ _ _ _ Hu) as [_ [rv Hg']]. rewrite Hg' in Hg. by injection Hg as <-.
  - rewrite (os_create_fail _ _ _ _ _ Hu) in Hg. by eapply Hw.
Qed.
Lemma status_update_typing s (r : CStorRestore) : s ∈ restore_status →
  keeps typing (call (rUpdate (namespace r) (rst_with_status s r))).
Proof. intros Hs. by apply (update_typing (rst_with_status s r)). Qed.

Ltac valid := unfold restore_status; set_solver.

Lemma CreateVolumeRestore_same r : keeps (same W CStorRestore) (CreateVolumeRestore r).
Proof. unfold CreateVolumeRestore. keeps_auto. apply transfer_same; eauto with keeps. apply _. Qed.

Lemma rstEventHandler_typing op r : keeps typing (RestoreController.rstEventHandler op r).
Proof.
  unfold RestoreController.rstEventHandler, RestoreController.addEventHandler,
    RestoreController.syncEventHandler, RestoreController.rst_event.
  keeps_auto; try (apply same_typing; eauto using CreateVolumeRestore_same with keeps; fail).
  apply (status_update_typing RSTCStorStatusInProgress r). valid.
Qed.
Lemma rstEventHandler_returns op r :
  returns (λ se, se.1 = "" ∨ se.1 ∈ restore_status) (RestoreController.rstEventHandler op r).
Proof.
  intros w [s e] w'. unfold RestoreController.rstEventHandler, RestoreController.addEventHandler,
    RestoreController.syncEventHandler. intros Hr. cbn.
  destruct op; do 4 (split_run; inv_run); (by left) || (right; valid).
Qed.

Lemma syncHandler_typing key op : keeps typing (RestoreController.syncHandler key op).
Proof.
  unfold RestoreController.syncHandler, RestoreController.getCStorRestoreResource.
  apply keeps_bind; [apply _|keeps_auto|]. intros [[r|]|err]; [|apply keeps_mret; apply _..].
  destruct (_ || _); [apply keeps_mret; apply _|].
  apply (keeps_bind_returns _ _ _ _ (rstEventHandler_typing _ _) (rstEventHandler_returns _ _)).
  intros [s e] Hs. cbn in Hs. case_bool_decide as He; [apply keeps_mret; apply _|].
  destruct Hs as [->|Hs]; [done|]. keeps_auto. apply update_typing. cbn. destruct e; [valid|done].
Qed.

Lemma cleanupOldRestore_typing : keeps typing RestoreController.cleanupOldRestore.
Proof.
  unfold RestoreController.cleanupOldRestore, RestoreController.updateRestoreStatus. keeps_auto.
  apply status_update_typing. valid.
Qed.

Lemma getCStorRestoreStatus_typing s l : keeps typing (getCStorRestoreStatus s l).
Proof.
  revert s. induction l as [|r l IH]; intros s; cbn [getCStorRestoreStatus]; [apply keeps_mret; apply _|].
  apply keeps_bind; [apply _|keeps_auto|]. intros down. cbv zeta.
  set (st := if down : bool then RSTCStorStatusFailed else rst_Status r).
  apply keeps_bind; [apply _| |keeps_auto; auto].
  destruct (bool_decide (st = RSTCStorStatusInProgress)); [apply keeps_mret; apply _|].
  destruct (bool_decide (st = RSTCStorStatusFailed) || bool_decide (st = RSTCStorStatusInvalid)) eqn:Hst;
    [|apply keeps_mret; apply _]. keeps_auto. apply status_update_typing.
  apply orb_true_iff in Hst as [->%bool_decide_eq_true| ->%bool_decide_eq_true]; valid.
Qed.

Lemma getV1Alpha1CStorRestoreStatus_same s l : keeps (same W CStorRestore) (getV1Alpha1CStorRestoreStatus s l).
Proof.
  revert s. induction l as [|r l IH]; intros s; cbn [getV1Alpha1CStorRestoreStatus]; [apply keeps_mret; apply _|].
  keeps_auto; auto.
Qed.

Lemma restore_get_typing req : keeps typing (restore_get json_Marshal_status resp_Write req).
Proof.
  unfold restore_get, getRestoreStatus.
  keeps_auto; (apply getCStorRestoreStatus_typing || apply same_typing, getV1Alpha1CStorRestoreStatus_same).
Qed.

Lemma uuid_same : quiet_uuid → keeps (same W CStorRestore) (call uuid_NewUUID).
Proof. intros Hq. apply keeps_call. apply Hq. Qed.
Lemma create_restores_typing m r a l : quiet_uuid → keeps typing (create_restores m r a l).
Proof.
  intros Hq. pose proof (same_typing _ (uuid_same Hq)).
  assert (Hv1 : ∀ r cvr, keeps typing (buildAndCreateV1Restore r cvr)).
  { intros r' cvr. unfold buildAndCreateV1Restore. keeps_auto. apply create_typing. cbn. valid. }
  assert (Ha1 : ∀ a cvr, keeps typing (buildAndCreateV1Alpha1Restore a cvr)).
  { intros a' cvr. unfold buildAndCreateV1Alpha1Restore. keeps_auto. apply same_typing. eauto with keeps. }
  revert r a. induction l as [|cvr l IH]; intros r a; cbn [create_restores]; [apply keeps_mret; apply _|].
  keeps_auto; auto.
Qed.
Lemma bound_attempts_same n ns left : keeps (same W CStorRestore) (bound_attempts n ns left).
Proof.
  induction left as [|left IH]; cbn [bound_attempts]; [apply keeps_mret; apply _|]. keeps_auto; auto.
Qed.
Lemma createVolumeForRestore_same r : keeps (same W CStorRestore) (createVolumeForRestore r).
Proof.
  unfold createVolumeForRestore, waitForCVCBoundState. keeps_auto; apply bound_attempts_same.
Qed.
Lemma restore_create_typing req : quiet_uuid → keeps typing (restore_create req).
Proof.
  intros Hq. unfold restore_create, createRestore, getISCSIPersistentVolumeSource.
  keeps_auto; [apply same_typing, createVolumeForRestore_same|by apply create_restores_typing].
Qed.

Lemma restore_step_typing w w' : quiet_uuid → restore_step w w' → typed w → typed w'.
Proof.
  intros Hq [key op| |req].
  - apply syncHandler_typing.
  - apply cleanupOldRestore_typing.
  - unfold restoreV1alpha1SpecificRequest.
    case_bool_decide; [by apply restore_create_typing|]. case_bool_decide; [apply restore_get_typing|done].
Qed.
End restore_types.

(** ** The status that is reported *)

Section restore_report.
Context {W : Type} `{OpenebsApi} `{VolumeApi} `{PoolApi} `{BackupApiLaws} `{PodEnv}.
Context `{!ResourceClient W CStorRestore} `{!ResourceClient W V1Alpha1CStorRestore}.
Context `{!ResourceClient W Pod} `{!ResourceClient W Node}.

(** An update of a restore changes no pod and no node. *)
Definition pools_same (w w' : W) : Prop :=
  ∀ p ns, isPoolManagerDown p ns w' = isPoolManagerDown p ns w.
Definition steady_pools : Prop :=
  (∀ ns (r : CStorRestore) w, pools_same w (rUpdate ns r w).2) ∧
  (∀ ns (r : V1Alpha1CStorRestore) w, pools_same w (rUpdate ns r w).2).

(** A restore counts as failed while it is not finished and its pool manager is down. *)
Definition stalled (w : W) (r : CStorRestore) : bool :=
  negb (bool_decide (rst_Status r = RSTCStorStatusDone)) &&
  negb (bool_decide (rst_Status r = RSTCStorStatusFailed)) &&
  isPoolManagerDown (label (labels r) CStorPoolInstanceNameLabelKey) getOpenEBSNamespace w.
Definition effective (w : W) (r : CStorRestore) : string :=
  if stalled w r then RSTCStorStatusFailed else rst_Status r.
Definition alpha_stalled (w : W) (r : V1Alpha1CStorRestore) : bool :=
  negb (bool_decide (arst_Status r = ARSTCStorStatusDone)) &&
  negb (bool_decide (arst_Status r = ARSTCStorStatusFailed)) &&
  isPoolManagerDown (label (labels r) CStorPoolInstanceNameLabelKey) getOpenEBSNamespace w.
Definition alpha_effective (w : W) (r : V1Alpha1CStorRestore) : string :=
  if alpha_stalled w r then ARSTCStorStatusFailed else arst_Status r.

(** The report: in progress if one of them is, else the status of the last one. *)
Definition report (none : string) (l : list string) : string :=
  if bool_decide (RSTCStorStatusInProgress ∈ l) then RSTCStorStatusInProgress else default none (last l).

(** The writes of a report: stalled restores are marked as failed. *)
Inductive marks (w0 : W) (la : list V1Alpha1CStorRestore) (lv : list CStorRestore) (w : W) : W → Prop :=
| marks_v1 r : r ∈ lv → stalled w0 r = true →
    marks w0 la lv w (rUpdate (namespace r) (rst_with_status RSTCStorStatusFailed r) w).2
| marks_v1alpha1 r : r ∈ la → alpha_stalled w0 r = true →
    marks w0 la lv w (rUpdate (namespace r) (r {{ arst_Status := ARSTCStorStatusFailed }}) w).2.

Lemma report_cons none s l : s ≠ RSTCStorStatusInProgress → report none (s :: l) = report s l.
Proof.
  intros Hs. unfold report. destruct (decide (RSTCStorStatusInProgress ∈ l)) as [Hin|Hin].
  - rewrite !bool_decide_eq_true_2 by set_solver. done.
  - rewrite !bool_decide_eq_false_2 by set_solver. rewrite last_cons. by destruct (last l).
Qed.
Lemma report_none none none' l : l ≠ [] → report none l = report none' l.
Proof. intros Hl. unfold report. destruct (last l) eqn:Hy; [done|by apply last_None in Hy]. Qed.
Lemma report_in_progress none l : report none (RSTCStorStatusInProgress :: l) = RSTCStorStatusInProgress.
Proof. unfold report. rewrite bool_decide_eq_true_2; [done|by left]. Qed.
Lemma report_app none l l' : l' ≠ [] → report none l ≠ RSTCStorStatusInProgress ∨ l = [] →
  report none (l ++ l') = report none l'.
Proof.
  intros Hne Hl. assert (Hin : RSTCStorStatusInProgress ∉ l).
  { destruct Hl as [Hl| ->]; [|apply not_elem_of_nil]. unfold report in Hl. by case_bool_decide. }
  unfold report. rewrite last_app. destruct (last l') as [y|] eqn:Hy; [|by apply last_None in Hy].
  destruct (decide (RSTCStorStatusInProgress ∈ l')); [rewrite !bool_decide_eq_true_2; set_solver|].
  rewrite !bool_decide_eq_false_2; set_solver.
Qed.
Lemma report_left none l l' : report none l = RSTCStorStatusInProgress → l ≠ [] →
  none ≠ RSTCStorStatusInProgress → report none (l ++ l') = RSTCStorStatusInProgress.
Proof.
  intros Hr Hne Hn. assert (RSTCStorStatusInProgress ∈ l).
  { unfold report in Hr. case_bool_decide as Hin; [done|].
    destruct (last l) as [y|] eqn:Hy; [|by apply last_None in Hy]. cbn in Hr. subst y.
    apply last_Some in Hy as [l0 ->]. set_solver. }
  unfold report. by rewrite bool_decide_eq_true_2 by set_solver.
Qed.

Lemma in_progress_other : RSTCStorStatusFailed ≠ RSTCStorStatusInProgress ∧ RSTCStorStatusEmpty ≠ RSTCStorStatusInProgress.
Proof. pose proof restore_statuses as Hd. rewrite !NoDup_cons in Hd. set_solver. Qed.

Lemma effective_same w w' r : pools_same w w' → effective w' r = effective w r.
Proof. intros Hs. unfold effective, stalled. by rewrite Hs. Qed.
Lemma alpha_effective_same w w' r : pools_same w w' → alpha_effective w' r = alpha_effective w r.
Proof. intros Hs. unfold alpha_effective, alpha_stalled. by rewrite Hs. Qed.

(** One restore of a loop: it is marked when it is stalled, and its effective status is kept. *)
Lemma v1_status_step s r l w :
  getCStorRestoreStatus s (r :: l) w =
    if bool_decide (effective w r = RSTCStorStatusInProgress) then (Ret (effective w r), w)
    else getCStorRestoreStatus (effective w r) l
           (if stalled w r then (rUpdate (namespace r) (rst_with_status RSTCStorStatusFailed r) w).2 else w).
Proof.
  destruct in_progress_other as [Hf _]. cbn [getCStorRestoreStatus]. unfold effective, stalled.
  set (open := negb _ && negb _). set (down := isPoolManagerDown _ _).
  replace ((if open then reads down else mret false) : M W bool) with (reads (λ w0, open && down w0))
    by (destruct open; reflexivity).
  unfold mbind at 1, M_bind at 1, reads at 1. destruct (open && down w) eqn:Hs.
  - apply andb_true_iff in Hs as [[_ Hn%negb_true_iff]%andb_true_iff _].
    rewrite Hn, (bool_decide_eq_true_2 (RSTCStorStatusFailed = RSTCStorStatusFailed)) by done. cbn [orb negb].
    rewrite !bool_decide_eq_false_2 by done. unfold mbind, M_bind, call.
    destruct (rUpdate _ _ w) as [o w']. cbn. by rewrite bool_decide_eq_false_2 by done.
  - rewrite (bool_decide_eq_true_2 (rst_Status r = rst_Status r)) by done. cbn [negb].
    unfold mbind, M_bind, mret, M_ret. case_bool_decide as Hp; [by rewrite Hp, bool_decide_eq_true_2|].
    destruct (_ || _); by rewrite bool_decide_eq_false_2.
Qed.
Lemma alpha_status_step s r l w :
  getV1Alpha1CStorRestoreStatus s (r :: l) w =
    if bool_decide (alpha_effective w r = ARSTCStorStatusInProgress) then (Ret (alpha_effective w r), w)
    else getV1Alpha1CStorRestoreStatus (alpha_effective w r) l
           (if alpha_stalled w r then (rUpdate (namespace r) (r {{ arst_Status := ARSTCStorStatusFailed }}) w).2 else w).
Proof.
  destruct in_progress_other as [Hf _]. cbn [getV1Alpha1CStorRestoreStatus]. unfold alpha_effective, alpha_stalled.
  set (open := negb _ && negb _). set (down := isPoolManagerDown _ _).
  replace ((if open then reads down else mret false) : M W bool) with (reads (λ w0, open && down w0))
    by (destruct open; reflexivity).
  unfold mbind at 1, M_bind at 1, reads at 1. destruct (open && down w) eqn:Hs.
  - apply andb_true_iff in Hs as [[_ Hn%negb_true_iff]%andb_true_iff _].
    rewrite Hn, (bool_decide_eq_true_2 (ARSTCStorStatusFailed = ARSTCStorStatusFailed)) by done. cbn [orb negb].
    rewrite !bool_decide_eq_false_2 by (rewrite restore_inprogress_same, restore_failed_same; done). unfold mbind, M_bind, call.
    destruct (rUpdate _ _ w) as [o w']. cbn. by rewrite bool_decide_eq_false_2 by (rewrite restore_inprogress_same, restore_failed_same; done).
  - rewrite (bool_decide_eq_true_2 (arst_Status r = arst_Status r)) by done. cbn [negb].
    unfold mbind, M_bind, mret, M_ret. case_bool_decide as Hp; [by rewrite Hp, bool_decide_eq_true_2|].
    destruct (_ || _); by rewrite bool_decide_eq_false_2.
Qed.
Lemma v1_status_run s l la lv w0 w :
  steady_pools → (∀ r, r ∈ l → r ∈ lv) → pools_same w0 w →
  ∃ w', getCStorRestoreStatus s l w = (Ret (report s (effective w0 <$> l)), w') ∧
    pools_same w0 w' ∧ rtc (marks w0 la lv) w w'.
Proof.
  intros [Hst _]. revert s w. induction l as [|r l IH]; intros s w Hl Hs; [by exists w|].
  rewrite v1_status_step, (effective_same w0 w r Hs). cbn [fmap list_fmap]. 
  case_bool_decide as Hp; [exists w; by rewrite Hp, report_in_progress|].
  rewrite report_cons by done.
  assert (Hw : (stalled w r) = stalled w0 r) by (unfold stalled; by rewrite Hs). rewrite Hw.
  destruct (stalled w0 r) eqn:Hd; [|by apply IH; [set_solver|]].
  match goal with |- context [getCStorRestoreStatus _ _ ?w1] => destruct (IH (effective w0 r) w1) as (w' & Hr & Hp' & Hm) end;
    [set_solver|intros p ns; rewrite Hst; apply Hs|].
  exists w'. split; [done|]. split; [done|]. eapply rtc_l; [|exact Hm]. apply marks_v1; set_solver.
Qed.
Lemma alpha_status_run s l la lv w0 w :
  steady_pools → (∀ r, r ∈ l → r ∈ la) → pools_same w0 w →
  ∃ w', getV1Alpha1CStorRestoreStatus s l w = (Ret (report s (alpha_effective w0 <$> l)), w') ∧
    pools_same w0 w' ∧ rtc (marks w0 la lv) w w'.
Proof.
  intros [_ Hst]. revert s w. induction l as [|r l IH]; intros s w Hl Hs; [by exists w|].
  rewrite alpha_status_step, (alpha_effective_same w0 w r Hs). cbn [fmap list_fmap]. rewrite ?restore_inprogress_same. 
  case_bool_decide as Hp; [exists w; by rewrite Hp, report_in_progress|].
  rewrite report_cons by done.
  assert (Hw : (alpha_stalled w r) = alpha_stalled w0 r) by (unfold alpha_stalled; by rewrite Hs). rewrite Hw.
  destruct (alpha_stalled w0 r) eqn:Hd; [|by apply IH; [set_solver|]].
  match goal with |- context [getV1Alpha1CStorRestoreStatus _ _ ?w1] => destruct (IH (alpha_effective w0 r) w1) as (w' & Hr & Hp' & Hm) end;
    [set_solver|intros p ns; rewrite Hst; apply Hs|].
  exists w'. split; [done|]. split; [done|]. eapply rtc_l; [|exact Hm]. apply marks_v1alpha1; set_solver.
Qed.

(** The report of a volume. *)
Lemma getRestoreStatus_run rst w la lv :
  let selector := "openebs.io/restore=" +:+ rsp_RestoreName (rst_Spec rst) +:+ "," +:+
    PersistentVolumeLabelKey +:+ "=" +:+ rsp_VolumeName (rst_Spec rst) in
  steady_pools →
  list_or_not_found (rList w (namespace rst) selector) = OK la →
  list_or_not_found (rList w (namespace rst) selector) = OK lv →
  ∃ w', getRestoreStatus rst w =
      (Ret (OK (report RSTCStorStatusEmpty ((alpha_effective w <$> la) ++ (effective w <$> lv)))), w') ∧
    rtc (marks w la lv) w w'.
Proof.
  intros selector Hst Hla Hlv. unfold getRestoreStatus.
  unfold mbind at 1, M_bind at 1, reads at 1. fold selector. rewrite Hla.
  unfold mbind at 1, M_bind at 1, reads at 1. fold selector. rewrite Hlv.
  destruct in_progress_other as [_ He].
  destruct (decide (la = [])) as [->|Hne].
  - rewrite bool_decide_eq_true_2 by done. cbn [negb fmap list_fmap app andb].
    unfold mbind at 1, M_bind at 1. cbn. destruct (decide (lv = [])) as [->|Hnv]; [by exists w|].
    rewrite bool_decide_eq_false_2 by done. cbn [negb].
    destruct (v1_status_run RSTCStorStatusEmpty lv [] lv w w) as (w' & Hr & _ & Hm); [done..|].
    exists w'. unfold mbind, M_bind. by rewrite Hr.
  - rewrite bool_decide_eq_false_2 by done. cbn [negb andb].
    destruct (alpha_status_run ARSTCStorStatusEmpty la la lv w w) as (w1 & Hr & Hp & Hm); [done..|].
    rewrite (bind_run _ _ _ _ _ Hr), (report_none _ RSTCStorStatusEmpty) by by destruct la.
    set (lae := alpha_effective w <$> la). assert (Hnl : lae ≠ []) by by destruct la.
    case_bool_decide as Hin.
    + exists w1. rewrite report_left by done. by rewrite Hin.
    + destruct (decide (lv = [])) as [->|Hnv].
      { rewrite bool_decide_eq_true_2 by done. cbn. rewrite app_nil_r. by exists w1. }
      rewrite bool_decide_eq_false_2 by done. cbn [negb].
      destruct (v1_status_run RSTCStorStatusEmpty lv la lv w w1) as (w' & Hr' & _ & Hm'); [done..|].
      exists w'. rewrite report_app; [|by intros ?%fmap_nil_inv|by left]. unfold mbind, M_bind. rewrite Hr'.
      split; [done|]. by etrans.
Qed.
End restore_report.

(** ** The restores of a request *)

Section restores_created.
Context {W : Type} `{OpenebsApi} `{VolumeApi} `{PoolApi} `{BackupApi} `{!Uuid W}.
Context `{!ResourceClient W CStorRestore} `{!ResourceClient W V1Alpha1CStorRestore}.
Context `{!ResourceClient W CStorVolumeReplica} `{!ResourceClient W CStorPoolInstance}.
Context `{!ResourceClient W CStorVolume}.
Context `{!ObjectStore W CStorRestore} `{!ObjectStore W V1Alpha1CStorRestore}.
Context `{!Apart W CStorRestore V1Alpha1CStorRestore} `{!Apart W V1Alpha1CStorRestore CStorRestore}.

(** package uuid: a new identifier is not part of the name of an object, and making one writes no
    object. *)
Definition fresh_uuid : Prop := ∀ w,
  (∀ ns p, (∃ e, rGet (Obj:=CStorRestore) w ns (p +:+ "-" +:+ (uuid_NewUUID w).1) = Err e) ∧
           (∃ e, rGet (Obj:=V1Alpha1CStorRestore) w ns (p +:+ "-" +:+ (uuid_NewUUID w).1) = Err e)) ∧
  same W CStorRestore w (uuid_NewUUID w).2 ∧ same W V1Alpha1CStorRestore w (uuid_NewUUID w).2.

(** The pool of a replica takes restores of the older version. *)
Definition takes_v1alpha1 (m : gmap string (option go_version)) (cvr : CStorVolumeReplica) : bool :=
  match default None (m !! label (labels cvr) CStorPoolInstanceNameLabelKey) with
  | Some v => below_minV1SupportedVersion v
  | None => false
  end.
(** A pending restore of a replica is stored, of the version of its pool. *)
Definition restore_stored (m : gmap string (option go_version)) (spec : CStorRestoreSpec) (ns : string)
  (w : W) (cvr : CStorVolumeReplica) : Prop :=
  if takes_v1alpha1 m cvr then
    ∃ r, rGet w ns (name r) = OK r ∧ arst_Spec r = spec ∧ arst_Status r = ARSTCStorStatusPending ∧
      labels r = restore_labels (rsp_RestoreName spec) cvr
  else
    ∃ r, rGet w ns (name r) = OK r ∧ rst_Spec r = spec ∧ rst_Status r = RSTCStorStatusPending ∧
      labels r = restore_labels (rsp_RestoreName spec) cvr.

(** No restore is lost. *)
Definition more (w w' : W) : Prop :=
  (∀ ns n (r : CStorRestore), rGet w ns n = OK r → rGet w' ns n = OK r) ∧
  (∀ ns n (r : V1Alpha1CStorRestore), rGet w ns n = OK r → rGet w' ns n = OK r).
#[local] Instance more_preorder : PreOrder more.
Proof. split; [by split|]. intros w1 w2 w3 [Ha Hb] [Hc Hd]. split; auto. Qed.
Lemma restore_stored_more m spec ns w w' cvr :
  more w w' → restore_stored m spec ns w cvr → restore_stored m spec ns w' cvr.
Proof.
  intros [Hv Ha]. unfold restore_stored. destruct (takes_v1alpha1 m cvr);
    intros (r & Hg & Hs); exists r; auto.
Qed.

Lemma create_more_v1 (r o : CStorRestore) w w' :
  rCreate (namespace r) r w = (OK o, w') → more w w' ∧ ∃ rv, rGet w' (namespace r) (name r) = OK (stamped rv r).
Proof.
  intros Hc. destruct (os_create _ _ _ _ Hc) as [[e He] Hrv]. split; [|done]. split; intros ns n x Hg.
  - rewrite <-Hg. pose proof (os_create_other (namespace r) r w ns n) as Ho. rewrite Hc in Ho. apply Ho. congruence.
  - pose proof (apart_create (A:=V1Alpha1CStorRestore) (namespace r) r w ns n) as Ho. rewrite Hc in Ho. by rewrite Hg in Ho.
Qed.
Lemma create_more_alpha (r o : V1Alpha1CStorRestore) w w' :
  rCreate (namespace r) r w = (OK o, w') → more w w' ∧ ∃ rv, rGet w' (namespace r) (name r) = OK (stamped rv r).
Proof.
  intros Hc. destruct (os_create _ _ _ _ Hc) as [[e He] Hrv]. split; [|done]. split; intros ns n x Hg.
  - pose proof (apart_create (A:=CStorRestore) (namespace r) r w ns n) as Ho. rewrite Hc in Ho. by rewrite Hg in Ho.
  - rewrite <-Hg. pose proof (os_create_other (namespace r) r w ns n) as Ho. rewrite Hc in Ho. apply Ho. congruence.
Qed.
Lemma v1_built (r r' : CStorRestore) cvr w w' :
  fresh_uuid → buildAndCreateV1Restore r cvr w = (Ret (r', None), w') →
  more w w' ∧ namespace r' = namespace r ∧ rst_Spec r' = rst_Spec r ∧
  ∃ x, rGet w' (namespace r) (name x) = OK x ∧ rst_Spec x = rst_Spec r ∧ rst_Status x = RSTCStorStatusPending ∧
    labels x = restore_labels (rsp_RestoreName (rst_Spec r)) cvr.
Proof.
  intros Hf. destruct (Hf w) as (Hnew & Hs1 & Hs2). unfold buildAndCreateV1Restore, mbind, M_bind, call, reads.
  destruct (uuid_NewUUID w) as [u w1] eqn:Hu. cbn [fst snd] in Hnew, Hs1, Hs2. cbv beta iota zeta.
  set (r1 := set_name _ r). destruct (Hnew (namespace r1) (rsp_RestoreName (rst_Spec r))) as [[e He] _].
  change (name r1) with (rsp_RestoreName (rst_Spec r) +:+ "-" +:+ u).
  rewrite Hs1, He.
  match goal with |- context [rCreate (namespace ?x) ?x w1] => set (r2 := x) end.
  destruct (rCreate (namespace r2) r2 w1) as [[o|err] w2] eqn:Hc; [|intros; unfold mret, M_ret in *; simplify_eq].
  intros [= <- <-]. destruct (create_more_v1 _ _ _ _ Hc) as [Hm [rv Hg]].
  split; [split; intros ns n x Hx; apply Hm; by rewrite ?Hs1, ?Hs2|]. split; [done|]. split; [done|].
  by exists (stamped rv r2).
Qed.
Lemma alpha_built (r r' : V1Alpha1CStorRestore) cvr w w' :
  fresh_uuid → buildAndCreateV1Alpha1Restore r cvr w = (Ret (r', None), w') →
  more w w' ∧ namespace r' = namespace r ∧ arst_Spec r' = arst_Spec r ∧
  ∃ x, rGet w' (namespace r) (name x) = OK x ∧ arst_Spec x = arst_Spec r ∧ arst_Status x = ARSTCStorStatusPending ∧
    labels x = restore_labels (rsp_RestoreName (arst_Spec r)) cvr.
Proof.
  intros Hf. destruct (Hf w) as (Hnew & Hs1 & Hs2). unfold buildAndCreateV1Alpha1Restore, mbind, M_bind, call, reads.
  destruct (uuid_NewUUID w) as [u w1] eqn:Hu. cbn [fst snd] in Hnew, Hs1, Hs2. cbv beta iota zeta.
  set (r1 := set_name _ r). destruct (Hnew (namespace r1) (rsp_RestoreName (arst_Spec r))) as [_ [e He]].
  change (name r1) with (rsp_RestoreName (arst_Spec r) +:+ "-" +:+ u).
  rewrite Hs2, He.
  match goal with |- context [rCreate (namespace ?x) ?x w1] => set (r2 := x) end.
  destruct (rCreate (namespace r2) r2 w1) as [[o|err] w2] eqn:Hc; [|intros; unfold mret, M_ret in *; simplify_eq].
  intros [= <- <-]. destruct (create_more_alpha _ _ _ _ Hc) as [Hm [rv Hg]].
  split; [split; intros ns n x Hx; apply Hm; by rewrite ?Hs1, ?Hs2|]. split; [done|]. split; [done|].
  by exists (stamped rv r2).
Qed.

Lemma create_restores_complete m l : ∀ r a w w',
  fresh_uuid → namespace a = namespace r → arst_Spec a = rst_Spec r →
  create_restores m r a l w = (Ret None, w') →
  more w w' ∧ ∀ cvr, cvr ∈ l → restore_stored m (rst_Spec r) (namespace r) w' cvr.
Proof.
  induction l as [|cvr l IH]; intros r a w w' Hf Hns Hsp Hrun.
  { cbn in Hrun. apply mret_run in Hrun as [_ ->]. split; [done|]. intros ? []%not_elem_of_nil. }
  assert (Hcase : takes_v1alpha1 m cvr = true ∧
      (let* (a', err) := buildAndCreateV1Alpha1Restore a cvr in
       match err with
       | Some err => mret (Some (CodedError 500 (Wrapf err "failed to create restore for %s error: %v" [rsp_VolumeName (rst_Spec r)])))
       | None => create_restores m r a' l
       end) w = (Ret None, w') ∨
    takes_v1alpha1 m cvr = false ∧
      (let* (r', err) := buildAndCreateV1Restore r cvr in
       match err with
       | Some err => mret (Some (CodedError 500 (Wrapf err "failed to create restore for %s error: %v" [rsp_VolumeName (rst_Spec r)])))
       | None => create_restores m r' a l
       end) w = (Ret None, w')).
  { unfold takes_v1alpha1. cbn [create_restores] in Hrun. destruct (default None _) as [v|]; [|by right].
    destruct (below_minV1SupportedVersion v); [by left|by right]. }
  clear Hrun. destruct Hcase as [[Ht ([a' [err|]] & w1 & Hb & Hrun)%M_bind_Ret]|[Ht ([r' [err|]] & w1 & Hb & Hrun)%M_bind_Ret]];
    try (by apply mret_run in Hrun as [[=] _]).
  - destruct (alpha_built _ _ _ _ _ Hf Hb) as (Hm & Hn' & Hs' & x & Hg & Hx).
    destruct (IH r a' w1 w' Hf) as [Hm' Hl]; [congruence..|done|]. split; [by etrans|].
    intros c [->|Hc]%elem_of_cons; [|by apply Hl]. apply (restore_stored_more _ _ _ w1); [done|].
    unfold restore_stored. rewrite Ht, <-Hsp, <-Hns. by exists x.
  - destruct (v1_built _ _ _ _ _ Hf Hb) as (Hm & Hn' & Hs' & x & Hg & Hx).
    destruct (IH r' a w1 w' Hf) as [Hm' Hl]; [congruence..|done|]. split; [by etrans|].
    rewrite <-Hn', <-Hs'. intros c [->|Hc]%elem_of_cons; [|by apply Hl].
    apply (restore_stored_more _ _ _ w1); [done|].
    unfold restore_stored. rewrite Ht, Hs', Hn'. by exists x.
Qed.

(** The version of a pool of a replica is the one that its pool instance reports. *)
Definition versions_of (cspis : list CStorPoolInstance) (m : gmap string (option go_version)) : Prop :=
  ∀ p v, m !! p = Some v → ∃ c, c ∈ cspis ∧ name c = p ∧
    match parse_pool_version (Current (vd_Status (cspi_VersionDetails c))) with
    | OK g => v = Some g
    | Err _ => v = None
    end.
Lemma pool_versions_spec s l : ∀ all m0 m,
  (∀ c, c ∈ l → c ∈ all) → versions_of all m0 → pool_versions s l m0 = inl m → versions_of all m.
Proof.
  induction l as [|c l IH]; intros all m0 m Hall Hm0 Hm; [by injection Hm as <-|].
  cbn [pool_versions] in Hm. destruct (negb (has s (name c))); [by eapply IH; [set_solver|..]|].
  destruct (parse_pool_version _) as [g|e] eqn:Hv; [|destruct (_ && _); [done|]];
    (eapply IH; [set_solver| |done]); intros p v [[<- <-]|[_ Hp]]%lookup_insert_Some; try (by apply Hm0);
    (exists c; split; [set_solver|]); by rewrite Hv.
Qed.

Lemma pool_versions_complete s l : ∀ m0 m,
  pool_versions s l m0 = inl m →
  (∀ p, is_Some (m0 !! p) → is_Some (m !! p)) ∧ (∀ c, c ∈ l → name c ∈ s → is_Some (m !! name c)).
Proof.
  induction l as [|c l IH]; intros m0 m Hm; [injection Hm as <-; split; [done|set_solver]|].
  cbn [pool_versions] in Hm. destruct (negb (has s (name c))) eqn:Hs.
  - destruct (IH _ _ Hm) as [H1' H2']. split; [done|]. intros c' [->|Hc]%elem_of_cons Hin; [|auto].
    apply negb_true_iff, bool_decide_eq_false in Hs. done.
  - destruct (parse_pool_version _) as [g|e]; [|destruct (_ && _); [done|]];
      destruct (IH _ _ Hm) as [H1' H2']; split; try (intros p Hp; apply H1'; rewrite lookup_insert_is_Some'; auto);
      intros c' [->|Hc]%elem_of_cons Hin; auto; apply H1'; rewrite lookup_insert_is_Some'; auto.
Qed.

(** A request that is answered has stored a restore for every replica of the volume. *)
Lemma createRestore_complete r w ans w' :
  fresh_uuid → createRestore r w = (Ret (answered ans), w') →
  let volume := rsp_VolumeName (rst_Spec r) in
  ∃ cvrs cspc cspis m,
    rList w "" (PersistentVolumeLabelKey +:+ "=" +:+ volume) = OK cvrs ∧ cvrs ≠ [] ∧
    rList w "" (CStorPoolClusterLabelKey +:+ "=" +:+ cspc) = OK cspis ∧ versions_of cspis m ∧
    (∀ cvr c, cvr ∈ cvrs → c ∈ cspis → name c = label (labels cvr) CStorPoolInstanceNameLabelKey →
       is_Some (m !! name c)) ∧
    (∀ cvr, cvr ∈ cvrs → restore_stored m (rst_Spec r) (namespace r) w' cvr) ∧
    ∃ cv, rGet w' getOpenEBSNamespace volume = OK cv ∧
      ans = AnswerISCSI {| TargetPortal := cv_TargetPortal cv; IQN := cv_Iqn cv; ReadOnly := false |}.
Proof.
  intros Hf Hr volume. unfold createRestore in Hr. fold volume in Hr.
  unfold mbind at 1, M_bind at 1, reads at 1 in Hr.
  destruct (rList w "" (PersistentVolumeLabelKey +:+ "=" +:+ volume)) as [[|cvr0 cvrs]|e] eqn:Hl; [done| |done].
  set (cvrl := cvr0 :: cvrs) in *.
  apply M_bind_Ret in Hr as (cspc & w1 & Hcl & Hr). unfold lift in Hcl. injection Hcl as _ <-.
  unfold mbind at 1, M_bind at 1, reads at 1 in Hr.
  destruct (rList w "" (CStorPoolClusterLabelKey +:+ "=" +:+ cspc)) as [cspis|e] eqn:Hc; [|done].
  destruct (pool_versions _ cspis ∅) as [m|e] eqn:Hm; [|done].
  apply M_bind_Ret in Hr as ([e|] & w2 & Hrs & Hr); [done|].
  destruct (create_restores_complete m cvrl r (getV1Alpha1RestoreFromV1 r) w w2 Hf eq_refl) as [_ Hall];
    [by destruct r as [? []]|exact Hrs|].
  unfold getISCSIPersistentVolumeSource in Hr. unfold mbind, M_bind, reads in Hr.
  destruct (rGet w2 getOpenEBSNamespace volume) as [cv|e] eqn:Hcv; [|done].
  unfold mret, M_ret in Hr. simplify_eq.
  exists cvrl, cspc, cspis, m. split_and!; [done..| | |done|by exists cv].
  - eapply pool_versions_spec; [done| |done]. intros p v Hp. by rewrite lookup_empty in Hp.
  - intros cvr c Hcvr Hcin Hn. apply (pool_versions_complete _ _ _ _ Hm); [done|]. rewrite Hn.
    apply elem_of_list_to_set, list_elem_of_fmap. eauto.
Qed.
End restores_created.
