(* ===== verification/ServerFacts.v ===== *)
(** * ServerFacts: lemmas on the servers of a target

    What a request to the replication server leaves in the volume, and what a call of the snapshot
    service does to the target. *)

From stdpp Require Import base gmap strings list sets relations pretty.
From Stdlib Require Import Ascii ZArith Lia.
From coqutil Require Import Datatypes.RecordSetters.
From S2P Require Import Prelude Steps Api VolumeApi PoolApi TargetApi StringFacts TargetServer BackupFacts.
Import DoubleBraceUpdate.

#[export] Instance cv_MetaLaws : MetaLaws CStorVolume.
Proof. split; intros; by try destruct o. Qed.

Section registration.
Context {W : Type} `{TargetApi} `{PoolApi} `{!Target W} `{!ResourceClient W CStorVolume}.
Context `{!ObjectStore W CStorVolume}.
Context (ns : string).

(** The variables of the process and the configuration file are no objects of the cluster. *)
Definition quiet_target : Prop :=
  (∀ g w, same W CStorVolume w (with_tglobals g w)) ∧
  (∀ p m w, same W CStorVolume w (file_UpdateOrAppendMultipleLines p m w).2).

(** What requests do to a volume: the factors do not fall, no replica is lost, and replicas are
    added up to the desired number. *)
Definition registered (cv cv' : CStorVolume) : Prop :=
  cv_DesiredReplicationFactor cv' = cv_DesiredReplicationFactor cv ∧
  (cv_ReplicationFactor cv ≤ cv_ReplicationFactor cv')%Z ∧
  (cv_ConsistencyFactor cv ≤ cv_ConsistencyFactor cv')%Z ∧
  dom (cv_KnownReplicas cv) ⊆ dom (cv_KnownReplicas cv') ∧
  (Z.of_nat (size (cv_KnownReplicas cv')) ≤
     Z.max (Z.of_nat (size (cv_KnownReplicas cv))) (cv_DesiredReplicationFactor cv))%Z ∧
  cv_Capacity cv' = cv_Capacity cv ∧ cv_TargetIP cv' = cv_TargetIP cv.
#[export] Instance registered_preorder : PreOrder registered.
Proof.
  split.
  - intros cv. unfold registered. split_and!; try done; lia.
  - intros c1 c2 c3 (Hd & Hr & Hc & Hk & Hs & Hcap & Hip) (Hd' & Hr' & Hc' & Hk' & Hs' & Hcap' & Hip').
    unfold registered. split_and!; try congruence; try lia. set_solver.
Qed.

Lemma with_replica_registered csr cv : check_details csr cv = None → registered cv (with_replica csr cv).
Proof.
  unfold check_details. destruct (negb _ && _) eqn:Hold; [done|].
  destruct (crd_ReplicationFactor csr <? cv_ReplicationFactor cv)%Z eqn:Hr; [done|].
  destruct (crd_ConsistencyFactor csr <? cv_ConsistencyFactor cv)%Z eqn:Hc; [done|]. intros _.
  unfold registered. cbn. unfold constant. split_and!; try done; try lia; [rewrite dom_insert; set_solver|].
  destruct (cv_KnownReplicas cv !! crd_ReplicaID csr) as [g|] eqn:Hg.
  - rewrite map_size_insert_Some by eauto. lia.
  - rewrite map_size_insert_None by done. rewrite bool_decide_eq_false_2 in Hold by (by intros [? [=]]).
    cbn in Hold. lia.
Qed.

(** A request fails without a write, or replaces the volume by one with the replica. *)
Lemma update_details csr w r w' :
  quiet_target → UpdateCVWithReplicationDetails ns csr w = (r, w') →
  r ≠ Ret None ∧ same W CStorVolume w w' ∨
  ∃ cv o w1, rGet w ns (crd_VolumeName csr) = OK cv ∧ check_details csr cv = None ∧
    rUpdate ns (with_replica csr cv) w = (OK o, w1) ∧ same W CStorVolume w1 w'.
Proof.
  intros [Hg Hf]. unfold UpdateCVWithReplicationDetails.
  destruct (Validate csr); [intros [= <- <-]; by left|]. unfold mbind at 1, M_bind at 1, reads at 1.
  destruct (rGet w ns (crd_VolumeName csr)) as [cv|e] eqn:Hcv; [|intros [= <- <-]; by left].
  destruct (check_details csr cv) eqn:Hc; [intros [= <- <-]; by left|].
  unfold mbind at 1, M_bind at 1, call at 1.
  destruct (rUpdate ns (with_replica csr cv) w) as [[o|e] w1] eqn:Hu.
  - intros Hr. right. exists cv, o, w1. split_and!; [done..|].
    assert (Hk : keeps (same W CStorVolume) (UpdateConfig csr)).
    { unfold UpdateConfig, ConfFile_Lock, ConfFile_Unlock, set_tglobals. keeps_auto.
      - intros w0. apply Hg.
      - apply keeps_call. intros. apply Hf.
      - intros w0. apply Hg. }
    exact (keeps_run _ _ _ _ _ Hk Hr).
  - intros [= <- <-]. left. split; [done|]. intros n' n''. by eapply os_update_fail.
Qed.

(** The volume after an accepted update is the one that was written. *)
Lemma replica_stored csr w cv o w1 :
  rGet w ns (crd_VolumeName csr) = OK cv → om_deletion (meta cv) = None →
  rUpdate ns (with_replica csr cv) w = (OK o, w1) →
  ∃ rv, rGet w1 ns (crd_VolumeName csr) = OK (stamped rv (with_replica csr cv)).
Proof.
  intros Hg Hd Hu. destruct (os_get _ _ _ _ Hg) as [Hn Hns].
  rewrite <-Hns in Hu. change (namespace cv) with (namespace (with_replica csr cv)) in Hu.
  destruct (os_update _ _ _ _ Hu) as [_ [Hrv|[Hdel _]]]; [|by destruct Hdel].
  change (namespace (with_replica csr cv)) with (namespace cv) in Hrv.
  change (name (with_replica csr cv)) with (name cv) in Hrv. by rewrite Hn, Hns in Hrv.
Qed.

(** A volume that is not being deleted. *)
Definition volume_at (w : W) (n : string) (cv : CStorVolume) : Prop :=
  rGet w ns n = OK cv ∧ om_deletion (meta cv) = None.

Lemma update_registered csr w r w' n cv :
  quiet_target → UpdateCVWithReplicationDetails ns csr w = (r, w') → volume_at w n cv →
  ∃ cv', volume_at w' n cv' ∧ registered cv cv' ∧
    (r = Ret None → n = crd_VolumeName csr →
       cv_KnownReplicas cv' !! crd_ReplicaID csr = Some (crd_ReplicaGUID csr) ∧
       cv_Status_KnownReplicas cv' !! crd_ReplicaID csr = Some (crd_ReplicaGUID csr) ∧
       cv_ReplicationFactor cv' = crd_ReplicationFactor csr ∧
       cv_ConsistencyFactor cv' = crd_ConsistencyFactor csr).
Proof.
  intros Hq Hr [Hg Hd]. destruct (update_details csr w r w' Hq Hr) as
    [[Hne Hs]|(cv0 & o & w1 & Hg0 & Hc & Hu & Hs)].
  { exists cv. split; [split; [by rewrite Hs|done]|]. by split. }
  destruct (os_get _ _ _ _ Hg0) as [Hn0 Hns0].
  destruct (decide (n = crd_VolumeName csr)) as [->|Hne].
  - assert (cv0 = cv) as -> by congruence. destruct (replica_stored _ _ _ _ _ Hg Hd Hu) as [rv Hrv].
    exists (stamped rv (with_replica csr cv)). split; [split; [by rewrite Hs|done]|].
    split; [by apply (with_replica_registered csr cv)|]. intros _ _. cbn. unfold constant.
    rewrite !lookup_insert_eq. done.
  - exists cv. split; [split; [|done]|by split]. rewrite Hs.
    pose proof (os_update_other ns (with_replica csr cv0) w ns n) as Ho. rewrite Hu in Ho. cbn [snd] in Ho. rewrite Ho; [done|].
    intros [= Hk]. change (name (with_replica csr cv0)) with (name cv0) in Hk. congruence.
Qed.

(** One request after another. *)
Context (json_CVReplicationDetails : string → result CVReplicationDetails).
Inductive serve_step (w : W) : W → Prop :=
| served input : serve_step w (final (ServeRequest ns json_CVReplicationDetails input) w).

Lemma serve_run input w :
  (∃ r, ServeRequest ns json_CVReplicationDetails input w = (Ret r, w) ∧ r ≠ Some (respOk +:+ endOfData)) ∨
  ∃ text csr r w', Reader input = Some (OK text) ∧ json_CVReplicationDetails text = OK csr ∧
    UpdateCVWithReplicationDetails ns csr w = (r, w') ∧
    ServeRequest ns json_CVReplicationDetails input w =
      (match r with
       | Ret None => Ret (Some (respOk +:+ endOfData))
       | Ret (Some _) => Ret (Some (respErr +:+ endOfData))
       | Panic why => Panic why
       end, w').
Proof.
  unfold ServeRequest. destruct (Reader input) as [[text|e]|];
    [|left; eexists; (split; [reflexivity|discriminate])..].
  destruct (json_CVReplicationDetails text) as [csr|e] eqn:Hj; [|left; eexists; (split; [reflexivity|discriminate])]. right.
  destruct (UpdateCVWithReplicationDetails ns csr w) as [r w'] eqn:Hr. exists text, csr, r, w'.
  split_and!; [done..|]. unfold mbind, M_bind. rewrite Hr. destruct r as [[e|]|why]; reflexivity.
Qed.

Lemma serve_registered w w' n cv :
  quiet_target → rtc serve_step w w' → volume_at w n cv → ∃ cv', volume_at w' n cv' ∧ registered cv cv'.
Proof.
  intros Hq Hr. revert cv. induction Hr as [w|w1 w2 w3 [input] _ IH]; intros cv Hv; [by exists cv|].
  assert (∃ cv2, volume_at (final (ServeRequest ns json_CVReplicationDetails input) w1) n cv2 ∧ registered cv cv2)
    as (cv2 & Hv2 & H2'); [|destruct (IH cv2 Hv2) as (cv3 & Hv3 & H3'); exists cv3; split; [done|by etrans]].
  unfold final. destruct (serve_run input w1) as [(r & -> & _)|(text & csr & r & w1' & _ & _ & Hu & ->)]; [by exists cv|].
  destruct (update_registered csr w1 r w1' n cv Hq Hu Hv) as (cv2 & Hv2 & Hreg & _). by exists cv2.
Qed.
End registration.
