(* ===== verification/RegistrationFacts.v ===== *)
(** * RegistrationFacts: lemmas on the registration of the webhook

    What a start of the webhook leaves in the cluster, and what an upgrade does to the objects of
    an older version. *)

From stdpp Require Import base gmap strings list sets.
From Stdlib Require Import Ascii ZArith Lia.
From coqutil Require Import Datatypes.RecordSetters.
From S2P Require Import Prelude Steps Api Version Webhook VolumeApi VolumeWebhook Registration BackupFacts.
Import DoubleBraceUpdate.

#[export] Instance sec_MetaLaws : MetaLaws Secret.
Proof. split; intros; by try destruct o. Qed.
#[export] Instance svc_MetaLaws : MetaLaws Service.
Proof. split; intros; by try destruct o. Qed.
#[export] Instance vwc_MetaLaws : MetaLaws ValidatingWebhookConfiguration.
Proof. split; intros; by try destruct o. Qed.

(** The API server returns a created object as it is stored. *)
Class CreateReturns (W Obj : Type) `{HasMeta Obj} `{!ResourceClient W Obj} : Prop := {
  create_returns : ∀ (o o' : Obj) w w',
    rCreate (namespace o) o w = (OK o', w') → rGet w' (namespace o) (name o) = OK o';
}.

(** A deleted object without finalizers is gone, and a list holds all objects with the label. *)
Class RemovesObjects (W Obj : Type) `{HasMeta Obj} `{!ResourceClient W Obj} : Prop := {
  delete_gone : ∀ ns n (o : Obj) w w', rGet w ns n = OK o → finalizers o = [] → om_deletion (meta o) = None →
    rDelete (Obj:=Obj) ns n w = (OK tt, w') → ∃ e, rGet (Obj:=Obj) w' ns n = Err e;
  list_labelled : ∀ (o : Obj) w l ns n, rList w ns webhookLabel = OK l → rGet w ns n = OK o →
    labels o !! "openebs.io/component-name" = Some "cstor-admission-webhook" → o ∈ l;
}.

(** ** Versions *)

(** What is not older than 2.8.0 is not older than 2.5.0. *)
Lemma less_components_2_8 l :
  less_components l ["2"; "8"; "0"] = Ret false → less_components l ["2"; "5"; "0"] = Ret false.
Proof.
  destruct l as [|a [|b [|c [|d l]]]]; cbn [less_components];
    change (Atoi "2") with 2%Z; change (Atoi "8") with 8%Z; change (Atoi "5") with 5%Z; change (Atoi "0") with 0%Z;
    repeat match goal with |- context [(?x =? ?y)%Z] => destruct (Z.eqb_spec x y) end;
    intros Hl; try done; try (injection Hl as Hl); f_equal; lia.
Qed.
Lemma not_before_2_8 v :
  IsCurrentLessThanNewVersion v "2.8.0" = Ret false → IsCurrentLessThanNewVersion v "2.5.0" = Ret false.
Proof. apply less_components_2_8. Qed.

(** The one transformation of configurations changes none of those that are updated. *)
Lemma transform_config_same `{OpenebsApi} (config : ValidatingWebhookConfiguration) :
  IsCurrentLessThanNewVersion (label (labels config) OpenEBSVersionLabelKey) "2.8.0" = Ret false →
  transform_config config = Ret config.
Proof.
  intros Hv. unfold transform_config, transformConfig. cbn [foldl]. unfold addNSWithDeleteRule.
  change (addNSWithDeleteRule config = Ret config). unfold addNSWithDeleteRule.
  by rewrite (not_before_2_8 _ Hv).
Qed.

(** ** The objects of the webhook *)

Section registration.
Context {W : Type} `{OpenebsApi} `{VolumeApi} `{PodEnv} `{BuildInfo} `{!Env W} `{!Crypto W}.
Context `{!ResourceClient W Secret} `{!ResourceClient W Service} `{!ResourceClient W ValidatingWebhookConfiguration}.
Context `{!ObjectStore W Secret} `{!ObjectStore W Service} `{!ObjectStore W ValidatingWebhookConfiguration}.
Context `{!CreateReturns W Secret}.
Context `{!Apart W Secret Service} `{!Apart W Secret ValidatingWebhookConfiguration}.
Context `{!Apart W Service ValidatingWebhookConfiguration}.
Context `{!Apart W ValidatingWebhookConfiguration Secret} `{!Apart W ValidatingWebhookConfiguration Service}.
Context `{!RemovesObjects W ValidatingWebhookConfiguration}.

(** The generation of keys and certificates writes no configurations. *)
Definition quiet_crypto : Prop :=
  (∀ n w, same W ValidatingWebhookConfiguration w (rsa_GenerateKey n w).2) ∧
  (∀ n w, same W ValidatingWebhookConfiguration w (cryptorand_Int n w).2) ∧
  (∀ c k w, same W ValidatingWebhookConfiguration w (certutil_NewSelfSignedCACert c k w).2) ∧
  (∀ t c k k' w, same W ValidatingWebhookConfiguration w (x509_CreateCertificate t c k k' w).2).
Lemma secret_keeps_configs owner ns :
  quiet_crypto → keeps (same W ValidatingWebhookConfiguration) (get_or_create_secret owner ns).
Proof.
  intros (Hk & Hi & Hs & Hc).
  assert (H1' : ∀ n, keeps (same W ValidatingWebhookConfiguration) (call (rsa_GenerateKey n))) by (intros; by apply keeps_call).
  assert (H2' : ∀ n, keeps (same W ValidatingWebhookConfiguration) (call (cryptorand_Int n))) by (intros; by apply keeps_call).
  assert (H3' : ∀ c k, keeps (same W ValidatingWebhookConfiguration) (call (certutil_NewSelfSignedCACert c k)))
    by (intros; by apply keeps_call).
  assert (H4' : ∀ t c k k', keeps (same W ValidatingWebhookConfiguration) (call (x509_CreateCertificate t c k k')))
    by (intros; by apply keeps_call).
  unfold get_or_create_secret, createCertsSecret, NewCA, NewServerKeyPair, NewSignedCert, newPrivateKey. keeps_auto.
Qed.

(** What createX does for an object that is missing: it is found afterwards, and the objects of
    other kinds are as before. *)
Definition ensured {Obj} `{HasMeta Obj} `{!ResourceClient W Obj} (ns n : string) (new : Obj) (w w' : W) : Prop :=
  (∃ o, rGet w ns n = OK o) ∧ w' = w ∨
  (∃ e, rGet (Obj:=Obj) w ns n = Err e) ∧ (∃ o, rGet w' ns n = OK o) ∧
  (∃ rv, rGet w' ns n = OK (stamped rv new)) ∧ w' = (rCreate ns new w).2.

Lemma ensured_run {Obj} `{HasMeta Obj} `{!ResourceClient W Obj} `{!ObjectStore W Obj} (new : Obj) ns n fail w w' :
  namespace new = ns → name new = n →
  (let* r := reads (λ w, rGet (Obj:=Obj) w ns n) in
   match r with
   | OK _ => mret None
   | Err err =>
       if negb (IsNotFound err) then mret (Some (fail err))
       else let* r := call (rCreate ns new) in mret (match r with OK _ => None | Err err => Some err end)
   end) w = (Ret (None : option error), w') →
  ensured ns n new w w'.
Proof.
  intros <- <-. unfold mbind, M_bind, reads, call.
  destruct (rGet w (namespace new) (name new)) as [o|e] eqn:Hg; [intros [= <-]; left; eauto|].
  destruct (IsNotFound e); [|done]. cbn [negb].
  destruct (rCreate (namespace new) new w) as [[o|e'] w1] eqn:Hc; [|done]. intros [= <-]. right.
  destruct (os_create _ _ _ _ Hc) as [_ [rv Hrv]]. rewrite Hc. split_and!; eauto.
Qed.
Lemma service_ensured owner n ns w w' :
  createWebhookService owner n ns w = (Ret None, w') → ensured ns n (webhook_service owner n ns) w w'.
Proof. by apply ensured_run. Qed.
Lemma config_ensured owner v ns n cert w w' :
  createAdmissionValidatingConfig owner v ns n cert w = (Ret None, w') →
  ensured "" v (webhook_config owner v ns n cert) w w'.
Proof. by apply ensured_run. Qed.

Lemma secret_ensured owner ns w s w' :
  get_or_create_secret owner ns w = (Ret (OK s), w') → rGet w' ns validatorSecret = OK s.
Proof.
  unfold get_or_create_secret, GetSecret. unfold mbind at 1, M_bind at 1, reads at 1.
  destruct (rGet w ns validatorSecret) as [o|e] eqn:Hg; [by intros [= <- <-]|]. destruct (IsNotFound e); [|done].
  intros (r & w1 & Hc & Hr)%M_bind_Ret. apply mret_run in Hr as [Hr ->]. destruct r as [s'|e']; [|done].
  injection Hr as ->. unfold createCertsSecret in Hc.
  apply M_bind_Ret in Hc as ([ca|e1] & w2 & _ & Hc); [|done].
  apply M_bind_Ret in Hc as ([srv|e1] & w3 & _ & Hc); [|done].
  unfold call in Hc. set (new := webhook_secret owner validatorSecret ns ca srv) in Hc.
  destruct (rCreate ns new w3) as [r w4] eqn:Hcr. injection Hc as -> ->.
  assert (Hn : namespace new = ns) by done. rewrite <-Hn in Hcr |- * at 1. by apply create_returns in Hcr.
Qed.

(** An object of another kind stays. *)
Lemma ensured_apart {Obj Obj'} `{HasMeta Obj} `{!ResourceClient W Obj} `{!ResourceClient W Obj'} `{!Apart W Obj' Obj}
  ns n (new : Obj) w w' : ensured ns n new w w' → same W Obj' w w'.
Proof. intros [[_ ->]|(_ & _ & _ & ->)]; [done|]. intros ns' n'. apply apart_create. Qed.
Lemma ensured_found {Obj} `{HasMeta Obj} `{!ResourceClient W Obj} ns n (new : Obj) w w' :
  ensured ns n new w w' → ∃ o, rGet w' ns n = OK o.
Proof. intros [[Ho ->]|(_ & Ho & _)]; done. Qed.

(** ** Upgrades of configurations *)

(** What an upgrade leaves of a configuration: a current one and the webhooks of one from 2.8.0 on
    stay, an older one was deleted. *)
Definition upgraded (c : ValidatingWebhookConfiguration) (w' : W) : Prop :=
  if is_current c then rGet w' "" (name c) = OK c
  else
    match IsCurrentLessThanNewVersion (label (labels c) OpenEBSVersionLabelKey) "2.8.0" with
    | Ret true => ∃ e, rGet (Obj:=ValidatingWebhookConfiguration) w' "" (name c) = Err e
    | _ => ∃ c', rGet w' "" (name c) = OK c' ∧ vwc_Webhooks c' = vwc_Webhooks c ∧ is_current c' = true
    end.

Definition in_place (w : W) (c : ValidatingWebhookConfiguration) : Prop :=
  rGet w "" (name c) = OK c ∧ namespace c = "" ∧ om_deletion (meta c) = None ∧ finalizers c = [].

Lemma with_version_current (c : ValidatingWebhookConfiguration) rv : is_current (stamped rv (with_version c)) = true.
Proof.
  unfold is_current, with_version, stamped. apply bool_decide_eq_true. unfold labels, label. cbn.
  by rewrite lookup_insert_eq.
Qed.

Lemma upgrade_config_spec c w w' :
  in_place w c → upgrade_config c w = (Ret None, w') →
  upgraded c w' ∧ only_at (Obj:=ValidatingWebhookConfiguration) ("", name c) w w'.
Proof.
  intros (Hg & Hns & Hd & Hf). unfold upgrade_config, upgraded.
  destruct (is_current c) eqn:Hc; cbn [negb]; [by intros [= <-]|].
  intros (less & w1 & Hl & Hr)%M_bind_Ret. injection Hl as Hl <-. rewrite Hl. destruct less.
  - unfold mbind, M_bind, call in Hr.
    pose proof (λ ns n Hk, os_delete_other (Obj:=ValidatingWebhookConfiguration) "" (name c) w ns n Hk) as Ho.
    destruct (rDelete "" (name c) w) as [[[]|e] w1] eqn:Hdel; [|done]. injection Hr as <-.
    split; [by eapply delete_gone|]. exact Ho.
  - rewrite (transform_config_same c Hl) in Hr. unfold mbind at 1, M_bind at 1, lift at 1 in Hr.
    unfold mbind, M_bind, call in Hr.
    pose proof (λ ns n Hk, os_update_other "" (with_version c) w ns n Hk) as Ho.
    destruct (rUpdate "" (with_version c) w) as [[o|e] w1] eqn:Hu; [|done]. injection Hr as <-. split; [|exact Ho].
    assert (Hn : namespace (with_version c) = "") by exact Hns. rewrite <-Hn in Hu at 1.
    destruct (os_update _ _ _ _ Hu) as [_ [[rv Hrv]|[Hdel _]]]; [|by destruct Hdel].
    rewrite Hn in Hrv. change (name (with_version c)) with (name c) in Hrv.
    exists (stamped rv (with_version c)). split; [done|]. split; [done|]. apply with_version_current.
Qed.

Lemma upgraded_stays c w w' : rGet w' "" (name c) = rGet w "" (name c) → upgraded c w → upgraded c w'.
Proof. intros He. unfold upgraded. rewrite He. done. Qed.

Lemma upgrade_configs_spec l w w' :
  NoDup ((λ c : ValidatingWebhookConfiguration, (namespace c, name c)) <$> l) → Forall (in_place w) l →
  try_each upgrade_config l w = (Ret None, w') →
  Forall (λ c, upgraded c w') l ∧
  ∀ n, n ∉ name <$> l → rGet (Obj:=ValidatingWebhookConfiguration) w' "" n = rGet w "" n.
Proof.
  revert w. induction l as [|c l IH]; intros w Hnd Hin Hr; [by injection Hr as <-|].
  cbn [try_each] in Hr. apply M_bind_Ret in Hr as ([e|] & w1 & Hc & Hr); [done|].
  apply Forall_cons in Hin as [Hc0 Hin]. apply NoDup_cons in Hnd as [Hnot Hnd].
  destruct (upgrade_config_spec _ _ _ Hc0 Hc) as [Hup Hother].
  assert (Hfar : ∀ c', c' ∈ l → namespace c' = "" → name c' ≠ name c).
  { intros c' Hc' Hns Hn. apply Hnot, list_elem_of_fmap. exists c'. destruct Hc0 as (_ & Hns0 & _). by rewrite Hn, Hns, Hns0. }
  destruct (IH w1 Hnd) as [Hall Hrest]; [|done|].
  { apply Forall_forall. intros c' Hc'. rewrite Forall_forall in Hin. destruct (Hin c' Hc') as (Hg & Hns & Hd).
    split; [|done]. rewrite Hother; [done|]. intros [= Hn]. by eapply Hfar. }
  split.
  - apply Forall_cons. split; [|done]. eapply upgraded_stays; [|exact Hup]. apply Hrest.
    intros (c' & Hn & Hc')%list_elem_of_fmap. rewrite Forall_forall in Hin.
    destruct (Hin c' Hc') as (_ & Hns & _). by eapply (Hfar c').
  - intros n Hn. rewrite Hrest by set_solver. rewrite Hother; [done|]. intros [= ->]. set_solver.
Qed.

(** Configurations have no namespace and no finalizers, none is being deleted, and the one of the
    webhook has its label. *)
Definition plain_configs (w : W) : Prop :=
  ∀ ns n (c : ValidatingWebhookConfiguration), rGet w ns n = OK c →
    ns = "" ∧ om_deletion (meta c) = None ∧ finalizers c = [] ∧
    (n = validatorWebhook → labels c !! "openebs.io/component-name" = Some "cstor-admission-webhook").

Lemma upgrade_object_keeps {Obj} `{HasMeta Obj} `{!ResourceClient W Obj}
  `{!Apart W ValidatingWebhookConfiguration Obj} what ns (l : list Obj) :
  keeps (same W ValidatingWebhookConfiguration) (try_each (upgrade_object what ns) l).
Proof. induction l as [|o l IH]; cbn [try_each]; unfold upgrade_object; keeps_auto; done. Qed.

(** The state of a configuration after the upgrade. *)
Lemma preUpgrade_configs ns w w' :
  plain_configs w → preUpgrade ns w = (Ret None, w') →
  match rGet (Obj:=ValidatingWebhookConfiguration) w "" validatorWebhook with
  | OK c => upgraded c w' ∧ name c = validatorWebhook
  | Err e => rGet (Obj:=ValidatingWebhookConfiguration) w' "" validatorWebhook = Err e
  end.
Proof.
  intros Hp. unfold preUpgrade, and_then.
  intros ([e|] & w1 & H1' & Hr)%M_bind_Ret; [done|]. apply M_bind_Ret in Hr as ([e|] & w2 & H2' & Hr); [done|].
  assert (Hs : same W ValidatingWebhookConfiguration w w2).
  { etrans; (eapply keeps_run; [|eassumption]); unfold upgrade_secrets, upgrade_services; keeps_auto; apply upgrade_object_keeps. }
  unfold upgrade_configs in Hr. apply M_bind_Ret in Hr as (r & w3 & Hl & Hr). injection Hl as Hl <-.
  destruct r as [l|e]; [|done]. apply upgrade_configs_spec in Hr as [Hall Hrest].
  - rewrite <-Hs. destruct (rGet w2 "" validatorWebhook) as [c|e] eqn:Hg.
    + pose proof Hg as Hg'. rewrite Hs in Hg'. destruct (Hp _ _ _ Hg') as (_ & _ & _ & Hlab).
      pose proof (os_get _ _ _ _ Hg) as [Hn _]. split; [|done].
      rewrite Forall_forall in Hall. apply Hall. eapply list_labelled; eauto.
    + rewrite <-Hg. apply Hrest. intros (c & Hn & Hc)%list_elem_of_fmap.
      pose proof (os_list _ _ _ _ _ Hl Hc) as Hc'. pose proof Hc' as Hw. rewrite Hs in Hw.
      destruct (Hp _ _ _ Hw) as [Hns _]. rewrite Hns, <-Hn, Hg in Hc'. done.
  - by eapply os_list_keys.
  - apply Forall_forall. intros c Hc. pose proof (os_list _ _ _ _ _ Hl Hc) as Hg. pose proof Hg as Hw. rewrite Hs in Hw.
    destruct (Hp _ _ _ Hw) as (Hns & Hd & Hf & _). rewrite Hns in Hg. done.
Qed.

(** The configuration is as old as the versions whose configurations are deleted. *)
Definition outdated (c : ValidatingWebhookConfiguration) : bool :=
  negb (is_current c) &&
  match IsCurrentLessThanNewVersion (label (labels c) OpenEBSVersionLabelKey) "2.8.0" with Ret b => b | Panic _ => false end.

(** The webhooks of the configuration after the start. *)
Definition webhooks_after (before : result ValidatingWebhookConfiguration) (new : ValidatingWebhook)
  : list ValidatingWebhook :=
  match before with
  | OK c => if outdated c then [new] else vwc_Webhooks c
  | Err _ => [new]
  end.

Lemma upgraded_webhooks (c c' : ValidatingWebhookConfiguration) w' :
  upgraded c w' → rGet w' "" (name c) = OK c' →
  outdated c = false ∧ vwc_Webhooks c' = vwc_Webhooks c ∧ is_current c' = true.
Proof.
  unfold upgraded, outdated. destruct (is_current c) eqn:Hc; cbn [negb andb]; [intros Hu; rewrite Hu; by intros [= <-]|].
  destruct (IsCurrentLessThanNewVersion _ _) as [[]|]; [intros [e Hu]; by rewrite Hu|..];
    intros (c'' & -> & Hw & Hcur); intros [= <-]; done.
Qed.
Lemma upgraded_gone (c : ValidatingWebhookConfiguration) w' e :
  upgraded c w' → rGet (Obj:=ValidatingWebhookConfiguration) w' "" (name c) = Err e → outdated c = true.
Proof.
  unfold upgraded, outdated. destruct (is_current c) eqn:Hc; cbn [negb andb]; [intros ->; done|].
  destruct (IsCurrentLessThanNewVersion _ _) as [[]|]; [done|..]; by intros (c' & -> & _).
Qed.

(** The label of the version is not another label of the webhook. *)
Definition distinct_labels : Prop := OpenEBSVersionLabelKey ∉ ["app"; "openebs.io/component-name"].
Lemma webhook_config_current owner v ns n cert rv :
  distinct_labels → is_current (stamped rv (webhook_config owner v ns n cert)) = true.
Proof.
  intros Hd. unfold is_current, stamped, webhook_config, webhook_meta, webhook_labels. apply bool_decide_eq_true.
  unfold labels, label. cbn. rewrite !lookup_insert_ne by (unfold distinct_labels in Hd; set_solver).
  by rewrite lookup_insert_eq.
Qed.

(** What a successful start leaves. *)
Lemma registered_objects owner ns w w' :
  distinct_labels → quiet_crypto → plain_configs w → getOpenebsNamespace = OK ns → InitValidationServer owner w = (Ret None, w') →
  ∃ (s : Secret) (svc : Service) (c : ValidatingWebhookConfiguration) root,
    rGet w' ns validatorSecret = OK s ∧ sec_Data s !! rootCrt = Some root ∧
    rGet w' ns validatorServiceName = OK svc ∧ rGet w' "" validatorWebhook = OK c ∧
    is_current c = true ∧
    vwc_Webhooks c = webhooks_after (rGet w "" validatorWebhook) (webhook_handler ns validatorServiceName root).
Proof.
  intros Hlab Hq Hp Hns. unfold InitValidationServer. rewrite Hns.
  intros ([err|] & w1 & Hpre & Hr)%M_bind_Ret; [done|].
  apply M_bind_Ret in Hr as ([s|e] & w2 & Hsec & Hr); [|done].
  destruct (sec_Data s !! rootCrt) as [root|] eqn:Hroot; [|done].
  apply M_bind_Ret in Hr as ([e|] & w3 & Hsvc & Hr); [done|].
  apply M_bind_Ret in Hr as ([e|] & w4 & Hcfg & Hr); [done|]. apply mret_run in Hr as [_ ->].
  apply (preUpgrade_configs _ _ _ Hp) in Hpre.
  pose proof (keeps_run _ _ _ _ _ (secret_keeps_configs owner ns Hq) Hsec) as Hsame.
  apply secret_ensured in Hsec. apply service_ensured in Hsvc.
  assert (Hc : ensured "" validatorWebhook (webhook_config owner validatorWebhook ns validatorServiceName root) w3 w4)
    by by apply config_ensured.
  destruct (ensured_found _ _ _ _ _ Hsvc) as [svc Hs]. destruct (ensured_found _ _ _ _ _ Hc) as [c Hcw].
  exists s, svc, c, root. split; [|split; [done|split; [|split; [done|]]]].
  - by rewrite (ensured_apart (Obj':=Secret) _ _ _ _ _ Hc), (ensured_apart (Obj':=Secret) _ _ _ _ _ Hsvc).
  - by rewrite (ensured_apart (Obj':=Service) _ _ _ _ _ Hc).
  - assert (Hw3 : rGet (Obj:=ValidatingWebhookConfiguration) w3 "" validatorWebhook = rGet w1 "" validatorWebhook).
    { by rewrite (ensured_apart (Obj':=ValidatingWebhookConfiguration) _ _ _ _ _ Hsvc), Hsame. }
    destruct Hc as [[[c0 Hc0] ->]|([e He] & _ & [rv Hrv] & _)].
    + rewrite Hw3 in Hcw. destruct (rGet w "" validatorWebhook) as [c1|e]; [|congruence].
      destruct Hpre as [Hup Hn]. rewrite <-Hn in Hcw. destruct (upgraded_webhooks _ _ _ Hup Hcw) as (Ho & -> & Hcur).
      split; [done|]. cbn [webhooks_after]. by rewrite Ho.
    + rewrite Hcw in Hrv. injection Hrv as ->. split; [by apply webhook_config_current|].
      destruct (rGet w "" validatorWebhook) as [c1|e']; [|done]. destruct Hpre as [Hup Hn].
      rewrite Hw3, <-Hn in He. cbn [webhooks_after]. by rewrite (upgraded_gone _ _ _ Hup He).
Qed.
End registration.
