(* ===== verification/Keyed.v ===== *)
(** * Keyed: an in-memory client that obeys the laws of the API server

    The client of [Memory] on a world in which an object is always found under its own name: what
    is read from a store carries the name and the namespace it is stored under.  For a store that
    is a part of a world the laws [ObjectStore] and [Apart] hold in every world. *)

From stdpp Require Import base gmap strings list sets.
From Stdlib Require Import Ascii ZArith.
From coqutil Require Import Datatypes.RecordSetters.
From S2P Require Import Prelude Api Memory BackupFacts.
Import DoubleBraceUpdate.

Definition meta_at (k : string * string) (m : ObjectMeta) : ObjectMeta :=
  m {{ om_namespace := k.1 }} {{ om_name := k.2 }}.
Definition place {Obj} `{HasMeta Obj} (k : string * string) (o : Obj) : Obj :=
  with_meta (meta_at k (meta o)) o.

(** The client. *)
Definition keyed_client (W Obj : Type) `{HasMeta Obj} `{!Stored W Obj} : ResourceClient W Obj := {|
  rGet w ns n :=
    match store_of w !! (ns, n) with
    | Some o => OK (place (ns, n) o)
    | None => Err (APIError NotFound n)
    end;
  rList w ns selector :=
    OK (filter (λ o, (ns = "" ∨ namespace o = ns) ∧ matches selector o = true)
          ((λ kv, place kv.1 kv.2) <$> map_to_list (store_of w)));
  rCreate := @rCreate W Obj (memory_client W Obj);
  rUpdate := @rUpdate W Obj (memory_client W Obj);
  rDelete := @rDelete W Obj (memory_client W Obj);
  rDeleteCollection := @rDeleteCollection W Obj (memory_client W Obj);
|}.

(** A store is a part of the world, and the parts of two kinds are different. *)
Class StoredLaws (W Obj : Type) `{!Stored W Obj} : Prop := {
  store_of_with : ∀ m (w : W), store_of (Obj:=Obj) (with_store m w) = m;
}.
Class StoredApart (W A B : Type) `{!Stored W A} `{!Stored W B} : Prop := {
  store_of_other : ∀ (m : gmap (string * string) B) (w : W), store_of (Obj:=A) (with_store m w) = store_of w;
}.

Section laws.
Context {W Obj : Type} `{!Stored W Obj} `{!StoredLaws W Obj} `{MetaLaws Obj}.
#[local] Existing Instance keyed_client.

Lemma place_key k (o : Obj) : namespace (place k o) = k.1 ∧ name (place k o) = k.2.
Proof. unfold place, namespace, name. by rewrite meta_with. Qed.
Lemma place_own (o : Obj) : place (namespace o, name o) o = o.
Proof.
  unfold place, namespace, name. transitivity (with_meta (meta o) o); [|apply with_meta_same].
  f_equal. by destruct (meta o).
Qed.
Lemma place_stamp rv (o : Obj) : place (namespace o, name o) (stamp rv o) = stamped rv o.
Proof.
  unfold place, stamp, stamped. rewrite meta_with, with_meta_twice. by f_equal.
Qed.
Lemma deletion_same k (o : Obj) : place k o = with_meta (meta_with_deletion (om_deletion (meta o)) (meta (place k o))) (place k o).
Proof. unfold place. rewrite meta_with, with_meta_twice. by f_equal. Qed.
Lemma deletion_place k d (o : Obj) :
  place k (with_meta (meta_with_deletion d (meta o)) o) = with_meta (meta_with_deletion d (meta (place k o))) (place k o).
Proof. unfold place. rewrite !meta_with, !with_meta_twice. by f_equal. Qed.

#[export] Instance keyed_store : ObjectStore W Obj.
Proof.
  split.
  - intros w ns n o. cbn. case_match; intros [= <-]. by destruct (place_key (ns, n) o0).
  - intros w ns sel l o [= <-] (_ & ([k o'] & -> & Hin)%list_elem_of_fmap)%list_elem_of_filter. cbn.
    destruct (place_key k o') as [-> ->]. destruct k as [ns' n']. cbn.
    apply elem_of_map_to_list in Hin. by rewrite Hin.
  - intros w ns sel l [= <-]. eapply sublist_NoDup; [|apply fmap_sublist, sublist_filter].
    rewrite <-list_fmap_compose. erewrite list_fmap_ext; [apply NoDup_fst_map_to_list|].
    intros i [[ns' n'] o] _. cbn. by destruct (place_key (ns', n') o) as [-> ->].
  - intros o o' w w'. cbn. destruct (store_of w !! (namespace o, name o)) as [old|]; [|done].
    destruct (_ && _); [done|]. destruct (bool_decide (finalizers o = []) && _) eqn:Hd; intros [= <- <-]; (split; [eauto|]);
      rewrite store_of_with.
    + right. apply andb_true_iff in Hd as [_ Hd%negb_true_iff%bool_decide_eq_false]. rewrite lookup_delete_eq. eauto.
    + left. rewrite lookup_insert_eq. eexists. f_equal. apply place_stamp.
  - intros ns o w ns' n' Hk. cbn. destruct (store_of w !! (ns, name o)) as [old|]; [|done].
    destruct (_ && _); [done|]. destruct (bool_decide (finalizers o = []) && _); cbn; rewrite store_of_with;
      [rewrite lookup_delete_ne by done|rewrite lookup_insert_ne by done]; done.
  - intros ns o w e w'. cbn. destruct (store_of w !! (ns, name o)) as [old|]; [|by intros [= _ <-]].
    destruct (_ && _); [by intros [= _ <-]|]. by destruct (_ && _).
  - intros o o' w w'. cbn. destruct (store_of w !! (namespace o, name o)) as [old|]; [done|]. intros [= <- <-].
    split; [eauto|]. rewrite store_of_with, lookup_insert_eq. eexists. f_equal. apply place_stamp.
  - intros ns o w ns' n' Hk. cbn. destruct (store_of w !! (ns, name o)) as [old|]; [done|]. cbn.
    by rewrite store_of_with, lookup_insert_ne.
  - intros ns o w e w'. cbn. by destruct (store_of w !! (ns, name o)) as [old|]; intros [= _ <-].
  - intros ns n w ns' n' o. cbn. case_bool_decide; cbn.
    { case_match; intros [= <-]. eexists. eexists. split; [done|apply deletion_same]. }
    destruct (store_of w !! (ns, n)) as [old|] eqn:Hold; cbn.
    2: { case_match; intros [= <-]. eexists. eexists. split; [done|apply deletion_same]. }
    rewrite store_of_with. unfold store_delete. destruct (decide ((ns, n) = (ns', n'))) as [[= <- <-]|Hne].
    + rewrite Hold. case_bool_decide; [by rewrite lookup_delete_eq|]. rewrite lookup_insert_eq. intros [= <-].
      eexists. eexists. split; [done|]. apply deletion_place.
    + case_bool_decide; [rewrite lookup_delete_ne by done|rewrite lookup_insert_ne by done];
        case_match; intros [= <-]; eexists; eexists; (split; [done|apply deletion_same]).
  - intros ns n w ns' n' Hk. cbn. case_bool_decide; [done|]. destruct (store_of w !! (ns, n)); [|done]. cbn.
    rewrite store_of_with. unfold store_delete.
    case_bool_decide; [by rewrite lookup_delete_ne|by rewrite lookup_insert_ne].
Qed.
End laws.

(** Writes of one kind leave the store of another kind. *)
Lemma keyed_apart {W A B : Type} `{HasMeta A} `{HasMeta B} `{!Stored W A} `{!Stored W B} `{!StoredApart W A B} :
  @Apart W A B (keyed_client W A) (keyed_client W B).
Proof.
  split.
  - intros ns b w ns' n. cbn. destruct (store_of w !! (ns, name b)); cbn; by rewrite ?store_of_other.
  - intros ns b w ns' n. cbn. destruct (store_of w !! (ns, name b)) as [old|]; [|done].
    destruct (_ && _); [done|]. destruct (_ && _); cbn; by rewrite store_of_other.
  - intros ns k w ns' n. cbn. case_bool_decide; [done|].
    destruct (store_of w !! (ns, k)); cbn; by rewrite ?store_of_other.
Qed.
(** A function on worlds that leaves a store leaves its objects. *)
Lemma keyed_same {W A : Type} `{HasMeta A} `{!Stored W A} (w w' : W) :
  store_of (Obj:=A) w' = store_of w → @same W A (keyed_client W A) w w'.
Proof. intros Hs ns n. cbn. by rewrite Hs. Qed.
