(* ===== verification/BackupMemory.v ===== *)
(** * BackupMemory: backups and restores in the in-memory cluster

    The cluster of [VolumeMemory] with backups, completed backups and restores of both versions,
    pods and storage classes, a program that answers the commands of the transfers, and a clock.
    The clients are the ones of [Keyed], so that the laws of the API server hold in every world.
    The bodies of requests that are JSON in reality are words here. *)

From stdpp Require Import base gmap strings list sets pretty.
From Stdlib Require Import Ascii ZArith Lia.
From coqutil Require Import Datatypes.RecordSetters.
From S2P Require Import Prelude Api Memory Version VolumeApi VolumeMemory Zcmd PoolApi PoolMemory BackupApi Snapshot HttpServer BackupRest RestoreRest BackupFacts RestoreFacts Keyed.
Import DoubleBraceUpdate.

Record backup_world := {
  bw_base : volume_cluster;
  bw_bkps : gmap (string * string) CStorBackup;
  bw_abkps : gmap (string * string) V1Alpha1CStorBackup;
  bw_cbs : gmap (string * string) CStorCompletedBackup;
  bw_acbs : gmap (string * string) V1Alpha1CStorCompletedBackup;
  bw_rsts : gmap (string * string) CStorRestore;
  bw_arsts : gmap (string * string) V1Alpha1CStorRestore;
  bw_pods : gmap (string * string) Pod;
  bw_scs : gmap (string * string) StorageClass;
  bw_tool : list (list string) → list string → output;
  bw_log : list (list string);
  bw_time : Z;
}.

#[export] Instance backup_stored {Obj} `{!Stored volume_cluster Obj} : Stored backup_world Obj :=
  {| store_of c := store_of (bw_base c); with_store m c := c {{ bw_base ::= with_store m }} |}.
#[export] Instance bkp_stored : Stored backup_world CStorBackup :=
  {| store_of := bw_bkps; with_store m c := c {{ bw_bkps := m }} |}.
#[export] Instance abkp_stored : Stored backup_world V1Alpha1CStorBackup :=
  {| store_of := bw_abkps; with_store m c := c {{ bw_abkps := m }} |}.
#[export] Instance cb_stored : Stored backup_world CStorCompletedBackup :=
  {| store_of := bw_cbs; with_store m c := c {{ bw_cbs := m }} |}.
#[export] Instance acb_stored : Stored backup_world V1Alpha1CStorCompletedBackup :=
  {| store_of := bw_acbs; with_store m c := c {{ bw_acbs := m }} |}.
#[export] Instance rst_stored : Stored backup_world CStorRestore :=
  {| store_of := bw_rsts; with_store m c := c {{ bw_rsts := m }} |}.
#[export] Instance arst_stored : Stored backup_world V1Alpha1CStorRestore :=
  {| store_of := bw_arsts; with_store m c := c {{ bw_arsts := m }} |}.
#[export] Instance pod_stored : Stored backup_world Pod :=
  {| store_of := bw_pods; with_store m c := c {{ bw_pods := m }} |}.
#[export] Instance sc_stored : Stored backup_world StorageClass :=
  {| store_of := bw_scs; with_store m c := c {{ bw_scs := m }} |}.

#[export] Instance backup_clients {Obj} `{HasMeta Obj} `{!Stored backup_world Obj} :
  ResourceClient backup_world Obj | 0 := keyed_client backup_world Obj.

#[export] Instance backup_env : Env backup_world := {|
  rand_String n c := let '(s, b) := rand_String n (bw_base c) in (s, c {{ bw_base := b }});
  Now c := Now (bw_base c);
  Event e c := c {{ bw_base ::= Event e }};
  rPatch ns n bytes c := let '(r, b) := rPatch ns n bytes (bw_base c) in (r, c {{ bw_base := b }});
|}.
Definition run_tool (args : list string) (w : backup_world) : output * backup_world :=
  (bw_tool w (bw_log w) args, w {{ bw_log ::= (λ l, l ++ [args]) }}).
#[export] Instance backup_runner : Runner backup_world :=
  {| RunStdoutPipe c l := run_tool (c :: l); RunCombinedOutput c l := run_tool (c :: l) |}.
#[export] Instance backup_clock : Clock backup_world := {| time_Sleep s w := w {{ bw_time ::= Z.add s }} |}.

(** A new identifier is longer than the names of all restores. *)
Fixpoint string_repeat (n : nat) : string := match n with 0 => "" | S n' => String "u" (string_repeat n') end.
Definition longest {A} (m : gmap (string * string) A) : nat :=
  max_list ((λ kv, String.length kv.1.2) <$> map_to_list m).
#[export] Instance backup_uuid : Uuid backup_world :=
  {| uuid_NewUUID w := (string_repeat (S (longest (bw_rsts w) + longest (bw_arsts w))), w) |}.

(** ** Laws *)

Ltac part := split; by intros.
#[export] Instance bkp_part : StoredLaws backup_world CStorBackup.
Proof. part. Qed.
#[export] Instance abkp_part : StoredLaws backup_world V1Alpha1CStorBackup.
Proof. part. Qed.
#[export] Instance cb_part : StoredLaws backup_world CStorCompletedBackup.
Proof. part. Qed.
#[export] Instance acb_part : StoredLaws backup_world V1Alpha1CStorCompletedBackup.
Proof. part. Qed.
#[export] Instance rst_part : StoredLaws backup_world CStorRestore.
Proof. part. Qed.
#[export] Instance arst_part : StoredLaws backup_world V1Alpha1CStorRestore.
Proof. part. Qed.

#[export] Instance backup_stores {Obj} `{MetaLaws Obj} `{!Stored backup_world Obj} `{!StoredLaws backup_world Obj} :
  ObjectStore backup_world Obj.
Proof. apply keyed_store. Qed.
#[export] Instance bkp_quiet : Quiet backup_world CStorBackup.
Proof. split; by intros. Qed.
#[export] Instance cb_quiet : Quiet backup_world CStorCompletedBackup.
Proof. split; by intros. Qed.
#[export] Instance acb_quiet : Quiet backup_world V1Alpha1CStorCompletedBackup.
Proof. split; by intros. Qed.
#[export] Instance rst_quiet : Quiet backup_world CStorRestore.
Proof. split; by intros. Qed.

Ltac apart := notypeclasses refine keyed_apart; split; by intros.
#[export] Instance bkp_abkp : Apart backup_world CStorBackup V1Alpha1CStorBackup.
Proof. apart. Qed.
#[export] Instance bkp_cb : Apart backup_world CStorBackup CStorCompletedBackup.
Proof. apart. Qed.
#[export] Instance bkp_acb : Apart backup_world CStorBackup V1Alpha1CStorCompletedBackup.
Proof. apart. Qed.
#[export] Instance cb_bkp : Apart backup_world CStorCompletedBackup CStorBackup.
Proof. apart. Qed.
#[export] Instance acb_bkp : Apart backup_world V1Alpha1CStorCompletedBackup CStorBackup.
Proof. apart. Qed.
#[export] Instance acb_cb : Apart backup_world V1Alpha1CStorCompletedBackup CStorCompletedBackup.
Proof. apart. Qed.
#[export] Instance cb_acb : Apart backup_world CStorCompletedBackup V1Alpha1CStorCompletedBackup.
Proof. apart. Qed.
#[export] Instance rst_arst : Apart backup_world CStorRestore V1Alpha1CStorRestore.
Proof. apart. Qed.
#[export] Instance arst_rst : Apart backup_world V1Alpha1CStorRestore CStorRestore.
Proof. apart. Qed.
#[export] Instance rst_cvc : Apart backup_world CStorRestore CStorVolumeConfig.
Proof. apart. Qed.

Lemma string_repeat_length n : String.length (string_repeat n) = n.
Proof. induction n; cbn; auto. Qed.
Lemma longest_spec {A} (m : gmap (string * string) A) ns n o : m !! (ns, n) = Some o → String.length n ≤ longest m.
Proof.
  intros Hm%elem_of_map_to_list. unfold longest.
  apply (max_list_elem_of_le (String.length n)), list_elem_of_fmap. by exists ((ns, n), o).
Qed.
Lemma backup_uuid_fresh : fresh_uuid (W:=backup_world).
Proof.
  intros w. split; [|done]. intros ns p. cbn -[String.append longest string_repeat].
  set (u := string_repeat _). set (n := p +:+ _).
  assert (Hn : longest (bw_rsts w) + longest (bw_arsts w) < String.length n).
  { subst n. rewrite !length_app_string. subst u. rewrite string_repeat_length. lia. }
  split; case_match eqn:Hl; eauto; apply longest_spec in Hl; lia.
Qed.
Lemma backup_uuid_quiet : quiet_uuid (W:=backup_world).
Proof. by intros w. Qed.

(** ** A reference implementation of the packages *)

(** Versions are lists of numbers. *)
Definition parse_version (s : string) : result (list Z) :=
  let parts := split_on "."%char s in
  if forallb (λ p, bool_decide (Atoi_error p = None)) parts then OK (Atoi <$> parts)
  else Err (Errorf "Malformed version: %s" [s]).
Fixpoint version_less (l l' : list Z) : bool :=
  match l, l' with
  | x :: l, y :: l' => (x <? y)%Z || ((x =? y)%Z && version_less l l')
  | [], _ :: _ => true
  | _, _ => false
  end.

#[export] Instance ref_backup_api : BackupApi := {|
  CStorPoolInstanceUIDLabelKey := "cstorpoolinstance.openebs.io/uid";
  BKPCStorStatusDone := "Done";
  BKPCStorStatusFailed := "Failed";
  BKPCStorStatusInit := "Init";
  BKPCStorStatusPending := "Pending";
  BKPCStorStatusInProgress := "InProgress";
  BKPCStorStatusInvalid := "Invalid";
  RSTCStorStatusEmpty := "";
  RSTCStorStatusDone := "Done";
  RSTCStorStatusFailed := "Failed";
  RSTCStorStatusInit := "Init";
  RSTCStorStatusPending := "Pending";
  RSTCStorStatusInProgress := "InProgress";
  RSTCStorStatusInvalid := "Invalid";
  bkp_IsSucceeded b := bool_decide (bkp_Status b = "Done");
  bkp_IsFailed b := bool_decide (bkp_Status b = "Failed");
  bkp_IsPending b := bool_decide (bkp_Status b = "Pending");
  bkp_IsInInit b := bool_decide (bkp_Status b = "Init");
  rst_IsSucceeded r := bool_decide (rst_Status r = "Done");
  rst_IsFailed r := bool_decide (rst_Status r = "Failed");
  rst_IsPending r := bool_decide (rst_Status r = "Pending");
  rst_IsInInit r := bool_decide (rst_Status r = "Init");
  ABKPCStorStatusDone := "Done";
  ABKPCStorStatusFailed := "Failed";
  ABKPCStorStatusPending := "Pending";
  ARSTCStorStatusEmpty := "";
  ARSTCStorStatusDone := "Done";
  ARSTCStorStatusFailed := "Failed";
  ARSTCStorStatusPending := "Pending";
  ARSTCStorStatusInProgress := "InProgress";
  ARSTCStorStatusInvalid := "Invalid";
  go_version := list Z;
  version_NewVersion := parse_version;
  version_LessThan := version_less;
|}.
#[export] Instance ref_backup_api_laws : BackupApiLaws.
Proof. split; try by intros. all: vm_compute; repeat constructor; set_solver. Qed.

Lemma backup_pools_same (w w' : backup_world) :
  bw_pods w' = bw_pods w → bw_base w' = bw_base w → pools_same w w'.
Proof.
  intros Hp Hb p ns.
  assert (Hl : ∀ ns sel, rList (Obj:=Pod) w' ns sel = rList w ns sel) by (intros; cbn; by rewrite Hp).
  assert (Hg : ∀ ns n, rGet (Obj:=Node) w' ns n = rGet w ns n) by (intros; cbn; by rewrite Hb).
  unfold isPoolManagerDown, checkIfPoolManagerNodeDown, checkIfPoolManagerDown, getPoolManager. rewrite !Hl.
  repeat case_match; try done; rewrite Hg in *; congruence.
Qed.
Lemma backup_steady_pools : steady_pools (W:=backup_world).
Proof.
  split; intros ns r w; apply backup_pools_same; cbn; repeat case_match; done.
Qed.

(** A request is the words of its object: the name, the volume, the snapshot or the source, the
    address and the namespace. *)
Definition words_backup (s : string) : result CStorBackup :=
  match split_on " "%char s with
  | [b; v; snap; dest; ns] =>
      OK {| bkp_meta := new_meta "" ns ∅;
            bkp_Spec := {| bs_BackupName := b; bs_VolumeName := v; bs_SnapName := snap;
              bs_PrevSnapName := ""; bs_BackupDest := dest; bs_LocalSnap := false |};
            bkp_Status := "" |}
  | _ => Err (Errorf "unexpected end of JSON input" [])
  end.
Definition words_restore (s : string) : result CStorRestore :=
  match split_on " "%char s with
  | [r; v; src; ns] =>
      OK {| rst_meta := new_meta "" ns ∅;
            rst_Spec := {| rsp_RestoreName := r; rsp_VolumeName := v; rsp_RestoreSrc := src;
              rsp_MaxRetryCount := 0; rsp_RetryCount := 0; rsp_StorageClass := ""; rsp_Size := 0;
              rsp_Local := false |};
            rst_Status := "" |}
  | _ => Err (Errorf "unexpected end of JSON input" [])
  end.
#[export] Instance backup_codec : Codec CStorBackup :=
  {| json_Decode := words_backup; yaml_Unmarshal := words_backup |}.
#[export] Instance restore_codec : Codec CStorRestore :=
  {| json_Decode := words_restore; yaml_Unmarshal := words_restore |}.
