(* ===== verification/WorkerFacts.v ===== *)
(** * WorkerFacts: what the work queues of the controllers guarantee

    client-go documents its queue as a list of waiting items, a set of items that need processing
    and a set of items that are processed; an item that is added while it is processed waits again
    after it is done, and a rate limited item is added after a delay.  [QueueLaws] relates the
    operations of [WorkQueue] to these.  While a reconciliation runs, the informers may add keys
    and delays may end: calls to the API server only change the queue in this way. *)

From stdpp Require Import base gmap strings list sets relations.
From Stdlib Require Import Ascii ZArith Lia.
From S2P Require Import Prelude Steps Returns Api VolumeApi Version Webhook PoolOps Algorithm PoolDeploy PoolApi TargetDeploy VolumeOps VolumeSync CspcStatus CspcCleanup CspcOps CspcSync ReplicaSync VolumeMgmt Workers.

#[export] Instance replica_operation_eq : EqDecision ReplicaSync.QueueOperation.
Proof. solve_decision. Defined.
#[export] Instance volume_operation_eq : EqDecision VolumeMgmt.QueueOperation.
Proof. solve_decision. Defined.
#[export] Instance replica_load_eq : EqDecision ReplicaSync.QueueLoad.
Proof. solve_decision. Defined.
#[export] Instance volume_load_eq : EqDecision VolumeMgmt.QueueLoad.
Proof. solve_decision. Defined.
#[export] Instance work_item_eq : EqDecision work_item.
Proof. solve_decision. Defined.

(** An operation by a number and a string. *)
Definition replica_code (op : ReplicaSync.QueueOperation) : nat * string :=
  match op with
  | ReplicaSync.QOpAdd => (0, "") | ReplicaSync.QOpDestroy => (1, "") | ReplicaSync.QOpModify => (2, "")
  | ReplicaSync.QOpSync => (3, "") | ReplicaSync.QOpOther s => (4, s)
  end.
Definition volume_code (op : VolumeMgmt.QueueOperation) : nat * string :=
  match op with
  | VolumeMgmt.QOpAdd => (0, "") | VolumeMgmt.QOpDestroy => (1, "") | VolumeMgmt.QOpModify => (2, "")
  | VolumeMgmt.QOpPeriodicSync => (3, "") | VolumeMgmt.QOpOther s => (4, s)
  end.
Definition item_code (i : work_item) : nat * string * (nat * string) :=
  match i with
  | WKey k => (0, k, (0, ""))
  | WLoad q => (1, ReplicaSync.Key q, replica_code (ReplicaSync.Operation q))
  | WVolumeLoad q => (2, VolumeMgmt.Key q, volume_code (VolumeMgmt.Operation q))
  | WOther n => (3, "", (n, ""))
  end.
Definition replica_operation (c : nat * string) : ReplicaSync.QueueOperation :=
  match c with
  | (0, _) => ReplicaSync.QOpAdd | (1, _) => ReplicaSync.QOpDestroy | (2, _) => ReplicaSync.QOpModify
  | (3, _) => ReplicaSync.QOpSync | (_, s) => ReplicaSync.QOpOther s
  end.
Definition volume_operation (c : nat * string) : VolumeMgmt.QueueOperation :=
  match c with
  | (0, _) => VolumeMgmt.QOpAdd | (1, _) => VolumeMgmt.QOpDestroy | (2, _) => VolumeMgmt.QOpModify
  | (3, _) => VolumeMgmt.QOpPeriodicSync | (_, s) => VolumeMgmt.QOpOther s
  end.
Definition item_of_code (c : nat * string * (nat * string)) : work_item :=
  match c with
  | (0, k, _) => WKey k
  | (1, k, op) => WLoad {| ReplicaSync.Key := k; ReplicaSync.Operation := replica_operation op |}
  | (2, k, op) => WVolumeLoad {| VolumeMgmt.Key := k; VolumeMgmt.Operation := volume_operation op |}
  | (_, _, (n, _)) => WOther n
  end.
#[export] Program Instance work_item_countable : Countable work_item :=
  inj_countable' item_code item_of_code _.
Next Obligation. by intros [k|[k []]|[k []]|n]. Qed.

(** ** The queue of client-go *)

Record queue := {
  waiting : list work_item;
  dirty : gset work_item;
  processing : gset work_item;
  delayed : list work_item;
}.

Definition q_add (i : work_item) (q : queue) : queue :=
  if bool_decide (i ∈ dirty q) then q
  else {| waiting := if bool_decide (i ∈ processing q) then waiting q else waiting q ++ [i];
          dirty := {[i]} ∪ dirty q; processing := processing q; delayed := delayed q |}.
Definition q_take (i : work_item) (l : list work_item) (q : queue) : queue :=
  {| waiting := l; dirty := dirty q ∖ {[i]}; processing := {[i]} ∪ processing q; delayed := delayed q |}.
Definition q_done (i : work_item) (q : queue) : queue :=
  {| waiting := if bool_decide (i ∈ dirty q) then waiting q ++ [i] else waiting q;
     dirty := dirty q; processing := processing q ∖ {[i]}; delayed := delayed q |}.
Definition q_delayed (l : list work_item) (q : queue) : queue :=
  {| waiting := waiting q; dirty := dirty q; processing := processing q; delayed := l |}.
Definition q_delay (i : work_item) (q : queue) : queue := q_delayed (delayed q ++ [i]) q.

Class QueueLaws (W : Type) `{!WorkQueue W} := {
  queue_of : W → queue;
  Get_queue : ∀ w i l, waiting (queue_of w) = i :: l →
    ∃ w', wq_Get w = (Some i, w') ∧ queue_of w' = q_take i l (queue_of w);
  Done_queue : ∀ i w, queue_of (wq_Done i w) = q_done i (queue_of w);
  Forget_queue : ∀ i w, queue_of (wq_Forget i w) = queue_of w;
  Add_queue : ∀ i w, queue_of (wq_Add i w) = q_add i (queue_of w);
  AddRateLimited_queue : ∀ i w, queue_of (wq_AddRateLimited i w) = q_delay i (queue_of w);
}.

(** What happens beside a worker: an event adds a key, or a delay ends. *)
Inductive q_env : relation queue :=
| env_add k q : q_env q (q_add (WKey k) q)
| env_expire i l1 l2 q : delayed q = l1 ++ i :: l2 → q_env q (q_add i (q_delayed (l1 ++ l2) q)).
Definition beside {W} `{QueueLaws W} : relation W := λ w w', rtc q_env (queue_of w) (queue_of w').

(** ** Queues of keys *)

Definition is_key (i : work_item) : Prop := ∃ k, i = WKey k.

(** The waiting items are the ones that need processing and are not processed, each once; the
    items are keys. *)
Definition good (q : queue) : Prop :=
  NoDup (waiting q) ∧ (∀ i, i ∈ waiting q ↔ i ∈ dirty q ∧ i ∉ processing q) ∧
  (∀ i, i ∈ dirty q → is_key i) ∧ Forall is_key (delayed q).
(** A key that the worker will see. *)
Definition scheduled (i : work_item) (q : queue) : Prop := i ∈ dirty q ∨ i ∈ delayed q.

Lemma q_add_good i q : is_key i → good q → good (q_add i q).
Proof.
  intros Hi (Hn & Hw & Hd & Hl). unfold q_add. case_bool_decide as Hin; [done|].
  split_and!; cbn; [| |set_solver|done].
  - case_bool_decide; [done|]. apply NoDup_app. split_and!; [done| |apply NoDup_singleton].
    intros j Hj%Hw ->%list_elem_of_singleton. naive_solver.
  - intros j. case_bool_decide; rewrite ?elem_of_app, ?list_elem_of_singleton, Hw; set_solver.
Qed.
Lemma q_add_in i q : i ∈ dirty (q_add i q).
Proof. unfold q_add. case_bool_decide; [done|]. set_solver. Qed.
Lemma q_add_scheduled i q : scheduled i (q_add i q).
Proof. left. apply q_add_in. Qed.
Lemma q_add_processing i q : processing (q_add i q) = processing q.
Proof. unfold q_add. by case_bool_decide. Qed.
Lemma q_add_dirty i j q : j ∈ dirty q → j ∈ dirty (q_add i q).
Proof. unfold q_add. case_bool_decide; [done|]. set_solver. Qed.
Lemma q_add_delayed i q : delayed (q_add i q) = delayed q.
Proof. unfold q_add. by case_bool_decide. Qed.
Lemma q_add_waiting i q : waiting q `prefix_of` waiting (q_add i q).
Proof. unfold q_add. case_bool_decide; [done|]. cbn. case_bool_decide; [done|]. by exists [i]. Qed.

(** What stays beside a worker. *)
Record undisturbed (q q' : queue) : Prop := {
  u_good : good q → good q';
  u_processing : processing q' = processing q;
  u_waiting : waiting q `prefix_of` waiting q';
  u_dirty : dirty q ⊆ dirty q';
  u_scheduled : ∀ i, scheduled i q → scheduled i q';
}.
Lemma q_env_undisturbed q q' : rtc q_env q q' → undisturbed q q'.
Proof.
  induction 1 as [q|q q1 q2 Hs _ [Hg Hp Hw Hd2 Hsc]]; [done|].
  assert (undisturbed q q1) as [Hg1 Hp1 Hw1 Hd1 Hsc1].
  { destruct Hs as [k q|i l1 l2 q Hd].
    - split; [intros; apply q_add_good; [by eexists|done]|apply q_add_processing|apply q_add_waiting| |].
      + intros i. apply q_add_dirty.
      + intros i [Hi|Hi]; [left; by apply q_add_dirty|right; by rewrite q_add_delayed].
    - split; [|by rewrite q_add_processing|apply (q_add_waiting i (q_delayed (l1 ++ l2) q))| |].
      + intros (Hn & Hw1 & Hk & Hl). rewrite Hd in Hl. apply Forall_app in Hl as [Hl1 [Hi Hl2]%Forall_cons].
        apply q_add_good; [done|]. split_and!; [done..|]. cbn. by apply Forall_app.
      + intros j Hj. by apply q_add_dirty.
      + intros j [Hj|Hj]; [left; by apply q_add_dirty|]. rewrite Hd in Hj.
        destruct (decide (j = i)) as [->|Hne]; [apply q_add_scheduled|].
        right. rewrite q_add_delayed. cbn. set_solver. }
  split; [auto|congruence|by etrans|set_solver|auto].
Qed.

(** ** A worker of keys that puts a failed key back *)

Section worker.
Context {W : Type} `{QueueLaws W} (handler : string → M W (option error)).
Context (handler_beside : ∀ k, keeps beside (handler k)).
Abbreviation next := (process_next accept_key true handler).

(** No item is processed. *)
Definition idle (q : queue) : Prop := good q ∧ processing q = ∅.

(** The keys in the order of their reconciliations, with the results. *)
Inductive reconciles : list string → W → list (option error) → W → Prop :=
| reconciles_nil w : reconciles [] w [] w
| reconciles_cons k ks w w1 r w2 rs w' :
    wq_Get w = (Some (WKey k), w1) → handler k w1 = (Ret r, w2) →
    reconciles ks (wq_Done (WKey k) match r with
                                    | Some _ => wq_AddRateLimited (WKey k) w2
                                    | None => wq_Forget (WKey k) w2
                                    end) rs w' →
    reconciles (k :: ks) w (r :: rs) w'.

(** The key is in processing, and then done. *)
Lemma done_idle k q : good q → processing q = {[WKey k]} → idle (q_done (WKey k) q).
Proof.
  intros (Hn & Hw & Hd & Hl) Hp. split; [|cbn; set_solver]. split_and!; [| |done..]; cbn.
  - case_bool_decide; [|done]. apply NoDup_app. split_and!; [done| |apply NoDup_singleton].
    intros j Hj%Hw ->%list_elem_of_singleton. set_solver.
  - intros j. case_bool_decide as Hk; rewrite ?elem_of_app, ?list_elem_of_singleton, Hw, Hp.
    + destruct (decide (j = WKey k)); set_solver.
    + destruct (decide (j = WKey k)); set_solver.
Qed.
Lemma done_scheduled i j q : scheduled j q → scheduled j (q_done i q).
Proof. done. Qed.
Lemma delay_good k q : good q → good (q_delay (WKey k) q).
Proof. intros (Hn & Hw & Hd & Hl). split_and!; [done..|]. cbn. apply Forall_app. split; [done|]. constructor; [by eexists|done]. Qed.
Lemma delay_scheduled i j q : scheduled j q ∨ j = i → scheduled j (q_delay i q).
Proof. unfold scheduled. cbn. set_solver. Qed.

Lemma take_good k l q :
  idle q → waiting q = WKey k :: l → good (q_take (WKey k) l q) ∧ processing (q_take (WKey k) l q) = {[WKey k]}.
Proof.
  intros [(Hn & Hw & Hd & Hl) Hp] Hq. rewrite Hq in Hn, Hw. apply NoDup_cons in Hn as [Hk Hn].
  split; [|cbn; rewrite Hp; set_solver]. split_and!; cbn; [done| |set_solver|done].
  intros i. specialize (Hw i). rewrite elem_of_cons, Hp in Hw. rewrite Hp. destruct (decide (i = WKey k)) as [->|]; set_solver.
Qed.

(** One key: it is reconciled and done, also when the reconciliation panics; the keys behind it
    keep their turn, no key is lost, and a failed one is put back. *)
Lemma next_run k l w :
  idle (queue_of w) → waiting (queue_of w) = WKey k :: l →
  ∃ w1 r w2, wq_Get w = (Some (WKey k), w1) ∧ handler k w1 = (r, w2) ∧
    let w3 := wq_Done (WKey k) match r with
              | Ret (Some _) => wq_AddRateLimited (WKey k) w2
              | Ret None => wq_Forget (WKey k) w2
              | Panic _ => w2
              end in
    next w = (match r with Ret _ => Ret true | Panic why => Panic why end, w3) ∧
    idle (queue_of w3) ∧ l `prefix_of` waiting (queue_of w3) ∧
    (∀ i, scheduled i (queue_of w) → i ≠ WKey k → scheduled i (queue_of w3)) ∧
    (∀ e, r = Ret (Some e) → scheduled (WKey k) (queue_of w3)).
Proof.
  intros Hi Hq. destruct (Get_queue w _ _ Hq) as (w1 & Hg & Hq1).
  destruct (handler k w1) as [r w2] eqn:Hr. exists w1, r, w2. split; [done|]. split; [done|]. intros w3.
  destruct (take_good k l _ Hi Hq) as [Hg1 Hp1]. rewrite <-Hq1 in Hg1, Hp1.
  pose proof (keeps_run _ _ _ _ _ (handler_beside k) Hr) as [Hg2 Hp2 Hw2 _ Hs2]%q_env_undisturbed.
  rewrite Hp1 in Hp2. specialize (Hg2 Hg1). rewrite Hq1 in Hw2. cbn in Hw2.
  set (w2' := match r with Ret (Some _) => _ | Ret None => _ | Panic _ => w2 end) in w3.
  assert (good (queue_of w2') ∧ processing (queue_of w2') = {[WKey k]} ∧ l `prefix_of` waiting (queue_of w2') ∧
    (∀ i, scheduled i (queue_of w2) → scheduled i (queue_of w2')) ∧
    (∀ e, r = Ret (Some e) → scheduled (WKey k) (queue_of w2'))) as (Hg3 & Hp3 & Hw3 & Hs3 & Hf).
  { subst w2'. destruct r as [[e|]|]; rewrite ?AddRateLimited_queue, ?Forget_queue; split_and!; try done.
    - by apply delay_good.
    - intros. apply delay_scheduled. by left.
    - intros. apply delay_scheduled. by right. }
  split_and!.
  - unfold process_next, process_item, with_done, mbind, M_bind, call. rewrite Hg. cbn [accept_key]. rewrite Hr.
    by destruct r as [[e|]|].
  - unfold w3. rewrite Done_queue. by apply done_idle.
  - unfold w3. rewrite Done_queue. cbn. case_bool_decide; [|done]. etrans; [exact Hw3|by eexists].
  - intros i Hs Hne. unfold w3. rewrite Done_queue. apply done_scheduled, Hs3, Hs2. rewrite Hq1.
    destruct Hs as [Hs|Hs]; [left|by right]. cbn. set_solver.
  - intros e He. unfold w3. rewrite Done_queue. by eapply done_scheduled, Hf.
Qed.

(** The run over the keys that wait at its start: each is reconciled once, in its turn, until one
    panics; whatever was scheduled stays scheduled until it is reconciled, and a failed key is
    scheduled again. *)
Definition worked (keys : list string) (w : W) (rest : list work_item) (run : outcome unit * W) : Prop :=
  match run with
  | (Ret _, w') => ∃ rs, reconciles keys w rs w' ∧ idle (queue_of w') ∧ rest `prefix_of` waiting (queue_of w') ∧
      (∀ i, scheduled i (queue_of w) → i ∉ WKey <$> keys → scheduled i (queue_of w')) ∧
      ∀ k e, (k, Some e) ∈ zip keys rs → scheduled (WKey k) (queue_of w')
  | (Panic _, w') => ∃ ks1 k ks2 rs w1 w2 why w3, keys = ks1 ++ k :: ks2 ∧ reconciles ks1 w rs w1 ∧
      wq_Get w1 = (Some (WKey k), w2) ∧ handler k w2 = (Panic why, w3) ∧ w' = wq_Done (WKey k) w3 ∧
      idle (queue_of w') ∧ (WKey <$> ks2) ++ rest `prefix_of` waiting (queue_of w') ∧
      (∀ i, scheduled i (queue_of w) → i ∉ WKey <$> ks1 ++ [k] → scheduled i (queue_of w')) ∧
      ∀ k e, (k, Some e) ∈ zip ks1 rs → scheduled (WKey k) (queue_of w')
  end.
Lemma worker_run keys w rest :
  idle (queue_of w) → waiting (queue_of w) = (WKey <$> keys) ++ rest →
  worked keys w rest (run_worker next (length keys) w).
Proof.
  unfold worked. revert w rest. induction keys as [|k keys IH]; intros w rest Hi Hq.
  { exists []. split_and!; [constructor|done| |done|set_solver]. cbn in Hq. by rewrite Hq. }
  cbn in Hq. destruct (next_run k _ w Hi Hq) as (w1 & r & w2 & Hg & Hr & Hn & Hi3 & [l Hw3] & Hs & Hf).
  cbn [length run_worker]. unfold mbind at 1, M_bind at 1. rewrite Hn.
  destruct r as [r|why]; cycle 1.
  { exists [], k, keys, [], w, w1, why, w2. split_and!; [done|constructor|done..|by exists l| |set_solver].
    intros i Hsi Hne. apply Hs; [done|]. set_solver. }
  rewrite <-app_assoc in Hw3. specialize (IH _ _ Hi3 Hw3).
  assert (WKey k ∉ WKey <$> keys) as Hk.
  { destruct Hi as [[Hnd _] _]. rewrite Hq in Hnd. apply NoDup_cons in Hnd as [Hnd _]. set_solver. }
  set (w3 := wq_Done _ _) in *.
  assert (Hcons : ∀ ks rs w', reconciles ks w3 rs w' → reconciles (k :: ks) w (r :: rs) w')
    by (intros; eapply reconciles_cons; [done..|]; subst w3; by destruct r).
  destruct (run_worker next (length keys) w3) as [[u|why] w'].
  - destruct IH as (rs & Hrec & Hi' & Hw' & Hs' & Hf'). exists (r :: rs).
    split_and!; [auto|done|by etrans; [|exact Hw']; exists l| |].
    + intros i Hsi Hne. apply Hs'; [apply Hs; set_solver|set_solver].
    + intros j e [[= -> <-]|Hin]%elem_of_cons; [|by eapply Hf']. apply Hs'; [|done]. by eapply Hf.
  - destruct IH as (ks1 & j & ks2 & rs & wa & wb & why' & wc & -> & Hrec & Hga & Hrb & -> & Hi' & Hw' & Hs' & Hf').
    exists (k :: ks1), j, ks2, (r :: rs), wa, wb, why', wc.
    split_and!; [done|auto|done..|etrans; [|exact Hw']; rewrite app_assoc; by exists l| |].
    + intros i Hsi Hne. apply Hs'; [apply Hs; set_solver|set_solver].
    + intros j' e [[= -> <-]|Hin]%elem_of_cons; [|by eapply Hf'].
      apply Hs'; [by eapply Hf|]. set_solver.
Qed.

(** Events, and then the worker: every announced key waits, once, and gets its turn. *)
Definition served {E} (on_event : E → M W unit) (announces : E → string → Prop) : Prop :=
  ∀ evs w, idle (queue_of w) →
  ∃ w1 keys, forM on_event evs w = (Ret tt, w1) ∧ waiting (queue_of w1) = WKey <$> keys ∧ NoDup keys ∧
    (∀ e k, e ∈ evs → announces e k → k ∈ keys) ∧
    worked keys w1 [] (run_worker next (length keys) w1).

(** What a handler of events does: it returns, and the announced key needs processing. *)
Definition observes {E} (on_event : E → M W unit) (announces : E → string → Prop) : Prop :=
  ∀ e w, ∃ w', on_event e w = (Ret tt, w') ∧ beside w w' ∧ ∀ k, announces e k → WKey k ∈ dirty (queue_of w').

Lemma events_run {E} on_event (announces : E → string → Prop) evs w :
  observes on_event announces →
  ∃ w', forM on_event evs w = (Ret tt, w') ∧ beside w w' ∧
    ∀ e k, e ∈ evs → announces e k → WKey k ∈ dirty (queue_of w').
Proof.
  intros Ho. revert w. induction evs as [|e evs IH]; intros w; cbn.
  { exists w. split_and!; [done|apply rtc_refl|set_solver]. }
  destruct (Ho e w) as (w1 & He & Hb & Hk). destruct (IH w1) as (w' & Hr & Hb' & Hk').
  exists w'. unfold mbind, M_bind. rewrite He, Hr. split_and!; [done|unfold beside in *; by etrans|].
  intros e' k [->|Hin]%elem_of_cons Ha; [|by eapply Hk'].
  apply q_env_undisturbed in Hb' as [_ _ _ Hd _]. by apply Hd, Hk.
Qed.
Lemma keys_of_waiting l : Forall is_key l → ∃ keys, l = WKey <$> keys.
Proof.
  induction 1 as [|i l [k ->] _ [keys ->]]; [by exists []|]. by exists (k :: keys).
Qed.
Lemma events_served {E} on_event (announces : E → string → Prop) :
  observes on_event announces → served on_event announces.
Proof.
  intros Ho evs w [Hg Hp]. destruct (events_run _ _ evs w Ho) as (w1 & Hr & Hb & Hk).
  apply q_env_undisturbed in Hb as [Hg1 Hp1 _ _ _]. specialize (Hg1 Hg). rewrite Hp in Hp1.
  destruct (keys_of_waiting (waiting (queue_of w1))) as [keys Hq].
  { destruct Hg1 as (_ & Hw & Hd & _). apply Forall_forall. intros i [Hi _]%Hw. by apply Hd. }
  exists w1, keys. split_and!; [done..| | |].
  - destruct Hg1 as (Hn & _). rewrite Hq in Hn. by apply NoDup_fmap_1 in Hn.
  - intros e k Hin Ha. destruct Hg1 as (_ & Hw & _). specialize (Hw (WKey k)). rewrite Hq, Hp1 in Hw.
    assert (WKey k ∈ WKey <$> keys) as (k' & [= <-] & Hk')%list_elem_of_fmap; [|done].
    apply Hw. split; [by eapply Hk|set_solver].
  - apply worker_run; [done|by rewrite app_nil_r].
Qed.
End worker.

(** What an informer reports of an object. *)
Inductive informer_event (Obj : Type) :=
| Added (o : option Obj) | Updated (old new : option Obj) | Removed (d : deleted Obj).
Arguments Added {Obj}.
Arguments Updated {Obj}.
Arguments Removed {Obj}.
Definition event_object {Obj} (e : informer_event Obj) : option Obj :=
  match e with Added o => o | Updated _ o => o | Removed d => last_known d end.

(** ** The reconciliations leave the queue to the informers *)

Class QueueFrame (W Obj : Type) `{QueueLaws W} `{!ResourceClient W Obj} : Prop := {
  rCreate_beside : ∀ ns (o : Obj) (w : W), beside w (rCreate ns o w).2;
  rUpdate_beside : ∀ ns (o : Obj) (w : W), beside w (rUpdate ns o w).2;
  rDelete_beside : ∀ ns n (w : W), beside w (rDelete (Obj:=Obj) ns n w).2;
  rDeleteCollection_beside : ∀ ns sel (w : W), beside w (rDeleteCollection (Obj:=Obj) ns sel w).2;
}.
Class PatchQueueFrame (W Obj : Type) `{QueueLaws W} `{!PatchClient W Obj} : Prop := {
  rPatchObject_beside : ∀ ns n ty b (w : W), beside w (rPatchObject (Obj:=Obj) ns n ty b w).2;
}.
Class EnvQueueFrame (W : Type) `{QueueLaws W} `{!Env W} : Prop := {
  Event_beside : ∀ e (w : W), beside w (Event e w);
  rand_String_beside : ∀ n (w : W), beside w (rand_String n w).2;
  rPatch_beside : ∀ ns n b (w : W), beside w (rPatch ns n b w).2;
}.

#[export] Instance beside_preorder {W} `{QueueLaws W} : PreOrder (beside (W:=W)).
Proof. split; [intros w; apply rtc_refl|intros w1 w2 w3 H1 H2; unfold beside in *; by etrans]. Qed.

Section frames.
Context {W : Type} `{QueueLaws W} `{!Env W} `{!EnvQueueFrame W}.

Lemma beside_emit e : keeps beside (emit e).
Proof. intros w. apply Event_beside. Qed.
Lemma beside_rand n : keeps beside (rand_string n).
Proof. apply keeps_call. apply rand_String_beside. Qed.
Lemma beside_patch ns n b : keeps beside (call (rPatch ns n b)).
Proof. apply keeps_call, rPatch_beside. Qed.
Lemma beside_create {Obj} `{!ResourceClient W Obj} `{!QueueFrame W Obj} ns (o : Obj) : keeps beside (call (rCreate ns o)).
Proof. apply keeps_call, rCreate_beside. Qed.
Lemma beside_update {Obj} `{!ResourceClient W Obj} `{!QueueFrame W Obj} ns (o : Obj) : keeps beside (call (rUpdate ns o)).
Proof. apply keeps_call, rUpdate_beside. Qed.
Lemma beside_delete {Obj} `{!ResourceClient W Obj} `{!QueueFrame W Obj} ns n : keeps beside (call (rDelete (Obj:=Obj) ns n)).
Proof. apply keeps_call, rDelete_beside. Qed.
Lemma beside_collection {Obj} `{!ResourceClient W Obj} `{!QueueFrame W Obj} ns s : keeps beside (call (rDeleteCollection (Obj:=Obj) ns s)).
Proof. apply keeps_call, rDeleteCollection_beside. Qed.
Lemma beside_patch_object {Obj} `{!PatchClient W Obj} `{!PatchQueueFrame W Obj} ns n ty b :
  keeps beside (call (rPatchObject (Obj:=Obj) ns n ty b)).
Proof. apply keeps_call, rPatchObject_beside. Qed.
Lemma keeps_forE {A} (f : A → M W (result unit)) l :
  (∀ a, keeps beside (f a)) → keeps beside (forE f l).
Proof.
  intros Hf. induction l as [|x l IH]; cbn; [apply keeps_mret; exact _|].
  apply keeps_bind; [exact _|apply Hf|]. intros [|]; [done|apply keeps_mret; exact _].
Qed.
End frames.
#[export] Hint Resolve beside_emit beside_rand beside_patch beside_create beside_update beside_delete
  beside_collection beside_patch_object : keeps.

Section cluster.
Context {W : Type} `{GoRuntime} `{OpenebsApi} `{PoolApi} `{BuildInfo} `{PodEnv} `{!Env W} `{QueueLaws W} `{!EnvQueueFrame W}.
Context `{!ResourceClient W Node} `{!ResourceClient W BlockDevice}
  `{!ResourceClient W BlockDeviceClaim} `{!ResourceClient W CStorPoolInstance}
  `{!ResourceClient W CStorPoolCluster} `{!ResourceClient W Deployment} `{!ControllerCache W}.
Context `{!QueueFrame W BlockDeviceClaim} `{!QueueFrame W CStorPoolInstance} `{!QueueFrame W CStorPoolCluster}
  `{!QueueFrame W Deployment}.

Lemma beside_ClaimBD ac bd : keeps beside (Algorithm.ClaimBD ac bd).
Proof. unfold Algorithm.ClaimBD, create_claim. keeps_auto. Qed.
#[local] Hint Resolve beside_ClaimBD : keeps.
Lemma beside_claim_devices ac BD n p : keeps beside (claim_devices ac BD n p).
Proof. revert n p. induction BD as [|bd BD IH]; intros; cbn [claim_devices]; keeps_auto. Qed.
#[local] Hint Resolve beside_claim_devices : keeps.
Lemma beside_UpdateStatus cspc : keeps beside (UpdateStatus cspc).
Proof. unfold UpdateStatus. keeps_auto. Qed.
#[local] Hint Resolve beside_UpdateStatus : keeps.
Lemma beside_retry n cspc err : keeps beside (retry_status n cspc err).
Proof. revert cspc. induction n as [|n IH]; intros; cbn [retry_status]; keeps_auto. Qed.
#[local] Hint Resolve beside_retry : keeps.
Lemma beside_status cspc : keeps beside (UpdateStatusEventually cspc).
Proof. unfold UpdateStatusEventually. keeps_auto. Qed.
#[local] Hint Resolve beside_status : keeps.
Lemma beside_CreateCSPI ac cspc : keeps beside (CreateCSPI ac cspc).
Proof. unfold CreateCSPI, GetCSPISpec, ClaimBDsForNode, CreateCSPIDeployment. keeps_auto. Qed.
#[local] Hint Resolve beside_CreateCSPI : keeps.
Lemma beside_scale_up_loop ac cspc n b : keeps beside (scale_up_loop ac cspc n b).
Proof. revert ac b. induction n as [|n IH]; intros; cbn [scale_up_loop]; keeps_auto. Qed.
#[local] Hint Resolve beside_scale_up_loop : keeps.
Lemma beside_ScaleUp ac cspc n : keeps beside (ScaleUp ac cspc n).
Proof. unfold ScaleUp. keeps_auto. Qed.
Lemma beside_ScaleDown ac cspc : keeps beside (ScaleDown ac cspc).
Proof. unfold ScaleDown, delete_orphan. keeps_auto. Qed.
Lemma beside_cleanup cspis : keeps beside (cleanupCSPIResources cspis).
Proof.
  unfold cleanupCSPIResources. generalize (@nil error) as errs.
  induction cspis as [|c cspis IH]; intros errs; cbn [cleanup_cspis]; unfold cleanupBDC, release_bdc; keeps_auto.
  apply keeps_forE. keeps_auto.
Qed.
#[local] Hint Resolve beside_ScaleUp beside_ScaleDown beside_cleanup : keeps.
Lemma beside_operations ac : keeps beside (handleOperations ac).
Proof.
  unfold handleOperations, expandPool, replaceBlockDevice, expand_one, replace_one, addGroupToPool,
    expandExistingStripedGroup, addBlockDeviceToGroup, ClaimBDList, CspcOps.ClaimBD. keeps_auto.
  all: apply keeps_forE; keeps_auto.
Qed.

#[local] Hint Resolve beside_operations : keeps.
Lemma beside_deletion cspc : keeps beside (handleCSPCDeletion cspc).
Proof.
  unfold handleCSPCDeletion, deleteAssociatedCSPI, removeCSPCFinalizer. keeps_auto.
  apply keeps_forE. unfold unfinalize_bdc. keeps_auto.
Qed.
Lemma beside_reconcileVersion cspc : keeps beside (reconcileVersion cspc).
Proof. unfold reconcileVersion, finish_upgrade, upgradeMap. keeps_auto. Qed.
Lemma beside_syncCSPI ac cspc : keeps beside (syncCSPI ac cspc).
Proof. unfold syncCSPI, syncCSPIWithCSPC, patchPoolDeploymentSpec. keeps_auto. Qed.
#[local] Hint Resolve beside_deletion beside_reconcileVersion beside_syncCSPI : keeps.
Lemma beside_sync_pools cspc got l : keeps beside (sync_pools cspc got l).
Proof. unfold sync_pools, createDeployForCSPList, CreateCSPIDeployment. keeps_auto. Qed.
#[local] Hint Resolve beside_sync_pools : keeps.
Lemma beside_syncCSPC key : keeps beside (syncCSPC key).
Proof.
  unfold syncCSPC, sync, cleanup_pools, sync_versioned, populateVersion, populateDesiredInstances. keeps_auto.
Qed.

Definition cluster_event (e : informer_event CStorPoolCluster) : M W unit :=
  match e with
  | Added o => ClusterWorker.addCSPC o
  | Updated o n => ClusterWorker.updateCSPC o n
  | Removed d => ClusterWorker.deleteCSPC d
  end.
(** The key of a cluster whose reconciliation is not disabled. *)
Definition cluster_announced (e : informer_event CStorPoolCluster) (k : string) : Prop :=
  ∃ cspc, event_object e = Some cspc ∧ label (annotations cspc) OpenEBSDisableReconcileLabelKey ≠ "true" ∧
    cache_MetaNamespaceKeyFunc (cspc_meta cspc) = OK k.
Lemma cluster_observes : observes cluster_event cluster_announced.
Proof.
  intros e w. set (reason := match e with Added _ => "Create" | Updated _ _ => "Update" | Removed _ => "Delete" end).
  assert (cluster_event e w = match event_object e with
    | None => (Ret tt, w) | Some cspc => ClusterWorker.handle reason cspc w end) as He
    by by destruct e as [[]|? []|[|[]|]].
  rewrite He. unfold ClusterWorker.handle, ClusterWorker.enqueue, cluster_announced.
  destruct (event_object e) as [cspc|]; cycle 1.
  { exists w. split_and!; [done|apply rtc_refl|]. by intros k (c & Hc & _). }
  case_bool_decide as Hd.
  { eexists. split_and!; [done|apply Event_beside|]. by intros k (c & [= <-] & Hn & _). }
  destruct (cache_MetaNamespaceKeyFunc (cspc_meta cspc)) as [key|err] eqn:Hk.
  - eexists. split_and!; [done|unfold beside; rewrite Add_queue; apply rtc_once, env_add|].
    intros k (c & [= <-] & _ & Hkc). assert (k = key) as -> by congruence. rewrite Add_queue. apply q_add_in.
  - exists w. split_and!; [done|apply rtc_refl|]. intros k (c & [= <-] & _ & Hkc). congruence.
Qed.
End cluster.

Section config.
Context {W : Type} `{OpenebsApi} `{VolumeApi} `{BuildInfo} `{PodEnv} `{GoRuntime} `{!Env W} `{QueueLaws W} `{!EnvQueueFrame W}.
Context `{!ResourceClient W CStorVolumeConfig} `{!ResourceClient W CStorVolume}
  `{!ResourceClient W CStorVolumeReplica} `{!ResourceClient W CStorPoolInstance}
  `{!ResourceClient W Service} `{!ResourceClient W PodDisruptionBudget}
  `{!ResourceClient W Deployment} `{!ResourceClient W CStorVolumePolicy}
  `{!PatchClient W CStorVolumeConfig} `{!PatchClient W CStorVolume}.
Context `{!QueueFrame W CStorVolumeConfig} `{!QueueFrame W CStorVolume} `{!QueueFrame W CStorVolumeReplica}
  `{!QueueFrame W Service} `{!QueueFrame W PodDisruptionBudget} `{!QueueFrame W Deployment}
  `{!PatchQueueFrame W CStorVolumeConfig} `{!PatchQueueFrame W CStorVolume}.
Context (openebsNamespace : string).

Lemma beside_createCVR service volume claim pool rInfo :
  keeps beside (createCVR openebsNamespace service volume claim pool rInfo).
Proof. unfold createCVR. keeps_auto. Qed.
#[local] Hint Resolve beside_createCVR : keeps.
Lemma beside_create_replicas pending count service volume claim rInfo pools :
  keeps beside (create_replicas openebsNamespace pending count service volume claim rInfo pools).
Proof. revert count. induction pools as [|pool pools IH]; intros; cbn [create_replicas]; keeps_auto. Qed.
#[local] Hint Resolve beside_create_replicas : keeps.
Lemma beside_distribute pending claim service volume policy :
  keeps beside (distributeCVRs openebsNamespace pending claim service volume policy).
Proof. unfold distributeCVRs, distribute_over. keeps_auto. Qed.
Lemma beside_budget cspcName pools :
  keeps beside (getOrCreatePodDisruptionBudget openebsNamespace cspcName pools).
Proof. unfold getOrCreatePodDisruptionBudget, createPDB. keeps_auto. Qed.
Lemma beside_unused cvc : keeps beside (deletePDBIfNotInUse openebsNamespace cvc).
Proof. unfold deletePDBIfNotInUse. keeps_auto. Qed.
#[local] Hint Resolve beside_distribute beside_budget beside_unused : keeps.
Lemma beside_createVolume cvc : keeps beside (createVolumeOperation openebsNamespace cvc).
Proof.
  unfold createVolumeOperation, getOrCreateTargetService, getOrCreateCStorVolumeResource,
    getOrCreateCStorTargetDeployment, distributePendingCVRs, bind_volume, updateCVCObj. keeps_auto.
Qed.
Lemma beside_scaled cvc : keeps beside (updatePDBForScaledVolume openebsNamespace cvc).
Proof. unfold updatePDBForScaledVolume, getUpdatePDBForVolume. keeps_auto. Qed.
#[local] Hint Resolve beside_createVolume beside_scaled : keeps.
Lemma beside_scale cvc : keeps beside (scaleVolumeReplicas openebsNamespace cvc).
Proof.
  unfold scaleVolumeReplicas, scaleUpVolumeReplicas, scaleDownVolumeReplicas, updateCStorVolumeInfo,
    handleVolumeReplicaCreation, create_on_pool, updateCVCWithScaledUpInfo, finish_scale_down. keeps_auto.
Qed.
Lemma beside_resize cvc : keeps beside (resizeCVC openebsNamespace cvc).
Proof.
  unfold resizeCVC, markCVCResizeFinished, markCVCResizeInProgress, resizeCV, PatchCVCStatus. keeps_auto.
Qed.
Lemma beside_policy cvc : keeps beside (syncPolicySpec cvc).
Proof. unfold syncPolicySpec, patchTargetDeploymentSpec. keeps_auto. Qed.
#[local] Hint Resolve beside_scale beside_resize beside_policy : keeps.
Lemma beside_volume cvc : keeps beside (sync_volume openebsNamespace cvc).
Proof. unfold sync_volume. keeps_auto. Qed.
Lemma beside_upgrade cvc : keeps beside (cvc_reconcileVersion cvc).
Proof. unfold cvc_reconcileVersion, cvc_finish_upgrade, cvc_upgradeMap. keeps_auto. Qed.
#[local] Hint Resolve beside_volume beside_upgrade : keeps.
Lemma beside_cvc_syncHandler key : keeps beside (cvc_syncHandler openebsNamespace key).
Proof. unfold cvc_syncHandler, syncCVC, cvc_populateVersion, removeClaimFinalizer. keeps_auto. Qed.

Context `{PoolApi}.
Definition config_event (e : informer_event CStorVolumeConfig) : M W unit :=
  match e with
  | Added o => ConfigWorker.addCVC o
  | Updated o n => ConfigWorker.updateCVC o n
  | Removed d => ConfigWorker.deleteCVC d
  end.
Definition config_announced (e : informer_event CStorVolumeConfig) (k : string) : Prop :=
  ∃ cvc, event_object e = Some cvc ∧ cache_MetaNamespaceKeyFunc (cvc_meta cvc) = OK k.
Lemma config_observes : observes config_event config_announced.
Proof.
  intros e w. assert (He : config_event e w = match event_object e with
    | None => (Ret tt, w) | Some cvc => ConfigWorker.enqueueCVC cvc w end) by by destruct e as [[]|? []|[|[]|]].
  rewrite He. unfold ConfigWorker.enqueueCVC, config_announced. destruct (event_object e) as [cvc|].
  - destruct (cache_MetaNamespaceKeyFunc (cvc_meta cvc)) as [key|err] eqn:Hk.
    + eexists. split_and!; [done|unfold beside; rewrite Add_queue; apply rtc_once, env_add|].
      intros k (c & [= <-] & Hkc). assert (k = key) as -> by congruence. rewrite Add_queue. apply q_add_in.
    + exists w. split_and!; [done|apply rtc_refl|]. intros k (c & [= <-] & Hkc). congruence.
  - exists w. split_and!; [done|apply rtc_refl|]. by intros k (c & Hc & _).
Qed.
End config.
