(* ===== verification/WorkerMemory.v ===== *)
(** * WorkerMemory: the in-memory cluster with a work queue

    The cluster of [VolumeMemory] with one queue, on which the worker runs alone: no event comes
    during a call and no delay ends.  A worker that finds nothing waiting is stopped. *)

From stdpp Require Import base gmap strings list sets relations.
From Stdlib Require Import Ascii ZArith Lia.
From S2P Require Import Prelude Steps Api Memory VolumeApi VolumeMemory PoolApi PoolMemory CspcSync Workers WorkerFacts.

Record queued := { qw_base : volume_cluster; qw_queue : queue }.
Definition qw_with (b : volume_cluster) (c : queued) : queued := {| qw_base := b; qw_queue := qw_queue c |}.
Definition qw_on (f : queue → queue) (c : queued) : queued := {| qw_base := qw_base c; qw_queue := f (qw_queue c) |}.

#[export] Instance queued_stored {Obj} `{!Stored volume_cluster Obj} : Stored queued Obj :=
  {| store_of c := store_of (qw_base c); with_store m c := qw_with (with_store m (qw_base c)) c |}.
#[export] Instance queued_env : Env queued := {|
  rand_String n c := let '(s, b) := rand_String n (qw_base c) in (s, qw_with b c);
  Now c := Now (qw_base c);
  Event e c := qw_with (Event e (qw_base c)) c;
  rPatch ns n bytes c := let '(r, b) := rPatch ns n bytes (qw_base c) in (r, qw_with b c);
|}.
#[export] Instance queued_patches {Obj} `{!PatchClient volume_cluster Obj} : PatchClient queued Obj := {|
  rPatchObject ns n ty b c := let '(r, v) := rPatchObject ns n ty b (qw_base c) in (r, qw_with v c);
|}.
#[export] Instance queued_cache : ControllerCache queued := {|
  lister_Get := rGet;
  SplitMetaNamespaceKey := cache_SplitMetaNamespaceKey;
|}.

#[export] Instance queued_queue : WorkQueue queued := {|
  wq_Get c :=
    match waiting (qw_queue c) with
    | [] => (None, c)
    | i :: l => (Some i, qw_on (q_take i l) c)
    end;
  wq_Done i := qw_on (q_done i);
  wq_Forget _ c := c;
  wq_Add i := qw_on (q_add i);
  wq_AddRateLimited i := qw_on (q_delay i);
|}.
#[export] Program Instance queued_queue_laws : QueueLaws queued := {| queue_of := qw_queue |}.
Next Obligation. intros w i l Hw. cbn. rewrite Hw. by eexists. Qed.
Solve All Obligations with done.

Lemma same_queue (w w' : queued) : qw_queue w' = qw_queue w → beside w w'.
Proof. intros Hq. unfold beside. cbn. rewrite Hq. apply rtc_refl. Qed.
#[export] Instance queued_frame {Obj} `{HasMeta Obj} `{!Stored volume_cluster Obj} : QueueFrame queued Obj.
Proof. split; intros; apply same_queue; cbn; by repeat case_match. Qed.
#[export] Instance queued_patch_frame {Obj} `{!PatchClient volume_cluster Obj} : PatchQueueFrame queued Obj.
Proof. split; intros; apply same_queue; cbn. by case_match. Qed.
#[export] Instance queued_env_frame : EnvQueueFrame queued.
Proof. split; intros; apply same_queue; cbn; by repeat case_match. Qed.
