(* ===== verification/ReturnFacts.v ===== *)
(** * ReturnFacts: which handlers always return, and where the others panic

    For the handlers of the operators and of the volume manager: the world in which a run panics
    shows the cause. *)

From stdpp Require Import base gmap strings list sets relations.
From Stdlib Require Import Ascii ZArith Lia.
From S2P Require Import Prelude Returns Api Version Webhook PoolOps VolumeApi Algorithm PoolDeploy PoolApi StringFacts TargetDeploy VolumeOps VolumeSync CspcStatus CspcCleanup CspcOps CspcSync TargetApi VolumeTarget VolumeMgmt.

#[export] Hint Resolve panics_at_reads panics_at_call panics_at_mret returns_at : panics.

Lemma panics_at_emit {W} `{!Env W} (P : W → Prop) e : panics_at P (emit e).
Proof. done. Qed.
#[export] Hint Resolve panics_at_emit : panics.

(** ** The operator of pool clusters *)

Section cluster.
Context {W : Type} `{GoRuntime} `{OpenebsApi} `{BuildInfo} `{PodEnv} `{!Env W}.
Context `{!ResourceClient W Node} `{!ResourceClient W BlockDevice}
  `{!ResourceClient W BlockDeviceClaim} `{!ResourceClient W CStorPoolInstance}
  `{!ResourceClient W CStorPoolCluster} `{!ResourceClient W Deployment}.

(** A pool without a node selector, a node with an empty host name, or a device whose capacity is
    not a number of type uint64. *)
Definition cluster_fault (cspc : CStorPoolCluster) (ns : string) (w : W) : Prop :=
  (∃ pool, pool ∈ Pools (cspc_Spec cspc) ∧
     (NodeSelector pool = ∅ ∨ GetNodeFromLabelSelector w (NodeSelector pool) = Ret (OK ""))) ∨
  (∃ n bd, rGet w ns n = OK bd ∧ ¬ (0 ≤ bd_Storage bd < 2 ^ 64)%Z).

Lemma GetNodeFromLabelSelector_panics (w : W) sel why : GetNodeFromLabelSelector w sel = Panic why → sel = ∅.
Proof.
  unfold GetNodeFromLabelSelector. destruct (getLabelSelectorString sel) eqn:Hs; [done|]. intros _.
  apply selector_panics_iff. by eexists.
Qed.

Lemma SelectNode_panics ac (w : W) why :
  SelectNode w ac = Panic why → cluster_fault (ac_CSPC ac) (ac_Namespace ac) w.
Proof.
  unfold SelectNode. destruct (GetUsedNodes w ac) as [un|]; [|done].
  destruct (GetUsedBlockDevices w ac) as [ub|]; [|done]. intros Hs. left.
  enough (∀ pools ac0, select_pool w ac0 un ub pools = Panic why →
    ∃ pool, pool ∈ pools ∧ (NodeSelector pool = ∅ ∨ GetNodeFromLabelSelector w (NodeSelector pool) = Ret (OK "")))
    as Hp by by eapply Hp.
  clear Hs. induction pools as [|pool pools IH]; intros ac0; cbn [select_pool]; [done|].
  assert (Htail : ∀ ac1, select_pool w ac1 un ub pools = Panic why →
    ∃ p, p ∈ pool :: pools ∧ (NodeSelector p = ∅ ∨ GetNodeFromLabelSelector w (NodeSelector p) = Ret (OK ""))).
  { intros ac1 (p & Hp & Hc)%IH. exists p. split; [by right|done]. }
  destruct (GetNodeFromLabelSelector w (NodeSelector pool)) as [[host|e]|s] eqn:Hn; cbn; [|apply Htail|].
  - case_bool_decide as Hh; [|repeat case_match; (done || apply Htail)].
    intros _. subst. exists pool. split; [by left|by right].
  - intros _. exists pool. split; [by left|]. left. by eapply GetNodeFromLabelSelector_panics.
Qed.

(** ** Progress of a scale up *)

(** A node that a pool of the specification selects and that can take it: not visited yet, without
    a pool instance, and no pool for that node has a device of a pool instance. *)
Definition provisionable (w : W) (ac : Config) (n : string) : Prop :=
  n ∉ VisitedNodes ac ∧ ¬ node_used w ac n ∧
  (∃ p, p ∈ Pools (cspc_Spec (ac_CSPC ac)) ∧ selects w (NodeSelector p) n) ∧
  ∀ p bd, p ∈ Pools (cspc_Spec (ac_CSPC ac)) → selects w (NodeSelector p) n → bd ∈ pool_bds p → ¬ device_used w ac bd.

Lemma SelectNode_finds (w : W) ac n :
  provisionable w ac n → (∃ l, list_cspis w ac = OK l) → ¬ cluster_fault (ac_CSPC ac) (ac_Namespace ac) w →
  ∃ p n' ac1, SelectNode w ac = Ret (OK (p, n'), ac1).
Proof.
  intros (Hv & Hu & (p & Hp & Hs) & Hd) [l Hl] Hf.
  destruct (SelectNode w ac) as [[[[p' n']|e] ac1]|why] eqn:Hsel; [by eexists _, _, _| |].
  - exfalso. assert (∃ un, GetUsedNodes w ac = OK un) as [un Eu] by (unfold GetUsedNodes; rewrite Hl; by eexists).
    assert (∃ ub, GetUsedBlockDevices w ac = OK ub) as [ub Eb] by (unfold GetUsedBlockDevices; rewrite Hl; by eexists).
    unfold SelectNode in Hsel. rewrite Eu, Eb in Hsel.
    destruct (select_pool_Err _ _ _ _ _ _ _ _ _ Hsel Hp Hs) as [?|(p1 & Hp1 & Hs1 & [Hn|(bd & Hb & Hin)])]; [done| |].
    + by apply Hu, (used_nodes_spec w ac un n Eu).
    + by eapply (Hd p1 bd), (used_devices_spec w ac ub bd Eb).
  - exfalso. by eapply Hf, SelectNode_panics.
Qed.

(** With its devices claimed, a pool instance is sent to the API server; when it and its deployment
    are accepted, the pool counts as provisioned. *)
Lemma CreateCSPI_progress `{!OpenebsApiLaws} ac cspc (w : W) n :
  provisionable w ac n → (∃ l, list_cspis w ac = OK l) → ¬ cluster_fault (ac_CSPC ac) (ac_Namespace ac) w →
  (∀ p, p ∈ Pools (cspc_Spec (ac_CSPC ac)) → Forall (claimed_by (rand_String 4 w).2 ac) (pool_bds p)) →
  ∃ p n' ac1 c x w2, SelectNode w ac = Ret (OK (p, n'), ac1) ∧ instance_of ac p n' c ∧
    rCreate (namespace cspc) c (rand_String 4 w).2 = (x, w2) ∧
    ∀ c', x = OK c' → ∀ d w3, rCreate (namespace c') (GetPoolDeploySpec ac1 c') w2 = (OK d, w3) →
      CreateCSPI ac cspc w = (Ret (OK tt, ac1), w3).
Proof.
  intros Hpr Hl Hf Hc. destruct (SelectNode_finds w ac n Hpr Hl Hf) as (p & n' & ac1 & Hsel).
  pose proof (SelectNode_OK _ _ _ _ _ Hsel) as (Hp & _ & Hne & _ & _ & Hadv & _).
  assert (∃ c, GetCSPISpec ac w = (Ret (OK c, ac1), (rand_String 4 w).2)) as [c Hg].
  { unfold GetCSPISpec, mbind, M_bind, lift, rand_string, call. rewrite Hsel.
    rewrite bool_decide_eq_false_2 by done. destruct (rand_String 4 w) as [s w1].
    assert (ClaimBDsForNode ac1 (GetBDListForNode p) w1 = (Ret (OK tt), w1)) as ->; [|by eexists].
    apply ClaimBDsForNode_OK. split; [done|]. eapply Forall_impl; [by apply Hc|]. intros bd.
    unfold claimed_by. destruct Hadv as (-> & -> & _). done. }
  destruct (GetCSPISpec_OK _ _ _ _ _ Hg) as (p2 & n2 & Hsel2 & _ & _ & Hi). rewrite Hsel in Hsel2. simplify_eq.
  destruct (rCreate (namespace cspc) c (rand_String 4 w).2) as [x w2] eqn:Hx.
  exists p2, n2, ac1, c, x, w2. split_and!; [done..|]. intros c' -> d w3 Hd.
  unfold CreateCSPI, CreateCSPIDeployment, mbind, M_bind, call. by rewrite Hg, Hx, Hd.
Qed.

Lemma ByteCount_panics b why : ByteCount b = Panic why → ¬ (0 ≤ b < 2 ^ 64)%Z.
Proof.
  intros Hp Hb. pose proof (ByteCount_value b Hb) as Hv. destruct (decide _); [by rewrite Hp in Hv|].
  destruct Hv as (j & c & _ & Hv & _). by rewrite Hp in Hv.
Qed.

Lemma ClaimBD_panics ac bd (w : W) why w' :
  Algorithm.ClaimBD ac bd w = (Panic why, w') → w' = w ∧ ¬ (0 ≤ bd_Storage bd < 2 ^ 64)%Z.
Proof.
  unfold Algorithm.ClaimBD. intros [[= Hp <-]|(a & w1 & _ & Hr)]%M_bind_Panic; [by apply ByteCount_panics in Hp|].
  refine (False_ind _ ((_ : panics_at (λ _, False) _) _ _ _ Hr)).
  unfold create_claim. panics_auto.
Qed.

Lemma claim_devices_panics ac BD n pending :
  panics_at (cluster_fault (ac_CSPC ac) (ac_Namespace ac)) (claim_devices ac BD n pending).
Proof.
  revert n pending. induction BD as [|bdName BD IH]; intros n pending; cbn [claim_devices]; [panics_auto|].
  apply panics_at_reads_bind. intros w why w'.
  destruct (rGet w (ac_Namespace ac) bdName) as [bd|e] eqn:Hg; [|done].
  destruct (IsBlockDeviceClaimed bd).
  - intros [Hr|(u & w1 & _ & Hr)]%M_bind_Panic; [done|]. destruct u as [[]|]; [by eapply IH|done..].
  - intros [[-> Hb]%ClaimBD_panics|(c & w1 & _ & Hr)]%M_bind_Panic; [right; by exists bdName, bd|].
    destruct c; [by eapply IH|done].
Qed.
#[local] Hint Resolve claim_devices_panics : panics.

Lemma UpdateStatusEventually_returns cspc : returns (UpdateStatusEventually (W:=W) cspc).
Proof. intros w. destruct (UpdateStatusEventually_run cspc w) as (r & c & w' & n & Hr & _). by eexists _, _. Qed.

Lemma advanced_fault ac ac' :
  advanced ac ac' → cluster_fault (ac_CSPC ac') (ac_Namespace ac') = cluster_fault (ac_CSPC ac) (ac_Namespace ac).
Proof. by intros (-> & -> & _). Qed.

Lemma GetCSPISpec_panics ac :
  panics_at (cluster_fault (ac_CSPC ac) (ac_Namespace ac)) (GetCSPISpec ac).
Proof.
  intros w why w'. unfold GetCSPISpec. intros [[= Hs <-]|([r ac1] & w1 & [= Hs <-] & Hr)]%M_bind_Panic.
  { by eapply SelectNode_panics. }
  apply SelectNode_advanced in Hs. rewrite <-(advanced_fault _ _ Hs). revert w why w' Hr.
  match goal with |- ∀ w why w', ?m w = _ → _ => change (panics_at (cluster_fault (ac_CSPC ac1) (ac_Namespace ac1)) m) end.
  unfold ClaimBDsForNode, rand_string. panics_auto.
Qed.
Lemma CreateCSPI_advanced ac cspc w r ac1 w1 :
  CreateCSPI ac cspc w = (Ret (r, ac1), w1) → advanced ac ac1.
Proof.
  unfold CreateCSPI, CreateCSPIDeployment. intros ([r1 ac2] & w2 & Hg & Hr)%M_bind_Ret.
  apply GetCSPISpec_advanced in Hg. destruct r1; [|by injection Hr as _ <-].
  apply M_bind_Ret in Hr as (c & w3 & _ & Hr). destruct c; [|by injection Hr as _ <-].
  apply M_bind_Ret in Hr as (d & w4 & _ & Hr). by injection Hr as _ <-.
Qed.
Lemma CreateCSPI_panics ac cspc :
  panics_at (cluster_fault (ac_CSPC ac) (ac_Namespace ac)) (CreateCSPI ac cspc).
Proof.
  unfold CreateCSPI, CreateCSPIDeployment. apply panics_at_bind; [apply GetCSPISpec_panics|panics_auto].
Qed.
Lemma scale_up_loop_panics ac cspc k b :
  panics_at (cluster_fault (ac_CSPC ac) (ac_Namespace ac)) (scale_up_loop ac cspc k b).
Proof.
  revert ac b. induction k as [|k IH]; intros ac b; [done|]. cbn [scale_up_loop]. intros w why w'.
  intros [Hs|([r ac1] & w1 & Hs & Hr)]%M_bind_Panic; [by eapply CreateCSPI_panics|].
  apply CreateCSPI_advanced in Hs. rewrite <-(advanced_fault _ _ Hs).
  destruct r; (apply M_bind_Panic in Hr as [Hr|(u & w2 & _ & Hr)]; [done|by eapply IH]).
Qed.
Lemma ScaleUp_panics ac cspc k :
  panics_at (cluster_fault (ac_CSPC ac) (ac_Namespace ac)) (ScaleUp ac cspc k).
Proof.
  unfold ScaleUp. apply panics_at_bind; [apply scale_up_loop_panics|].
  panics_auto. apply returns_at, UpdateStatusEventually_returns.
Qed.

Lemma pool_node_panics cspc ns pool :
  pool ∈ Pools (cspc_Spec cspc) →
  panics_at (cluster_fault cspc ns) (lift (λ w, GetNodeFromLabelSelector w (NodeSelector pool))).
Proof.
  intros Hp. apply panics_at_lift. intros w why Hw. left. exists pool. split; [done|]. left.
  by eapply GetNodeFromLabelSelector_panics.
Qed.
Lemma ops_ClaimBD_panics ac bdName :
  panics_at (cluster_fault (ac_CSPC ac) (ac_Namespace ac)) (CspcOps.ClaimBD ac bdName).
Proof.
  apply panics_at_reads_bind. intros w why w'. destruct (rGet w (ac_Namespace ac) bdName) as [bd|] eqn:Hg; [|done].
  case_bool_decide; [done|].
  intros [[-> Hb]%ClaimBD_panics|(c & w1 & _ & Hr)]%M_bind_Panic; [right; by exists bdName, bd|by destruct c].
Qed.
#[local] Hint Resolve pool_node_panics ops_ClaimBD_panics : panics.
Lemma handleOperations_panics ac :
  panics_at (cluster_fault (ac_CSPC ac) (ac_Namespace ac)) (handleOperations ac).
Proof.
  unfold handleOperations, expandPool, replaceBlockDevice, expand_one, replace_one, addGroupToPool,
    expandExistingStripedGroup, addBlockDeviceToGroup, ClaimBDList. panics_auto.
Qed.

(** The cleanup and the deletion of a cluster, and a cluster of another version. *)
Lemma cleanup_returns cspis : returns (cleanupCSPIResources cspis).
Proof.
  apply returns_never. unfold cleanupCSPIResources. generalize (@nil error) as errs.
  induction cspis as [|c cspis IH]; intros errs; cbn [cleanup_cspis]; unfold cleanupBDC, release_bdc; panics_auto; apply IH.
Qed.
#[local] Hint Resolve cleanup_returns : panics.
Lemma sync_deleted_returns cspc l : om_deletion (meta cspc) ≠ None → returns (sync cspc l).
Proof.
  intros Hd. unfold sync. rewrite bool_decide_eq_false_2 by done. cbn [negb].
  unfold handleCSPCDeletion, deleteAssociatedCSPI, removeCSPCFinalizer, unfinalize_bdc. returns_auto.
Qed.
(** The deletion comes to its end: no call that it needs is refused and no pool instance is left. *)
Definition deletion_unhindered (cspc : CStorPoolCluster) (w1 w3 : W) : Prop :=
  ∃ cspis w2 bdcs, GetCSPIListForCSPC w1 cspc = OK cspis ∧ cleanupCSPIResources cspis w1 = (Ret (OK tt), w2) ∧
    GetCSPIListForCSPC w2 cspc = OK [] ∧
    rList w2 (namespace cspc) (CStorPoolClusterLabelKey +:+ "=" +:+ name cspc) = OK bdcs ∧
    forE (unfinalize_bdc (namespace cspc)) bdcs w2 = (Ret (OK tt), w3).
Lemma sync_releases `{!OpenebsApiLaws} cspc l w w1 w3 o w4 :
  om_deletion (meta cspc) ≠ None → CSPCFinalizer ∈ finalizers cspc →
  rDeleteCollection (Obj:=CStorPoolInstance) (namespace cspc) (CStorPoolClusterLabelKey +:+ "=" +:+ name cspc) w = (OK tt, w1) →
  deletion_unhindered cspc w1 w3 →
  rUpdate (namespace cspc) (RemoveFinalizer CSPCFinalizer cspc) w3 = (OK o, w4) →
  sync cspc l w = (Ret (OK tt), w4).
Proof.
  intros Hd Hf Hdel (cspis & w2 & bdcs & Hl & Hc & Hl2 & Hb & Hu) Hr.
  assert (HasFinalizer CSPCFinalizer cspc = true) as Hh by by apply HasFinalizer_spec.
  unfold sync. rewrite bool_decide_eq_false_2 by done. cbn [negb].
  unfold handleCSPCDeletion, deleteAssociatedCSPI, removeCSPCFinalizer, mbind, M_bind, call, reads.
  rewrite Hdel. cbv beta iota. unfold mret at 1, M_ret at 1. rewrite Hh, Hl, Hc, Hl2.
  rewrite bool_decide_eq_false_2 by (cbn; lia). by rewrite Hb, Hu, Hr.
Qed.
Lemma sync_foreign_returns cspc l :
  om_deletion (meta cspc) = None → current_version_of cspc ≠ "" →
  current_version_of cspc = desired_version_of cspc → current_version_of cspc ≠ current_version →
  returns (sync cspc l).
Proof.
  intros Hd Hv Hs Hc. apply returns_never. unfold sync. rewrite bool_decide_eq_true_2 by done. cbn [negb].
  apply panics_at_bind; [unfold cleanup_pools; panics_auto|]. intros []; [|panics_auto]. intros w why w'.
  unfold sync_versioned, populateVersion, reconcileVersion, ShouldReconcile, mbind, M_bind, mret, M_ret.
  rewrite (bool_decide_eq_false_2 (_ = "")) by done. rewrite bool_decide_eq_true_2 by done.
  rewrite (bool_decide_eq_false_2 (_ = "")) by done. by rewrite bool_decide_eq_false_2.
Qed.
End cluster.

(** ** The controller of volume configurations *)

Section volumes.
Context {W : Type} `{OpenebsApi} `{VolumeApiLaws} `{BuildInfo} `{PodEnv} `{GoRuntime} `{!Env W}.
Context `{!ResourceClient W CStorVolumeConfig} `{!ResourceClient W CStorVolume}
  `{!ResourceClient W CStorVolumeReplica} `{!ResourceClient W CStorPoolInstance}
  `{!ResourceClient W Service} `{!ResourceClient W PodDisruptionBudget}
  `{!ResourceClient W Deployment} `{!ResourceClient W CStorVolumePolicy}
  `{!PatchClient W CStorVolumeConfig} `{!PatchClient W CStorVolume}.
Context (openebsNamespace : string).
Implicit Types (cvc claim : CStorVolumeConfig).

Lemma PatchCVCStatus_returns cvc cvc' : returns (PatchCVCStatus (W:=W) cvc cvc').
Proof. unfold PatchCVCStatus. returns_auto. Qed.
#[local] Hint Resolve PatchCVCStatus_returns : panics.
Lemma resizeCVC_returns cvc : returns (resizeCVC openebsNamespace cvc).
Proof. unfold resizeCVC, markCVCResizeFinished, markCVCResizeInProgress, resizeCV. returns_auto. Qed.
Lemma syncPolicySpec_returns cvc : returns (syncPolicySpec (W:=W) cvc).
Proof. unfold syncPolicySpec, patchTargetDeploymentSpec. returns_auto. Qed.

(** A disruption budget for no pool, or a listed budget without match expressions. *)
Definition budget_fault (pools : list string) (w : W) : Prop :=
  pools = [] ∨ ∃ sel l b, rList w openebsNamespace sel = OK l ∧ b ∈ l ∧ pdb_MatchExpressions b = [].

Lemma pool_labels_non_empty p pools : GetPDBPoolLabels (p :: pools) ≠ ∅.
Proof.
  unfold GetPDBPoolLabels. cbn [foldl]. generalize (insert_non_empty (∅ : gmap string string) ("openebs.io/" +:+ p) "true").
  generalize (<["openebs.io/" +:+ p := "true"]> (∅ : gmap string string)).
  induction pools as [|q pools IH]; intros m Hm; [done|]. cbn [foldl]. apply IH, insert_non_empty.
Qed.
Lemma GetPDBLabelSelector_panics pools why : GetPDBLabelSelector pools = Panic why → pools = [].
Proof.
  destruct pools as [|p pools]; [done|]. unfold GetPDBLabelSelector.
  set (l := go_range _ _). assert (l ≠ []) as Hl.
  { intros Hl. apply (pool_labels_non_empty p pools), map_to_list_empty_iff, Permutation_nil_r.
    rewrite <-Hl. symmetry. apply go_range_perm. }
  cbv zeta. rewrite selector_concat, selector_join by done. unfold slice_upto. cbn.
  rewrite length_app_string. cbn.
  destruct (Z.ltb_spec (Z.of_nat (String.length (join "," (selector_term <$> l)) + 1) - 1) 0); [lia|].
  destruct (Z.ltb_spec (Z.of_nat (String.length (join "," (selector_term <$> l)) + 1))
    (Z.of_nat (String.length (join "," (selector_term <$> l)) + 1) - 1)); [lia|done].
Qed.
Lemma find_pdb_panics pools l why :
  find_pdb pools l = Panic why → ∃ b, b ∈ l ∧ pdb_MatchExpressions b = [].
Proof.
  induction l as [|b l IH]; cbn; [done|]. destruct (pdb_MatchExpressions b) eqn:Hb.
  - intros _. exists b. split; [by left|done].
  - destruct (negb _); [done|]. intros (b' & Hin & Hb')%IH. exists b'. split; [by right|done].
Qed.
Lemma getOrCreatePDB_Panic cspcName pools w why w' :
  getOrCreatePodDisruptionBudget openebsNamespace cspcName pools w = (Panic why, w') →
  w' = w ∧ budget_fault pools w.
Proof.
  unfold getOrCreatePodDisruptionBudget.
  intros [[= Hs <-]|(sel & w1 & [= _ <-] & Hr)]%M_bind_Panic;
    [split; [done|left; by eapply GetPDBLabelSelector_panics]|].
  apply M_bind_Panic in Hr as [Hr|(l & w2 & [= Hl <-] & Hr)]; [done|].
  destruct l as [l|]; [|done].
  apply M_bind_Panic in Hr as [[= Hf <-]|(b & w3 & _ & Hr)];
    [|destruct b; [done|by apply panics_at_call with (P:=λ _, False) in Hr]].
  apply find_pdb_panics in Hf as (b & Hb & He). split; [done|]. right. by exists sel, l, b.
Qed.
Lemma getOrCreatePDB_panics cspcName pools :
  panics_at (budget_fault pools) (getOrCreatePodDisruptionBudget openebsNamespace cspcName pools).
Proof. intros w why w' Hr. by apply getOrCreatePDB_Panic in Hr as [-> ?]. Qed.
#[local] Hint Resolve getOrCreatePDB_panics : panics.

Lemma getUpdatePDB_panics cvc :
  panics_at (budget_fault (cvc_Status_PoolInfo cvc)) (getUpdatePDBForVolume openebsNamespace cvc).
Proof. unfold getUpdatePDBForVolume, deletePDBIfNotInUse. panics_auto. Qed.
Lemma updatePDB_panics cvc :
  panics_at (λ w, labels cvc = ∅ ∨ budget_fault (cvc_Status_PoolInfo cvc) w)
    (updatePDBForScaledVolume openebsNamespace cvc).
Proof.
  unfold updatePDBForScaledVolume. panics_auto.
  - eapply panics_at_weaken, getUpdatePDB_panics. by right.
  - apply panics_at_lift. intros w why. unfold relabel. repeat case_bool_decide; try done. by left.
Qed.

(** What a scaling to these pools panics on: besides the above, a configuration without labels. *)
Definition scale_fault cvc (pools : list string) (w : W) : Prop := labels cvc = ∅ ∨ budget_fault pools w.

Lemma scaleDown_panics cvc :
  panics_at (λ w, removed_pools_of cvc = [] ∨ scale_fault cvc (cvc_Policy_ReplicaPoolInfo cvc) w)
    (scaleDownVolumeReplicas openebsNamespace cvc).
Proof.
  unfold scaleDownVolumeReplicas, updateCStorVolumeInfo, finish_scale_down. panics_auto.
  - apply panics_at_lift. intros w why. unfold getScaleDownCVR. rewrite desired_pool_names, ListDiff_spec.
    fold (removed_pools_of cvc). destruct (removed_pools_of cvc) eqn:Hr; [by left|done].
  - eapply panics_at_weaken, updatePDB_panics. intros w Hw. right. rewrite desired_pool_names in Hw. exact Hw.
Qed.

(** A clone whose source names no snapshot. *)
Definition source_fault cvc : Prop :=
  cvc_CStorVolumeSource cvc ≠ "" ∧ ∃ v, split_on "@"%char (cvc_CStorVolumeSource cvc) = [v].

Lemma source_panics cvc (P : W → Prop) :
  (∀ w, source_fault cvc → P w) →
  panics_at P (if negb (bool_decide (cvc_CStorVolumeSource cvc = "")) then lift (λ _, getSrcDetails (cvc_CStorVolumeSource cvc))
               else mret (OK ("", ""))).
Proof.
  intros HP. case_bool_decide as Hs; cbn; [done|]. apply panics_at_lift. intros w why. unfold getSrcDetails.
  destruct (split_on _ _) as [|v [|]] eqn:Hv; try done. intros _. apply HP. split; [done|by exists v].
Qed.
Lemma createCVR_panics service volume claim pool rInfo :
  panics_at (λ _, source_fault claim) (createCVR (W:=W) openebsNamespace service volume claim pool rInfo).
Proof. unfold createCVR. apply panics_at_bind; [by apply source_panics|panics_auto]. Qed.

Lemma scaleUp_panics cvc :
  panics_at (λ w, source_fault cvc ∨ scale_fault cvc (cvc_Status_PoolInfo cvc ++ added_pools_of cvc) w)
    (scaleUpVolumeReplicas openebsNamespace cvc).
Proof.
  unfold scaleUpVolumeReplicas, updateCStorVolumeInfo, handleVolumeReplicaCreation, create_on_pool,
    updateCVCWithScaledUpInfo. panics_auto.
  - eapply panics_at_weaken, createCVR_panics. by left.
  - eapply panics_at_weaken, updatePDB_panics. intros w Hw. right.
    rewrite desired_pool_names, ListDiff_spec in Hw. exact Hw.
Qed.

(** What provisioning panics on: replicas that cannot be listed are a nil list of pools. *)
Definition replicas_unlisted (w : W) : Prop := ∃ pv e,
  rList (Obj:=CStorVolumeReplica) w openebsNamespace (pvSelector +:+ "=" +:+ pv) = Err e.

Lemma create_replicas_panics pending count service volume claim rInfo pools :
  panics_at (λ _, source_fault claim) (create_replicas (W:=W) openebsNamespace pending count service volume claim rInfo pools).
Proof.
  revert count. induction pools as [|pool pools IH]; intros count; cbn [create_replicas]; [done|].
  panics_auto. apply createCVR_panics.
Qed.
Lemma distribute_over_panics pending claim service volume policy rInfo cspcName l :
  panics_at (λ _, source_fault claim)
    (distribute_over (W:=W) openebsNamespace pending claim service volume policy rInfo cspcName (Some l)).
Proof.
  unfold distribute_over. panics_auto; [|apply create_replicas_panics].
  apply panics_at_lift. intros w why. destruct (randomize_permutation
    (rand_Perm (Now w) (length (sanitizePoolList l))) (sanitizePoolList l)) as (l' & -> & _); [apply rand_Perm_spec|done].
Qed.
Lemma distribute_usable_panics pending claim service volume policy rInfo cspcName (u : W → option (list CStorPoolInstance)) :
  (∀ w, u w = None → replicas_unlisted w) →
  panics_at (λ w, source_fault claim ∨ replicas_unlisted w)
    (let* u := reads u in distribute_over openebsNamespace pending claim service volume policy rInfo cspcName u).
Proof.
  intros Hu. apply panics_at_reads_bind. intros w why w' Hr. destruct (u w) as [l|] eqn:Hw.
  - left. by eapply distribute_over_panics.
  - right. injection Hr as _ <-. by apply Hu.
Qed.
Lemma distributeCVRs_panics pending claim service volume policy :
  panics_at (λ w, source_fault claim ∨ replicas_unlisted w)
    (distributeCVRs openebsNamespace pending claim service volume policy).
Proof.
  unfold distributeCVRs. cbv zeta. case_bool_decide; [done|]. apply panics_at_bind; [done|]. intros [pools|]; [|done].
  destruct (_ && _); [done|]. destruct (negb _) eqn:Hs.
  - apply panics_at_bind.
    + pose proof (source_panics claim (λ w, source_fault claim ∨ replicas_unlisted w)) as Hp. rewrite Hs in Hp.
      apply Hp. by left.
    + intros [[src snap]|]; [|done]. apply distribute_usable_panics. intros w. unfold getUsablePoolListForClone.
      destruct (rList w openebsNamespace (pvSelector +:+ "=" +:+ name volume)) eqn:H1'; [|by eexists _, _].
      destruct (rList w openebsNamespace (pvSelector +:+ "=" +:+ src)) eqn:H2'; [done|by eexists _, _].
  - apply distribute_usable_panics. intros w. unfold getUsablePoolList.
    destruct (rList w openebsNamespace (pvSelector +:+ "=" +:+ name volume)) eqn:H1'; [done|by eexists _, _].
Qed.

Definition provision_fault cvc (w : W) : Prop :=
  source_fault cvc ∨ replicas_unlisted w ∨
  ∃ pools, GetVolumeReplicaPoolNames w (name cvc) openebsNamespace = OK pools ∧ budget_fault pools w.

Lemma bind_volume_panics cvc cvObj policy :
  panics_at (provision_fault cvc) (bind_volume openebsNamespace cvc cvObj policy).
Proof.
  unfold bind_volume. apply panics_at_reads_bind. intros w why w'.
  destruct (GetVolumeReplicaPoolNames w _ _) as [pools|] eqn:Hp; [|done].
  intros [Hr|(h & w1 & _ & Hr)]%M_bind_Panic.
  - destruct (isHAVolume cvc); [|done]. apply M_bind_Panic in Hr as [Hr|(b & w1 & _ & Hr)]; [|by destruct b].
    apply getOrCreatePDB_Panic in Hr as [-> Hb]. right. right. by exists pools.
  - destruct h as [cvc'|]; [|done]. destruct (GetReference cvObj); [|done].
    refine (False_ind _ ((_ : panics_at (λ _, False) _) _ _ _ Hr)). unfold updateCVCObj. panics_auto.
Qed.
#[local] Hint Resolve bind_volume_panics : panics.
Lemma createVolume_panics cvc :
  panics_at (provision_fault cvc) (createVolumeOperation openebsNamespace cvc).
Proof.
  unfold createVolumeOperation, getOrCreateTargetService, getOrCreateCStorVolumeResource,
    getOrCreateCStorTargetDeployment, distributePendingCVRs. cbv zeta.
  apply panics_at_bind; [done|]. intros [policy|]; [|done]. apply panics_at_bind; [panics_auto|].
  intros [svc|]; [|done]. apply panics_at_bind.
  { apply panics_at_bind; [apply source_panics; by left|panics_auto]. }
  panics_auto. eapply panics_at_weaken, distributeCVRs_panics. unfold provision_fault. tauto.
Qed.
End volumes.

(** ** The volume manager *)

Section target.
Context {W : Type} `{OpenebsApi} `{VolumeApi} `{PoolApi} `{TargetApi} `{PodEnv} `{GoRuntime} `{BuildInfo}.
Context `{!Env W} `{!Target W} `{!ResourceClient W CStorVolume} `{!ResourceClient W Event_}.

(** The mutex of the configuration file is released by the code that takes it, so the handlers
    that find it free return. *)
Lemma locked_call `{!TargetLaws W} {A} (f : W → A * W) (w : W) :
  ConfFileLocked (tglobals w) = false → (∀ w, tglobals (f w).2 = tglobals w) →
  ∃ wl wu, ConfFile_Lock w = (Ret tt, wl) ∧ ConfFile_Unlock (f wl).2 = (Ret tt, wu).
Proof.
  intros Hl Hf. unfold ConfFile_Lock, ConfFile_Unlock, mbind, M_bind, reads, set_tglobals. rewrite Hl.
  eexists _, _. split; [done|]. rewrite Hf, tglobals_with. cbn. done.
Qed.
Lemma ResizeTargetVolume_returns `{!TargetLaws W} cv (w : W) :
  ConfFileLocked (tglobals w) = false → ∃ err w', ResizeTargetVolume cv w = (Ret err, w').
Proof.
  intros Hl. unfold ResizeTargetVolume, mbind, M_bind, call.
  pose proof (SendCommand_tglobals (getResizeCommand cv) w) as Hg.
  destruct (SendCommand _ w) as [[resp|e] w1]; cbn in Hg; [|by eexists _, _].
  destruct (rejected resp); [by eexists _, _|]. cbv zeta.
  match goal with |- context [file_Updatefile ?p ?v ?k] => destruct (locked_call (file_Updatefile p v k) w1) as (wl & wu & -> & Hu) end;
    [by rewrite Hg|intros; apply Updatefile_tglobals|].
  destruct (file_Updatefile _ _ _ wl) as [[err|] wf]; cbn in Hu; rewrite Hu; by eexists _, _.
Qed.
Lemma resizeCStorVolume_returns `{!TargetLaws W} error_Error cv (w : W) :
  ConfFileLocked (tglobals w) = false → ∃ r w', resizeCStorVolume error_Error cv w = (Ret r, w').
Proof.
  intros Hl. unfold resizeCStorVolume. destruct (ResizeTargetVolume_returns cv w Hl) as (err & w1 & Hr).
  unfold mbind at 1, M_bind at 1. rewrite Hr. cbv zeta. clear Hr. revert w1.
  match goal with |- ∀ w1, ∃ r w', ?m w1 = _ => change (returns m) end.
  unfold cv_event. returns_auto.
Qed.
Lemma lower_factors_returns `{!TargetLaws W} cv id (w : W) :
  ConfFileLocked (tglobals w) = false → ∃ r w', lower_factors cv id w = (Ret r, w').
Proof.
  intros Hl. unfold lower_factors. destruct (_ <? _)%Z; [|by eexists _, _]. cbv zeta.
  unfold mbind, M_bind, call.
  match goal with |- context [file_UpdateOrAppendMultipleLines ?p ?m] => destruct (locked_call (file_UpdateOrAppendMultipleLines p m) w) as (wl & wu & -> & Hu) end;
    [done|intros; apply MultipleLines_tglobals|].
  destruct (file_UpdateOrAppendMultipleLines _ _ wl) as [[err|] wf]; cbn in Hu; rewrite Hu; [by eexists _, _|].
  destruct (rUpdate _ _ wu). by eexists _, _.
Qed.
Lemma scale_down_returns `{!TargetLaws W} cv (w : W) s w1 :
  ConfFileLocked (tglobals w) = false → GetVolumeStatus w = (Ret s, w1) →
  ∃ r w', triggerScaleDownProcess cv w = (Ret r, w').
Proof.
  intros Hl Hs. assert (tglobals w1 = tglobals w) as Hg.
  { revert Hs. unfold GetVolumeStatus, mbind, M_bind, call. pose proof (SendCommand_tglobals IstgtReplicaCmd w) as Hc.
    destruct (SendCommand _ w) as [[l|e] w2]; cbn in *; [|by intros [= _ <-]]. unfold lift, mret, M_ret.
    repeat case_match; try done; intros; simplify_eq; done. }
  unfold triggerScaleDownProcess. unfold mbind at 1, M_bind at 1. rewrite Hs. destruct s as [st|]; [|by eexists _, _].
  do 3 (case_match; [by eexists _, _|]).
  destruct (lower_factors_returns cv (GetRemovingReplicaID cv) w1) as (r & w2 & Hr); [by rewrite Hg|].
  unfold mbind at 1, M_bind at 1. rewrite Hr. destruct r as [cv1|]; [|by eexists _, _].
  assert (returns (W:=W) (drop_replica cv1)) as Hd; [|apply Hd].
  unfold drop_replica, ExecuteDesiredReplicationFactorCommand. returns_auto.
Qed.
End target.
