(* ===== verification/DistributionFacts.v ===== *)
(** * DistributionFacts: when the replicas of a volume cannot be distributed

    The converse of [VolumeOps.distribute_spec]: a distribution that fails has a cause, and it is
    short of pools only when there are fewer eligible pools than pending replicas. *)

From stdpp Require Import base gmap strings list sets.
From Stdlib Require Import Ascii ZArith Lia.
From S2P Require Import Prelude Returns Api VolumeApi Version TargetDeploy VolumeOps VolumeSync ReturnFacts.

Section distribution.
Context {W : Type} `{OpenebsApi} `{VolumeApiLaws} `{BuildInfo} `{PodEnv} `{GoRuntime} `{!Env W}.
Context `{!ResourceClient W CStorVolumeConfig} `{!ResourceClient W CStorVolume}
  `{!ResourceClient W CStorVolumeReplica} `{!ResourceClient W CStorPoolInstance}
  `{!ResourceClient W Service} `{!ResourceClient W PodDisruptionBudget}.
Context (openebsNamespace : string).
Implicit Types (w : W) (claim : CStorVolumeConfig) (volume : CStorVolume) (policy : CStorVolumePolicy).

Lemma usable_complete w claim volume l usable pool :
  usable_list openebsNamespace w claim volume l usable → pool ∈ l →
  ¬ holds_replica openebsNamespace w (name volume) (name pool) →
  (cvc_CStorVolumeSource claim ≠ "" → ∃ src snap,
     getSrcDetails (cvc_CStorVolumeSource claim) = Ret (OK (src, snap)) ∧
     holds_replica openebsNamespace w src (name pool)) → pool ∈ usable.
Proof.
  unfold usable_list, getUsablePoolList, getUsablePoolListForClone, holds_replica. intros Hu Hin Hfree Hclone.
  case_bool_decide as Hs.
  - destruct (rList w _ _) as [cvrs|e] eqn:Hl; [|done]. injection Hu as <-.
    apply list_elem_of_filter. split; [|done]. rewrite pool_map_spec. naive_solver.
  - destruct Hu as (src & snap & Hsrc & Hu). destruct (Hclone Hs) as (src' & snap' & Hsrc' & Hn & cvrs' & r & Hl' & Hr).
    rewrite Hsrc in Hsrc'. injection Hsrc' as <- <-.
    destruct (rList w _ (_ +:+ _ +:+ name volume)) as [cvrs|e] eqn:Hl; [|done].
    rewrite Hl' in Hu. injection Hu as <-. apply list_elem_of_filter. rewrite !pool_map_spec. naive_solver.
Qed.
Lemma candidates_complete w claim policy l l0 pool :
  candidates openebsNamespace w claim policy l → listCStorPools openebsNamespace w (getCSPC claim) = OK l0 →
  NoDup (name <$> l0) → pool ∈ l0 →
  (pol_ReplicaPoolInfo (policy_Spec policy) ≠ [] → name pool ∈ pol_ReplicaPoolInfo (policy_Spec policy)) → pool ∈ l.
Proof.
  intros (l1 & Hl1 & ->) Hl0 Hnd Hin Hpol. rewrite Hl0 in Hl1. injection Hl1 as <-.
  case_bool_decide as Hi; [done|]. unfold getPolicyBasedPoolList. apply list_elem_of_omap.
  exists (name pool). split; [by apply Hpol|].
  destruct (first_such (λ p, bool_decide (name p = name pool)) l0) as [p|] eqn:Hf.
  - apply first_such_Some in Hf as [Hp Hn%bool_decide_eq_true]. f_equal.
    apply list_elem_of_lookup in Hp as [i Hi']. apply list_elem_of_lookup in Hin as [j Hj].
    assert (i = j) as ->; [|congruence].
    eapply NoDup_lookup; [exact Hnd| |]; rewrite list_lookup_fmap; [by rewrite Hi'|rewrite Hj; cbn; by f_equal].
  - rewrite first_such_None in Hf. specialize (Hf pool Hin). by rewrite bool_decide_true in Hf.
Qed.

(** What stops a distribution. *)
Definition shortage w claim volume policy (pending : Z) : Prop :=
  ∀ l0, listCStorPools openebsNamespace w (getCSPC claim) = OK l0 → NoDup (name <$> l0) →
  ∃ l, (∀ pool, eligible openebsNamespace w claim volume policy pool → pool ∈ l) ∧ (Z.of_nat (length l) < pending)%Z.
Definition creation_refused w claim service volume (pending : Z) e w' : Prop :=
  ∃ l0 chosen pool rInfo w0 w1, listCStorPools openebsNamespace w (getCSPC claim) = OK l0 ∧
    pool ∈ l0 ∧ (Z.of_nat (length chosen) < pending)%Z ∧ (w0 = w ∨ ∃ ev, w0 = Event ev w) ∧
    all_placed openebsNamespace volume rInfo chosen w0 w1 ∧
    createCVR openebsNamespace service volume claim pool rInfo w1 = (Ret (Err e), w').
Definition distribution_failed w claim service volume policy (pending : Z) e w' : Prop :=
  getCSPC claim = "" ∨ listCStorPools openebsNamespace w (getCSPC claim) = Err e ∨
  (pol_ReplicaPoolInfo (policy_Spec policy) ≠ [] ∧
   Z.of_nat (length (pol_ReplicaPoolInfo (policy_Spec policy))) ≠ cvc_Provision_ReplicaCount claim) ∨
  shortage w claim volume policy pending ∨ creation_refused w claim service volume pending e w'.

Lemma create_replicas_Err pending count service volume claim rInfo pools w e w' :
  create_replicas openebsNamespace pending count service volume claim rInfo pools w = (Ret (Err e), w') →
  ∃ chosen pool w1, pool ∈ pools ∧ (count + Z.of_nat (length chosen) < pending)%Z ∧
    all_placed openebsNamespace volume rInfo chosen w w1 ∧
    createCVR openebsNamespace service volume claim pool rInfo w1 = (Ret (Err e), w').
Proof.
  revert count w. induction pools as [|pool pools IH]; intros count w; cbn [create_replicas]; [by intros [[=] _]%mret_run|].
  destruct (Z.ltb_spec count pending); [|by intros [[=] _]%mret_run].
  intros (r & w1 & Hc & Hr)%M_bind_Ret. destruct r as [cvr|e'].
  - apply createCVR_OK in Hc. apply IH in Hr as (chosen & p & wa & Hp & Hlt & Hall & Hr). exists (pool :: chosen), p, wa.
    split_and!; [by right|cbn; lia|by econstructor|done].
  - apply mret_run in Hr as [[= ->] ->]. exists [], pool, w. split_and!; [by left|cbn; lia|constructor|done].
Qed.
Lemma distribute_over_Err pending claim service volume policy rInfo cspc usable w e w' :
  distribute_over openebsNamespace pending claim service volume policy rInfo cspc (Some usable) w = (Ret (Err e), w') →
  (Z.of_nat (length (sanitizePoolList usable)) < pending)%Z ∨
  ∃ chosen pool w0 w1, pool ∈ usable ∧ (Z.of_nat (length chosen) < pending)%Z ∧ (w0 = w ∨ ∃ ev, w0 = Event ev w) ∧
    all_placed openebsNamespace volume rInfo chosen w0 w1 ∧
    createCVR openebsNamespace service volume claim pool rInfo w1 = (Ret (Err e), w').
Proof.
  unfold distribute_over. intros (l1 & w1 & Hp & Hr)%M_bind_Ret. unfold lift in Hp. injection Hp as Hp <-.
  destruct (randomize_permutation (rand_Perm (Now w) (length (sanitizePoolList usable)))
    (sanitizePoolList usable)) as (l1' & Hl & Hperm); [apply rand_Perm_spec|].
  rewrite Hl in Hp. injection Hp as <-. apply M_bind_Ret in Hr as (l2 & w2 & Ha & Hr).
  assert (l2 ≡ₚ sanitizePoolList usable ∧ (w2 = w ∨ ∃ ev, w2 = Event ev w)) as [Hl2 Hw2].
  { destruct (isReplicaAffinityEnabled _).
    - apply M_bind_Ret in Ha as (? & w3 & He & [[= ->] ->]%mret_run).
      unfold emit in He. injection He as <-. split; [by rewrite prioritized_permutation|eauto].
    - apply mret_run in Ha as [[= ->] ->]. auto. }
  destruct (Z.ltb_spec (Z.of_nat (length l2)) pending) as [Hlt|_]; [left; by rewrite <-Hl2|]. right.
  apply create_replicas_Err in Hr as (chosen & pool & wa & Hin & Hlt & Hall & Hr).
  exists chosen, pool, w2, wa. split_and!; try done.
  rewrite Hl2 in Hin. by apply list_elem_of_filter in Hin as [_ ?].
Qed.
Lemma distributed_short w claim service volume policy pending rInfo l l0 usable cspc e w' :
  listCStorPools openebsNamespace w (getCSPC claim) = OK l0 → candidates openebsNamespace w claim policy l →
  usable_list openebsNamespace w claim volume l usable →
  distribute_over openebsNamespace pending claim service volume policy rInfo cspc (Some usable) w = (Ret (Err e), w') →
  distribution_failed w claim service volume policy pending e w'.
Proof.
  intros Hl0 Hc Hu [Hlt|(chosen & pool & w0 & w1 & Hin & Hr)]%distribute_over_Err; right; right; right; [left|right].
  - intros l1 Hl1 Hnd. exists (sanitizePoolList usable). split; [|done]. intros pool [(l2 & Hl2 & Hp) [Ho Hro] Hf Hpol Hcl].
    rewrite Hl1 in Hl2. injection Hl2 as <-. apply list_elem_of_filter. split; [intros [?|Hr]; [done|congruence]|].
    eapply usable_complete; [done|by eapply candidates_complete|done|done].
  - exists l0, chosen, pool, rInfo, w0, w1. split; [done|]. split; [|done].
    destruct (candidates_spec _ _ _ _ _ Hc) as (l1 & Hl1 & Hsub & _). rewrite Hl0 in Hl1. injection Hl1 as <-.
    apply Hsub. destruct (usable_list_spec _ _ _ _ _ _ Hu) as [Hsl _]. by eapply elem_of_sublist.
Qed.
Lemma distribute_fails pending claim service volume policy w e w' :
  distributeCVRs openebsNamespace pending claim service volume policy w = (Ret (Err e), w') →
  distribution_failed w claim service volume policy pending e w'.
Proof.
  unfold distributeCVRs. case_bool_decide as Hc; [by left|]. set (rInfo := Build_replicaInfo _ _ _). cbv zeta.
  unfold mbind at 1, M_bind at 1, reads.
  destruct (listCStorPools _ w _) as [l0|e0] eqn:Hl; [|intros [[= ->] _]%mret_run; right; by left].
  destruct (negb (bool_decide _) && negb _) eqn:Hn.
  { intros _. right. right. left. apply andb_true_iff in Hn as [Hn1 Hn2].
    apply negb_true_iff, bool_decide_eq_false in Hn1. apply negb_true_iff, Z.eqb_neq in Hn2. done. }
  set (l := if bool_decide _ then l0 else _). assert (candidates openebsNamespace w claim policy l) as Hcand by (by exists l0).
  destruct (bool_decide_reflect (cvc_CStorVolumeSource claim = "")) as [Hs|Hs]; cbn [negb].
  - unfold mbind, M_bind, reads. destruct (getUsablePoolList _ w _ l) as [usable|] eqn:Hu; [|done].
    eapply distributed_short; [done..|]. unfold usable_list. by rewrite bool_decide_true.
  - intros (src & w1 & Hsrc & Hr)%M_bind_Ret. unfold lift in Hsrc. injection Hsrc as Hsrc <-.
    destruct src as [[src snap]|e1].
    + unfold mbind, M_bind, reads in Hr. destruct (getUsablePoolListForClone _ w _ src l) as [usable|] eqn:Hu; [|done].
      eapply distributed_short; [done..| |exact Hr]. unfold usable_list. rewrite bool_decide_false by done. eauto.
    + unfold getSrcDetails in Hsrc. destruct (split_on_cons "@"%char (cvc_CStorVolumeSource claim)) as (h & t & Hsp).
      rewrite Hsp in Hsrc. by destruct t.
Qed.
End distribution.
