(* ===== verification/Fixtures.v ===== *)
(** * Fixtures: small clusters on which the operators are run

    Two nodes with three block devices each, a cluster of two mirrored pools on the
    first devices of both nodes, and its pool instances; used to instantiate the
    hypotheses of the properties. *)

From stdpp Require Import base gmap strings list sets.
From Stdlib Require Import Ascii ZArith Lia.
From S2P Require Import Prelude Api Memory Version Algorithm.

Definition ns0 : string := "openebs".

Definition meta_of (n u : string) (l : list (string * string)) : ObjectMeta :=
  {| om_name := n; om_namespace := ns0; om_uid := u; om_resourceVersion := "1";
     om_labels := list_to_map l; om_annotations := ∅; om_finalizers := []; om_owners := [];
     om_deletion := None |}.

Definition node_of (n host : string) : Node :=
  {| node_meta := meta_of n n [("kubernetes.io/hostname", host)];
     node_Conditions := [("Ready", "True")] |}.

(** A device of 10 GiB, claimed by the claim of that name when there is one. *)
Definition device_of (n host : string) (claim : option string) : BlockDevice :=
  {| bd_meta := meta_of n n [("kubernetes.io/hostname", host)];
     bd_State := "Active";
     bd_ClaimState := match claim with Some _ => "Claimed" | None => "Unclaimed" end;
     bd_ClaimRef := claim; bd_Storage := 10 * 2 ^ 30; bd_FSType := "";
     bd_DevLinks := [("by-id", ["/dev/disk/by-id/" +:+ n])]; bd_Path := "/dev/" +:+ n |}.

Definition claim_of (bd cspc : string) : BlockDeviceClaim :=
  {| bdc_meta := meta_with_finalizers ["cstorpoolcluster.openebs.io/finalizer"]
       (meta_of ("bdc-cstor-" +:+ bd) ("c-" +:+ bd) [("openebs.io/cstor-pool-cluster", cspc)]);
     bdc_BlockDeviceName := bd; bdc_HostName := ""; bdc_Capacity := 10 * 2 ^ 30;
     bdc_Selector := None |}.

Definition config_of (t : string) : PoolConfig :=
  {| DataRaidGroupType := t; WriteCacheGroupType := ""; ThickProvision := false;
     Compression := "off"; Resources := None; AuxResources := None; Tolerations := None;
     PriorityClassName := None; ROThresholdLimit := None |}.

Definition bd_of (n : string) : CStorPoolInstanceBlockDevice :=
  {| BlockDeviceName := n; bd_Capacity := 0; DevLink := "" |}.
Definition group_of (l : list string) : RaidGroup :=
  {| CStorPoolInstanceBlockDevices := bd_of <$> l |}.

Definition pool_on (host t : string) (groups : list (list string)) : PoolSpec :=
  {| NodeSelector := {["kubernetes.io/hostname" := host]};
     DataRaidGroups := group_of <$> groups; WriteCacheRaidGroups := [];
     ps_PoolConfig := config_of t |}.

Definition spec_of (pools : list PoolSpec) : CStorPoolClusterSpec :=
  {| Pools := pools; DefaultResources := None; DefaultAuxResources := None;
     spec_Tolerations := None; DefaultPriorityClassName := "" |}.

Definition cspc_of (n v : string) (pools : list PoolSpec) : CStorPoolCluster :=
  {| cspc_meta := meta_with_finalizers ["cstorpoolcluster.openebs.io/finalizer"]
       (meta_of n ("u-" +:+ n) []);
     cspc_Spec := spec_of pools; cspc_Status := cspc_Status cspc_zero;
     cspc_VersionDetails := version_at v |}.

Definition cspi_of (n cspc host t : string) (groups : list (list string)) : CStorPoolInstance :=
  {| cspi_meta := meta_with_finalizers ["cstorpoolcluster.openebs.io/finalizer"]
       (meta_of n ("u-" +:+ n)
          [("openebs.io/cstor-pool-cluster", cspc); ("kubernetes.io/hostname", host)]);
     cspi_Spec := {| cspi_HostName := host;
                     cspi_NodeSelector := {["kubernetes.io/hostname" := host]};
                     cspi_PoolConfig := config_of t;
                     cspi_DataRaidGroups := group_of <$> groups; cspi_WriteCacheRaidGroups := [] |};
     cspi_Status := cspi_status_of "ONLINE" false; cspi_VersionDetails := version_at "3.0.0" |}.

Definition store {Obj} `{HasMeta Obj} (l : list Obj) : gmap (string * string) Obj :=
  list_to_map ((λ o, ((ns0, name o), o)) <$> l).

(** ** The cluster "c1": mirrors on n1 and n2 *)

Definition pool1 : PoolSpec := pool_on "n1" "mirror" [["a1"; "a2"]].
Definition pool2 : PoolSpec := pool_on "n2" "mirror" [["b1"; "b2"]].
Definition c1 : CStorPoolCluster := cspc_of "c1" "3.0.0" [pool1; pool2].

Definition nodes2 : gmap (string * string) Node :=
  store [node_of "n1" "n1"; node_of "n2" "n2"].

Definition devices (claimed : list string) : gmap (string * string) BlockDevice :=
  store ((λ '(n, host), device_of n host
            (if bool_decide (n ∈ claimed) then Some ("bdc-cstor-" +:+ n) else None)) <$>
         [("a1", "n1"); ("a2", "n1"); ("a3", "n1"); ("a4", "n1");
          ("b1", "n2"); ("b2", "n2"); ("b3", "n2")]).

Definition with_devices (claimed : list string) (cspcs : list CStorPoolCluster)
  (cspis : list CStorPoolInstance) (cvrs : list CStorVolumeReplica) : cluster :=
  {| c_nodes := nodes2; c_bds := devices claimed;
     c_bdcs := store ((λ n, claim_of n "c1") <$> claimed);
     c_cspcs := store cspcs; c_cspis := store cspis; c_cvrs := store cvrs;
     c_deploys := ∅; c_clock := 7; c_seed := 0; c_events := [] |}.

(** Before the cluster is created, and with both pools provisioned. *)
Definition w_empty : cluster := with_devices [] [] [] [].
Definition w_pools : cluster :=
  with_devices ["a1"; "a2"; "b1"; "b2"] [c1]
    [cspi_of "p1" "c1" "n1" "mirror" [["a1"; "a2"]];
     cspi_of "p2" "c1" "n2" "mirror" [["b1"; "b2"]]] [].

#[export] Instance build_3_0_0 : BuildInfo :=
  {| bi_Version := "3.0.0"; bi_VersionFile := OK "3.0.0"; bi_GitCommit := "0123456789";
     bi_GitOutput := OK "" |}.

(** ** The value and the world of a run *)

Definition run {W A} (m : M W A) (w : W) (a : A) : Prop := m w = (Ret a, final m w).

Lemma run_ok {W A} (m : M W A) (w : W) (a : A) : value m w = Ret a → run m w a.
Proof. unfold run, value, final. destruct (m w) as [o w']. cbn. by intros ->. Defined.

(** What holds of a computation in either case, of a run that returns. *)
Lemma run_returned {W A} (m : M W A) (w : W) (a : A) (P : A → W → Prop) (Q : W → Prop) :
  match m w with (Ret a, w') => P a w' | (Panic _, w') => Q w' end →
  value m w = Ret a → P a (final m w).
Proof. intros Hm Hv. by rewrite (run_ok m w a Hv) in Hm. Defined.
