(* ===== verification/AdmissionProps.v ===== *)
(** * AdmissionProps: what the admission webhook guarantees

    The properties of the CStorPoolCluster webhook, each with a run on a cluster of
    [Fixtures] where its hypotheses hold. *)

From stdpp Require Import base gmap strings list sets pretty.
From Stdlib Require Import Ascii ZArith Lia.
From S2P Require Import Prelude Api Memory Webhook PoolOps Fixtures.

Section admission.
Context {W : Type} `{GoRuntime} `{OpenebsApi}.
Context `{!ResourceClient W Node} `{!ResourceClient W BlockDevice}
  `{!ResourceClient W BlockDeviceClaim} `{!ResourceClient W CStorPoolInstance}
  `{!ResourceClient W CStorPoolCluster} `{!ResourceClient W CStorVolumeReplica}.
Implicit Types (w : W) (ns : string) (req : AdmissionRequest).

(** A delete request goes on while the pool instances carry no replica. *)
Lemma delete_pools_allowed w cspcName cspis :
  Allowed (validateCSPCDelete_pools w cspcName cspis) = true ↔
  Forall (λ c, rList (Obj:=CStorVolumeReplica) w ""
                 ("cstorpoolinstance.openebs.io/name=" +:+ name c) = OK []) cspis.
Proof.
  induction cspis as [|c cspis IH]; cbn [validateCSPCDelete_pools]; [split; [constructor|done]|].
  rewrite Forall_cons. destruct (rList w _ _) as [[|r l]|e]; cbn; [|both_false..].
  rewrite IH. naive_solver.
Qed.

(** C1: a create request for a cluster whose pools all have a node selector is
    always answered, and it is allowed exactly when the cluster is well formed:
    distinct nodes, no device twice, raid groups of admissible sizes, and devices
    that are active, on the node of their pool and not claimed by another cluster. *)
Theorem create_admission_exact w ns req cspc :
  req_object req = OK cspc → Forall (λ p, NodeSelector p ≠ ∅) (Pools (cspc_Spec cspc)) →
  ∃ resp, validateCSPCCreateRequest w ns req = Ret resp ∧
    (Allowed resp = true ↔ cspc_ok w ns cspc).
Proof.
  intros Hreq Hsel. unfold validateCSPCCreateRequest. rewrite Hreq.
  destruct (cspcValidation_ret w ns cspc Hsel) as [v Hv].
  pose proof (cspcValidation_Valid w ns cspc) as He. rewrite Hv in *. cbn.
  destruct v; eexists; (split; [done|]); rewrite <- He; by split.
Qed.

(** C2: when an update of a cluster is allowed and the stored cluster names no
    device twice, the specification is unchanged, or the new one is well formed,
    every pool that is gone carries no volume replica, and every pool matched with
    its old specification keeps its raid types and all its groups, where a striped
    group only gains devices and any other group changes at most one device, for
    one that was not in use. *)
Theorem update_admission_safe ns req cspcNew w w' resp :
  req_object req = OK cspcNew →
  validateCSPCUpdateRequest ns req w = (Ret resp, w') → Allowed resp = true →
  ∃ cspcOld, rGet w (namespace cspcNew) (name cspcNew) = OK cspcOld ∧
    (NoDup (cluster_bds (Pools (cspc_Spec cspcOld))) →
     cspc_Spec cspcNew = cspc_Spec cspcOld ∨ update_safe w ns cspcOld cspcNew).
Proof. apply update_admitted. Qed.

(** A delete request is allowed exactly when the pool instances of the cluster
    can be listed and the volume replicas of each of them are listed as none. *)
Theorem delete_admission_exact w req :
  Allowed (validateCSPCDeleteRequest w req) = true ↔
  ∃ cspis, rList (Obj:=CStorPoolInstance) w (req_namespace req)
             (CStorPoolClusterLabelKey +:+ "=" +:+ req_name req) = OK cspis ∧
    Forall (λ c, rList (Obj:=CStorVolumeReplica) w ""
                   ("cstorpoolinstance.openebs.io/name=" +:+ name c) = OK []) cspis.
Proof.
  unfold validateCSPCDeleteRequest. destruct (rList w (req_namespace req) _) as [cspis|e].
  - rewrite delete_pools_allowed. naive_solver.
  - split; [done|]. intros (? & ? & _). done.
Qed.

(** C22: when the runtime visits the data groups before the write-cache groups, the
    check of an expansion only looks at the devices of the new write-cache groups:
    the devices of new data groups are not checked against other clusters. *)
Theorem expansion_check_dropped w pOps newP m d wc :
  go_range "validatePoolExpansion" m = [(dataRG, d); (writeCacheRG, wc)] →
  rgType d ≠ PoolStriped → rgType wc ≠ PoolStriped →
  validatePoolExpansion w pOps newP m =
  Ret (validateNewBDs w pOps
         (getBDsFromRaidGroups
            (getExpandedRaidGroups (WriteCacheRaidGroups newP) (oldRaidGroups wc)))
         (OldCSPC pOps)).
Proof. apply expansion_data_dropped. Qed.

End admission.

(** On every 64-bit capacity the conversion returns; below 1024 it prints the
    bytes, and otherwise the largest unit of K, M, G, T, P and E that is not larger
    than the capacity, with the number of whole units, which is below 1024. *)
Theorem byte_count_units b :
  (0 ≤ b < 2 ^ 64)%Z →
  if decide (b < byte_unit)%Z then ByteCount b = Ret (pretty b +:+ "B")
  else ∃ j c, bytes "KMGTPE" !! j = Some c ∧
    ByteCount b = Ret (pretty (b / byte_unit ^ (Z.of_nat j + 1))%Z +:+ String c "") ∧
    (1 ≤ b / byte_unit ^ (Z.of_nat j + 1) < byte_unit)%Z.
Proof. apply ByteCount_value. Qed.

(** ** Runs *)

Definition request (op : operation) (cspc : CStorPoolCluster) : AdmissionRequest :=
  {| req_operation := op; req_name := name cspc; req_namespace := ns0; req_object := OK cspc |}.

Definition c1_selectors : Forall (λ p, NodeSelector p ≠ ∅) (Pools (cspc_Spec c1)).
Proof. apply (bool_decide_unpack _). vm_compute. exact I. Defined.

Lemma create_admission_witness :
  ∃ resp, validateCSPCCreateRequest w_empty ns0 (request Create c1) = Ret resp ∧
    (Allowed resp = true ↔ cspc_ok w_empty ns0 c1).
Proof. apply create_admission_exact; [reflexivity|exact c1_selectors]. Defined.

(** The device a2 of the first pool is replaced by a3, of the same size. *)
Definition c1_replaced : CStorPoolCluster :=
  cspc_of "c1" "3.0.0" [pool_on "n1" "mirror" [["a1"; "a3"]]; pool2].

Lemma update_admission_witness :
  ∃ cspcOld, rGet w_pools ns0 "c1" = OK cspcOld ∧
    (NoDup (cluster_bds (Pools (cspc_Spec cspcOld))) →
     cspc_Spec c1_replaced = cspc_Spec cspcOld ∨ update_safe w_pools ns0 cspcOld c1_replaced).
Proof.
  apply (update_admission_safe ns0 (request Update c1_replaced) c1_replaced w_pools
    (validateCSPCUpdateRequest ns0 (request Update c1_replaced) w_pools).2 accepted);
    [reflexivity|vm_compute; reflexivity|reflexivity].
Defined.

Lemma byte_count_witness :
  ∃ j c, bytes "KMGTPE" !! j = Some c ∧
    ByteCount (10 * 2 ^ 30) = Ret (pretty (10 * 2 ^ 30 / byte_unit ^ (Z.of_nat j + 1))%Z +:+ String c "") ∧
    (1 ≤ 10 * 2 ^ 30 / byte_unit ^ (Z.of_nat j + 1) < byte_unit)%Z.
Proof. refine (byte_count_units (10 * 2 ^ 30) _). lia. Defined.

(** A pool gains a data group and a write-cache group in one update. *)
Definition cached (data cache : list (list string)) : PoolSpec :=
  {| NodeSelector := {["kubernetes.io/hostname" := "n1"]}; DataRaidGroups := group_of <$> data;
     WriteCacheRaidGroups := group_of <$> cache;
     ps_PoolConfig := {| DataRaidGroupType := "mirror"; WriteCacheGroupType := "mirror";
       ThickProvision := false; Compression := "off"; Resources := None; AuxResources := None;
       Tolerations := None; PriorityClassName := None; ROThresholdLimit := None |} |}.

Definition groups_before : raidGroups :=
  {| oldRaidGroups := [group_of ["a1"; "a2"]]; newRaidGroups := [group_of ["a1"; "a2"]];
     rgType := "mirror" |}.
Definition cache_before : raidGroups :=
  {| oldRaidGroups := [group_of ["a3"; "a4"]]; newRaidGroups := [group_of ["a3"; "a4"]];
     rgType := "mirror" |}.

(** A runtime that visits the two kinds of groups in this order. *)
Definition data_first (A : Type) (m : gmap string A) : list (string * A) :=
  match m !! dataRG, m !! writeCacheRG with
  | Some d, Some wc =>
      if bool_decide (size m = 2) then [(dataRG, d); (writeCacheRG, wc)] else map_to_list m
  | _, _ => map_to_list m
  end.

Lemma data_first_perm A (m : gmap string A) : data_first A m ≡ₚ map_to_list m.
Proof.
  unfold data_first. destruct (m !! dataRG) as [d|] eqn:Hd; [|done].
  destruct (m !! writeCacheRG) as [wc|] eqn:Hw; [|done]. case_bool_decide as Hs; [|done].
  symmetry. apply submseteq_length_Permutation.
  - apply NoDup_submseteq; [apply NoDup_map_to_list|]. intros [k v] Hk.
    apply elem_of_map_to_list in Hk.
    destruct (decide (k = dataRG)) as [->|H1]; [simplify_eq; set_solver|].
    destruct (decide (k = writeCacheRG)) as [->|H2]; [simplify_eq; set_solver|].
    exfalso. assert (size ({[k; dataRG; writeCacheRG]} : gset string) ≤ size (dom m)) as Hsz.
    { apply subseteq_size. intros x. rewrite !elem_of_union, !elem_of_singleton, elem_of_dom.
      intros [[-> | ->] | ->]; by eexists. }
    rewrite size_dom, Hs in Hsz. rewrite !size_union, !size_singleton in Hsz by set_solver. lia.
  - cbn. rewrite <- Hs. by rewrite length_map_to_list.
Qed.

Definition data_first_runtime : GoRuntime :=
  {| go_range A _ m := data_first A m; go_range_perm A _ m := data_first_perm A m |}.

Lemma expansion_dropped_witness :
  validatePoolExpansion (H:=data_first_runtime) w_pools {| OldCSPC := c1; NewCSPC := c1 |}
    (cached [["a1"; "a2"]; ["x1"; "x2"]] [["a3"; "a4"]])
    {[dataRG := groups_before; writeCacheRG := cache_before]} =
  Ret (validateNewBDs w_pools {| OldCSPC := c1; NewCSPC := c1 |} [] c1).
Proof.
  apply (expansion_check_dropped (H:=data_first_runtime) w_pools {| OldCSPC := c1; NewCSPC := c1 |}
    (cached [["a1"; "a2"]; ["x1"; "x2"]] [["a3"; "a4"]])
    {[dataRG := groups_before; writeCacheRG := cache_before]} groups_before cache_before);
    [vm_compute; reflexivity|discriminate|discriminate].
Defined.



