(* ===== verification/OperatorProps.v ===== *)
(** * OperatorProps: what the CStorPoolCluster operator guarantees

    The properties of node selection, claims, scaling, cleanup, status, operations and
    versions, each with a run on a cluster of [Fixtures] where its hypotheses hold. *)

From stdpp Require Import base gmap strings list sets pretty relations.
From Stdlib Require Import Ascii ZArith Lia.
From S2P Require Import Prelude Steps Returns Api Memory Version Webhook PoolOps Algorithm PoolDeploy CspcStatus CspcCleanup CspcOps CspcSync ReturnFacts Fixtures.

Section operator.
Context {W : Type} `{GoRuntime} `{OpenebsApi} `{BuildInfo} `{PodEnv} `{!Env W}.
Context `{!ResourceClient W Node} `{!ResourceClient W BlockDevice}
  `{!ResourceClient W BlockDeviceClaim} `{!ResourceClient W CStorPoolInstance}
  `{!ResourceClient W CStorPoolCluster} `{!ResourceClient W Deployment}.
Implicit Types (w : W) (ac : Config) (cspc : CStorPoolCluster).

(** C3: a scale up of [k] pools creates at most [k] pool instances, on pairwise
    distinct nodes that no earlier selection visited; each one is built from a pool
    of the specification whose node and devices no pool instance uses, and whose
    devices are all claimed for the cluster at that moment; only claims for usable
    devices, deployments, status writes and events are written besides.  It returns
    unless a pool has no node selector, its node has an empty host name, or a device
    has a capacity that is not a number of type uint64. *)
Theorem scale_up_distinct `{!OpenebsApiLaws} ac cspc k w :
  match ScaleUp ac cspc k w with
  | (Ret _, w') =>
      ∃ hs ac' w1 m, length hs ≤ k ∧ NoDup hs ∧ (∀ n, n ∈ hs → n ∉ VisitedNodes ac) ∧
        provisions cspc ac w hs ac' w1 ∧ m ≤ 4 ∧ nsteps status_write m w1 w'
  | (Panic _, w') => cluster_fault (ac_CSPC ac) (ac_Namespace ac) w'
  end.
Proof.
  destruct (ScaleUp ac cspc k w) as [[r|why] w'] eqn:Hrun; [|by eapply ScaleUp_panics].
  revert Hrun. unfold ScaleUp. intros ([b ac'] & w1 & Hl & Hr)%M_bind_Ret.
  apply scale_up_provisions in Hl as (hs & Hlen & Hp).
  destruct (provisions_distinct _ _ _ _ _ _ Hp) as (Hn & _ & Hv).
  destruct b.
  - unfold mbind, M_bind in Hr.
    destruct (UpdateStatusEventually_run cspc w1) as (r' & c' & w2 & m & E & Hm & Hs & _).
    rewrite E in Hr. apply mret_run in Hr as [_ ->].
    exists hs, ac', w1, m. split_and!; try done. naive_solver.
  - apply mret_run in Hr as [_ ->]. exists hs, ac', w1, 0.
    split_and!; [done..|naive_solver|done|lia|constructor].
Qed.

(** C4: the operations on existing pools only create claims for unclaimed devices
    the cluster may use, and update the pool instance found for the node of a pool
    of the specification: after an expansion that appends groups of that pool and
    stripe devices, all claimed for the cluster when they are added, or after
    replacements of one device of a group by a claimed device of the
    corresponding group of the specification.  They return unless a pool has no node
    selector, its node has an empty host name, or a device has a capacity that is not a
    number of type uint64. *)
Theorem operations_steps `{!OpenebsApiLaws} ac w :
  match handleOperations ac w with
  | (Ret _, w') => rtc (ops_step ac) w w'
  | (Panic _, w') => cluster_fault (ac_CSPC ac) (ac_Namespace ac) w'
  end.
Proof.
  destruct (handleOperations ac w) as [[[]|why] w'] eqn:Hr; [by apply handleOperations_steps|].
  by eapply handleOperations_panics.
Qed.


(** C6: the cleanup of pool instances returns, and only writes the claims of data devices of
    pool instances that are deleted, have the finalizer of the cluster and no pool
    protection, and these pool instances themselves; when it reports success, every
    deleted pool instance of the list was such a one. *)
Theorem cleanup_writes `{!OpenebsApiLaws} cspis w : ∃ r w',
  cleanupCSPIResources cspis w = (Ret r, w') ∧ rtc (cleanup_step cspis) w w' ∧
  (r = OK tt → ∀ c, c ∈ cspis → om_deletion (meta c) ≠ None → releasable c).
Proof.
  destruct (cleanup_returns cspis w) as (r & w' & Hr). exists r, w'.
  split_and!; [done|by eapply cleanup_cspis_steps|].
  intros ->. by apply cleanup_cspis_OK in Hr as [_ ?].
Qed.

(** Claiming the devices of a pool succeeds exactly when each device is already
    claimed and its claim carries the label of the cluster; then nothing is
    written. *)
Theorem claims_complete ac BD w w' :
  ClaimBDsForNode ac BD w = (Ret (OK tt), w') ↔ w' = w ∧ Forall (claimed_by w ac) BD.
Proof. apply ClaimBDsForNode_OK. Qed.

(** Claiming one device either fails without a write, or makes one create call
    for a claim of that device, labelled for the cluster and with its finalizer,
    when the tag of the device is absent or listed as allowed; it then succeeds
    exactly when the claim was created or existed. *)
Theorem claim_device_writes `{!OpenebsApiLaws} ac o w w' r :
  Algorithm.ClaimBD ac o w = (r, w') →
  (w' = w ∧ r ≠ Ret (OK tt)) ∨
  (tag_allowed ac o ∧ ∃ bdc c res, claim_for ac o bdc ∧
    rCreate (ac_Namespace ac) bdc w = (c, w') ∧ r = Ret res ∧ (res = OK tt ↔ claim_created c)).
Proof. apply ClaimBD_writes. Qed.

(** The pool instances to remove are exactly the listed ones whose host is
    selected by no pool of the specification and that share no data device with
    one. *)
Theorem orphans_exact w ac cspc l :
  getOrphanedCStorPools w ac cspc = Ret (OK l) →
  ∃ cspis, GetCSPIListForCSPC w cspc = OK cspis ∧
    ∀ n, n ∈ l ↔ ∃ c, c ∈ cspis ∧ orphan w ac cspc c ∧ name c = n.
Proof. apply orphans_OK. Qed.

(** The computed status counts the listed pool instances, the pools of the
    specification and the online pool instances with a ready pool manager (as
    int32), and its PoolManagerAvailable condition is true exactly when all pool
    managers are ready. *)
Theorem status_counters w cspc st :
  calculateStatus w cspc = OK st →
  ∃ cspis pms, GetCSPIListForCSPC w cspc = OK cspis ∧
    rList w (namespace cspc) (CStorPoolClusterLabelKey +:+ "=" +:+ name cspc) = OK pms ∧
    status_reports cspc cspis pms st.
Proof. apply calculateStatus_OK. Qed.

(** C15: the status update always returns, after at most four writes, each of the
    status computed in the world it is written to; it reports success only when
    the last write was accepted. *)
Theorem status_update_bounded cspc w :
  ∃ r cspc' w' n, UpdateStatusEventually cspc w = (Ret (r, cspc'), w') ∧ n ≤ 4 ∧
    nsteps status_write n w w' ∧ (r = OK tt → status_stored w').
Proof. apply UpdateStatusEventually_run. Qed.

(** Adding groups and adding stripe devices keep the metadata, the rest of the
    specification and every device of a pool instance in its place, and only append;
    an update for replaced devices is a sequence of exchanges of one name in one data
    group each, and changes nothing else. *)
Theorem operations_preserve `{!OpenebsApiLaws} ac pool c w :
  (∀ c' w', addGroupToPool ac pool c w = (Ret c', w') → grown c c') ∧
  (∀ c' w', expandExistingStripedGroup ac pool c w = (Ret c', w') → grown c c') ∧
  rtc exchanged c (updateExistingCSPI w ac pool c).
Proof.
  split_and!.
  - intros c' w' Hr. apply addGroupToPool_grows in Hr. exact (grows_grown _ _ _ _ Hr).
  - intros c' w' Hr. apply expandExisting_grows in Hr. exact (grows_grown _ _ _ _ Hr).
  - eapply rtc_subrel; [|apply updateExisting_steps]. intros x y. apply replace_step_exchanged.
Qed.

(** C16: a scale up makes progress: while a pool of the specification selects a node that was
    not visited, has no pool instance and is selected by no pool with a device in use, and the
    devices are claimed for the cluster, the next round sends a pool instance of the
    specification to the API server; when it and its deployment are accepted, the round
    counts as a success and the next one starts after its event. *)
Theorem scale_up_progress `{!OpenebsApiLaws} ac cspc k b n w :
  provisionable w ac n → (∃ l, list_cspis w ac = OK l) → ¬ cluster_fault (ac_CSPC ac) (ac_Namespace ac) w →
  (∀ p, p ∈ Pools (cspc_Spec (ac_CSPC ac)) → Forall (claimed_by (rand_String 4 w).2 ac) (pool_bds p)) →
  ∃ p n' ac1 c x w2, SelectNode w ac = Ret (OK (p, n'), ac1) ∧ instance_of ac p n' c ∧
    rCreate (namespace cspc) c (rand_String 4 w).2 = (x, w2) ∧
    ∀ c', x = OK c' → ∀ d w3, rCreate (namespace c') (GetPoolDeploySpec ac1 c') w2 = (OK d, w3) →
      ∃ e, scale_up_loop ac cspc (S k) b w = scale_up_loop ac1 cspc k true (Event e w3).
Proof.
  intros Hp Hl Hf Hc. destruct (CreateCSPI_progress ac cspc w n Hp Hl Hf Hc) as (p & n' & ac1 & c & x & w2 & Hs & Hi & Hx & Hr).
  exists p, n', ac1, c, x, w2. split_and!; [done..|]. intros c' Hok d w3 Hd. eexists.
  cbn [scale_up_loop]. by rewrite (bind_run _ _ _ _ _ (Hr c' Hok d w3 Hd)).
Qed.


(** A three-part version may be upgraded exactly when it is not below 1.10.0
    and not above the version of the build, in the lexicographic order of the
    numbers, and the comparison always returns on such versions. *)
Theorem version_gate v :
  moving v = false → moving validDesiredVersion = false →
  length (components v) = 3 → length (components validDesiredVersion) = 3 →
  ∃ b, CanCurrentVersionBeUpgraded v = Ret b ∧
    (b = true ↔ lex_le (components minCurrentVersion) (components v) ∧
                lex_le (components v) (components validDesiredVersion)).
Proof. apply upgrade_gate. Qed.

(** The configuration a pool instance gets when it is created and the one it
    gets when it is synced are the same, except for a pool with an explicitly empty
    list of tolerations, which is created with the tolerations of the cluster and
    loses them at the next sync. *)
Theorem defaults_agree_iff cspi cspc pc :
  cspi_PoolConfig (cspi_Spec (defaultPoolConfig
    (cspi_with_spec (spec_with_config pc (cspi_Spec cspi)) cspi) cspc)) =
  creation_defaults (cspc_Spec cspc) pc ↔
  (Tolerations pc = Some [] → spec_Tolerations (cspc_Spec cspc) = Some []).
Proof. apply defaults_agree. Qed.
End operator.

(** ** Runs *)

Definition ac1 : Config := {| ac_CSPC := c1; ac_Namespace := ns0; VisitedNodes := ∅ |}.

(** The devices are claimed and no pool instance exists. *)
Definition w_claimed : cluster := with_devices ["a1"; "a2"; "b1"; "b2"] [c1] [] [].

Lemma scale_up_witness :
  ∃ r, value (ScaleUp ac1 c1 2) w_claimed = Ret r ∧
  ∃ hs ac' w1 m, length hs ≤ 2 ∧ NoDup hs ∧ (∀ n, n ∈ hs → n ∉ VisitedNodes ac1) ∧
    provisions c1 ac1 w_claimed hs ac' w1 ∧ m ≤ 4 ∧
    nsteps status_write m w1 (final (ScaleUp ac1 c1 2) w_claimed).
Proof.
  eexists. split; [vm_compute; reflexivity|].
  eapply (run_returned _ _ _ _ _ (scale_up_distinct ac1 c1 2 w_claimed)). vm_compute. reflexivity.
Defined.

Lemma w_claimed_sound : ¬ cluster_fault (ac_CSPC ac1) (ac_Namespace ac1) w_claimed.
Proof.
  intros [(pool & Hp & Hf)|(n & bd & Hg & Hb)].
  - change (pool ∈ [pool1; pool2]) in Hp.
    apply elem_of_cons in Hp as [->|[->|[]%elem_of_nil]%elem_of_cons]; destruct Hf as [Hf|Hf];
    vm_compute in Hf; discriminate.
  - apply Hb. assert (map_Forall (λ _ bd, (0 ≤ bd_Storage bd < 2 ^ 64)%Z) (c_bds w_claimed)) as Hall
      by (apply (bool_decide_unpack _); vm_compute; exact I).
    change (match c_bds w_claimed !! (ns0, n) with Some o => OK o | None => Err (APIError NotFound n) end = OK bd) in Hg.
    destruct (c_bds w_claimed !! (ns0, n)) as [o|] eqn:Ho; [|done].
    injection Hg as <-. by eapply Hall.
Qed.

(** The first round on the cluster without pool instances creates one. *)
Lemma scale_up_progress_witness : ∃ p n ac2 (c : CStorPoolInstance) x w2,
  SelectNode w_claimed ac1 = Ret (OK (p, n), ac2) ∧ n = "n1" ∧
  rCreate ns0 c (rand_String 4 w_claimed).2 = (x, w2) ∧
  size (store_of (Obj:=CStorPoolInstance) (final (scale_up_loop ac1 c1 1 false) w_claimed)) = 1.
Proof.
  destruct (scale_up_progress ac1 c1 0 false "n1" w_claimed) as (p & n & ac2 & c & x & w2 & Hs & _ & Hx & _).
  - split_and!; [set_solver| | |].
    + intros (l & c & Hl & Hc & _). vm_compute in Hl. injection Hl as <-. by apply elem_of_nil in Hc.
    + exists pool1. split; [by left|]. apply GetNode_OK. vm_compute. reflexivity.
    + intros p bd _ _ _ (l & c & Hl & Hc & _). vm_compute in Hl. injection Hl as <-. by apply elem_of_nil in Hc.
  - eexists. vm_compute. reflexivity.
  - apply w_claimed_sound.
  - intros p Hp. change (p ∈ [pool1; pool2]) in Hp.
    apply (ClaimBDsForNode_OK ac1 (pool_bds p) _ (rand_String 4 w_claimed).2).
    apply elem_of_cons in Hp as [->|[->|[]%elem_of_nil]%elem_of_cons]; vm_compute; reflexivity.
  - exists p, n, ac2, c, x, w2. split_and!; [exact Hs| |exact Hx|vm_compute; reflexivity].
    vm_compute in Hs. injection Hs as _ <- _. reflexivity.
Defined.

(** The devices of pool n1 of the specification are changed and extended. *)
Definition ac_replaced : Config :=
  {| ac_CSPC := cspc_of "c1" "3.0.0" [pool_on "n1" "mirror" [["a1"; "a3"]]; pool2];
     ac_Namespace := ns0; VisitedNodes := ∅ |}.
Definition w_replaced : cluster :=
  with_devices ["a1"; "a2"; "a3"; "b1"; "b2"] [c1]
    [cspi_of "p1" "c1" "n1" "mirror" [["a1"; "a2"]];
     cspi_of "p2" "c1" "n2" "mirror" [["b1"; "b2"]]] [].

Lemma operations_witness :
  rtc (ops_step ac_replaced) w_replaced (final (handleOperations ac_replaced) w_replaced).
Proof.
  apply (run_returned _ _ tt _ _ (operations_steps ac_replaced w_replaced)). vm_compute. reflexivity.
Defined.

(** The replacement reached the stored pool instance. *)
Example replaced_devices :
  (λ c, rgs_bds (data_groups c)) <$>
    c_cspis (final (handleOperations ac_replaced) w_replaced) !! (ns0, "p1") = Some ["a1"; "a3"].
Proof. vm_compute. reflexivity. Qed.

(** A group is appended to the pool of n1, whose devices are claimed. *)
Definition pool1_grown : PoolSpec := pool_on "n1" "mirror" [["a1"; "a2"]; ["a3"; "a4"]].
Definition w_grown : cluster :=
  with_devices ["a1"; "a2"; "a3"; "a4"] [c1] [cspi_of "p1" "c1" "n1" "mirror" [["a1"; "a2"]]] [].

Lemma operations_preserve_witness :
  let p1 := cspi_of "p1" "c1" "n1" "mirror" [["a1"; "a2"]] in
  ∃ c', value (addGroupToPool ac1 pool1_grown p1) w_grown = Ret c' ∧
    rgs_bds (data_groups c') = ["a1"; "a2"; "a3"; "a4"] ∧ grown p1 c'.
Proof.
  eexists. split; [vm_compute; reflexivity|]. split; [reflexivity|].
  refine (proj1 (operations_preserve ac1 pool1_grown _ w_grown) _ _ _).
  apply run_ok. vm_compute. reflexivity.
Defined.

(** The cluster and its pool instances are deleted; the pools are destroyed. *)
Definition deleted {Obj} `{HasMeta Obj} (o : Obj) : Obj :=
  with_meta (meta_with_deletion (Some 1%Z) (meta o)) o.
Definition w_deleted : cluster :=
  with_devices ["a1"; "a2"; "b1"; "b2"] [deleted c1]
    [deleted (cspi_of "p1" "c1" "n1" "mirror" [["a1"; "a2"]]);
     deleted (cspi_of "p2" "c1" "n2" "mirror" [["b1"; "b2"]])] [].


Definition p1_deleted : CStorPoolInstance :=
  deleted (cspi_of "p1" "c1" "n1" "mirror" [["a1"; "a2"]]).

Lemma cleanup_witness :
  let w' := final (cleanupCSPIResources [p1_deleted]) w_deleted in
  rtc (cleanup_step [p1_deleted]) w_deleted w' ∧ c_bdcs w' !! (ns0, "bdc-cstor-a1") = None.
Proof.
  split; [|vm_compute; reflexivity].
  destruct (cleanup_writes [p1_deleted] w_deleted) as (r & w' & Hr & Hs & _).
  unfold final. cbv zeta. rewrite Hr. exact Hs.
Defined.

Lemma claim_device_witness :
  let o := device_of "a3" "n1" None in
  let w' := final (Algorithm.ClaimBD ac1 o) w_claimed in
  is_Some (c_bdcs w' !! (ns0, "bdc-cstor-a3")) ∧
  ((w' = w_claimed ∧ value (Algorithm.ClaimBD ac1 o) w_claimed ≠ Ret (OK tt)) ∨
   (tag_allowed ac1 o ∧ ∃ bdc c res, claim_for ac1 o bdc ∧
     rCreate ns0 bdc w_claimed = (c, w') ∧ value (Algorithm.ClaimBD ac1 o) w_claimed = Ret res ∧
     (res = OK tt ↔ claim_created c))).
Proof.
  split; [vm_compute; by eexists|].
  apply (claim_device_writes ac1 (device_of "a3" "n1" None) w_claimed).
  unfold value, final. by destruct (Algorithm.ClaimBD _ _ _).
Defined.

(** One pool is left in the specification. *)
Definition ac_one : Config :=
  {| ac_CSPC := cspc_of "c1" "3.0.0" [pool1]; ac_Namespace := ns0; VisitedNodes := ∅ |}.

Lemma orphans_witness :
  ∃ cspis, GetCSPIListForCSPC w_pools (ac_CSPC ac_one) = OK cspis ∧
    ∀ n, n ∈ ["p2"] ↔ ∃ c, c ∈ cspis ∧ orphan w_pools ac_one (ac_CSPC ac_one) c ∧ name c = n.
Proof. apply orphans_exact. vm_compute. reflexivity. Defined.

Definition w_pools_status : CStorPoolClusterStatus :=
  match calculateStatus w_pools c1 with OK st => st | Err _ => cspc_Status c1 end.

Lemma status_witness :
  HealthyInstances w_pools_status = 0%Z ∧
  ∃ cspis pms, GetCSPIListForCSPC w_pools c1 = OK cspis ∧
    rList w_pools (namespace c1) (CStorPoolClusterLabelKey +:+ "=" +:+ name c1) = OK pms ∧
    status_reports c1 cspis pms w_pools_status.
Proof.
  split; [vm_compute; reflexivity|].
  apply (status_counters w_pools c1 w_pools_status). vm_compute. reflexivity.
Defined.


Lemma version_gate_witness :
  ∃ b, CanCurrentVersionBeUpgraded "2.9.0" = Ret b ∧
    (b = true ↔ lex_le (components minCurrentVersion) (components "2.9.0") ∧
                lex_le (components "2.9.0") (components validDesiredVersion)).
Proof. apply version_gate; vm_compute; reflexivity. Defined.
