(* ===== verification/VolumeProps.v ===== *)
(** * VolumeProps: what the admission and the controller of volumes guarantee

    The properties of the webhooks of volume configurations and of persistent volume
    claims and of the volume configuration controller, with runs on a small cluster of
    three pools. *)

From stdpp Require Import base gmap strings list sets pretty.
From Stdlib Require Import Ascii ZArith Lia.
From S2P Require Import Prelude Returns Api Memory VolumeApi VolumeMemory Version Webhook VolumeWebhook TargetDeploy VolumeOps VolumeSync ReturnFacts DistributionFacts Fixtures.

Section volumes.
Context {W : Type} `{VolumeApiLaws}.
Context `{!ResourceClient W CStorVolumeConfig} `{!ResourceClient W CStorVolume}
  `{!ResourceClient W PersistentVolumeClaim}.
Implicit Types (w : W) (ar : AdmissionReview) (req : AdmissionRequest).

(** C24: an update of a stored volume configuration, whose status names no pool
    twice, is allowed exactly when it keeps the provisioned capacity and the replica
    count, names no pool twice in its specification and its status, keeps every pool
    that holds a replica or removes exactly one and adds none, changes the number of
    pools only of a bound volume, and leaves the number alone while a scaling is in
    progress. *)
Theorem volume_update_exact w ar old new :
  ar_cvc ar = OK new → rGet w (namespace new) (name new) = OK old →
  NoDup (cvc_Status_PoolInfo old) →
  Allowed (validateCVCUpdateRequest w ar) = true ↔ cvc_change_ok old new.
Proof. apply validateCVCUpdateRequest_exact. Qed.

(** The deletion of a persistent volume claim is allowed exactly when the
    request names no claim, or the claim is found and it is in an ignored namespace
    or the volumes and the volume configurations cloned from its volume are listed,
    in all namespaces, as none; a lookup that fails refuses the deletion. *)
Theorem claim_deletion_exact w req :
  Allowed (validatePVCDeleteRequest w req) = true ↔
  req_name req = "" ∨ ∃ pvc : PersistentVolumeClaim,
    rGet w (req_namespace req) (req_name req) = OK pvc ∧
    (om_namespace (pvc_meta pvc) ∈ ignoredNamespaces ∨
     rList (Obj:=CStorVolume) w "" (source_volume_label pvc) = OK [] ∧
     rList (Obj:=CStorVolumeConfig) w "" (source_volume_label pvc) = OK []).
Proof. apply validatePVCDeleteRequest_exact. Qed.
End volumes.

Section controller.
Context {W : Type} `{OpenebsApiLaws} `{VolumeApiLaws} `{BuildInfo} `{PodEnv} `{GoRuntime} `{!Env W}.
Context `{!ResourceClient W CStorVolumeConfig} `{!ResourceClient W CStorVolume}
  `{!ResourceClient W CStorVolumeReplica} `{!ResourceClient W CStorPoolInstance}
  `{!ResourceClient W Service} `{!ResourceClient W PodDisruptionBudget}
  `{!ResourceClient W Deployment} `{!ResourceClient W CStorVolumePolicy}
  `{!PatchClient W CStorVolumeConfig} `{!PatchClient W CStorVolume}.
Context (openebsNamespace : string).
Implicit Types (w : W) (cvc claim : CStorVolumeConfig).

(** C26: a distribution of replicas that succeeds has placed the pending number of
    replicas, each on a pool of the cluster that is neither offline nor read-only, holds
    no replica of the volume yet, is named by the policy when the policy names pools
    and, for a clone, holds a replica of the source; the pools are pairwise distinct
    when the listed pools and the names of the policy are; every replica existed or is
    created with the labels of its pool and its volume.  One that fails has no cluster or
    cannot list its pools, or has a policy that names another number of pools than
    replicas, or has fewer eligible pools than pending replicas, or could not create a
    replica on a listed pool after fewer than the pending number were placed.  It returns
    unless a clone names no snapshot or the replicas of a volume cannot be listed. *)
Theorem replicas_distributed pending claim service volume policy w :
  match distributeCVRs openebsNamespace pending claim service volume policy w with
  | (Ret (OK _), w') =>
      ∃ chosen w0 rInfo, length chosen = Z.to_nat pending ∧
        Forall (eligible openebsNamespace w claim volume policy) chosen ∧
        (∀ l0, listCStorPools openebsNamespace w (getCSPC claim) = OK l0 → NoDup (name <$> l0) →
         NoDup (pol_ReplicaPoolInfo (policy_Spec policy)) → NoDup (name <$> chosen)) ∧
        (w0 = w ∨ ∃ e, w0 = Event e w) ∧ phase rInfo = CVRStatusEmpty ∧
        all_placed openebsNamespace volume rInfo chosen w0 w'
  | (Ret (Err e), w') =>
      distribution_failed openebsNamespace w claim service volume policy pending e w'
  | (Panic _, w') => source_fault claim ∨ replicas_unlisted openebsNamespace w'
  end.
Proof.
  destruct (distributeCVRs _ _ _ _ _ _ w) as [[[[]|e]|why] w'] eqn:Hr.
  - exact (distribute_spec _ _ _ _ _ _ _ _ Hr).
  - exact (distribute_fails _ _ _ _ _ _ _ _ _ Hr).
  - exact (distributeCVRs_panics _ _ _ _ _ _ _ _ _ Hr).
Qed.


(** C28: a scale down lowers the desired replication factor of the volume and forgets
    the removed replica first; the replica is deleted only when the volume reports that
    its scale down is over, and the configuration is written with the desired pools as
    its current ones only after that deletion was accepted.  It returns unless no pool is
    removed, no pool is left for a disruption budget, such a budget is listed without
    match expressions, or the configuration has no labels. *)
Theorem scale_down_ordered cvc w :
  match scaleDownVolumeReplicas openebsNamespace cvc w with
  | (Ret ((_, err), _), w') => scale_down_run openebsNamespace cvc w err w'
  | (Panic _, w') =>
      removed_pools_of cvc = [] ∨ scale_fault openebsNamespace cvc (cvc_Policy_ReplicaPoolInfo cvc) w'
  end.
Proof.
  destruct (scaleDownVolumeReplicas openebsNamespace cvc w) as [[[[c err] p]|why] w'] eqn:Hr.
  - by eapply scale_down_order.
  - exact (scaleDown_panics openebsNamespace cvc _ _ _ Hr).
Qed.


(** C30: a resize returns; its writes, of the volume as it was read: the new capacity is
    reported in the status of the configuration only when the volume has it, and the
    volume is patched only while no resize of it is in progress, with the capacity of the
    configuration. *)
Theorem resize_ordered cvc w : ∃ r w',
  resizeCVC openebsNamespace cvc w = (Ret r, w') ∧
  ((w' = w ∧ ∃ e, rGet (Obj:=CStorVolume) w (namespace cvc) (name cvc) = Err e) ∨
  ∃ cv, rGet w (namespace cvc) (name cvc) = OK cv ∧ rtc (resize_step openebsNamespace cvc cv) w w').
Proof.
  destruct (resizeCVC_returns openebsNamespace cvc w) as (r & w' & Hr). exists r, w'.
  split; [done|]. by eapply resize_steps.
Qed.

(** C31: the propagation of a policy returns: the hash of a policy is written on the configuration only after the deployment
    of its target was patched to the one of that policy, and a configuration with that
    hash is left alone: the propagation of a policy ends after one run. *)
Theorem policy_propagated cvc w : ∃ r w',
  syncPolicySpec cvc w = (Ret r, w') ∧
  policy_run cvc w r w' ∧ ∀ w1, syncPolicySpec (addPolicySpecHash cvc) w1 = (Ret (OK tt), w1).
Proof.
  destruct (syncPolicySpec_returns cvc w) as (r & w' & Hr). exists r, w'.
  split_and!; [done|by apply policy_order|intros; apply policy_synced].
Qed.

(** A resize to a capacity below the one that the volume has is not refused: when
    the configuration was marked, the volume is patched with the smaller capacity and
    the resize reports success. *)
Theorem resize_shrinks_volume cvc cv c1 bytes w w1 :
  rGet w (namespace cvc) (name cvc) = OK cv → (cv_Capacity cv ≤ cv_Status_Capacity cv)%Z →
  (cvc_Capacity cvc < cv_Status_Capacity cv)%Z →
  markCVCResizeInProgress cvc w = (Ret (OK c1), w1) →
  getPatchData (json_Marshal_cv cv) (json_Marshal_cv (cv_with_capacity (cvc_Capacity cvc) cv)) =
    OK bytes →
  ∃ e u w2,
    rPatchObject (Obj:=CStorVolume) openebsNamespace (name cv) MergePatchType bytes (Event e w1) =
      (u, w2) ∧
    ∀ o, u = OK o → resizeCVC openebsNamespace cvc w = (Ret (OK tt), w2).
Proof. apply resize_shrinks. Qed.

(** C33: with a client that refuses to delete an object without a name, as client-go
    does, the scale down of a volume whose removed replica is gone never ends: it
    reports an error and leaves the configuration as it is. *)
Theorem scale_down_never_ends cvc pool rest e w c err p w' :
  (∀ w, ∃ e, rDelete (Obj:=CStorVolumeReplica) openebsNamespace "" w = (Err e, w)) →
  removed_pools_of cvc = pool :: rest →
  rGet (Obj:=CStorVolumeReplica) w openebsNamespace
    (label (annotations cvc) volumeID +:+ "-" +:+ pool) = Err e → IsNotFound e = true →
  scaleDownVolumeReplicas openebsNamespace cvc w = (Ret ((c, err), p), w') →
  err ≠ None ∧ p = cvc ∧
  (w' = w ∨ ∃ cv : CStorVolume, rGet w openebsNamespace (name cvc) = OK cv ∧
     w' = (rUpdate openebsNamespace
             (cv_with_desired (Z.of_nat (length (cvc_Policy_ReplicaPoolInfo cvc)))
                (delete "" (cv_KnownReplicas cv)) cv) w).2).
Proof. apply scale_down_stuck. Qed.
End controller.

(** ** A cluster with volumes *)

(** A volume configuration of 5 GiB and three replicas, with its replicas on the given
    pools, in the given phase. *)
Definition config_on (phase : string) (cap : Z) (desired current : list string) : CStorVolumeConfig :=
  {| cvc_meta := meta_with_annotations {["openebs.io/volumeID" := "pvc-1"]}
       (meta_of "pvc-1" "v-1" [("openebs.io/cstor-pool-cluster", "c1")]);
     cvc_Capacity := cap; cvc_CStorVolumeRef := None; cvc_CStorVolumeSource := "";
     cvc_Provision_Capacity := 5 * 2 ^ 30; cvc_Provision_ReplicaCount := 3;
     cvc_Policy := pol_with_pools desired getDefaultPolicySpec; cvc_Publish_NodeID := "";
     cvc_Status_Phase := phase; cvc_Status_PoolInfo := current;
     cvc_Status_Capacity := 5 * 2 ^ 30; cvc_Status_Conditions := [];
     cvc_VersionDetails := version_at "3.0.0" |}.
Definition volume_on (desired current : list string) : CStorVolumeConfig :=
  config_on "Bound" (5 * 2 ^ 30) desired current.
Definition new_volume : CStorVolumeConfig := config_on "Pending" (5 * 2 ^ 30) [] [].

(** The volume with a desired replication factor and the replicas that it knows. *)
Definition cv_of (drf cap : Z) (known : list string) : CStorVolume :=
  {| cv_meta := meta_of "pvc-1" "cv-1" []; cv_Capacity := cap; cv_TargetIP := "10.0.0.1";
     cv_TargetPort := "3260"; cv_Iqn := "pvc-1"; cv_TargetPortal := "10.0.0.1:3260";
     cv_ReplicationFactor := 3; cv_DesiredReplicationFactor := drf; cv_ConsistencyFactor := 2;
     cv_KnownReplicas := list_to_map ((λ p, (p, p)) <$> known); cv_Status_Capacity := cap;
     cv_Status_KnownReplicas := list_to_map ((λ p, (p, p)) <$> known); cv_State := cv_new_state;
     cv_VersionDetails := version_at "3.0.0" |}.

Definition cvr_of (pool : string) : CStorVolumeReplica :=
  {| cvr_meta := meta_of ("pvc-1-" +:+ pool) ("r-" +:+ pool)
       [("cstorpoolinstance.openebs.io/name", pool); ("openebs.io/persistent-volume", "pvc-1")];
     cvr_TargetIP := "10.0.0.1"; cvr_Capacity := "5"; cvr_ZvolWorkers := "";
     cvr_ReplicaID := pool; cvr_Status := cvr_status_of "Healthy"; cvr_VersionDetails := version_at "3.0.0" |}.

Definition svc_of : Service :=
  {| svc_meta := meta_of "pvc-1" "s-1" []; svc_Selectors := ∅; svc_Ports := cvPorts;
     svc_ClusterIP := "10.0.0.1" |}.

Definition target_of : Deployment :=
  build_deployment (target_deploy_args (cv_of 3 (5 * 2 ^ 30) []) getDefaultPolicySpec).

(** Three pools, the replicas of the volume on some of them, and its other objects. *)
Definition with_volume (cvc : CStorVolumeConfig) (cvs : list CStorVolume) (svcs : list Service)
  (deploys : list Deployment) (replicas : list string) : volume_cluster :=
  {| vc_base :=
       with_store (store deploys)
         (with_devices [] []
            ((λ n, cspi_of n "c1" n "mirror" []) <$> ["p1"; "p2"; "p3"]) (cvr_of <$> replicas));
     vc_cvcs := store [cvc]; vc_cvs := store cvs; vc_svcs := store svcs; vc_pdbs := ∅;
     vc_policies := ∅; vc_pvcs := ∅ |}.

Definition volume_review (c : CStorVolumeConfig) : AdmissionReview :=
  {| ar_kind := "CStorVolumeConfig";
     ar_request := {| req_operation := Update; req_namespace := ns0; req_name := name c;
                      req_object := Err (Errorf "not a CStorPoolCluster" []) |};
     ar_cvc := OK c |}.

(** Removing one of three pools is allowed. *)
Lemma volume_update_witness :
  cvc_change_ok (volume_on ["p1"; "p2"; "p3"] ["p1"; "p2"; "p3"])
    (volume_on ["p3"; "p1"] ["p1"; "p2"; "p3"]).
Proof.
  apply (volume_update_exact (W:=volume_cluster)
    (with_volume (volume_on ["p1"; "p2"; "p3"] ["p1"; "p2"; "p3"]) [] [] [] [])
    (volume_review (volume_on ["p3"; "p1"] ["p1"; "p2"; "p3"]))).
  - reflexivity.
  - vm_compute; reflexivity.
  - apply IsUniqueList_spec. vm_compute; reflexivity.
  - vm_compute; reflexivity.
Defined.

(** ** Runs of the controller *)

Definition default_policy : CStorVolumePolicy :=
  {| policy_meta := meta_empty; policy_Spec := getDefaultPolicySpec |}.

(** No object of the new volume exists yet. *)
Definition w_new : volume_cluster := with_volume new_volume [] [] [] [].

Lemma replicas_distributed_witness :
  let run := distributeCVRs ns0 3 new_volume svc_of (cv_of 3 (5 * 2 ^ 30) []) default_policy in
  ∃ chosen w0 rInfo, length chosen = 3 ∧
    Forall (eligible ns0 w_new new_volume (cv_of 3 (5 * 2 ^ 30) []) default_policy) chosen ∧
    NoDup (name <$> chosen) ∧
    all_placed ns0 (cv_of 3 (5 * 2 ^ 30) []) rInfo chosen w0 (final run w_new).
Proof.
  intros run; pose proof (replicas_distributed ns0 3 new_volume svc_of (cv_of 3 (5 * 2 ^ 30) [])
    default_policy w_new) as Hd.
  assert (value run w_new = Ret (OK tt)) as Hv by (vm_compute; reflexivity).
  subst run. rewrite (run_ok _ _ _ Hv) in Hd. destruct Hd as (chosen & w0 & rInfo & Hlen & Hel & Hnd & _ & _ & Hall).
  exists chosen, w0, rInfo. split_and!; [exact Hlen|exact Hel| |exact Hall].
  eapply Hnd; [vm_compute; reflexivity| |].
  - apply (bool_decide_unpack _). vm_compute. exact I.
  - apply (bool_decide_unpack _). vm_compute. exact I.
Defined.


(** One of three replicas is removed, and the volume knows only two of them: the replica
    is deleted and the configuration is written. *)
Definition shrinking : CStorVolumeConfig := volume_on ["p1"; "p2"] ["p1"; "p2"; "p3"].
Definition w_shrinking : volume_cluster :=
  with_volume shrinking [cv_of 2 (5 * 2 ^ 30) ["p1"; "p2"]] [svc_of] [] ["p1"; "p2"; "p3"].

Lemma scale_down_witness :
  scale_down_run ns0 shrinking w_shrinking None (final (scaleDownVolumeReplicas ns0 shrinking) w_shrinking) ∧
  select ns0 "" (store_of (Obj:=CStorVolumeReplica)
    (final (scaleDownVolumeReplicas ns0 shrinking) w_shrinking)) = [cvr_of "p1"; cvr_of "p2"].
Proof.
  split; [|vm_compute; reflexivity].
  destruct (value (scaleDownVolumeReplicas ns0 shrinking) w_shrinking) as [[[c err] p]|] eqn:Hv;
    [|by vm_compute in Hv].
  assert (err = None) as Herr by (by vm_compute in Hv; injection Hv).
  rewrite <-Herr. pose proof (scale_down_ordered ns0 shrinking w_shrinking) as Hs.
  by rewrite (run_ok _ _ _ Hv) in Hs.
Defined.



(** The configuration asks for 10 GiB and the volume has 5 GiB. *)
Definition enlarged : CStorVolumeConfig :=
  config_on "Bound" (10 * 2 ^ 30) ["p1"; "p2"; "p3"] ["p1"; "p2"; "p3"].
Definition w_enlarged : volume_cluster := with_volume enlarged [cv_of 3 (5 * 2 ^ 30) []] [] [] [].

Lemma resize_witness :
  rtc (resize_step ns0 enlarged (cv_of 3 (5 * 2 ^ 30) [])) w_enlarged
    (final (resizeCVC ns0 enlarged) w_enlarged) ∧
  cv_Capacity <$> (store_of (Obj:=CStorVolume) (final (resizeCVC ns0 enlarged) w_enlarged)
    !! (ns0, "pvc-1")) = Some (10 * 2 ^ 30)%Z.
Proof.
  split; [|vm_compute; reflexivity].
  destruct (resize_ordered ns0 enlarged w_enlarged) as (r & w' & Hr & [[_ [e He]]|(cv & Hcv & Hs)]);
    unfold final; rewrite Hr.
  - by vm_compute in He.
  - assert (OK cv = OK (cv_of 3 (5 * 2 ^ 30) [])) as [= ->]; [|exact Hs].
    rewrite <-Hcv. vm_compute. reflexivity.
Defined.

(** The label of the policy is missing. *)
Definition w_policy : volume_cluster :=
  with_volume shrinking [cv_of 3 (5 * 2 ^ 30) []] [] [with_meta (meta_of "pvc-1-target" "d" []) target_of] [].

Lemma policy_witness :
  policy_run shrinking w_policy (OK tt) (final (syncPolicySpec shrinking) w_policy) ∧
  syncPolicySpec (addPolicySpecHash shrinking) w_policy = (Ret (OK tt), w_policy).
Proof.
  destruct (policy_propagated shrinking w_policy) as (r & w' & Hr & Hp & Hs).
  assert (value (syncPolicySpec shrinking) w_policy = Ret (OK tt)) as Hv by (vm_compute; reflexivity).
  unfold value, final in *. rewrite Hr in *. injection Hv as ->. split; [exact Hp|apply Hs].
Defined.

(** The configuration asks for 10 GiB after the volume was grown to 20 GiB. *)
Definition w_grown_volume : volume_cluster := with_volume enlarged [cv_of 3 (20 * 2 ^ 30) []] [] [] [].

Lemma resize_shrinks_witness :
  let w' := final (resizeCVC ns0 enlarged) w_grown_volume in
  cv_Capacity <$> (store_of (Obj:=CStorVolume) w' !! (ns0, "pvc-1")) = Some (10 * 2 ^ 30)%Z ∧
  ∃ e u w2, rPatchObject (Obj:=CStorVolume) ns0 "pvc-1" MergePatchType "10737418240"
      (Event e (final (markCVCResizeInProgress enlarged) w_grown_volume)) = (u, w2) ∧
    ∀ o, u = OK o → resizeCVC ns0 enlarged w_grown_volume = (Ret (OK tt), w2).
Proof.
  split; [vm_compute; reflexivity|].
  destruct (value (markCVCResizeInProgress enlarged) w_grown_volume) as [[c1|]|] eqn:Hv;
    [|by vm_compute in Hv..].
  apply (resize_shrinks_volume ns0 enlarged (cv_of 3 (20 * 2 ^ 30) []) c1 "10737418240" w_grown_volume).
  - vm_compute. reflexivity.
  - cbn. lia.
  - cbn. lia.
  - by apply run_ok.
  - vm_compute. reflexivity.
Defined.

(** The replica on the removed pool is gone. *)
Definition w_replica_gone : volume_cluster :=
  with_volume shrinking [cv_of 2 (5 * 2 ^ 30) ["p1"; "p2"]] [svc_of] [] ["p1"; "p2"].

Lemma scale_down_stuck_witness : ∃ c err p,
  value (scaleDownVolumeReplicas ns0 shrinking) w_replica_gone = Ret ((c, err), p) ∧
  err ≠ None ∧ p = shrinking.
Proof.
  destruct (value (scaleDownVolumeReplicas ns0 shrinking) w_replica_gone) as [[[c err] p]|] eqn:Hv;
    [|by vm_compute in Hv].
  exists c, err, p. split; [done|].
  destruct (scale_down_never_ends ns0 shrinking "p3" [] (APIError NotFound "pvc-1-p3") w_replica_gone
    c err p (final (scaleDownVolumeReplicas ns0 shrinking) w_replica_gone)) as (He & Hp & _).
  - intros w. by eexists.
  - vm_compute. reflexivity.
  - vm_compute. reflexivity.
  - reflexivity.
  - by apply run_ok.
  - by split.
Defined.
