(* ===== verification/PoolProps.v ===== *)
(** * PoolProps: what the pool manager and its commands guarantee

    The properties of the command builders, of the operations on a pool and of the controllers
    of pool instances and volume replicas, with runs on a pool of two mirrored devices. *)

From stdpp Require Import base gmap strings list sets pretty.
From Stdlib Require Import Ascii ZArith Lia.
From coqutil Require Import Datatypes.RecordSetters.
From S2P Require Import Prelude Steps Api Memory VolumeApi VolumeMemory Version Webhook PoolOps Zcmd Zpool Zfs Zspec PoolApi VolumeOps VolumeReplica PoolManager CspiSync ReplicaSync PoolLock PoolFacts PoolMemory Fixtures.
Import DoubleBraceUpdate.

(** ** The command builders *)

(** C34: the commands that create, extend, repair, import, configure and destroy a pool, and
    those that read properties, are split by a shell into exactly the arguments that the fields
    of the builder mean, when the operands are words: one or more literal characters without
    spaces.  The pool that is imported must not contain a percent sign, since it is used as a
    format. *)
Theorem command_words :
  (∀ p, Forall word (pcreate.Property p) → Forall word (pcreate.FSProperty p) → word (pcreate.Pool p) →
        opt_word (pcreate.Type_ p) → Forall word (pcreate.Vdev p) →
        shell_words (pcreate.command p) = Some (pool_create_args p)) ∧
  (∀ p, Forall word (padd.Property p) → word (padd.Pool p) → opt_word (padd.DeviceType p) →
        opt_word (padd.Type_ p) → Forall word (padd.VdevList p) →
        shell_words (padd.command p) = Some (pool_add_args p)) ∧
  (∀ p, Forall word (preplace.Property p) → word (preplace.Pool p) → word (preplace.OldVdev p) →
        word (preplace.NewVdev p) → shell_words (preplace.command p) = Some (pool_replace_args p)) ∧
  (∀ p, pimport.ImportAll p = false → Forall word (pimport.Property p) → opt_word (pimport.Cachefile p) →
        Forall opt_word (pimport.Directorylist p) → Sprintf0 (pimport.Pool p) = pimport.Pool p →
        opt_word (pimport.Pool p) → opt_word (pimport.NewPool p) →
        shell_words (pimport.command p) = Some (pool_import_args p)) ∧
  (∀ p, Forall word (pset.PropList p) → word (pset.Pool p) →
        shell_words (pset.command p) = Some (pool_set_args p)) ∧
  (∀ p, word (pdestroy.Pool p) → shell_words (pdestroy.command p) = Some (pool_destroy_args p)) ∧
  (∀ p, word (plabelclear.Vdev p) → shell_words (plabelclear.command p) = Some (pool_labelclear_args p)) ∧
  (∀ p, Forall word (pget.FieldList p) → Forall word (pget.PropList p) → opt_word (pget.Pool p) →
        shell_words (pget.command p) = Some (pool_get_args p)) ∧
  (∀ p, Forall word (vset.Proplist p) → word (vset.Dataset p) → vset.IsSnapshotSet p = false →
        shell_words (vset.command p) = Some (volume_set_args p)) ∧
  (∀ p, Forall word (vget.FieldList p) → Forall word (vget.Proplist p) → word (vget.Dataset p) →
        vget.IsSnapshotSet p = false → shell_words (vget.command p) = Some (volume_get_args p)).
Proof.
  split_and!; intros; eapply reads_shell;
    eauto using pool_create_words, pool_add_words, pool_replace_words, pool_import_words,
      pool_set_words, pool_destroy_words, pool_labelclear_words, pool_get_words, volume_set_words,
      volume_get_words.
Qed.

(** The command that makes the pool of the runs below. *)
Lemma command_words_witness :
  let p := object (pcreate.WithVdevList ["/dev/a1"; "/dev/a2"] (pcreate.WithPool "cstor-p1"
             (pcreate.WithFSProperty "compression" "lz4" (pcreate.WithType "mirror"
               pcreate.NewPoolCreate)))) in
  shell_words (pcreate.command p) =
    Some ["zpool"; "create"; "-O"; "compression=lz4"; "cstor-p1"; "mirror"; "/dev/a1"; "/dev/a2"].
Proof. apply (proj1 command_words); apply (bool_decide_unpack _); vm_compute; exact I. Defined.

Section pool.
Context {W : Type} `{OpenebsApi} `{VolumeApi} `{PoolApi} `{PodEnv} `{GoRuntime} `{ZJson} `{BuildInfo}.
Context `{!Shell W} `{!Runner W} `{!Env W} `{!Process W} `{!ProcessLaws W}.
Context `{!ResourceClient W CStorPoolInstance} `{!ResourceClient W BlockDevice}
  `{!ResourceClient W BlockDeviceClaim} `{!ResourceClient W CStorVolumeReplica}
  `{!PatchClient W CStorVolumeReplica}.

(** ** Operations on the pool *)

(** When every device of a raid group is found and has a path, creating the pool runs one
    command, which a shell reads as "zpool create" with the cache file, the compression, no
    mounting, the name of the pool, the type of the raid group (none for a stripe) and one
    path for each device, the first one, in some order; the result is the error of this
    command. *)
Theorem pool_created_from_group cspi r (w w1 : W) pool paths :
  word (DataRaidGroupType (cspi_PoolConfig (cspi_Spec cspi))) → word (compression_of cspi) → word pool →
  word (CStorPoolBasePath +:+ CacheFileName) →
  paths_known w paths (CStorPoolInstanceBlockDevices r) →
  (∀ b p, b ∈ CStorPoolInstanceBlockDevices r → p ∈ paths (BlockDeviceName b) → word p) →
  PoolName w = (Ret pool, w1) →
  ∃ c vdevs,
    createPool (Some Zcmd) cspi r w = (let* o := call (bash c) in mret (create_error o)) w1 ∧
    shell_words c = Some (create_args pool (compression_of cspi)
                            (DataRaidGroupType (cspi_PoolConfig (cspi_Spec cspi))) vdevs) ∧
    vdevs ≡ₚ (λ n, default "" (head (paths n))) <$> remove_dups (rg_bds r).
Proof. apply createPool_command. Qed.

(** C13: an update of the pool changes nothing in the specification of the instance but the
    links of devices: raid groups, their order, their devices and the configuration stay as
    they were, with or without an error. *)
Theorem update_keeps_devices `{!SpecClient (W:=W)} oc cspi (w w' : W) cspi' e :
  PoolManager.Update oc cspi w = (Ret (cspi', e), w') →
  unlinked (cspi_Spec cspi') = unlinked (cspi_Spec cspi).
Proof. apply Update_devices. Qed.

(** C38: with a pool of at most 2^63 / 100 used bytes and some capacity, the read-only mode of
    the pool is switched exactly when it differs from the wanted one (the used share reaches a
    limit other than 100), and the status reports the wanted mode unless the switch failed; a
    pool whose used and free bytes are both zero makes the division panic. *)
Theorem read_only_threshold oc st cspi (w w1 : W) pool :
  PoolName w = (Ret pool, w1) → (0 ≤ free_bytes st)%Z → (0 ≤ used_bytes st)%Z →
  (used_bytes st * 100 < 2 ^ 63)%Z → (free_bytes st + used_bytes st < 2 ^ 63)%Z →
  let total := (free_bytes st + used_bytes st)%Z in
  let want := must_be_readonly (ro_limit cspi) (used_bytes st) total in
  if (total =? 0)%Z then updateROMode oc st cspi w = (Panic "integer divide by zero", w1)
  else ∃ st' w', updateROMode oc st cspi w = (Ret st', w') ∧
         if bool_decide (csps_ReadOnly st = want) then st' = st ∧ w' = w1
         else switched oc pool want st st' w1 w'.
Proof.
  intros Hn Hf Hu Hm Ht total want. subst total. destruct (Z.eqb_spec (free_bytes st + used_bytes st) 0).
  - by eapply updateROMode_panics.
  - apply updateROMode_spec; [done..|lia].
Qed.

(** When the properties of a dataset were set without an error, all of them are
    remembered, and setting them again succeeds without running a command or changing
    anything. *)
Theorem properties_set_once oc d desired (w w' : W) :
  SetPoolFSPropertiesIfNot oc d desired w = (Ret None, w') →
  (∃ m, g_datasets (globals w') !! d = Some m ∧ desired ⊆ m) ∧
  SetPoolFSPropertiesIfNot oc d desired w' = (Ret None, w').
Proof.
  intros Hr. destruct (SetPoolFSProperties_stores oc d desired w w' Hr) as (m & Hm & Hs).
  split; [by exists m|]. by eapply SetPoolFSProperties_known.
Qed.


(** C37: the mutex that the two controllers of a pool share is free whenever a handler has
    returned: a reconciliation of the pool instance or of a replica that starts with a free
    mutex and returns leaves it free, on every path. *)
Theorem mutex_released `{!ProcessFrame W} `{!ClientFrame W CStorPoolInstance}
  `{!ClientFrame W BlockDeviceClaim} `{!ClientFrame W CStorVolumeReplica}
  `{!PatchFrame W CStorVolumeReplica} oc key op (w : W) :
  held w = false →
  (∀ r w', reconcile oc key w = (Ret r, w') → held w' = false) ∧
  (∀ r w', syncHandler key op w = (Ret r, w') → held w' = false).
Proof.
  intros Hw. split; intros r w' Hr; [by eapply frees_reconcile|by eapply frees_syncHandler].
Qed.
End pool.

(** ** Runs on a small pool *)

Definition newlines (l : list string) : string := join (String newline "") l.

(** The tools of a pool of the mirror of a1 and a2 with one volume. *)
Definition tool (_ : list string) (c : string) : output :=
  if bool_decide (c = "zpool get -Hp name -o name") then (newlines ["cstor-p1"; ""], None)
  else if strings_Contains c "zpool dump" then (newlines ["/dev/disk/by-id/a1"; "/dev/disk/by-id/a2"], None)
  else if strings_Contains c "health" then (newlines ["ONLINE"; "off"; ""], None)
  else if strings_Contains c "used,logicalused,available" then (newlines ["90"; "80"; "10"; ""], None)
  else if strings_Contains c "zfs list " then (newlines ["cstor-p1"; "cstor-p1/pvc-1"], None)
  else if strings_Contains c "listsnap" then (newlines ["s1"; "s2"], None)
  else if strings_Contains c "zfs stats" then ("pvc-1 Healthy 1", None)
  else if strings_Contains c "logicalreferenced" then (newlines ["5"; "6"; ""], None)
  else ("", None).

Definition globals0 : pool_globals :=
  {| g_poolName := "cstor-p1"; g_Locked := false; g_IsImported := false; g_ImportedVol := [];
     g_datasets := ∅ |}.

Definition cspi0 : CStorPoolInstance := cspi_of "p1" "c1" "n1" "mirror" [["a1"; "a2"]].
Definition cvr0 (phase : string) : CStorVolumeReplica :=
  {| cvr_meta := meta_of "pvc-1-p1" "r-1"
       [("cstorvolume.openebs.io/name", "pvc-1"); ("openebs.io/persistent-volume", "pvc-1");
        ("cstorpoolinstance.openebs.io/uid", "u-p1")];
     cvr_TargetIP := "10.0.0.1"; cvr_Capacity := "5Gi"; cvr_ZvolWorkers := ""; cvr_ReplicaID := "1";
     cvr_Status := cvr_status_of phase; cvr_VersionDetails := version_at "3.0.0" |}.

Definition w_pool : pool_world :=
  {| pw_base := with_devices ["a1"; "a2"] [c1] [cspi0] [cvr0 "Healthy"]; pw_globals := globals0; pw_tool := tool; pw_log := [] |}.

Lemma pool_created_witness : ∃ c vdevs,
  shell_words c = Some (create_args "cstor-p1" "off" "mirror" vdevs) ∧
  vdevs ≡ₚ ["/dev/disk/by-id/a1"; "/dev/disk/by-id/a2"] ∧
  pw_log (final (createPool (Some Zcmd) cspi0 (group_of ["a1"; "a2"])) w_pool) = [c].
Proof.
  destruct (pool_created_from_group cspi0 (group_of ["a1"; "a2"]) w_pool w_pool "cstor-p1"
    (λ n, ["/dev/disk/by-id/" +:+ n; "/dev/" +:+ n])) as (c & vdevs & Hr & Hc & Hv).
  - apply (bool_decide_unpack _). vm_compute. exact I.
  - apply (bool_decide_unpack _). vm_compute. exact I.
  - apply (bool_decide_unpack _). vm_compute. exact I.
  - apply (bool_decide_unpack _). vm_compute. exact I.
  - intros b Hb. cbn in Hb. repeat (apply elem_of_cons in Hb as [->|Hb]; [split; [done|reflexivity]|]).
    by apply not_elem_of_nil in Hb.
  - intros b p Hb Hp. cbn in Hb, Hp. repeat (apply elem_of_cons in Hb as [->|Hb];
      [repeat (apply elem_of_cons in Hp as [->|Hp]; [by split|]); by apply not_elem_of_nil in Hp|]).
    by apply not_elem_of_nil in Hb.
  - reflexivity.
  - exists c, vdevs. split; [exact Hc|]. split; [exact Hv|]. unfold final. by rewrite Hr.
Defined.

Lemma update_keeps_devices_witness : ∃ cspi' e,
  value (PoolManager.Update (Some Zcmd) cspi0) w_pool = Ret (cspi', e) ∧
  unlinked (cspi_Spec cspi') = unlinked (cspi_Spec cspi0) ∧
  cspi_DataRaidGroups (cspi_Spec cspi') ≠ cspi_DataRaidGroups (cspi_Spec cspi0).
Proof.
  destruct (value (PoolManager.Update (Some Zcmd) cspi0) w_pool) as [[cspi' e]|] eqn:Hv;
    [|by vm_compute in Hv].
  exists cspi', e. split; [done|]. split.
  - eapply (update_keeps_devices (Some Zcmd) cspi0 w_pool). by apply run_ok.
  - vm_compute in Hv. injection Hv as <- <-. vm_compute. intros [=].
Defined.

(** A status with 90 used and 10 free bytes, above the default limit of 85 percent. *)
Definition status90 : CStorPoolInstanceStatus :=
  (cspi_status_of "ONLINE" false) {{ csps_Capacity :=
    {| cap_Used := quantity 90; cap_Free := quantity 10; cap_Total := quantity 100;
       cap_LogicalUsed := quantity 90 |} }}.

Lemma read_only_witness : ∃ st' w',
  updateROMode (Some Zcmd) status90 cspi0 w_pool = (Ret st', w') ∧
  switched (Some Zcmd) "cstor-p1" true status90 st' w_pool w'.
Proof.
  assert (free_bytes status90 + used_bytes status90 = 100)%Z as Ht by reflexivity.
  assert (must_be_readonly (ro_limit cspi0) (used_bytes status90) 100 = true) as Hm by reflexivity.
  pose proof (read_only_threshold (Some Zcmd) status90 cspi0 w_pool w_pool "cstor-p1") as Hr.
  cbv zeta in Hr. rewrite Ht, Hm in Hr. apply Hr.
  - reflexivity.
  - by apply Z.leb_le.
  - by apply Z.leb_le.
  - by apply Z.ltb_lt.
  - by apply Z.ltb_lt.
Defined.

Lemma properties_witness :
  let desired := <["compression" := "lz4"]> {["canmount" := "off"]} in
  let w' := final (SetPoolFSPropertiesIfNot (Some Zcmd) "cstor-p1" desired) w_pool in
  length (pw_log w') = 3 ∧
  SetPoolFSPropertiesIfNot (Some Zcmd) "cstor-p1" desired w' = (Ret None, w').
Proof.
  split; [vm_compute; reflexivity|].
  eapply (properties_set_once (Some Zcmd) "cstor-p1" _ w_pool). apply run_ok. vm_compute. reflexivity.
Defined.



Lemma mutex_witness :
  held w_pool = false ∧
  (∃ w', reconcile (Some Zcmd) "openebs/p1" w_pool = (Ret None, w') ∧ held w' = false) ∧
  (∃ w', syncHandler "openebs/pvc-1-p1" QOpSync w_pool = (Ret None, w') ∧ held w' = false).
Proof.
  split; [reflexivity|].
  destruct (mutex_released (Some Zcmd) "openebs/p1" QOpSync w_pool) as [Ha _]; [reflexivity|].
  destruct (mutex_released (Some Zcmd) "openebs/pvc-1-p1" QOpSync w_pool) as [_ Hb]; [reflexivity|].
  split.
  - assert (run (reconcile (Some Zcmd) "openebs/p1") w_pool None) as Hr
      by (apply run_ok; vm_compute; reflexivity).
    eexists. split; [exact Hr|]. by apply (Ha None).
  - assert (run (syncHandler "openebs/pvc-1-p1" QOpSync) w_pool None) as Hr
      by (apply run_ok; vm_compute; reflexivity).
    eexists. split; [exact Hr|]. by apply (Hb None).
Defined.
