(* ===== verification/TargetProps.v ===== *)
(** * TargetProps: what the volume manager guarantees

    The properties of the configuration file of a target, of the answers of the target and of
    the scaling and resizing of a volume, with runs on a volume of three replicas. *)

From stdpp Require Import base gmap strings list sets pretty.
From Stdlib Require Import Ascii ZArith Lia.
From coqutil Require Import Datatypes.RecordSetters.
From S2P Require Import Prelude Steps Api Memory VolumeApi VolumeMemory Version Webhook PoolOps Zcmd PoolApi PoolMemory CspiSync TargetApi VolumeTarget VolumeMgmt TargetFacts TargetMemory ReturnFacts Fixtures.
Import DoubleBraceUpdate.

Section target.
Context {W : Type} `{OpenebsApi} `{VolumeApi} `{PoolApi} `{TargetApi} `{PodEnv} `{GoRuntime} `{BuildInfo}.
Context `{!Env W} `{!Target W} `{!ResourceClient W CStorVolume} `{!ResourceClient W Event_}.

(** C12: the configuration file that is written for a volume is read back as the volume: its
    name, the portal, the factors (a desired replication factor of zero stands for the
    replication factor), the capacity, and as replicas exactly the known replicas. *)
Theorem target_file_roundtrip cv :
  conf_ok cv →
  ∃ text, CreateIstgtConf cv = OK text ∧ conf_describes (effective cv) (conf_words text).
Proof. apply CreateIstgtConf_readable. Qed.

(** The status of a volume is read from the text between the first opening and the last
    closing brace of the answer of the target: whatever the answer, the reader returns, except
    for an answer with a closing and without an opening brace, for which it panics. *)
Theorem status_answer (w : W) l w1 :
  SendCommand IstgtReplicaCmd w = (OK l, w1) →
  if decide ("{"%char ∉ bytes (sprint_slice l) ∧ "}"%char ∈ bytes (sprint_slice l))
  then ∃ why, GetVolumeStatus w = (Panic why, w1) else ∃ r, GetVolumeStatus w = (Ret r, w1).
Proof. apply GetVolumeStatus_answer. Qed.

(** C8: a scale down leaves a volume alone unless the target reports it and all replicas that
    stay as healthy and there is a replica to remove.  When it succeeds, the target accepted a
    command that a shell reads as the replication factor and exactly the replicas that stay,
    after the replication factor in the object was lowered to the desired one with a
    consistency factor that is a majority, and the status was written afterwards.  It returns
    when the mutex of the configuration file is free. *)
Theorem replica_dropped_safely `{!VolumeClient (W:=W)} `{!TargetLaws W} cv (w : W) st w1 :
  word IstgtDRFCmd → word (name cv) → map_Forall (λ k _, word k) (cv_KnownReplicas cv) →
  (0 < cv_DesiredReplicationFactor cv < cv_ReplicationFactor cv)%Z →
  ConfFileLocked (tglobals w) = false → GetVolumeStatus w = (Ret (OK st), w1) →
  ∃ r w', triggerScaleDownProcess cv w = (Ret r, w') ∧
  match r with
  | Err _ =>
      cvst_Status st ≠ CVStatusHealthy ∨ AreSpecReplicasHealthy st cv = false ∨ GetRemovingReplicaID cv = "" →
      w' = w1
  | OK cv' =>
      cvst_Status st = CVStatusHealthy ∧ AreSpecReplicasHealthy st cv = true ∧ GetRemovingReplicaID cv ≠ "" ∧
      ∃ cv1 w2 c ids resp w3 cv2,
        lowered cv w1 cv1 w2 ∧
        cv_ReplicationFactor cv1 = cv_DesiredReplicationFactor cv ∧
        (cv_ReplicationFactor cv1 < 2 * cv_ConsistencyFactor cv1)%Z ∧
        (cv_ConsistencyFactor cv1 ≤ cv_ReplicationFactor cv1)%Z ∧
        SendCommand c w2 = (OK resp, w3) ∧ rejected resp = None ∧
        shell_words c = Some ([IstgtDRFCmd; name cv; pretty (cv_DesiredReplicationFactor cv)] ++ ids) ∧
        ids ≡ₚ (map_to_list (cv_KnownReplicas cv)).*1 ∧
        cv_Status_KnownReplicas cv2 = cv_KnownReplicas cv ∧ cv_spec cv2 = cv_spec cv1 ∧
        rUpdate (namespace cv1) cv2 w3 = (OK cv', w')
  end.
Proof.
  intros Hd Hn Hk Hf Hfree Hst. destruct (scale_down_returns cv w _ _ Hfree Hst) as (r & w' & Hr).
  exists r, w'. split; [done|]. destruct r as [cv'|e].
  - apply scale_down_dropped in Hr as (st' & w1' & cv1 & w2 & resp & w3 & Hst' & Hh & Ha & Hi & Hl & Hs & Hrej & Hu).
    rewrite Hst in Hst'. injection Hst' as <- <-. split_and!; [done..|].
    destruct (lowered_spec cv w1 cv1 w2 Hl) as (Hn1 & Hk1 & Hd1 & Hf1).
    destruct Hf1 as [Hrf [Hlo Hhi]]; [lia|lia|].
    destruct (scale_down_words cv1) as (ids & Hw & Hids); [done|by rewrite Hn1|by rewrite Hk1|].
    rewrite Hn1, Hd1 in Hw. rewrite Hk1 in Hids.
    exists cv1, w2, (GetScaleDownCommand cv1), ids, resp, w3,
      (cv1 {{ cv_Status_KnownReplicas := cv_KnownReplicas cv1 }}).
    split_and!; [done..|exact Hk1|done|exact Hu].
  - intros Hbad. by eapply scale_down_refused in Hr as [_ ->].
Qed.

End target.

(** ** Runs on a small volume *)

(** A volume that is scaled down from three replicas to two, and grows to 20 units. *)
Definition cv0 : CStorVolume :=
  {| cv_meta := meta_of "pvc-1" "v-1" []; cv_Capacity := 20; cv_TargetIP := "10.0.0.1"; cv_TargetPort := "3260";
     cv_Iqn := "iqn.2016-09.com.openebs.cstor:pvc-1"; cv_TargetPortal := "10.0.0.1:3260";
     cv_ReplicationFactor := 3; cv_DesiredReplicationFactor := 2; cv_ConsistencyFactor := 2;
     cv_KnownReplicas := {["A1" := "11"; "A2" := "12"]}; cv_Status_Capacity := 10;
     cv_Status_KnownReplicas := {["A1" := "11"; "A2" := "12"; "A3" := "13"]};
     cv_State := cv_new_state {{ cvs_Phase := "Healthy" }} {{ cvs_Conditions := [GetResizeCondition 0] }};
     cv_VersionDetails := version_at "3.0.0" |}.

Definition answer (c : string) : result (list string) :=
  if bool_decide (c = "REPLICA") then OK ["{pvc-1 Healthy"; "A1"; "A2"; "A3}"] else OK ["OK"].

Definition w_target : target_world :=
  {| tw_base := {| vc_base := w_empty; vc_cvcs := ∅; vc_cvs := {[(ns0, "pvc-1") := cv0]}; vc_svcs := ∅;
                   vc_pdbs := ∅; vc_policies := ∅; vc_pvcs := ∅ |};
     tw_events := ∅; tw_globals := {| TargetNamespace := ""; ConfFileLocked := false |};
     tw_conf := match CreateIstgtConf cv0 with OK text => lines text | Err _ => [] end;
     tw_answer := answer; tw_log := [] |}.

Lemma cv0_conf : conf_ok cv0.
Proof. split_and!; apply (bool_decide_unpack _); vm_compute; exact I. Qed.

Lemma target_file_witness :
  ∃ text, CreateIstgtConf cv0 = OK text ∧ conf_describes cv0 (conf_words text) ∧
    conf_replicas (conf_words text) = [("A1", "11"); ("A2", "12")].
Proof.
  destruct (target_file_roundtrip cv0 cv0_conf) as (text & Ht & Hd).
  exists text. split; [exact Ht|]. split; [exact Hd|]. injection Ht as <-. vm_compute. reflexivity.
Defined.

Lemma status_answer_witness :
  (∃ r, GetVolumeStatus w_target = (Ret r, final GetVolumeStatus w_target)) ∧
  (let w := w_target {{ tw_answer := λ _, OK ["ERR}"] }} in
   ∃ why, GetVolumeStatus w = (Panic why, final GetVolumeStatus w)).
Proof.
  split.
  - pose proof (status_answer w_target _ _ eq_refl) as Ha. rewrite decide_False in Ha by (apply (bool_decide_unpack _); vm_compute; exact I). exact Ha.
  - pose proof (status_answer (w_target {{ tw_answer := λ _, OK ["ERR}"] }}) _ _ eq_refl) as Ha.
    rewrite decide_True in Ha by (apply (bool_decide_unpack _); vm_compute; exact I). exact Ha.
Defined.

Lemma replica_dropped_witness : ∃ cv' w',
  triggerScaleDownProcess cv0 w_target = (Ret (OK cv'), w') ∧
  cv_ReplicationFactor cv' = 2%Z ∧ cv_Status_KnownReplicas cv' = {["A1" := "11"; "A2" := "12"]} ∧
  tw_log w' = ["REPLICA"; "DRF pvc-1 2 A1 A2 "].
Proof.
  pose proof (replica_dropped_safely cv0 w_target
    {| cvst_Name := "pvc-1"; cvst_Status := "Healthy";
       cvst_ReplicaStatuses := (λ i, {| rep_ID := i; rep_Mode := "Healthy" |}) <$> ["A1"; "A2"; "A3"] |}
    (final GetVolumeStatus w_target)) as Hs.
  destruct Hs as ([cv'|e] & w' & Hr & Hd).
  - apply (bool_decide_unpack _). vm_compute. exact I.
  - apply (bool_decide_unpack _). vm_compute. exact I.
  - apply (bool_decide_unpack _). vm_compute. exact I.
  - done.
  - reflexivity.
  - vm_compute. reflexivity.
  - exists cv', w'. split; [done|]. clear Hd. vm_compute in Hr. injection Hr as <- <-. by split_and!.
  - clear Hd. by vm_compute in Hr.
Defined.

