(* ===== verification/BackupProps.v ===== *)
(** * BackupProps: what backups and restores guarantee

    The properties of the backup and restore controllers and of the REST endpoints, with runs on
    a volume of two replicas. *)

From stdpp Require Import base gmap strings list sets pretty relations.
From Stdlib Require Import Ascii ZArith Lia.
From coqutil Require Import Datatypes.RecordSetters.
From S2P Require Import Prelude Steps Api Memory VolumeApi VolumeMemory Version Zcmd PoolApi PoolMemory BackupApi VolumeReplica CspiSync ReplicaSync Backup Restore Snapshot HttpServer BackupRest RestoreRest BackupFacts RestoreFacts Keyed BackupMemory Fixtures.
Import DoubleBraceUpdate.

(** ** Backups *)

Section transfers.
Context {W : Type} `{PodEnv} `{!Runner W} `{!Clock W}.

(** The words of the commands. *)
Definition send_words (s : CStorBackupSpec) (host port : string) : list string :=
  let snap n := GetPoolName +:+ "/" +:+ bs_VolumeName s +:+ "@" +:+ n in
  [VolumeReplicaOperator; BackupCmd] ++
  (if decide (bs_PrevSnapName s = "") then [] else ["-i"; snap (bs_PrevSnapName s)]) ++
  [snap (bs_SnapName s); "| nc -w 3 " +:+ host +:+ " " +:+ port].
Definition receive_words (s : CStorRestoreSpec) (host port : string) : list string :=
  ["nc -w 3 " +:+ host +:+ " " +:+ port +:+ " | "; VolumeReplicaOperator; RestoreCmd;
   " -F " +:+ GetPoolName +:+ "/" +:+ rsp_VolumeName s].

(** A transfer with a command: it ends at the first attempt that succeeds or fails after ten. *)
Definition at_most_ten (delay : Z) (cmd : list string) (m : M W (option error)) (w : W) : Prop :=
  (∃ k last w1 out w', k < 10 ∧ failed_attempts delay cmd k ("", None) w last w1 ∧
     RunCombinedOutput ExecuteScript cmd w1 = ((out, None), w') ∧ m w = (Ret None, w')) ∨
  (∃ out e w', failed_attempts delay cmd 10 ("", None) w (out, Some e) w' ∧ ∃ err, m w = (Ret (Some err), w')).

Lemma attempts_bounded delay cmd (g : output → option error) w :
  (∀ out, g (out, None) = None) → (∀ out e, ∃ err, g (out, Some e) = Some err) →
  at_most_ten delay cmd (let* o := transfer_attempts delay cmd 10 ("", None) in mret (g o)) w.
Proof.
  intros Hok Herr. unfold at_most_ten, mbind, M_bind.
  destruct (transfer_attempts_spec delay cmd 10 ("", None) w) as
    [(k & last & w1 & out & w' & Hk & Hf & Hr & Ht)|(last & w' & Hf & Ht)]; rewrite Ht.
  - left. exists k, last, w1, out, w'. rewrite Hok. done.
  - right. destruct (failed_attempts_error _ _ _ _ _ _ _ Hf) as (out & e & ->).
    destruct (Herr out e) as [err Hg]. exists out, e, w'. rewrite Hg. eauto.
Qed.

Lemma at_most_ten_run {delay cmd} m m' w : m' w = m w → at_most_ten delay cmd m w → at_most_ten delay cmd m' w.
Proof. unfold at_most_ten. by intros ->. Qed.

(** C20: a transfer of a backup runs the command that sends the snapshot, incrementally when there
    is one before, and a transfer of a restore the command that receives it, until the command
    succeeds and at most ten times, with a pause after each failure; it reports an error exactly
    when all ten attempts failed.  An address without a port makes it panic. *)
Theorem transfers_bounded (b : CStorBackup) (r : CStorRestore) (w : W) :
  match split_on ":"%char (bs_BackupDest (bkp_Spec b)) with
  | host :: port :: _ =>
      at_most_ten BackupRetryDelay (send_words (bkp_Spec b) host port) (CreateVolumeBackup b) w
  | _ => ∃ why, CreateVolumeBackup b w = (Panic why, w)
  end ∧
  match split_on ":"%char (rsp_RestoreSrc (rst_Spec r)) with
  | host :: port :: _ =>
      at_most_ten RestoreRetryDelay (receive_words (rst_Spec r) host port) (CreateVolumeRestore r) w
  | _ => ∃ why, CreateVolumeRestore r w = (Panic why, w)
  end.
Proof.
  split.
  - destruct (split_on _ _) as [|host [|port l]] eqn:Haddr;
      [unfold CreateVolumeBackup, buildVolumeBackupCommand; rewrite Haddr; eexists; by case_bool_decide..|].
    set (g := λ o : output, match o.2 with Some e => Some (Wrapf e "error: %s" [o.1]) | None => None end).
    apply (at_most_ten_run (let* o := transfer_attempts BackupRetryDelay (send_words (bkp_Spec b) host port) 10
      ("", None) in mret (g o))); [|apply attempts_bounded; unfold g; cbn; eauto].
    unfold CreateVolumeBackup, buildVolumeBackupCommand, send_words. rewrite Haddr.
    rewrite (bool_decide_decide (bs_PrevSnapName (bkp_Spec b) = "")).
    destruct (decide (bs_PrevSnapName (bkp_Spec b) = "")); unfold mbind, M_bind, lift; cbn [slice_at];
      match goal with |- context [transfer_attempts ?d ?c ?n ?o] => destruct (transfer_attempts d c n o w) as [[[]|] ?] eqn:Ht end;
      cbn in Ht |- *; rewrite Ht; reflexivity.
  - destruct (split_on _ _) as [|host [|port l]] eqn:Haddr;
      [unfold CreateVolumeRestore, buildVolumeRestoreCommand; rewrite Haddr; by eexists..|].
    apply (at_most_ten_run (let* o := transfer_attempts RestoreRetryDelay (receive_words (rst_Spec r) host port) 10
      ("", None) in mret o.2)); [|apply attempts_bounded; cbn; eauto].
    unfold CreateVolumeRestore, buildVolumeRestoreCommand, receive_words. rewrite Haddr.
    unfold mbind, M_bind, lift.
    match goal with |- context [transfer_attempts ?d ?c ?n ?o] => destruct (transfer_attempts d c n o w) as [[[]|] ?] eqn:Ht end;
      cbn in Ht |- *; rewrite Ht; reflexivity.
Qed.
End transfers.

Section backups.
Context {W : Type} `{OpenebsApi} `{VolumeApi} `{PoolApi} `{BackupApiLaws} `{PodEnv}.
Context `{!Runner W} `{!Clock W} `{!Env W}.
Context `{!ResourceClient W CStorBackup} `{!ResourceClient W CStorCompletedBackup}.
Context `{!ResourceClient W V1Alpha1CStorBackup} `{!ResourceClient W V1Alpha1CStorCompletedBackup}.
Context `{!ResourceClient W CStorVolumeReplica} `{!ResourceClient W CStorPoolInstance}.
Context `{!ResourceClient W CStorVolume} `{!ResourceClient W Pod} `{!ResourceClient W Node}.
Context `{!Codec CStorBackup} `{!ObjectStore W CStorBackup} `{!ObjectStore W V1Alpha1CStorBackup}.
Context `{!ObjectStore W CStorCompletedBackup} `{!ObjectStore W V1Alpha1CStorCompletedBackup}.
Context `{!Quiet W CStorBackup} `{!Quiet W CStorCompletedBackup} `{!Quiet W V1Alpha1CStorCompletedBackup}.
Context `{!Apart W CStorBackup CStorCompletedBackup} `{!Apart W CStorBackup V1Alpha1CStorCompletedBackup}.
Context `{!Apart W CStorBackup V1Alpha1CStorBackup}.
Context `{!Apart W CStorCompletedBackup CStorBackup} `{!Apart W V1Alpha1CStorCompletedBackup CStorBackup}.
Context `{!Apart W V1Alpha1CStorCompletedBackup CStorCompletedBackup}.
Context `{!Apart W CStorCompletedBackup V1Alpha1CStorCompletedBackup}.
Context (snapshotter : option (Snapshotter W)) (json_Marshal_backup : backupHelper → result string).
Context (resp_Write : string → option error).

(** C9: an event of a backup, in whatever order the accepted and refused updates come, is a run of
    the specification of a backup: pending, initialised, in progress, recorded in the history of
    its schedule and done, or failed; a backup that becomes done is the latest of its schedule. *)
Theorem backup_event_refines key op b (w : W) h :
  cache_SplitMetaNamespaceKey key = OK (namespace b, name b) →
  rGet w (namespace b) (name b) = OK b → abs b w (bkp_Status b) h →
  ∃ s' h', abs b (final (BackupController.syncHandler key op) w) s' h' ∧
    rtc (backup_spec (bs_SnapName (bkp_Spec b))) (bkp_Status b, h) (s', h') ∧
    (bkp_Status b ≠ BKPCStorStatusDone → s' = BKPCStorStatusDone → hd "" h' = bs_SnapName (bkp_Spec b)).
Proof.
  intros Hk Hg Habs. destruct (syncHandler_refines key op b w h Hk Hg Habs) as (s' & h' & Ha & Hr).
  exists s', h'. split; [done|]. split; [done|]. intros Hs ->. by eapply spec_done_latest.
Qed.

(** C11: backups of a schedule are incremental: when the pool manager has finished a backup, the next
    backup of the schedule that the REST server accepts is stored as pending and starts from the
    snapshot of the finished one. *)
Theorem backups_incremental key op b (w : W) h b2 a w2 :
  let w1 := final (BackupController.syncHandler key op) w in
  let s2 := bkp_Spec b2 in
  cache_SplitMetaNamespaceKey key = OK (namespace b, name b) →
  rGet w (namespace b) (name b) = OK b → abs b w (bkp_Status b) h → bkp_Status b ≠ BKPCStorStatusDone →
  status_at w1 (namespace b, name b) = Some BKPCStorStatusDone →
  namespace b2 = namespace b → bs_BackupName s2 = bs_BackupName (bkp_Spec b) →
  bs_VolumeName s2 = bs_VolumeName (bkp_Spec b) →
  one_history w1 (namespace b) (BackupController.lastbkpname b) →
  create_remote b2 w1 = (Ret (answered a), w2) →
  stored_pending s2 (bs_SnapName (bkp_Spec b)) (namespace b) (bs_SnapName s2 +:+ "-" +:+ bs_VolumeName s2) w2.
Proof.
  intros w1 s2 Hk Hg Habs Hs Hdone Hns Hbn Hvn Hone Hc.
  destruct (syncHandler_refines key op b w h Hk Hg Habs) as (s' & h' & Ha & Hr). fold w1 in Ha.
  pose proof Ha as ((b' & Hg' & _ & _ & Hst) & Hl & _).
  unfold status_at in Hdone. cbn in Hdone. rewrite Hg' in Hdone. injection Hdone as Hd.
  rewrite <-Hst, Hd in Hr. rewrite <-(spec_done_latest _ _ _ _ Hs Hr), <-Hns.
  assert (Hsched : BackupController.lastbkpname b = bs_BackupName s2 +:+ "-" +:+ bs_VolumeName s2)
    by (unfold BackupController.lastbkpname; by rewrite Hbn, Hvn).
  rewrite Hsched, <-Hns in Hone, Hl. by eapply create_remote_stores.
Qed.

(** A step after which the backup still exists. *)
Definition step_keeping (k : string * string) (w w' : W) : Prop :=
  backup_step snapshotter json_Marshal_backup resp_Write w w' ∧ status_at w' k ≠ None.

(** C14: a backup that is done or failed keeps this status for as long as it exists, whatever events,
    restarts of the pool manager and requests to the REST server follow. *)
Theorem completed_backup_final k s (w w' : W) :
  quiet_snapshotter snapshotter → completed s → status_at w k = Some s →
  rtc (step_keeping k) w w' → status_at w' k = Some s.
Proof.
  intros Hq Hc Hs Hr. revert Hs. induction Hr as [|w1 w2 w3 [Hstep Hex] _ IH]; intros Hs; [done|].
  apply IH. by destruct (step_settled _ _ _ _ _ _ _ Hq Hstep Hc Hs).
Qed.

(** What the completed backup of a schedule says of a backup, in the version of the backup. *)
Definition transferred (w : W) (h : backupHelper) : bool :=
  match h with
  | V1Backup b =>
      match rGet (Obj:=CStorCompletedBackup) w (namespace b) (v1BackupWrapper.lastbkpname b) with
      | OK c => bool_decide (bs_SnapName (bkp_Spec b) ∈ [cb_LastSnapName c; cb_SecondLastSnapName c])
      | Err _ => false
      end
  | V1Alpha1Backup b =>
      match rGet (Obj:=V1Alpha1CStorCompletedBackup) w (namespace b) (v1Alpha1BackupWrapper.lastbkpname b) with
      | OK c => bool_decide (bs_SnapName (abkp_Spec b) ∈ [bs_SnapName (acb_Spec c); bs_PrevSnapName (acb_Spec c)])
      | Err _ => false
      end
  end.
(** The backup that a request reports: one that is not completed and whose pool manager is down is
    done when its snapshot was transferred, else failed. *)
Definition pool_down (w : W) (h : backupHelper) : bool :=
  negb (isBackupCompleted h) &&
  (checkIfPoolManagerNodeDown (getCSPIName h) getOpenEBSNamespace w ||
   checkIfPoolManagerDown (getCSPIName h) getOpenEBSNamespace w).
Definition final_status (w : W) (h : backupHelper) : string :=
  match h with
  | V1Backup _ => if transferred w h then BKPCStorStatusDone else BKPCStorStatusFailed
  | V1Alpha1Backup _ => if transferred w h then ABKPCStorStatusDone else ABKPCStorStatusFailed
  end.
Definition reported (w : W) (h : backupHelper) : backupHelper :=
  if pool_down w h then setBackupStatus (final_status w h) h else h.
Definition report_write (h : backupHelper) (w : W) : W :=
  match h with
  | V1Backup b => (rUpdate (namespace b) b w).2
  | V1Alpha1Backup b => (rUpdate (namespace b) b w).2
  end.

Lemma elem_of_pair (x y z : string) : bool_decide (x ∈ [y; z]) = bool_decide (x = y) || bool_decide (x = z).
Proof. repeat case_bool_decide; try done; set_solver. Qed.
Lemma settle_stalled_run h w :
  settle_stalled h w = (Ret (reported w h), if pool_down w h then report_write (reported w h) w else w).
Proof.
  unfold settle_stalled, reported, pool_down. destruct (isBackupCompleted h); cbn [negb andb]; [done|].
  unfold mbind at 1, M_bind at 1, reads at 1. unfold mbind at 1, M_bind at 1, reads at 1.
  destruct (_ || _); [|done]. unfold final_status, transferred.
  destruct h as [b|b]; cbn [findLastBackupStat updateBackupStatus setBackupStatus];
    unfold v1Alpha1BackupWrapper.findLastBackupStat, v1BackupWrapper.findLastBackupStat, mbind, M_bind, reads, call;
    destruct (rGet _ (namespace b) _) as [c|e]; rewrite ?elem_of_pair;
    try (destruct (bool_decide _ || bool_decide _));
    unfold v1Alpha1BackupWrapper.updateBackupStatus, v1BackupWrapper.updateBackupStatus,
      v1Alpha1BackupWrapper.setBackupStatus, v1BackupWrapper.setBackupStatus, mbind, M_bind, call; cbn;
    by destruct (rUpdate _ _ w).
Qed.

(** C32: a request for the state of a backup reports the backup as it is stored, except that one
    that is not completed and whose pool manager is down is settled: done when its snapshot is one
    of the last two of its schedule, else failed.  A backup that does not exist makes the server
    panic. *)
Theorem backup_reported req b (w : W) :
  decodeBody req = OK b →
  blank (bs_BackupName (bkp_Spec b)) || blank (namespace b) || blank (bs_VolumeName (bkp_Spec b)) = false →
  let n := bs_SnapName (bkp_Spec b) +:+ "-" +:+ bs_VolumeName (bkp_Spec b) in
  let get := backup_get json_Marshal_backup resp_Write req in
  match getBackupInterface n (namespace b) w with
  | Err _ => ∃ e, get w = (Ret (failed e), w)
  | OK None => ∃ why, get w = (Panic why, w)
  | OK (Some h) =>
      final get w = (if pool_down w h then report_write (reported w h) w else w) ∧
      ∀ out, json_Marshal_backup (reported w h) = OK out → resp_Write out = None →
        value get w = Ret (wrote out)
  end.
Proof.
  intros Hb Hv n get. apply orb_false_iff in Hv as [[H1' H2']%orb_false_iff H3'].
  assert (Hget : get w = match getBackupInterface n (namespace b) w with
    | Err err => (Ret (failed (CodedError 400 (Wrapf err "failed to get backup interface error: %v" []))), w)
    | OK None => (Panic "nil pointer dereference", w)
    | OK (Some h) =>
        (Ret match json_Marshal_backup (reported w h) with
             | Err _ => failed (CodedError 400 (Errorf "Failed to encode response data" []))
             | OK out => match resp_Write out with
                         | Some _ => failed (CodedError 400 (Errorf "Failed to send response data" []))
                         | None => wrote out
                         end
             end, if pool_down w h then report_write (reported w h) w else w)
    end).
  { unfold get, backup_get. rewrite Hb, H1', H2', H3'. unfold mbind at 1, M_bind at 1, reads at 1. fold n.
    destruct (getBackupInterface n (namespace b) w) as [[h|]|e]; [|done..].
    rewrite (bind_run _ _ _ _ _ (settle_stalled_run h w)). by repeat case_match. }
  unfold final, value. rewrite Hget. destruct (getBackupInterface n (namespace b) w) as [[h|]|e]; [|by eexists..].
  split; [done|]. by intros out -> ->.
Qed.
End backups.

(** ** Restores *)

Section restore_claims.
Context {W : Type} `{OpenebsApi} `{VolumeApi} `{PoolApi} `{BackupApiLaws} `{PodEnv} `{BuildInfo}.
Context `{!Runner W} `{!Clock W} `{!Env W} `{!Uuid W}.
Context `{!ResourceClient W CStorRestore} `{!ResourceClient W V1Alpha1CStorRestore}.
Context `{!ResourceClient W CStorVolumeReplica} `{!ResourceClient W CStorPoolInstance}.
Context `{!ResourceClient W CStorVolume} `{!ResourceClient W CStorVolumeConfig}.
Context `{!ResourceClient W StorageClass} `{!ResourceClient W Pod} `{!ResourceClient W Node}.
Context `{!Codec CStorRestore} `{!ObjectStore W CStorRestore} `{!ObjectStore W V1Alpha1CStorRestore}.
Context `{!Quiet W CStorRestore} `{!Apart W CStorRestore V1Alpha1CStorRestore}.
Context `{!Apart W V1Alpha1CStorRestore CStorRestore} `{!Apart W CStorRestore CStorVolumeConfig}.
Context (json_Marshal_status : string → result string) (resp_Write : string → option error).

(** C18: the status of every restore is one of the values of its type, after any number of events,
    starts of the pool manager and requests. *)
Theorem restore_statuses_typed (w w' : W) :
  quiet_uuid → typed w → rtc (restore_step json_Marshal_status resp_Write) w w' → typed w'.
Proof.
  intros Hq Hw Hr. induction Hr as [|w1 w2 w3 Hstep _ IH]; [done|]. apply IH. by eapply restore_step_typing.
Qed.


(** C7: a restore request that is answered has found replicas of the volume and stored a pending
    restore for each of them, with the labels of the replica and in the version that the pool of
    the replica reports, and returns the portal of the volume. *)
Theorem restores_created r (w : W) ans w' :
  fresh_uuid → createRestore r w = (Ret (answered ans), w') →
  let volume := rsp_VolumeName (rst_Spec r) in
  ∃ cvrs cspc cspis m,
    rList w "" (PersistentVolumeLabelKey +:+ "=" +:+ volume) = OK cvrs ∧ cvrs ≠ [] ∧
    rList w "" (CStorPoolClusterLabelKey +:+ "=" +:+ cspc) = OK cspis ∧ versions_of cspis m ∧
    (∀ cvr c, cvr ∈ cvrs → c ∈ cspis → name c = label (labels cvr) CStorPoolInstanceNameLabelKey →
       is_Some (m !! name c)) ∧
    (∀ cvr, cvr ∈ cvrs → restore_stored m (rst_Spec r) (namespace r) w' cvr) ∧
    ∃ cv, rGet w' getOpenEBSNamespace volume = OK cv ∧
      ans = AnswerISCSI {| TargetPortal := cv_TargetPortal cv; IQN := cv_Iqn cv; ReadOnly := false |}.
Proof. apply createRestore_complete. Qed.
End restore_claims.

(** ** Runs: the volume v-1 with replicas on two pools, the second one of an older version *)

Definition replica_on (pool : string) : CStorVolumeReplica :=
  {| cvr_meta := meta_of ("v-1-" +:+ pool) "" [("openebs.io/persistent-volume", "v-1");
       ("cstorpoolinstance.openebs.io/name", pool); ("cstorpoolinstance.openebs.io/uid", "u-" +:+ pool)];
     cvr_TargetIP := "10.0.0.1"; cvr_Capacity := "5G"; cvr_ZvolWorkers := ""; cvr_ReplicaID := "r-" +:+ pool;
     cvr_Status := cvr_status_of "Healthy"; cvr_VersionDetails := version_at "3.0.0" |}.
Definition pool_at (v pool : string) : CStorPoolInstance :=
  (cspi_of pool "c1" "n1" "stripe" [["a1"]]) {{ cspi_VersionDetails := version_at v }}.
Definition pod_of (pool : string) (ready : bool) : Pod :=
  {| pd_meta := meta_of (pool +:+ "-pod") "" [("app", "cstor-pool"); ("openebs.io/cstor-pool-instance", pool)];
     pd_NodeName := "n1"; pd_ContainerStatuses := [("cstor-pool-mgmt", ready)] |}.
Definition volume_v1 : CStorVolume :=
  build_cv {| va_name := "v-1"; va_labels := ∅; va_owners := []; va_capacity := "5G"; va_targetIP := "10.0.0.1";
    va_port := "3260"; va_iqn := "iqn.2016-09.com.openebs.cstor:v-1"; va_portal := "10.0.0.1:3260";
    va_replicationFactor := 2; va_desiredReplicationFactor := 2; va_consistencyFactor := 2; va_version := "3.0.0" |}.
Definition the_spec (snap prev : string) : CStorBackupSpec :=
  {| bs_BackupName := "daily"; bs_VolumeName := "v-1"; bs_SnapName := snap; bs_PrevSnapName := prev;
     bs_BackupDest := "10.0.0.9:3000"; bs_LocalSnap := false |}.
Definition backup_at (snap prev status : string) : CStorBackup :=
  {| bkp_meta := meta_of (snap +:+ "-v-1") "" [("cstorpoolinstance.openebs.io/name", "c1-p1")];
     bkp_Spec := the_spec snap prev; bkp_Status := status |}.
Definition history_of (last second : string) : CStorCompletedBackup :=
  {| cb_meta := meta_of "daily-v-1" "" []; cb_BackupName := "daily"; cb_VolumeName := "v-1";
     cb_SecondLastSnapName := second; cb_LastSnapName := last |}.
Definition restore_of (n pool status : string) : CStorRestore :=
  {| rst_meta := meta_of n "" [("openebs.io/restore", "r"); ("openebs.io/persistent-volume", "v-1");
       ("cstorpoolinstance.openebs.io/name", pool)];
     rst_Spec := {| rsp_RestoreName := "r"; rsp_VolumeName := "v-1"; rsp_RestoreSrc := "10.0.0.9:3000";
       rsp_MaxRetryCount := 0; rsp_RetryCount := 0; rsp_StorageClass := ""; rsp_Size := 0; rsp_Local := false |};
     rst_Status := status |}.

(** The first attempt of a transfer fails, the next one succeeds. *)
Definition flaky (log : list (list string)) (args : list string) : output :=
  match log with [] => ("no route to host", Some (Errorf "exit status 1" [])) | _ => ("", None) end.
Definition backup_cluster (bkps : list CStorBackup) (last : string) (rsts : list CStorRestore) : backup_world :=
  {| bw_base :=
       {| vc_base := {| c_nodes := {[("", "n1") := node_of "n1" "n1"]}; c_bds := ∅; c_bdcs := ∅; c_cspcs := ∅;
            c_cspis := store [pool_at "3.0.0" "c1-p1"; pool_at "1.12.0" "c1-p2"];
            c_cvrs := store (replica_on <$> ["c1-p1"; "c1-p2"]); c_deploys := ∅; c_clock := 7; c_seed := 0;
            c_events := [] |};
          vc_cvcs := ∅; vc_cvs := store [volume_v1]; vc_svcs := ∅; vc_pdbs := ∅; vc_policies := ∅; vc_pvcs := ∅ |};
     bw_bkps := store bkps; bw_abkps := ∅; bw_cbs := store [history_of last ""]; bw_acbs := ∅;
     bw_rsts := store rsts; bw_arsts := ∅; bw_pods := store [pod_of "c1-p1" true; pod_of "c1-p2" false];
     bw_scs := ∅; bw_tool := flaky; bw_log := []; bw_time := 0 |}.

Definition b_init : CStorBackup := backup_at "s1" "s0" "Init".
Definition w_init : backup_world := backup_cluster [b_init] "s0" [].
Definition w_done : backup_world := final (BackupController.syncHandler "openebs/s1-v-1" QOpSync) w_init.
Lemma w_init_abs : abs b_init w_init (bkp_Status b_init) ["s0"].
Proof.
  split; [eexists; vm_compute; split_and!; reflexivity|]. split; [vm_compute; reflexivity|].
  split; [intros a; vm_compute; discriminate|]. intros c. vm_compute. by intros [= <-].
Qed.

Lemma backup_event_witness :
  ∃ s' h', abs b_init w_done s' h' ∧
    rtc (backup_spec (bs_SnapName (bkp_Spec b_init))) (bkp_Status b_init, ["s0"]) (s', h') ∧
    (bkp_Status b_init ≠ BKPCStorStatusDone → s' = BKPCStorStatusDone → hd "" h' = bs_SnapName (bkp_Spec b_init)).
Proof.
  apply (backup_event_refines (W:=backup_world) "openebs/s1-v-1" QOpSync b_init w_init ["s0"]);
    [reflexivity|vm_compute; reflexivity|exact w_init_abs].
Defined.

(** The next backup of the schedule. *)
Definition b_next : CStorBackup := backup_at "s2" "" "".
Lemma backups_incremental_witness :
  stored_pending (bkp_Spec b_next) "s1" "openebs" "s2-v-1" (final (create_remote b_next) w_done).
Proof.
  apply (backups_incremental (W:=backup_world) "openebs/s1-v-1" QOpSync b_init w_init ["s0"] b_next
    (AnswerText "") (final (create_remote b_next) w_done)).
  1, 6, 7, 8: reflexivity.
  - vm_compute. reflexivity.
  - exact w_init_abs.
  - by vm_compute.
  - vm_compute. reflexivity.
  - right. vm_compute. eauto.
  - change (run (create_remote b_next) w_done (answered (AnswerText ""))). apply run_ok. vm_compute. reflexivity.
Defined.

Lemma completed_backup_witness :
  let k := ("openebs", "s1-v-1") in
  rtc (step_keeping None (λ _, OK "") (λ _, None) k) w_done (final BackupController.cleanupOldBackup w_done) ∧
  status_at (final BackupController.cleanupOldBackup w_done) k = Some "Done".
Proof.
  intros k.
  assert (Hr : rtc (step_keeping None (λ _, OK "") (λ _, None) k) w_done (final BackupController.cleanupOldBackup w_done)).
  { apply rtc_once. split; [apply step_start|]. vm_compute. discriminate. }
  split; [exact Hr|].
  apply (completed_backup_final (W:=backup_world) None (λ _, OK "") (λ _, None) k "Done" w_done);
    [done|by left|vm_compute; reflexivity|exact Hr].
Defined.

(** A request for a backup whose pool manager is down, and for one that does not exist. *)
Definition words_request (method body : string) : Request :=
  {| req_Method := method; req_Path := "/latest/backups/"; req_Query := ∅;
     req_ContentType := Some "application/json"; req_Body := OK body |}.
Lemma backup_reported_witness :
  let get := words_request "GET" "daily v-1 s9 10.0.0.9:3000 openebs" in
  ∃ why, backup_get (λ _, OK "") (λ _, None) get w_init = (Panic why, w_init).
Proof.
  exact (backup_reported (W:=backup_world) (λ _, OK "") (λ _, None)
    (words_request "GET" "daily v-1 s9 10.0.0.9:3000 openebs")
    ((backup_at "s9" "" "") {{ bkp_meta := new_meta "" "openebs" ∅ }}) w_init eq_refl eq_refl).
Defined.

Definition w_restores : backup_world :=
  backup_cluster [] "s0" [restore_of "r-1" "c1-p1" "Done"; restore_of "r-2" "c1-p2" "Init"].

Lemma w_restores_typed : typed w_restores.
Proof.
  intros ns n r. unfold rGet, backup_clients, keyed_client. cbn [store_of rst_stored bw_rsts w_restores backup_cluster].
  destruct (store [restore_of "r-1" "c1-p1" "Done"; restore_of "r-2" "c1-p2" "Init"] !! (ns, n)) as [o|] eqn:Hl; [|done].
  intros [= <-]. unfold store in Hl. cbn [fmap list_fmap] in Hl. rewrite !list_to_map_cons in Hl.
  apply lookup_insert_Some in Hl as [[_ <-]|[_ [[_ <-]|[_ Hl]]%lookup_insert_Some]];
    [vm_compute; reflexivity..|done].
Qed.

Lemma restore_typed_witness :
  typed (final (RestoreController.syncHandler "openebs/r-2" QOpSync) w_restores).
Proof.
  apply (restore_statuses_typed (W:=backup_world) (λ _, OK "") (λ _, None) w_restores);
    [exact backup_uuid_quiet|exact w_restores_typed|apply rtc_once, restore_event].
Defined.


Lemma restores_created_witness :
  let r := restore_of "" "" "" in
  let w' := final (createRestore r) w_restores in
  ∃ cvrs cspc cspis m,
    rList w_restores "" (PersistentVolumeLabelKey +:+ "=" +:+ "v-1") = OK cvrs ∧ cvrs ≠ [] ∧
    rList w_restores "" (CStorPoolClusterLabelKey +:+ "=" +:+ cspc) = OK cspis ∧ versions_of cspis m ∧
    (∀ cvr c, cvr ∈ cvrs → c ∈ cspis → name c = label (labels cvr) CStorPoolInstanceNameLabelKey →
       is_Some (m !! name c)) ∧
    (∀ cvr, cvr ∈ cvrs → restore_stored m (rst_Spec r) (namespace r) w' cvr) ∧
    ∃ cv, rGet w' getOpenEBSNamespace "v-1" = OK cv ∧
      AnswerISCSI {| TargetPortal := "10.0.0.1:3260"; IQN := "iqn.2016-09.com.openebs.cstor:v-1"; ReadOnly := false |} =
        AnswerISCSI {| TargetPortal := cv_TargetPortal cv; IQN := cv_Iqn cv; ReadOnly := false |}.
Proof.
  intros r w'. apply (restores_created (W:=backup_world) r w_restores); [exact backup_uuid_fresh|].
  match goal with |- _ = (Ret ?a, _) => change (run (createRestore r) w_restores a) end.
  apply run_ok. vm_compute. reflexivity.
Defined.
