(* ===== verification/ServerProps.v ===== *)
(** * ServerProps: what the servers of a target guarantee

    The properties of the replication server of the volume manager and of the snapshots that the
    operator takes through the snapshot service, with runs on a volume that waits for its third
    replica. *)

From stdpp Require Import base gmap strings list sets relations pretty.
From Stdlib Require Import Ascii ZArith Lia.
From coqutil Require Import Datatypes.RecordSetters.
From S2P Require Import Prelude Steps Api Memory Version VolumeApi VolumeMemory PoolApi PoolMemory TargetApi TargetMemory StringFacts TargetServer Snapshot BackupFacts ServerFacts Keyed Fixtures.
Import DoubleBraceUpdate.

(** C35: however a request and its end are cut into pieces on the way, with empty reads in between,
    the reader returns exactly the request when its last byte has come, and waits for more before. *)
Theorem request_framing (m : string) (pre post : list string) :
  strings_Contains m endOfData = false → join "" (pre ++ post) = m +:+ endOfData →
  Reader ((λ b, (b, None)) <$> pre ++ post) = Some (OK m) ∧
  (join "" post ≠ "" → Reader ((λ b, (b, None)) <$> pre) = None).
Proof.
  intros Hm Hj. split; [apply Reader_loop_frames; [done|done|by destruct m]|].
  rewrite join_empty_app in Hj. intros Hp. by eapply Reader_loop_waits.
Qed.

Section registration.
Context {W : Type} `{TargetApi} `{PoolApi} `{!Target W} `{!ResourceClient W CStorVolume}.
Context `{!ObjectStore W CStorVolume}.
Context (ns : string) (json_CVReplicationDetails : string → result CVReplicationDetails).

(** C39: whatever requests the replication server of a volume is sent, the factors of the volume
    never fall, no known replica is lost, and new replicas are added only up to the desired
    replication factor; a request is answered with Ok only when the replica and the factors are
    recorded in the volume. *)
Theorem replica_registration (w w' : W) n cv input w'' :
  quiet_target → rtc (serve_step ns json_CVReplicationDetails) w w' → volume_at ns w n cv →
  (∃ cv', volume_at ns w' n cv' ∧ registered cv cv') ∧
  (ServeRequest ns json_CVReplicationDetails input w' = (Ret (Some (respOk +:+ endOfData)), w'') →
   ∃ text csr, Reader input = Some (OK text) ∧ json_CVReplicationDetails text = OK csr ∧
     (crd_VolumeName csr = n → ∃ cv'', volume_at ns w'' n cv'' ∧ registered cv cv'' ∧
        cv_KnownReplicas cv'' !! crd_ReplicaID csr = Some (crd_ReplicaGUID csr) ∧
        cv_Status_KnownReplicas cv'' !! crd_ReplicaID csr = Some (crd_ReplicaGUID csr) ∧
        cv_ReplicationFactor cv'' = crd_ReplicationFactor csr ∧
        cv_ConsistencyFactor cv'' = crd_ConsistencyFactor csr)).
Proof.
  intros Hq Hr Hv. destruct (serve_registered _ _ _ _ _ _ Hq Hr Hv) as (cv' & Hv' & Hreg).
  split; [by exists cv'|]. intros Hs.
  destruct (serve_run ns json_CVReplicationDetails input w') as
    [(r & Hrun & Hne)|(text & csr & r & w1 & Hread & Hj & Hu & Hrun)]; rewrite Hs in Hrun; [congruence|].
  exists text, csr. split; [done|]. split; [done|]. intros Hn. injection Hrun as Hr1 ->.
  destruct (update_registered ns csr w' r w1 n cv' Hq Hu Hv') as (cv'' & Hv'' & Hreg' & Hok).
  destruct r as [[e|]|why]; [discriminate| |discriminate].
  exists cv''. split; [done|]. split; [by etrans|]. by apply Hok.
Qed.
End registration.

Section snapshots.
Context {W : Type} `{VolumeApi} `{!Target W} `{!ResourceClient W CStorVolume} `{CommandJsonLaws}.

(** The state of a call after the target has answered a command: an error when the target cannot be
    reached, and when the second line of the answer has the letters ERR or is missing. *)
Definition target_answers (cmd : list string) (m : M W (result (option string))) (w : W) : Prop :=
  let '(answer, w') := SendCommand (join " " cmd) w in
  match answer with
  | OK (_ :: line :: _) =>
      if strings_Contains line "ERR" then ∃ e, m w = (Ret (Err e), w')
      else ∃ status, m w = (Ret (OK (Some status)), w') ∧ json_CommandStatus status = line
  | _ => ∃ e, m w = (Ret (Err e), w')
  end.

(** What the service makes of the answer to a command. *)
Lemma service_answers (cmd : list string) (fmt : string) (m : M W (result (option string))) (w : W) :
  (let '(answer, w') := SendCommand (join " " cmd) w in
   match answer with
   | OK _ => m w = (Ret (check_response fmt (Some (json_Marshal_CommandStatus (VolumeRpc.answer_line answer)))), w')
   | Err _ => ∃ e, m w = (Ret (Err e), w')
   end) →
  target_answers cmd m w.
Proof.
  unfold target_answers, check_response. destruct (SendCommand (join " " cmd) w) as [[[|a [|line l]]|e] w'];
    cbn [VolumeRpc.answer_line]; rewrite ?CommandStatus_roundtrip; try done; try (intros ->; by eexists).
  destruct (strings_Contains line "ERR"); intros ->; eexists; [reflexivity|].
  by rewrite CommandStatus_roundtrip.
Qed.
Lemma target_answers_wrapped cmd (m m' : M W (result (option string))) fmt args w :
  m' w = (let '(r, w') := m w in match r with Ret x => (Ret (wrap_result x fmt args), w') | Panic why => (Panic why, w') end) →
  target_answers cmd m w → target_answers cmd m' w.
Proof.
  unfold target_answers. intros ->. destruct (SendCommand _ w) as [[[|a [|line l]]|e] w'];
    try (intros [x ->]; by eexists). destruct (strings_Contains line "ERR"); [intros [x ->]; by eexists|].
  intros (st & -> & Hst). by exists st.
Qed.

(** The calls of the client reach the target. *)
Lemma snap_created address ip volume snap (w : W) :
  net_JoinHostPort ip "7777" = address →
  @SnapClient_CreateSnapshot W (connected_service address) _ ip volume snap w =
    (let '(answer, w') := SendCommand (join " " ["SNAPCREATE"; volume; snap; "10"; "60"]) w in
     match answer with
     | OK _ => (Ret (check_response "Snapshot create failed with error : %v" (Some (json_Marshal_CommandStatus (VolumeRpc.answer_line answer)))), w')
     | Err _ => (Ret (Err (Errorf "Error when calling RunVolumeSnapCreateCommand: %s" [])), w')
     end).
Proof.
  intros <-. unfold SnapClient_CreateSnapshot. change (pretty VolumeGrpcListenPort) with "7777".
  unfold mbind at 1, M_bind at 1, reads at 1. cbn [grpc_Dial connected_service]. rewrite bool_decide_eq_true_2 by done.
  unfold mbind, M_bind, call. cbn [rpc_VolumeSnapCreate connected_service].
  unfold serve, VolumeRpc.RunVolumeSnapCreateCommand, VolumeRpc.CreateSnapshot, mbind, M_bind, call.
  match goal with |- context [VolumeRpc.snap_command ?c ?r] =>
    change (VolumeRpc.snap_command c r) with (join " " ["SNAPCREATE"; volume; snap; "10"; "60"]) end.
  by destruct (SendCommand _ w) as [[l|e] w'].
Qed.
Lemma snap_destroyed address ip volume snap (w : W) :
  net_JoinHostPort ip "7777" = address →
  @SnapClient_DestroySnapshot W (connected_service address) _ ip volume snap w =
    (let '(answer, w') := SendCommand (join " " ["SNAPDESTROY"; volume; snap; "10"; "60"]) w in
     match answer with
     | OK _ => (Ret (check_response "Snapshot deletion failed with error : %v" (Some (json_Marshal_CommandStatus (VolumeRpc.answer_line answer)))), w')
     | Err _ => (Ret (Err (Errorf "Error when calling RunVolumeSnapDeleteCommand: %s" [])), w')
     end).
Proof.
  intros <-. unfold SnapClient_DestroySnapshot. change (pretty VolumeGrpcListenPort) with "7777".
  unfold mbind at 1, M_bind at 1, reads at 1. cbn [grpc_Dial connected_service]. rewrite bool_decide_eq_true_2 by done.
  unfold mbind, M_bind, call. cbn [rpc_VolumeSnapDelete connected_service].
  unfold serve, VolumeRpc.RunVolumeSnapDeleteCommand, VolumeRpc.DeleteSnapshot, mbind, M_bind, call.
  match goal with |- context [VolumeRpc.snap_command ?c ?r] =>
    change (VolumeRpc.snap_command c r) with (join " " ["SNAPDESTROY"; volume; snap; "10"; "60"]) end.
  by destruct (SendCommand _ w) as [[l|e] w'].
Qed.

(** C36: a snapshot of a volume, from the operator over the snapshot service to the target: the
    target of the volume is sent one command with the volume and the snapshot, and the operator
    succeeds exactly when the target confirms it; the same for the deletion. *)
Theorem snapshot_end_to_end (address : string) (s : Snapshot W) cv (w : W) :
  ss_SnapClient s = Some (@SnapClient W (connected_service address) _) →
  rGet w (ss_Namespace s) (ss_VolumeName s) = OK cv →
  net_JoinHostPort (cv_TargetIP cv) "7777" = address →
  target_answers ["SNAPCREATE"; ss_VolumeName s; ss_SnapshotName s; "10"; "60"] (CreateSnapshot s) w ∧
  target_answers ["SNAPDESTROY"; ss_VolumeName s; ss_SnapshotName s; "10"; "60"] (DeleteSnapshot s) w.
Proof.
  intros Hc Hg Ha. unfold CreateSnapshot, DeleteSnapshot, getVolumeIP. rewrite Hc. split.
  - apply (target_answers_wrapped _ (@SnapClient_CreateSnapshot W (connected_service address) _ (cv_TargetIP cv)
      (ss_VolumeName s) (ss_SnapshotName s)) _ "failed to create snapshot: %s for volume: %s"
      [ss_SnapshotName s; ss_VolumeName s]); [unfold mbind, M_bind, reads; rewrite Hg; reflexivity|].
    apply (service_answers _ "Snapshot create failed with error : %v"). rewrite snap_created; [|done].
    by destruct (SendCommand _ w) as [[l|e] w']; [|eexists].
  - apply (target_answers_wrapped _ (@SnapClient_DestroySnapshot W (connected_service address) _ (cv_TargetIP cv)
      (ss_VolumeName s) (ss_SnapshotName s)) _ "failed to delete snapshot: %s for volume: %s"
      [ss_SnapshotName s; ss_VolumeName s]); [unfold mbind, M_bind, reads; rewrite Hg; reflexivity|].
    apply (service_answers _ "Snapshot deletion failed with error : %v"). rewrite snap_destroyed; [|done].
    by destruct (SendCommand _ w) as [[l|e] w']; [|eexists].
Qed.
End snapshots.

(** ** Runs *)

Definition request3 : string := "v-1 3 2 R3 13".
Definition pieces3 : list string := ["v-1 3"; ""; " 2 R3 13" +:+ String (Ascii.ascii_of_nat 13) ""].
Definition last_piece : list string := [String (Ascii.ascii_of_nat 10) ""].

Lemma request_framing_witness :
  Reader ((λ b, (b, None)) <$> pieces3 ++ last_piece) = Some (OK request3) ∧
  Reader ((λ b, (b, None)) <$> pieces3) = None.
Proof.
  destruct (request_framing request3 pieces3 last_piece) as [Ha Hb]; [reflexivity..|].
  split; [exact Ha|by apply Hb].
Defined.

(** A volume of two replicas that wants three; a request is the words of its fields. *)
Definition cv2 : CStorVolume :=
  (build_cv {| va_name := "v-1"; va_labels := ∅; va_owners := []; va_capacity := "5G"; va_targetIP := "10.0.0.1";
    va_port := "3260"; va_iqn := "iqn"; va_portal := "10.0.0.1:3260"; va_replicationFactor := 2;
    va_desiredReplicationFactor := 3; va_consistencyFactor := 2; va_version := "3.0.0" |})
  {{ cv_meta := meta_of "v-1" "" [] }} {{ cv_KnownReplicas := {["R1" := "11"; "R2" := "12"]} }}.
Definition w_waiting : target_world :=
  {| tw_base := {| vc_base := w_empty; vc_cvcs := ∅; vc_cvs := {[(ns0, "v-1") := cv2]}; vc_svcs := ∅;
                   vc_pdbs := ∅; vc_policies := ∅; vc_pvcs := ∅ |};
     tw_events := ∅; tw_globals := {| TargetNamespace := ""; ConfFileLocked := false |};
     tw_conf := []; tw_answer := (λ _, OK ["OK"; "DONE"]); tw_log := [] |}.
Definition words_details (s : string) : result CVReplicationDetails :=
  match split_on " "%char s with
  | [v; rf; cf; i; g] =>
      OK {| crd_VolumeName := v; crd_ReplicationFactor := Atoi rf; crd_ConsistencyFactor := Atoi cf;
            crd_ReplicaID := i; crd_ReplicaGUID := g |}
  | _ => Err (Errorf "unexpected end of JSON input" [])
  end.
#[local] Instance target_volumes : ResourceClient target_world CStorVolume | 0 := keyed_client target_world CStorVolume.
#[local] Instance target_volume_part : StoredLaws target_world CStorVolume.
Proof. split; by intros. Qed.
#[local] Instance target_volume_store : ObjectStore target_world CStorVolume := keyed_store.

Lemma replica_registration_witness :
  let input := (λ b, (b, None)) <$> pieces3 ++ last_piece in
  let w' := final (ServeRequest ns0 words_details input) w_waiting in
  (∃ cv', volume_at ns0 w_waiting "v-1" cv' ∧ registered cv2 cv') ∧
  ∃ cv'', volume_at ns0 w' "v-1" cv'' ∧ registered cv2 cv'' ∧
    cv_KnownReplicas cv'' !! "R3" = Some "13" ∧ cv_ReplicationFactor cv'' = 3%Z.
Proof.
  intros input w'.
  destruct (replica_registration (W:=target_world) ns0 words_details w_waiting w_waiting "v-1" cv2 input w')
    as [Ha Hb]; [by split|done|split; [vm_compute; reflexivity|reflexivity]|].
  split; [exact Ha|].
  destruct Hb as (text & csr & Hread & Hj & Hcv).
  { change (run (ServeRequest ns0 words_details input) w_waiting (Some (respOk +:+ endOfData))).
    apply run_ok. vm_compute. reflexivity. }
  assert (text = request3) as -> by (vm_compute in Hread; by injection Hread as <-).
  vm_compute in Hj. injection Hj as <-.
  destruct (Hcv eq_refl) as (cv'' & Hv & Hreg & Hk & _ & Hrf & _). by exists cv''.
Defined.

#[local] Instance plain_status : CommandJson := {| json_Marshal_CommandStatus s := s; json_CommandStatus s := s |}.
#[local] Instance plain_status_laws : CommandJsonLaws.
Proof. by split. Qed.

Lemma snapshot_witness :
  let s := {| ss_VolumeName := "v-1"; ss_SnapshotName := "s1"; ss_Namespace := ns0;
              ss_SnapClient := Some (@SnapClient target_world (connected_service "10.0.0.1:7777") _) |} in
  target_answers ["SNAPCREATE"; "v-1"; "s1"; "10"; "60"] (CreateSnapshot s) w_waiting ∧
  CreateSnapshot s w_waiting = (Ret (OK (Some "DONE")), w_waiting {{ tw_log := ["SNAPCREATE v-1 s1 10 60"] }}).
Proof.
  intros s.
  destruct (snapshot_end_to_end (W:=target_world) "10.0.0.1:7777" s cv2 w_waiting) as [Ha _];
    [reflexivity|vm_compute; reflexivity|vm_compute; reflexivity|].
  split; [exact Ha|]. vm_compute. reflexivity.
Defined.
