(* ===== verification/RegistrationProps.v ===== *)
(** * RegistrationProps: what a start of the webhook guarantees

    The registration with the API server, with a start beside the configuration of version 2.7.0
    in a small cluster. *)

From stdpp Require Import base gmap strings list sets.
From Stdlib Require Import Ascii ZArith.
From coqutil Require Import Datatypes.RecordSetters.
From S2P Require Import Prelude Steps Api Memory Version Webhook VolumeApi VolumeMemory VolumeWebhook Registration BackupFacts RegistrationFacts Keyed Fixtures.
Import DoubleBraceUpdate.

Section registration.
Context {W : Type} `{OpenebsApi} `{VolumeApi} `{PodEnv} `{BuildInfo} `{!Env W} `{!Crypto W}.
Context `{!ResourceClient W Secret} `{!ResourceClient W Service} `{!ResourceClient W ValidatingWebhookConfiguration}.
Context `{!ObjectStore W Secret} `{!ObjectStore W Service} `{!ObjectStore W ValidatingWebhookConfiguration}.
Context `{!CreateReturns W Secret} `{!Apart W Secret Service} `{!Apart W Secret ValidatingWebhookConfiguration}.
Context `{!Apart W Service ValidatingWebhookConfiguration}.
Context `{!Apart W ValidatingWebhookConfiguration Secret} `{!Apart W ValidatingWebhookConfiguration Service}.
Context `{!RemovesObjects W ValidatingWebhookConfiguration}.

(** C10: a start of the webhook that reports success leaves a secret with a root certificate, the
    service and a registration of the current version.  A registration that was missing or older
    than 2.8.0 is new: its one webhook points to the service, trusts the root certificate of the
    secret and has the four rules.  Every other registration keeps its webhooks: the step of the
    upgrade that adds the rule for namespaces never applies, and the certificate it trusts stays
    also when the secret is new. *)
Theorem registration_complete owner ns (w w' : W) :
  distinct_labels → quiet_crypto → plain_configs w → getOpenebsNamespace = OK ns →
  InitValidationServer owner w = (Ret None, w') →
  ∃ (s : Secret) (svc : Service) (c : ValidatingWebhookConfiguration) root,
    rGet w' ns validatorSecret = OK s ∧ sec_Data s !! rootCrt = Some root ∧
    rGet w' ns validatorServiceName = OK svc ∧ rGet w' "" validatorWebhook = OK c ∧
    is_current c = true ∧
    vwc_Webhooks c = webhooks_after (rGet w "" validatorWebhook) (webhook_handler ns validatorServiceName root).
Proof. apply registered_objects. Qed.
End registration.

(** ** A start in a small cluster *)

Record webhook_cluster := {
  wc_secrets : gmap (string * string) Secret;
  wc_services : gmap (string * string) Service;
  wc_configs : gmap (string * string) ValidatingWebhookConfiguration;
  wc_keys : nat;
}.
#[export] Instance wc_stored_secrets : Stored webhook_cluster Secret :=
  {| store_of := wc_secrets; with_store m w := w {{ wc_secrets := m }} |}.
#[export] Instance wc_stored_services : Stored webhook_cluster Service :=
  {| store_of := wc_services; with_store m w := w {{ wc_services := m }} |}.
#[export] Instance wc_stored_configs : Stored webhook_cluster ValidatingWebhookConfiguration :=
  {| store_of := wc_configs; with_store m w := w {{ wc_configs := m }} |}.
#[export] Instance wc_part_secrets : StoredLaws webhook_cluster Secret.
Proof. split; by intros. Qed.
#[export] Instance wc_part_services : StoredLaws webhook_cluster Service.
Proof. split; by intros. Qed.
#[export] Instance wc_part_configs : StoredLaws webhook_cluster ValidatingWebhookConfiguration.
Proof. split; by intros. Qed.
#[export] Instance wc_clients {Obj} `{HasMeta Obj} `{!Stored webhook_cluster Obj} :
  ResourceClient webhook_cluster Obj | 0 := keyed_client webhook_cluster Obj.
#[export] Instance wc_stores {Obj} `{MetaLaws Obj} `{!Stored webhook_cluster Obj} `{!StoredLaws webhook_cluster Obj} :
  ObjectStore webhook_cluster Obj.
Proof. apply keyed_store. Qed.
Ltac wc_apart := notypeclasses refine keyed_apart; split; by intros.
#[export] Instance wc_secret_service : Apart webhook_cluster Secret Service.
Proof. wc_apart. Qed.
#[export] Instance wc_secret_config : Apart webhook_cluster Secret ValidatingWebhookConfiguration.
Proof. wc_apart. Qed.
#[export] Instance wc_service_config : Apart webhook_cluster Service ValidatingWebhookConfiguration.
Proof. wc_apart. Qed.
#[export] Instance wc_config_secret : Apart webhook_cluster ValidatingWebhookConfiguration Secret.
Proof. wc_apart. Qed.
#[export] Instance wc_config_service : Apart webhook_cluster ValidatingWebhookConfiguration Service.
Proof. wc_apart. Qed.
#[export] Instance wc_env : Env webhook_cluster :=
  {| rand_String _ w := ("r", w); Now _ := 1600000000%Z; Event _ w := w;
     rPatch _ n _ w := (Err (APIError NotFound n), w) |}.

(** Keys are numbers, and a certificate is its name and the number of its key. *)
#[export] Instance wc_crypto : Crypto webhook_cluster := {|
  rsa_PrivateKey := nat;
  x509_Certificate := string * nat;
  rsa_GenerateKey _ w := (OK (wc_keys w), w {{ wc_keys ::= S }});
  cryptorand_Int _ w := (OK 7%Z, w);
  certutil_NewSelfSignedCACert c k w := (OK (cc_CommonName c, k), w);
  x509_CreateCertificate t _ k _ w := (OK (ct_CommonName t), w);
  x509_ParseCertificate b := OK (b, 0%nat);
  x509_MarshalPKCS1PrivateKey k := "key";
  cert_NotBefore _ := 0%Z;
  cert_Raw c := c.1;
  pem_EncodeToMemory t b := t +:+ " " +:+ b;
  net_ParseIP s := Some s;
|}.
#[export] Instance webhook_pod : PodEnv := {|
  os_LookupEnv n := if bool_decide (n = OpenEBSNamespace) then Some "openebs" else None;
  GetServiceAccountName := "openebs-cstor-operator";
  GetOpenEBSImagePullSecrets := "";
  GetImagePullSecrets _ := [];
  GetOpenebsBaseDirPath := "/var/openebs";
|}.

#[export] Instance wc_create_returns : CreateReturns webhook_cluster Secret.
Proof.
  split. intros o o' w w'. cbn. destruct (wc_secrets w !! (namespace o, name o)); [done|]. intros [= <- <-]. cbn.
  by rewrite lookup_insert_eq.
Qed.
#[export] Instance wc_removes : RemovesObjects webhook_cluster ValidatingWebhookConfiguration.
Proof.
  split.
  - intros ns n o w w'. cbn. case_bool_decide; [done|]. destruct (wc_configs w !! (ns, n)) as [c|] eqn:Hc; [|done].
    intros [= <-] Hf Hd [= <-]. assert (finalizers c = []) as Hn by exact Hf.
    unfold store_delete. rewrite bool_decide_eq_true_2 by exact Hn.
    cbn. unfold constant. rewrite lookup_delete_eq. eauto.
  - intros o w l ns n [= <-] Hg Hl. apply list_elem_of_filter. cbn in Hg.
    destruct (wc_configs w !! (ns, n)) as [c|] eqn:Hc; [|done]. injection Hg as <-. split.
    + split; [right; by destruct (place_key (ns, n) c)|]. unfold matches. rewrite bool_decide_eq_false_2 by done.
      change (parse_selector webhookLabel) with (Some [("openebs.io/component-name", "cstor-admission-webhook")]).
      cbn [forallb]. by rewrite bool_decide_eq_true_2.
    + apply list_elem_of_fmap. exists ((ns, n), c). split; [done|]. by apply elem_of_map_to_list.
Qed.

(** The owner, and the cluster with the configuration of version 2.7.0, which has no rule for
    namespaces. *)
Definition webhook_owner : OwnerReference :=
  {| or_apiVersion := "apps/v1"; or_kind := "Deployment"; or_name := "openebs-cstor-admission-server"; or_uid := "u1";
     or_controller := Some true; or_blockOwnerDeletion := Some true |}.
Definition config_2_7 : ValidatingWebhookConfiguration :=
  (webhook_config webhook_owner validatorWebhook "openebs" validatorServiceName "old root")
    {{ vwc_Webhooks ::= fmap (λ h, h {{ wh_Rules := [pvcRule; cspcRule] }}) }}
    {{ vwc_meta ::= λ m, meta_with_labels (<[OpenEBSVersionLabelKey := "2.7.0"]> (om_labels m)) m }}.
Definition w_2_7 : webhook_cluster :=
  {| wc_secrets := ∅; wc_services := ∅; wc_configs := {[("", validatorWebhook) := config_2_7]}; wc_keys := 0 |}.
Definition w_started : webhook_cluster := final (InitValidationServer webhook_owner) w_2_7.

Lemma w_2_7_plain : plain_configs w_2_7.
Proof.
  intros ns n c. cbn. destruct (decide (("", validatorWebhook) = (ns, n))) as [[= <- <-]|Hne].
  - rewrite lookup_singleton_eq. intros [= <-]. by split_and!.
  - by rewrite lookup_singleton_ne.
Qed.
Lemma wc_quiet : quiet_crypto (W:=webhook_cluster).
Proof. unfold quiet_crypto. split_and!; intros; by apply keyed_same. Qed.

(** The old configuration is replaced. *)
Lemma registration_complete_witness :
  InitValidationServer webhook_owner w_2_7 = (Ret None, w_started) ∧
  ∃ (s : Secret) (svc : Service) (c : ValidatingWebhookConfiguration) root,
    rGet w_started "openebs" validatorSecret = OK s ∧ sec_Data s !! rootCrt = Some root ∧
    rGet w_started "openebs" validatorServiceName = OK svc ∧ rGet w_started "" validatorWebhook = OK c ∧
    is_current c = true ∧ vwc_Webhooks c = [webhook_handler "openebs" validatorServiceName root].
Proof.
  assert (Hr : InitValidationServer webhook_owner w_2_7 = (Ret None, w_started)) by (vm_compute; reflexivity).
  split; [exact Hr|].
  destruct (registration_complete webhook_owner "openebs" w_2_7 w_started) as (s & svc & c & root & Hs & Hd & Hv & Hc & Hcur & Hw);
    [|apply wc_quiet|apply w_2_7_plain|reflexivity|exact Hr|].
  { unfold distinct_labels. rewrite !not_elem_of_cons. split_and!; [discriminate..|apply not_elem_of_nil]. }
  exists s, svc, c, root. split_and!; [exact Hs|exact Hd|exact Hv|exact Hc|exact Hcur|]. rewrite Hw.
  assert (outdated config_2_7 = true) as Ho by (vm_compute; reflexivity).
  change (rGet w_2_7 "" validatorWebhook) with (OK config_2_7). cbn [webhooks_after].
  rewrite Ho. reflexivity.
Defined.
