(* ===== verification/WorkerProps.v ===== *)
(** * WorkerProps: what the controllers guarantee of the events of their informers

    The work queues of the controllers of pool clusters and of volume configurations, with a run
    on a cluster where a volume is provisioned and another one fails. *)

From stdpp Require Import base gmap strings list sets relations.
From Stdlib Require Import Ascii ZArith Lia.
From S2P Require Import Prelude Steps Api Memory VolumeApi VolumeMemory Version Algorithm PoolApi PoolMemory CspcSync VolumeSync Workers WorkerFacts WorkerMemory Fixtures VolumeProps.

Section workers.
Context {W : Type} `{GoRuntime} `{OpenebsApi} `{VolumeApi} `{PoolApi} `{BuildInfo} `{PodEnv} `{!Env W} `{!ControllerCache W}.
Context `{!ResourceClient W Node} `{!ResourceClient W BlockDevice}
  `{!ResourceClient W BlockDeviceClaim} `{!ResourceClient W CStorPoolInstance}
  `{!ResourceClient W CStorPoolCluster} `{!ResourceClient W Deployment}
  `{!ResourceClient W CStorVolumeConfig} `{!ResourceClient W CStorVolume}
  `{!ResourceClient W CStorVolumeReplica} `{!ResourceClient W Service} `{!ResourceClient W PodDisruptionBudget}
  `{!ResourceClient W CStorVolumePolicy} `{!PatchClient W CStorVolumeConfig} `{!PatchClient W CStorVolume}.
Context `{QueueLaws W} `{!EnvQueueFrame W}.
Context `{!QueueFrame W BlockDeviceClaim} `{!QueueFrame W CStorPoolInstance} `{!QueueFrame W CStorPoolCluster}
  `{!QueueFrame W Deployment} `{!QueueFrame W CStorVolumeConfig} `{!QueueFrame W CStorVolume}
  `{!QueueFrame W CStorVolumeReplica} `{!QueueFrame W Service} `{!QueueFrame W PodDisruptionBudget}
  `{!PatchQueueFrame W CStorVolumeConfig} `{!PatchQueueFrame W CStorVolume}.

(** C21: after any events, the work queues of the operator of pool clusters and of the controller
    of volume configurations have the key of every object with an event (unless its reconciliation
    is disabled by the annotation), each once, and a worker reconciles them in turn, whatever events
    come meanwhile.  After every reconciliation, also one that panics, nothing is left in
    processing; a key that fails is scheduled again, and no scheduled key is lost. *)
Theorem events_reconciled (openebsNamespace : string) evs cevs (w : W) :
  idle (queue_of w) →
  (∃ w1 keys, forM cluster_event evs w = (Ret tt, w1) ∧ waiting (queue_of w1) = WKey <$> keys ∧ NoDup keys ∧
     (∀ e k, e ∈ evs → cluster_announced e k → k ∈ keys) ∧
     worked (λ key, let* r := syncCSPC key in mret (error_of r)) keys w1 []
       (ClusterWorker.runWorker (length keys) w1)) ∧
  (∃ w1 keys, forM config_event cevs w = (Ret tt, w1) ∧ waiting (queue_of w1) = WKey <$> keys ∧ NoDup keys ∧
     (∀ e k, e ∈ cevs → config_announced e k → k ∈ keys) ∧
     worked (λ key, let* r := cvc_syncHandler openebsNamespace (cache_SplitMetaNamespaceKey key) in
                    mret (error_of r)) keys w1 []
       (ConfigWorker.runWorker openebsNamespace (length keys) w1)).
Proof.
  intros Hi. split.
  - refine (events_served _ _ cluster_event cluster_announced cluster_observes evs w Hi).
    intros k. apply keeps_bind; [exact _|apply beside_syncCSPC|]. intros. apply keeps_mret, _.
  - refine (events_served _ _ config_event config_announced config_observes cevs w Hi).
    intros k. apply keeps_bind; [exact _|apply beside_cvc_syncHandler|]. intros. apply keeps_mret, _.
Qed.
End workers.

(** ** A run *)

(** A volume to provision, and one that is bound but whose volume object is missing. *)
Definition broken : CStorVolumeConfig := cvc_with_meta (meta_of "pvc-2" "v-2" []) enlarged.
Definition no_queue : queue := {| waiting := []; dirty := ∅; processing := ∅; delayed := [] |}.
Definition w_events : queued :=
  {| qw_base := with_store (store [new_volume; broken]) w_new; qw_queue := no_queue |}.
Definition volume_events : list (informer_event CStorVolumeConfig) :=
  [Added (Some broken); Added (Some new_volume); Updated None (Some new_volume); Added None].

(** Both are reconciled once: the first waits for its next turn, the second is bound. *)
Lemma events_witness : ∃ w1 keys,
  forM config_event volume_events w_events = (Ret tt, w1) ∧
  (∀ e k, e ∈ volume_events → config_announced e k → k ∈ keys) ∧
  keys = ["openebs/pvc-2"; "openebs/pvc-1"] ∧
  let w' := final (ConfigWorker.runWorker ns0 (length keys)) w1 in
  qw_queue w' = q_delayed [WKey "openebs/pvc-2"] no_queue ∧
  cvc_Status_Phase <$> store_of w' !! (ns0, "pvc-1") = Some "Bound".
Proof.
  destruct (events_reconciled ns0 [] volume_events w_events) as [_ (w1 & keys & Hr & Hq & _ & Ha & _)].
  { split; [|reflexivity]. split_and!; [constructor| |set_solver|constructor].
    intros i. cbn. set_solver. }
  exists w1, keys. split; [exact Hr|]. split; [exact Ha|].
  assert (w1 = final (forM config_event volume_events) w_events) as -> by (unfold final; by rewrite Hr).
  assert (keys = ["openebs/pvc-2"; "openebs/pvc-1"]) as ->.
  { revert Hq. clear. intros Hq. vm_compute in Hq.
    destruct keys as [|k1 [|k2 [|]]]; cbn in Hq; try discriminate. by injection Hq as <- <-. }
  split; [reflexivity|]. split; vm_compute; reflexivity.
Defined.
